(* ===== verification/_CoqProject ===== *)
-Q . S2P
Prelude.v
Machine.v
Kstate.v
Logic.v
Strings.v
Sched.v
Spinlock.v
Virtio.v
VirtioSpec.v
Kalloc.v
Vm.v
VmSpec.v
UvmSpec.v
UvmCopy.v
CopySpec.v
Printf.v
Bio.v
BioSpec.v
BlockStore.v
Log.v
LogData.v
LogSpec.v
Fs.v
FsData.v
FsRead.v
FsInode.v
FsPath.v
Mount.v
Console.v
ConsoleSpec.v
ConsoleRead.v
File.v
FileSpec.v
Proc.v
Exec.v
Sysproc.v
Sysfile.v
Syscall.v
Trap.v
Frame.v
Kernel.v
ProcSpec.v
Ratchet.v
Filter.v
Pids.v
Pipe.v
Text.v
Sandbox.v
Umalloc.v
UmallocSpec.v
UmallocTop.v
Mkfs.v
MkfsSpec.v
MkfsImage.v
MkfsMain.v
MkfsBoot.v
Grep.v
User.v
Commands.v
UserIo.v
Runs.v
Sh.v
ShSpec.v
ShRun.v
ShProc.v
Confine.v
Suite.v
SuiteSpec.v
Demo.v
LogDemo.v
VmDemo.v
FsDemo.v
