(* ===== verification/Prelude.v ===== *)
(** * xv6 with a system-call filter: a verification library

    The program is the xv6 kernel for RISC-V (src/kernel) with a system-call
    filter: every process has a mask of blocked calls that it can only extend,
    a mask for its next child, an audit switch and a strict mode; the dispatcher
    (syscall() of kernel/syscall.c) consults them before every call.  User space
    (src/user) adds the sandbox library user/filter.c, programs that demonstrate
    and test it, and the usual ones; mkfs/mkfs.c builds the disk they live on.

    ** The model

    One CPU runs the kernel; the global data of the C files is the record
    [kstate] (Kstate.v) and every C function is a definition of the same name in
    the monad [K], which ends in [Done] (returned), [Panic] (panic() was called),
    [Wait] (gave up the CPU and is not resumed) or [Undef] (the C program has no
    defined behaviour, e.g. an index outside a table).  A function gives up the
    CPU exactly where the code reaches swtch(); what the rest of the system does
    meanwhile is the parameter [env_swtch] of the class [Env], about which each
    theorem assumes only what it names.  The linker's symbols are the class
    [Layout].  C integers are integers in the range of their type with the
    conversions [u8] .. [u64], [i16], [i32] below; memory is addressed by byte.

    User programs are interaction trees over the system calls (User.v): a program
    calls, gets an answer and goes on.  What a call does is an argument of their
    semantics: UserIo.v has an environment of files, Runs.v process trees for any
    account of the calls, which ShProc.v (descriptors) and Confine.v (the filter)
    give.  The allocator, the sandbox library and mkfs have models of their own.

    Where one CPU is not enough the code is modelled a second time, as steps:
    Spinlock.v interleaves the accesses of acquire() and release() of many CPUs,
    Virtio.v the critical sections of the disk driver with its device, and
    LogSpec.v the disk writes of a commit with crashes.

    ** Files

    - Prelude.v: record update, machine integers, little-endian words, arrays,
      C strings, marking, lemmas and tactics shared by all files.
    - Machine.v: constants and macros of riscv.h, memlayout.h, param.h, fs.h,
      syscall.h; physical memory.  Kstate.v: struct proc, file, inode, buf, pipe,
      log, cons and the globals; the monad.  Logic.v: the judgements [within]
      (a guarantee on every outcome), [returns] (partial) and [wp] (total
      correctness) and their rules.
    - Strings.v (string.c), Sched.v (sleep, wakeup, sched, kill, sleeplock.c and
      the interface of spin locks), Spinlock.v (spinlock.c), Virtio.v and
      VirtioSpec.v (virtio_disk.c), Kalloc.v (kalloc.c), Vm.v (vm.c), Printf.v
      (printf.c, uartputc_sync), Bio.v (bio.c), Log.v (log.c), Fs.v (fs.c),
      Console.v (console.c, uart.c), File.v (file.c, pipe.c), Proc.v (proc.c),
      Exec.v (exec.c), Sysproc.v (argument fetching, sysproc.c), Sysfile.v
      (sysfile.c with the audit log), Syscall.v (syscall.c), Trap.v (trap.c, the
      scheduler loop, forkret): the kernel, a definition for each function.
    - VmSpec.v, UvmSpec.v, UvmCopy.v, CopySpec.v: page tables as maps, what
      mapping, unmapping, uvmcopy, copyout and copyin do to them and to memory.
    - BioSpec.v, BlockStore.v: the buffer cache implements a store of blocks.
      LogData.v, LogSpec.v: the log makes transactions atomic.  FsData.v: on-disk
      structures, bitmap, path names.  FsRead.v, FsInode.v, FsPath.v: what reading
      blocks and files, the inode cache and path lookup deliver from a disk that
      holds a tree of files.  Mount.v: fsinit.  FileSpec.v: reading open files.
    - ConsoleSpec.v, ConsoleRead.v: the line editor and reading lines.  Pipe.v:
      pipes are queues.  Text.v: numbers as text.
    - Frame.v: for each kernel function, the fields it may change, as a theorem
      about every relation that tolerates these changes; Kernel.v: the same for
      the whole kernel.  ProcSpec.v: exact effect of allocproc, freeproc, fork.
      Ratchet.v, Filter.v, Pids.v: the filter and the process table.
    - Sandbox.v (user/filter.c on the kernel model), Umalloc.v, UmallocSpec.v,
      UmallocTop.v (user/umalloc.c), Grep.v (the matcher and lines of
      user/grep.c), Sh.v and ShSpec.v (the parser of user/sh.c).
    - Mkfs.v (mkfs/mkfs.c), MkfsSpec.v, MkfsImage.v, MkfsMain.v: the image it
      builds; MkfsBoot.v: the kernel on that image.
    - User.v (user/printf.c, ulib.c), Commands.v (cat, wc, echo, hello, kill, ln,
      mkdir, rm, ls, grep, init), ShRun.v (running commands in user/sh.c), Suite.v
      (filter.c, sandbox.c, sandbox_strict.c, filtertest.c, scenariotest.c,
      test_profile.c, test_child.c, test_exec.c, realworld_app.c, sandboxdemo.c,
      filter_demo.c): programs.
    - UserIo.v (files and output; cat, wc), Runs.v (process trees), ShProc.v (the
      shell), Confine.v (programs under the filter), SuiteSpec.v (the programs of
      Suite.v): what they do.
    - Demo.v, LogDemo.v, VmDemo.v, FsDemo.v: concrete states to which the theorems
      about the kernel are applied.

    ** What the theorems show

    - The filter: the dispatcher decides as a declarative policy says; a denied
      call changes nothing but its result and the logs, whatever its handler is;
      everything user space can enter only tightens the filter, so a blocked
      call stays blocked; fork inherits; a strict violation never returns to
      user space; what setfilter stores getfilter reads.  Where the filter does
      not keep what it seems to promise, the theorem says so: a mask adopted
      after setfilter_child is not inherited, a failed fork forgets the child's
      mask, paths are compared as text, the switches can be cleared, kill(0)
      dooms the next child, sandbox_block_syscall does not accumulate.
    - The kernel below it: pids are unique; the page allocator, the pipes, the
      buffer cache, the disk driver and the spin locks implement their abstract
      counterparts (a set of free pages, a queue, a store of blocks, a disk with
      atomic transfers, exclusive locks); a commit is atomic under crashes;
      copyinstr, memmove, the string and number routines and the on-disk formats
      do what their names say, within their buffers.  A full log, which the code
      admits, cannot be committed.
    - Memory and devices: uvmcopy gives the child the parent's memory; copyout and
      copyin read and write exactly the user's view, or fail; the console edits
      lines and a read delivers the next one.
    - Files: namei finds the file that the tree on disk has under a path; read
      delivers its bytes from the offset on; mkfs builds an image with the files of
      its command line, and the kernel, mounting that image, finds and reads each
      of them.
    - Confinement: no program, whatever it does, and none of its descendants gets a
      blocked call executed unless the policy lets its arguments through; a filter
      survives exec.  filtertest.c and scenariotest.c pass; two of the
      demonstrations do not show what they say, and theorems say why.
    - User space: the shell's parser reads back every command that can be
      written and terminates; the shell connects the programs of a command by
      exactly the files and pipes it names, whichever calls fail, and runs its
      input line by line; cat concatenates, wc counts; grep's matcher decides the
      language of its pattern, and grep prints the matching lines; malloc and free
      provide a heap, except for requests that the int of sbrk truncates.

    ** Bounds

    A loop whose bound the code does not state takes a number of rounds, and the
    theorems that it returns show the number to be enough: [loop n] in the
    kernel monad yields [Undef] after [n] rounds and is used where the data
    bounds the loop (table sizes, LOGBLOCKS + 1, NBUF + 1, path lengths); a loop
    that sleeps goes round at most [env_patience] + 1 times and then counts as
    waiting forever, for any value of that parameter; free_chain has NUM + 1
    rounds because every round frees a descriptor, the disk interrupt 2^16
    because its counters have 16 bits, the shell's parser four rounds for each
    character, grep one for each byte; printing a number takes at most 64 digits.
    Loops of user programs are iteration of trees and have no bound; the theorems
    that say what a program does include that it ends.  Recursion on data needs no
    bound.

    ** Not modelled

    - Assembly (entry.S, kernelvec.S, swtch.S, trampoline.S), the boot code of
      start.c and main.c, plic.c, uartinit, trapinit, kvminithart: they program
      registers and move between contexts; what the C code sees of them (the
      resumed state, the claimed interrupt, the saved registers) is a parameter.
    - The memory model of the hardware: accesses of different CPUs are
      interleaved.  The code has fences around its critical sections.
    - Two kernel functions running at once on one [kstate]: the kernel model
      takes what others do from [env_swtch]; interrupts arrive at traps only.
      uartputc_sync's wait for the transmitter is not a step.
    - Writing files: the functions are modelled (Fs.v, File.v, Sysfile.v) and the
      log and the buffer cache below them are proved, but no theorem says what
      writei and the calls that change directories leave on the disk.
    - User space: in the process trees, other processes act on shared files and
      pipes only through the answers of calls, wait reports children that have
      ended, and a process that never ends has no tree.  usertests.c, grind.c and
      the programs that put load on the kernel (forktest.c, stressfs.c,
      logstress.c, stresstest.c, zombie.c, forphan.c, dorphan.c), syscalltest.c
      and hipstest.c, which relies on killing a process that loops; the memory
      routines of ulib.c (strlen, strcpy, memmove, ...), whose buffers are lists
      here; running out of memory in the shell's parser. *)

From Stdlib Require Export Ascii.
From stdpp Require Export base tactics numbers list gmap strings.
From Stdlib Require Export ZArith Lia.

#[global] Open Scope Z_scope.

(** ** Record update

    [r <| f := v |>] is the record [r] with field [f] set to [v], and
    [r <| f ::= g |>] applies [g] to the field.  A record type opts in with an
    instance of [Settable] that spells out its eta expansion; the setter of a
    field is then computed by abstracting that field in the expansion. *)

Class Settable (R : Type) := mk_eta : R → R.
Class Setter {R T : Type} (proj : R → T) := upd : (T → T) → R → R.
#[global] Arguments upd {R T} proj {_} _ _ /.
#[global] Hint Mode Settable ! : typeclass_instances.

Ltac derive_setter :=
  match goal with
  | |- @Setter ?R ?T ?proj =>
      let e := constr:(ltac:(typeclasses eauto) : Settable R) in
      let e := eval hnf in e in
      let e := eval pattern proj in e in
      match e with
      | ?F _ =>
          let t := eval cbv beta in
            (fun f : T → T => F (fun r : R => f (proj r))) in
          exact t
      end
  end.
#[global] Hint Extern 1 (Setter _) => derive_setter : typeclass_instances.

Declare Scope record_set.
#[global] Open Scope record_set.
Notation "r <| f := v |>" := (upd f (fun _ => v) r)
  (at level 1, left associativity, f at level 10, v at level 200) : record_set.
Notation "r <| f ::= g |>" := (upd f g r)
  (at level 1, left associativity, f at level 10, g at level 200) : record_set.


(** ** Machine integers

    A C integer is a [Z] in the range of its type.  [u64] and friends are the
    conversions of the language: reduction modulo the width for unsigned types,
    two's complement for signed ones. *)

Definition u8 (x : Z) : Z := x mod 2 ^ 8.
Definition u16 (x : Z) : Z := x mod 2 ^ 16.
Definition u32 (x : Z) : Z := x mod 2 ^ 32.
Definition u64 (x : Z) : Z := x mod 2 ^ 64.
Definition i16 (x : Z) : Z := (x + 2 ^ 15) mod 2 ^ 16 - 2 ^ 15.
Definition i32 (x : Z) : Z := (x + 2 ^ 31) mod 2 ^ 32 - 2 ^ 31.

Definition INT_MAX : Z := 2147483647.

#[global] Arguments u8 : simpl never.
#[global] Arguments u16 : simpl never.
#[global] Arguments u32 : simpl never.
#[global] Arguments u64 : simpl never.
#[global] Arguments i16 : simpl never.
#[global] Arguments i32 : simpl never.
#[global] Arguments Z.add : simpl never.
#[global] Arguments Z.mul : simpl never.
#[global] Arguments Z.sub : simpl never.
#[global] Arguments Z.pow : simpl never.
#[global] Arguments Z.land : simpl never.
#[global] Arguments Z.lor : simpl never.
#[global] Arguments Z.shiftl : simpl never.
#[global] Arguments Z.shiftr : simpl never.
#[global] Arguments Z.div : simpl never.
#[global] Arguments Z.modulo : simpl never.

(** [bool] as a C truth value. *)
Definition b2z (b : bool) : Z := if b then 1 else 0.

Ltac unfold_ints := unfold u8, u16, u32, u64, i16, i32 in *.

Lemma u64_range x : 0 ≤ u64 x < 2 ^ 64.
Proof. apply Z.mod_pos_bound; lia. Qed.

Lemma u32_range x : 0 ≤ u32 x < 2 ^ 32.
Proof. apply Z.mod_pos_bound; lia. Qed.

Lemma i32_range x : - 2 ^ 31 ≤ i32 x < 2 ^ 31.
Proof. unfold i32. pose proof (Z.mod_pos_bound (x + 2 ^ 31) (2 ^ 32)). lia. Qed.

Lemma u64_small x : 0 ≤ x < 2 ^ 64 → u64 x = x.
Proof. apply Z.mod_small. Qed.

Lemma u32_small x : 0 ≤ x < 2 ^ 32 → u32 x = x.
Proof. apply Z.mod_small. Qed.

Lemma i32_small x : - 2 ^ 31 ≤ x < 2 ^ 31 → i32 x = x.
Proof. intros. unfold i32. rewrite Z.mod_small; lia. Qed.

Lemma i16_small x : - 2 ^ 15 ≤ x < 2 ^ 15 → i16 x = x.
Proof. intros. unfold i16. rewrite Z.mod_small; lia. Qed.

Lemma u64_u64 x : u64 (u64 x) = u64 x.
Proof. apply u64_small, u64_range. Qed.

(** ** Bit masks

    [mask_le a b]: every bit of [a] is a bit of [b]. *)

Definition mask_le (a b : Z) : Prop := Z.land b a = a.

#[global] Instance mask_le_dec a b : Decision (mask_le a b) := Z.eq_dec _ _.

Lemma mask_le_testbit a b :
  mask_le a b ↔ ∀ i, Z.testbit a i = true → Z.testbit b i = true.
Proof.
  unfold mask_le; split.
  - intros <- i. rewrite Z.land_spec. by intros [? ?]%andb_true_iff.
  - intros H. apply Z.bits_inj; intros i. rewrite Z.land_spec.
    specialize (H i). destruct (Z.testbit a i); [by rewrite H | apply andb_false_r].
Qed.

#[global] Instance mask_le_refl : Reflexive mask_le.
Proof. intros a. apply Z.land_diag. Qed.

#[global] Instance mask_le_trans : Transitive mask_le.
Proof. intros a b c. rewrite !mask_le_testbit. auto. Qed.

Lemma mask_le_antisym a b : mask_le a b → mask_le b a → a = b.
Proof. unfold mask_le. intros H1 H2. rewrite Z.land_comm in H2. congruence. Qed.

Lemma mask_le_0 a : mask_le 0 a.
Proof. apply Z.land_0_r. Qed.

Lemma land_bit_testbit m n :
  0 ≤ n → Z.land m (Z.shiftl 1 n) ≠ 0 ↔ Z.testbit m n = true.
Proof.
  intros Hn. split.
  - intros H. destruct (Z.testbit m n) eqn:E; [done | destruct H].
    apply Z.bits_inj'; intros i Hi. rewrite Z.land_spec, Z.bits_0, Z.shiftl_1_l.
    destruct (decide (i = n)) as [->|Hne]; [by rewrite E |].
    rewrite Z.pow2_bits_false by lia. apply andb_false_r.
  - intros H E. assert (Z.testbit (Z.land m (Z.shiftl 1 n)) n = true) as H'.
    { by rewrite Z.land_spec, H, Z.shiftl_1_l, Z.pow2_bits_true. }
    by rewrite E, Z.bits_0 in H'.
Qed.

(** ** Little-endian byte lists *)

Fixpoint le_bytes (n : nat) (z : Z) : list Z :=
  match n with
  | O => []
  | S n => z mod 256 :: le_bytes n (z / 256)
  end.

Fixpoint le_val (bs : list Z) : Z :=
  match bs with
  | [] => 0
  | b :: bs => b + 256 * le_val bs
  end.

Definition is_byte (b : Z) : Prop := 0 ≤ b < 256.

Lemma length_le_bytes n z : length (le_bytes n z) = n.
Proof. revert z; induction n; intros; simpl; auto. Qed.

Lemma le_bytes_byte n z : Forall is_byte (le_bytes n z).
Proof.
  revert z; induction n; intros z; simpl; constructor; auto.
  apply Z.mod_pos_bound; lia.
Qed.

Lemma le_val_bytes n z : le_val (le_bytes n z) = z mod 256 ^ Z.of_nat n.
Proof.
  revert z; induction n as [|n IH]; intros z; [by rewrite Z.mod_1_r |].
  simpl le_bytes. simpl le_val. rewrite IH, Nat2Z.inj_succ, Z.pow_succ_r by lia.
  rewrite Z.rem_mul_r by lia. done.
Qed.

Lemma le_val_range bs : Forall is_byte bs → 0 ≤ le_val bs < 256 ^ Z.of_nat (length bs).
Proof.
  induction 1 as [|b bs Hb _ IH]; [done |]. cbn [le_val length].
  unfold is_byte in Hb. rewrite Nat2Z.inj_succ, Z.pow_succ_r by lia. lia.
Qed.

Lemma le_bytes_val bs : Forall is_byte bs → le_bytes (length bs) (le_val bs) = bs.
Proof.
  induction 1 as [|b bs Hb _ IH]; [done |]. cbn [length le_val le_bytes].
  unfold is_byte in Hb. rewrite (Z.mul_comm 256), Z.mod_add, Z.div_add by lia.
  rewrite Z.mod_small, Z.div_small, Z.add_0_l, IH by lia. done.
Qed.

Lemma lor_range a b n : 0 ≤ n → 0 ≤ a < 2 ^ n → 0 ≤ b < 2 ^ n → 0 ≤ Z.lor a b < 2 ^ n.
Proof.
  intros Hn Ha Hb. assert (0 ≤ Z.lor a b) as H0 by (apply Z.lor_nonneg; lia). split; [done |].
  rewrite <- (Z.mod_small a (2 ^ n)), <- (Z.mod_small b (2 ^ n)) by lia.
  rewrite <- !Z.land_ones, <- Z.land_lor_distr_l, Z.land_ones by done. apply Z.mod_pos_bound. lia.
Qed.

(** ** Sub-ranges of arrays *)

Definition slice (l : list Z) (off n : nat) : list Z := take n (drop off l).
Definition splice (l : list Z) (off : nat) (bs : list Z) : list Z :=
  take off l ++ bs ++ drop (off + length bs) l.

Lemma length_splice l off bs :
  (off + length bs ≤ length l)%nat → length (splice l off bs) = length l.
Proof. intros. unfold splice. rewrite !length_app, length_take, length_drop. lia. Qed.

Lemma slice_slice l a n k m : (k + m ≤ n)%nat → slice (slice l a n) k m = slice l (a + k) m.
Proof.
  intros H. unfold slice. rewrite skipn_firstn_comm, drop_drop, take_take. f_equal. lia.
Qed.

Lemma take_slice l k m : take k l ++ slice l k m = take (k + m) l.
Proof. unfold slice. apply take_take_drop. Qed.

Lemma slice_clip l a n : slice l a n = slice l a (length (slice l a n)).
Proof.
  unfold slice. rewrite length_take, length_drop. destruct (decide (n ≤ length l - a)%nat); [by rewrite Nat.min_l |].
  rewrite Nat.min_r, !take_ge by (rewrite ?length_drop; lia). done.
Qed.

Lemma slice_splice l off bs :
  (off + length bs ≤ length l)%nat → slice (splice l off bs) off (length bs) = bs.
Proof.
  intros. unfold slice, splice.
  rewrite drop_app_length' by (rewrite length_take; lia).
  by rewrite take_app_length.
Qed.

Lemma lookup_splice_out l off bs i :
  (off + length bs ≤ length l)%nat → (i < off ∨ off + length bs ≤ i)%nat →
  splice l off bs !! i = l !! i.
Proof.
  intros Hl Hi. unfold splice. destruct Hi as [Hi|Hi].
  - rewrite lookup_app_l by (rewrite length_take; lia). by apply lookup_take_lt.
  - rewrite lookup_app_r by (rewrite length_take; lia).
    rewrite lookup_app_r by (rewrite length_take; lia).
    rewrite lookup_drop. f_equal. rewrite length_take. lia.
Qed.

Lemma lookup_splice_in l off bs j : (off + length bs ≤ length l)%nat → (j < length bs)%nat →
  splice l off bs !! (off + j)%nat = bs !! j.
Proof.
  intros Hl Hj. unfold splice. rewrite lookup_app_r by (rewrite length_take; lia).
  rewrite lookup_app_l by (rewrite length_take; lia). f_equal. rewrite length_take. lia.
Qed.

Lemma slice_splice_other l off bs off' n :
  (off + length bs ≤ length l)%nat → (off' + n ≤ off ∨ off + length bs ≤ off')%nat →
  slice (splice l off bs) off' n = slice l off' n.
Proof.
  intros Hl Hd. apply list_eq. intros i. unfold slice.
  destruct (decide (i < n)%nat) as [Hi|Hi].
  - rewrite !lookup_take_lt, !lookup_drop by done. apply lookup_splice_out; lia.
  - by rewrite !lookup_take_ge by lia.
Qed.

(** ** Marking

    The list with zeros written at the positions [l], one after the other. *)
Definition mark (l : list nat) (f : list Z) : list Z := foldl (λ f i, <[i := 0]> f) f l.

Lemma mark_length l f : length (mark l f) = length f.
Proof. revert f; induction l as [| i l IH]; intros f; simpl; [done |]. by rewrite IH, length_insert. Qed.

Lemma mark_insert l i x f : i ∉ l → <[i := x]> (mark l f) = mark l (<[i := x]> f).
Proof.
  revert f; induction l as [| j l IH]; intros f Hi; simpl; [done |].
  apply not_elem_of_cons in Hi as [Hij Hi]. rewrite IH by done. by rewrite list_insert_insert_ne by done.
Qed.

Lemma mark_snoc l i f : mark (l ++ [i]) f = <[i := 0]> (mark l f).
Proof. unfold mark. by rewrite foldl_app. Qed.

Lemma mark_lookup l i f : mark l f !! i = if decide (i ∈ l) then (λ _, 0) <$> f !! i else f !! i.
Proof.
  revert f; induction l as [| j l IH]; intros f; [by rewrite decide_False by set_solver |].
  change (mark (j :: l) f) with (mark l (<[j := 0]> f)). rewrite IH. destruct (decide (i = j)) as [-> | Hne].
  - rewrite (decide_True (P := j ∈ j :: l)) by set_solver.
    destruct (f !! j) as [y|] eqn:Hy.
    + rewrite list_lookup_insert_eq by (by eapply lookup_lt_Some). by case_decide.
    + rewrite list_insert_ge, Hy by (by apply lookup_ge_None_1). by case_decide.
  - rewrite list_lookup_insert_ne by done. apply decide_ext. set_solver.
Qed.

(** ** C strings

    A [char *] is the list of the bytes of its buffer; reading past the end of
    the list gives the terminating NUL.  [cstr] is the part before that NUL. *)

Fixpoint cstr (l : list Z) : list Z :=
  match l with
  | [] => []
  | c :: l => if c =? 0 then [] else c :: cstr l
  end.

Definition deref (l : list Z) : Z := match l with [] => 0 | c :: _ => c end.

Fixpoint bytes_of_string (s : string) : list Z :=
  match s with
  | EmptyString => []
  | String a s => Z.of_N (Ascii.N_of_ascii a) :: bytes_of_string s
  end.
#[global] Arguments bytes_of_string _%_string.

Definition chr (a : Ascii.ascii) : Z := Z.of_N (Ascii.N_of_ascii a).
#[global] Arguments chr _%_char.

Lemma cstr_nonzero l : Forall (λ c, c ≠ 0) (cstr l).
Proof. induction l as [|c l IH]; simpl; [done |]. destruct (Z.eqb_spec c 0); auto. Qed.

Lemma cstr_id l : Forall (λ c, c ≠ 0) l → cstr l = l.
Proof. induction 1 as [|c l Hc _ IH]; simpl; [done |]. by rewrite (proj2 (Z.eqb_neq c 0) Hc), IH. Qed.

Lemma cstr_app_nul l r : Forall (λ c, c ≠ 0) l → cstr (l ++ 0 :: r) = l.
Proof. induction 1 as [|c l Hc _ IH]; simpl; [done |]. by rewrite (proj2 (Z.eqb_neq c 0) Hc), IH. Qed.

Definition nonul (s : list Z) : Prop := Forall (λ c, c ≠ 0) s.

Lemma nonul_dec s : forallb (λ c, negb (c =? 0)) s = true → nonul s.
Proof.
  intros H. apply Forall_forall. intros c Hc%list_elem_of_In. rewrite forallb_forall in H. specialize (H c Hc). lia.
Qed.

Lemma length_cstr l : (length (cstr l) ≤ length l)%nat.
Proof. induction l as [|c l IH]; simpl; [done |]. destruct (c =? 0); simpl; lia. Qed.

(** ** Tactics *)

(** Split boolean conditions in hypotheses into propositions. *)
Ltac bool_props :=
  repeat match goal with
  | H : (_ && _)%bool = true |- _ => apply andb_true_iff in H; destruct H
  | H : (_ || _)%bool = false |- _ => apply orb_false_iff in H; destruct H
  | H : negb _ = true |- _ => apply negb_true_iff in H
  | H : negb _ = false |- _ => apply negb_false_iff in H
  | H : (_ =? _) = true |- _ => apply Z.eqb_eq in H
  | H : (_ =? _) = false |- _ => apply Z.eqb_neq in H
  | H : (_ <? _) = true |- _ => apply Z.ltb_lt in H
  | H : (_ <? _) = false |- _ => apply Z.ltb_ge in H
  | H : (_ <=? _) = true |- _ => apply Z.leb_le in H
  | H : (_ <=? _) = false |- _ => apply Z.leb_gt in H
  end.

(** ** Lists *)

Lemma list_filter_all {A} (P : A → Prop) `{!∀ x, Decision (P x)} l :
  Forall P l → filter P l = l.
Proof. induction 1 as [|x l Hx Hl IH]; [done |]. by rewrite filter_cons_True, IH. Qed.
