(* ===== verification/Machine.v ===== *)
(** * The machine: constants, page-table macros and physical memory

    The constants and macros of kernel/riscv.h, kernel/memlayout.h,
    kernel/param.h, kernel/fs.h and kernel/syscall.h, and byte-addressed
    physical memory with the loads and stores the C code performs on it. *)

From S2P Require Import Prelude.

(** ** kernel/param.h *)

Definition NPROC : nat := 64.
Definition NCPU : nat := 8.
Definition NOFILE : nat := 16.
Definition NFILE : nat := 100.
Definition NINODE : nat := 50.
Definition NDEV : nat := 10.
Definition ROOTDEV : Z := 1.
Definition MAXARG : nat := 32.
Definition MAXOPBLOCKS : nat := 10.
Definition LOGBLOCKS : nat := MAXOPBLOCKS * 3.
Definition NBUF : nat := MAXOPBLOCKS * 3.
Definition FSSIZE : Z := 2000.
Definition MAXPATH : nat := 128.
Definition USERSTACK : Z := 1.

(** ** kernel/riscv.h: pages and page-table entries *)

Definition PGSIZE : Z := 4096.
Definition PGSHIFT : Z := 12.
Definition PGROUNDUP (sz : Z) : Z := Z.land (u64 (sz + PGSIZE - 1)) (u64 (Z.lnot (PGSIZE - 1))).
Definition PGROUNDDOWN (a : Z) : Z := Z.land a (u64 (Z.lnot (PGSIZE - 1))).

Definition PTE_V : Z := Z.shiftl 1 0.
Definition PTE_R : Z := Z.shiftl 1 1.
Definition PTE_W : Z := Z.shiftl 1 2.
Definition PTE_X : Z := Z.shiftl 1 3.
Definition PTE_U : Z := Z.shiftl 1 4.

Definition PA2PTE (pa : Z) : Z := u64 (Z.shiftl (Z.shiftr pa 12) 10).
Definition PTE2PA (pte : Z) : Z := u64 (Z.shiftl (Z.shiftr pte 10) 12).
Definition PTE_FLAGS (pte : Z) : Z := Z.land pte 0x3FF.

Definition PXMASK : Z := 0x1FF.
Definition PXSHIFT (level : Z) : Z := PGSHIFT + 9 * level.
Definition PX (level va : Z) : Z := Z.land (Z.shiftr va (PXSHIFT level)) PXMASK.
Definition MAXVA : Z := Z.shiftl 1 (9 + 9 + 9 + 12 - 1).

(** ** kernel/memlayout.h *)

Definition KERNBASE : Z := 0x80000000.
Definition PHYSTOP : Z := KERNBASE + 128 * 1024 * 1024.
Definition UART0 : Z := 0x10000000.
Definition VIRTIO0 : Z := 0x10001000.
Definition PLIC : Z := 0x0c000000.
Definition TRAMPOLINE : Z := MAXVA - PGSIZE.
Definition KSTACK (p : Z) : Z := TRAMPOLINE - (p + 1) * 2 * PGSIZE.
Definition TRAPFRAME : Z := TRAMPOLINE - PGSIZE.

(** ** kernel/vm.h, kernel/fcntl.h, kernel/stat.h *)

Definition SBRK_EAGER : Z := 1.
Definition SBRK_LAZY : Z := 2.
Definition O_RDONLY : Z := 0x000.
Definition O_WRONLY : Z := 0x001.
Definition O_RDWR : Z := 0x002.
Definition O_CREATE : Z := 0x200.
Definition O_TRUNC : Z := 0x400.
Definition T_DIR : Z := 1.
Definition T_FILE : Z := 2.
Definition T_DEVICE : Z := 3.

(** ** kernel/fs.h *)

Definition ROOTINO : Z := 1.
Definition BSIZE : Z := 1024.
Definition FSMAGIC : Z := 0x10203040.
Definition NDIRECT : nat := 12.
Definition NINDIRECT : nat := 256.
Definition MAXFILE : nat := NDIRECT + NINDIRECT.
Definition DINODE_SIZE : Z := 64.
Definition IPB : Z := BSIZE / DINODE_SIZE.
Definition BPB : Z := BSIZE * 8.
Definition DIRSIZ : nat := 14.
Definition DIRENT_SIZE : Z := 16.

(** ** kernel/syscall.h *)

Definition SYS_fork : Z := 1.
Definition SYS_exit : Z := 2.
Definition SYS_wait : Z := 3.
Definition SYS_pipe : Z := 4.
Definition SYS_read : Z := 5.
Definition SYS_kill : Z := 6.
Definition SYS_exec : Z := 7.
Definition SYS_fstat : Z := 8.
Definition SYS_chdir : Z := 9.
Definition SYS_dup : Z := 10.
Definition SYS_getpid : Z := 11.
Definition SYS_sbrk : Z := 12.
Definition SYS_pause : Z := 13.
Definition SYS_uptime : Z := 14.
Definition SYS_open : Z := 15.
Definition SYS_write : Z := 16.
Definition SYS_mknod : Z := 17.
Definition SYS_unlink : Z := 18.
Definition SYS_link : Z := 19.
Definition SYS_mkdir : Z := 20.
Definition SYS_close : Z := 21.
Definition SYS_hello : Z := 22.
Definition SYS_setfilter : Z := 23.
Definition SYS_getfilter : Z := 24.
Definition SYS_setfilter_child : Z := 25.
Definition SYS_setaudit : Z := 26.
Definition SYS_setstrict : Z := 27.

(** ** kernel/proc.h: byte offsets of the trapframe fields *)

Definition TF_kernel_satp : Z := 0.
Definition TF_kernel_sp : Z := 8.
Definition TF_kernel_trap : Z := 16.
Definition TF_epc : Z := 24.
Definition TF_kernel_hartid : Z := 32.
Definition TF_sp : Z := 48.
Definition TF_a0 : Z := 112.
Definition TF_a1 : Z := 120.
Definition TF_a2 : Z := 128.
Definition TF_a3 : Z := 136.
Definition TF_a4 : Z := 144.
Definition TF_a5 : Z := 152.
Definition TF_a7 : Z := 168.
Definition TF_SIZE : Z := 288.

Create HintDb consts.
#[export] Hint Unfold NPROC NCPU NOFILE NFILE NINODE NDEV ROOTDEV MAXARG
  MAXOPBLOCKS LOGBLOCKS NBUF FSSIZE MAXPATH USERSTACK PGSIZE PGSHIFT
  KERNBASE PHYSTOP TRAMPOLINE TRAPFRAME MAXVA ROOTINO BSIZE NDIRECT NINDIRECT
  MAXFILE DINODE_SIZE IPB BPB DIRSIZ DIRENT_SIZE PTE_V PTE_R PTE_W PTE_X PTE_U
  PXMASK PXSHIFT : consts.
Ltac unfold_consts := autounfold with consts in *.

(** ** Physical memory *)

Definition mread (m : gmap Z Z) (a : Z) : Z := default 0 (m !! a).

Fixpoint mload (m : gmap Z Z) (a : Z) (n : nat) : list Z :=
  match n with
  | O => []
  | S n => mread m a :: mload m (a + 1) n
  end.

Fixpoint mstore (m : gmap Z Z) (a : Z) (bs : list Z) : gmap Z Z :=
  match bs with
  | [] => m
  | c :: bs => mstore (<[a := c]> m) (a + 1) bs
  end.

Definition load64 (m : gmap Z Z) (a : Z) : Z := le_val (mload m a 8).
Definition store64 (m : gmap Z Z) (a v : Z) : gmap Z Z := mstore m a (le_bytes 8 v).

#[global] Arguments load64 : simpl never.
#[global] Arguments store64 : simpl never.

(** Every byte of memory is a byte. *)
Definition mem_ok (m : gmap Z Z) : Prop := ∀ a, is_byte (mread m a).

Lemma mread_insert m a a' c :
  mread (<[a := c]> m) a' = if decide (a = a') then c else mread m a'.
Proof. unfold mread. rewrite lookup_insert. by case_decide. Qed.

Lemma length_mload m a n : length (mload m a n) = n.
Proof. revert a; induction n; intros; simpl; auto. Qed.

Lemma mload_ext m m' a n :
  (∀ i, a ≤ i < a + Z.of_nat n → mread m i = mread m' i) → mload m a n = mload m' a n.
Proof.
  revert a; induction n as [|n IH]; intros a H; simpl; [done |].
  f_equal; [apply H; lia | apply IH; intros; apply H; lia].
Qed.

Lemma lookup_mload m a n (i : nat) :
  (i < n)%nat → mload m a n !! i = Some (mread m (a + Z.of_nat i)).
Proof.
  revert a i; induction n as [|n IH]; intros a i Hi; [lia |].
  destruct i as [|i]; simpl; [by rewrite Z.add_0_r |].
  rewrite IH by lia. do 2 f_equal. lia.
Qed.

Lemma mload_app m a n1 n2 :
  mload m a (n1 + n2) = mload m a n1 ++ mload m (a + Z.of_nat n1) n2.
Proof.
  revert a; induction n1 as [|n1 IH]; intros a; simpl; [by rewrite Z.add_0_r |].
  rewrite IH. do 3 f_equal. lia.
Qed.

Lemma mread_mstore m a bs a' :
  mread (mstore m a bs) a' =
    if decide (a ≤ a' < a + Z.of_nat (length bs))
    then nth (Z.to_nat (a' - a)) bs 0 else mread m a'.
Proof.
  revert m a; induction bs as [|c bs IH]; intros m a; simpl.
  { case_decide; [lia | done]. }
  rewrite IH, mread_insert. repeat case_decide; try lia; subst.
  - replace (Z.to_nat (a' - a)) with (S (Z.to_nat (a' - (a + 1)))) by lia. done.
  - by rewrite Z.sub_diag.
Qed.

Lemma mread_mstore_out m a bs a' :
  a' < a ∨ a + Z.of_nat (length bs) ≤ a' → mread (mstore m a bs) a' = mread m a'.
Proof. intros. rewrite mread_mstore. case_decide; [lia | done]. Qed.

Lemma mload_mstore_out m a bs a' n :
  a' + Z.of_nat n ≤ a ∨ a + Z.of_nat (length bs) ≤ a' →
  mload (mstore m a bs) a' n = mload m a' n.
Proof. intros. apply mload_ext. intros. apply mread_mstore_out. lia. Qed.

Lemma mload_mstore m a bs : mload (mstore m a bs) a (length bs) = bs.
Proof.
  apply list_eq. intros i.
  destruct (decide (i < length bs)%nat) as [Hi|Hi].
  - rewrite lookup_mload, mread_mstore by done. case_decide; [| lia].
    replace (Z.to_nat (a + Z.of_nat i - a)) with i by lia.
    rewrite nth_lookup. by destruct (lookup_lt_is_Some_2 bs i Hi) as [x ->].
  - rewrite !lookup_ge_None_2; rewrite ?length_mload; auto; lia.
Qed.

(** A store into the middle of what is read. *)
Lemma mload_mstore_in m a n off bs : (off + length bs ≤ n)%nat →
  mload (mstore m (a + Z.of_nat off) bs) a n = splice (mload m a n) off bs.
Proof.
  intros Hl. apply list_eq. intros i. assert (length (mload m a n) = n) as Hn by apply length_mload.
  destruct (decide (i < n)%nat) as [Hi | Hi].
  - rewrite lookup_mload, mread_mstore by done. case_decide as Hd.
    + replace i with (off + (i - off))%nat at 2 by lia. rewrite lookup_splice_in by lia. rewrite nth_lookup.
      replace (Z.to_nat (a + Z.of_nat i - (a + Z.of_nat off))) with (i - off)%nat by lia.
      by destruct (lookup_lt_is_Some_2 bs (i - off)%nat ltac:(lia)) as [x ->].
    + rewrite lookup_splice_out by lia. by rewrite lookup_mload.
  - rewrite !lookup_ge_None_2; [done | rewrite length_splice; lia | rewrite length_mload; lia].
Qed.

Lemma load64_store64 m a v : load64 (store64 m a v) a = u64 v.
Proof.
  unfold load64, store64.
  rewrite <- (length_le_bytes 8 v) at 1. by rewrite mload_mstore, le_val_bytes.
Qed.

Lemma load64_mstore_out m a bs a' :
  a' + 8 ≤ a ∨ a + Z.of_nat (length bs) ≤ a' → load64 (mstore m a bs) a' = load64 m a'.
Proof. intros. unfold load64. rewrite mload_mstore_out; [done | lia]. Qed.

Lemma load64_store64_out m a v a' :
  a' + 8 ≤ a ∨ a + 8 ≤ a' → load64 (store64 m a v) a' = load64 m a'.
Proof. intros. apply load64_mstore_out. by rewrite length_le_bytes. Qed.

Lemma mem_ok_mstore m a bs : mem_ok m → Forall is_byte bs → mem_ok (mstore m a bs).
Proof.
  intros Hm Hbs a'. rewrite mread_mstore. case_decide; [| apply Hm].
  rewrite nth_lookup. destruct (bs !! _) eqn:E; simpl; [| unfold is_byte; lia].
  eapply Forall_lookup_1; eauto.
Qed.

Lemma mload_byte m a n : mem_ok m → Forall is_byte (mload m a n).
Proof. intros Hm. revert a; induction n; intros; simpl; constructor; auto. Qed.

Lemma load64_range m a : mem_ok m → 0 ≤ load64 m a < 2 ^ 64.
Proof.
  intros Hm. pose proof (le_val_range _ (mload_byte m a 8 Hm)) as H.
  rewrite length_mload in H. exact H.
Qed.

(** A byte-wise fill read back as a word. *)
Lemma load64_fill0 m a n a' :
  a ≤ a' → a' + 8 ≤ a + Z.of_nat n → load64 (mstore m a (replicate n 0)) a' = 0.
Proof.
  intros H1 H2. unfold load64.
  replace (mload _ a' 8) with (replicate 8 0); [done |].
  apply list_eq. intros i. destruct (decide (i < 8)%nat) as [Hi|Hi].
  - rewrite lookup_replicate_2, lookup_mload, mread_mstore by done.
    rewrite length_replicate. case_decide; [| lia].
    rewrite nth_lookup, lookup_replicate_2 by lia. done.
  - rewrite !lookup_ge_None_2; rewrite ?length_mload, ?length_replicate; auto; lia.
Qed.

(** ** Pages and page-table entries *)

Lemma land_page_mask a : 0 ≤ a < 2 ^ 64 →
  Z.land a (u64 (Z.lnot (PGSIZE - 1))) = PGSIZE * (a / PGSIZE).
Proof.
  intros Ha. unfold u64. rewrite <-Z.land_ones by lia.
  rewrite (Z.land_comm (Z.lnot _)), Z.land_assoc, Z.land_ones, Z.mod_small by lia.
  change (PGSIZE - 1) with (Z.ones 12).
  rewrite <-Z.ldiff_land, Z.ldiff_ones_r, Z.shiftl_mul_pow2, Z.shiftr_div_pow2 by lia.
  change (2 ^ 12) with PGSIZE. lia.
Qed.

Lemma PGROUNDDOWN_spec a : 0 ≤ a < 2 ^ 64 → PGROUNDDOWN a = PGSIZE * (a / PGSIZE).
Proof. apply land_page_mask. Qed.

Lemma PGROUNDUP_spec sz :
  0 ≤ sz → sz + PGSIZE - 1 < 2 ^ 64 → PGROUNDUP sz = PGSIZE * ((sz + PGSIZE - 1) / PGSIZE).
Proof.
  intros H1 H2. unfold PGROUNDUP. rewrite u64_small by (unfold_consts; lia).
  apply land_page_mask. unfold_consts; lia.
Qed.

(** A page-table entry gives back the page and the flags it was made from. *)
Lemma PTE2PA_PA2PTE pa flags :
  0 ≤ pa < 2 ^ 56 → pa mod PGSIZE = 0 → 0 ≤ flags < 2 ^ 10 →
  PTE2PA (Z.lor (PA2PTE pa) flags) = pa ∧ PTE_FLAGS (Z.lor (PA2PTE pa) flags) = flags.
Proof.
  intros Hpa Hal Hfl. unfold PTE2PA, PA2PTE, PTE_FLAGS.
  assert (Hq : 0 ≤ Z.shiftr pa 12 < 2 ^ 44).
  { rewrite Z.shiftr_div_pow2 by lia. split; [apply Z.div_pos; lia | apply Z.div_lt_upper_bound; lia]. }
  rewrite (u64_small (Z.shiftl _ 10)) by (rewrite Z.shiftl_mul_pow2 by lia; lia).
  assert (Hfs : Z.shiftr flags 10 = 0) by (rewrite Z.shiftr_div_pow2 by lia; apply Z.div_small; lia).
  split.
  - rewrite Z.shiftr_lor, Hfs, Z.lor_0_r, Z.shiftr_shiftl_l, Z.sub_diag, Z.shiftl_0_r by lia.
    rewrite Z.shiftl_mul_pow2, Z.shiftr_div_pow2 by lia.
    change (2 ^ 12) with PGSIZE. rewrite u64_small; rewrite Z.mul_comm;
      rewrite <-(Z_div_exact_full_2 pa PGSIZE) by (unfold_consts; lia); lia.
  - change 0x3FF with (Z.ones 10). rewrite Z.land_lor_distr_l, !Z.land_ones by lia.
    rewrite Z.shiftl_mul_pow2, Z.mod_mul by lia. rewrite Z.lor_0_l. apply Z.mod_small; lia.
Qed.

Lemma PTE2PA_page pte : 0 ≤ PTE2PA pte < 2 ^ 64 ∧ PTE2PA pte mod PGSIZE = 0.
Proof.
  split; [apply u64_range |]. unfold PTE2PA, u64. rewrite Z.shiftl_mul_pow2 by lia.
  change (2 ^ 64) with (2 ^ 52 * 2 ^ 12). rewrite Z.mul_mod_distr_r by lia.
  apply Z.mod_mul. unfold_consts; lia.
Qed.

Lemma PX_range level va : 0 ≤ PX level va < 512.
Proof. unfold PX, PXMASK. change 0x1FF with (Z.ones 9). rewrite Z.land_ones by lia. apply Z.mod_pos_bound; lia. Qed.

(** ** Theorems *)

(** Page rounding and page-table entries.  [PGROUNDUP] and [PGROUNDDOWN] give
    the nearest page boundaries, and the page and the flags packed in a page-table
    entry come back unchanged. *)
Theorem page_arithmetic a flags :
  0 ≤ a → a + PGSIZE < 2 ^ 56 → 0 ≤ flags < 2 ^ 10 →
  PGROUNDDOWN a mod PGSIZE = 0 ∧ PGROUNDDOWN a ≤ a < PGROUNDDOWN a + PGSIZE ∧
  PGROUNDUP a mod PGSIZE = 0 ∧ PGROUNDUP a - PGSIZE < a ≤ PGROUNDUP a ∧
  PTE2PA (Z.lor (PA2PTE (PGROUNDDOWN a)) flags) = PGROUNDDOWN a ∧
  PTE_FLAGS (Z.lor (PA2PTE (PGROUNDDOWN a)) flags) = flags.
Proof.
  intros Ha Hmax Hfl. assert (Hpg : PGSIZE = 4096) by done.
  rewrite PGROUNDUP_spec, PGROUNDDOWN_spec by lia.
  pose proof (Z.div_mod a PGSIZE ltac:(done)). pose proof (Z.mod_pos_bound a PGSIZE ltac:(done)).
  pose proof (Z.div_mod (a + PGSIZE - 1) PGSIZE ltac:(done)).
  pose proof (Z.mod_pos_bound (a + PGSIZE - 1) PGSIZE ltac:(done)).
  assert (Hm : ∀ k, (PGSIZE * k) mod PGSIZE = 0) by (intros k; rewrite Z.mul_comm; by apply Z.mod_mul).
  split; [apply Hm |]. split; [lia |]. split; [apply Hm |]. split; [lia |].
  apply PTE2PA_PA2PTE; [lia | apply Hm | done].
Qed.
