(* ===== verification/Kstate.v ===== *)
(** * Kernel state and the kernel monad

    The global data of the kernel (kernel/proc.h, kernel/file.h, kernel/buf.h,
    kernel/fs.h, kernel/spinlock.h, kernel/sleeplock.h and the globals of the .c
    files) as one record, and the monad in which every kernel function is
    written.  A function runs on one CPU; it gives the CPU to the rest of the
    system exactly where the code calls [swtch] (inside [sched]), and what the
    rest of the system does meanwhile is the parameter [env_swtch]. *)

From S2P Require Import Prelude Machine.

(** ** Names for kernel objects

    Pointers into the fixed tables are indices; a null pointer is [None]. *)

Inductive sleepid := SlInode (i : nat) | SlBuf (i : nat).
#[global] Instance sleepid_eq_dec : EqDecision sleepid.
Proof. solve_decision. Defined.

(** The spin locks of the kernel. *)
Inductive lockid :=
  | LkPid | LkWait | LkProc (i : nat) | LkKmem | LkFtable | LkItable | LkBcache
  | LkLog | LkTicks | LkCons | LkPr | LkUart | LkVdisk | LkPipe (pa : Z)
  | LkSleep (l : sleepid).
#[global] Instance lockid_eq_dec : EqDecision lockid.
Proof. solve_decision. Defined.

(** The addresses the kernel sleeps on. *)
Inductive chan :=
  | ChProc (i : nat) | ChTicks | ChLog | ChSleep (l : sleepid) | ChBuf (i : nat)
  | ChPipeRead (pa : Z) | ChPipeWrite (pa : Z) | ChCons | ChUart | ChDisk.
#[global] Instance chan_eq_dec : EqDecision chan.
Proof. solve_decision. Defined.

(** ** kernel/proc.h *)

Inductive procstate := UNUSED | USED | SLEEPING | RUNNABLE | RUNNING | ZOMBIE.
#[global] Instance procstate_eq_dec : EqDecision procstate.
Proof. solve_decision. Defined.

Record context := mkContext { ctx_ra : Z; ctx_sp : Z; ctx_s : list Z }.
#[global] Instance eta_context : Settable context :=
  fun c => mkContext (ctx_ra c) (ctx_sp c) (ctx_s c).

Record proc := mkProc {
  p_state : procstate;
  p_chan : option chan;
  p_killed : Z;
  p_xstate : Z;
  p_pid : Z;
  p_parent : option nat;
  p_kstack : Z;
  p_sz : Z;
  p_pagetable : Z;
  p_trapframe : Z;
  p_context : context;
  p_ofile : list (option nat);
  p_cwd : option nat;
  p_syscall_mask : Z;
  p_name : list Z;
  p_child_syscall_mask : Z;
  p_audit_enabled : Z;
  p_strict_mode : Z;
}.
#[global] Instance eta_proc : Settable proc := fun p =>
  mkProc (p_state p) (p_chan p) (p_killed p) (p_xstate p) (p_pid p) (p_parent p)
    (p_kstack p) (p_sz p) (p_pagetable p) (p_trapframe p) (p_context p) (p_ofile p)
    (p_cwd p) (p_syscall_mask p) (p_name p) (p_child_syscall_mask p)
    (p_audit_enabled p) (p_strict_mode p).

(** ** kernel/sleeplock.h, kernel/buf.h, kernel/file.h *)

Record sleeplock := mkSleeplock { sl_locked : Z; sl_pid : Z }.
#[global] Instance eta_sleeplock : Settable sleeplock :=
  fun l => mkSleeplock (sl_locked l) (sl_pid l).

Record buf := mkBuf {
  b_valid : Z;
  b_disk : Z;
  b_dev : Z;
  b_blockno : Z;
  b_lock : sleeplock;
  b_refcnt : Z;
  b_prev : nat;
  b_next : nat;
  b_data : list Z;
}.
#[global] Instance eta_buf : Settable buf := fun x =>
  mkBuf (b_valid x) (b_disk x) (b_dev x) (b_blockno x) (b_lock x) (b_refcnt x)
    (b_prev x) (b_next x) (b_data x).

Inductive ftype := FD_NONE | FD_PIPE | FD_INODE | FD_DEVICE.
#[global] Instance ftype_eq_dec : EqDecision ftype.
Proof. solve_decision. Defined.

Record file := mkFile {
  f_type : ftype;
  f_ref : Z;
  f_readable : Z;
  f_writable : Z;
  f_pipe : Z;
  f_ip : option nat;
  f_off : Z;
  f_major : Z;
}.
#[global] Instance eta_file : Settable file := fun f =>
  mkFile (f_type f) (f_ref f) (f_readable f) (f_writable f) (f_pipe f) (f_ip f)
    (f_off f) (f_major f).

Record inode := mkInode {
  i_dev : Z;
  i_inum : Z;
  i_ref : Z;
  i_lock : sleeplock;
  i_valid : Z;
  i_type : Z;
  i_major : Z;
  i_minor : Z;
  i_nlink : Z;
  i_size : Z;
  i_addrs : list Z;
}.
#[global] Instance eta_inode : Settable inode := fun i =>
  mkInode (i_dev i) (i_inum i) (i_ref i) (i_lock i) (i_valid i) (i_type i)
    (i_major i) (i_minor i) (i_nlink i) (i_size i) (i_addrs i).

(** ** kernel/pipe.c, kernel/log.c, kernel/fs.h, kernel/console.c *)

Record pipe := mkPipe {
  pi_data : list Z;
  pi_nread : Z;
  pi_nwrite : Z;
  pi_readopen : Z;
  pi_writeopen : Z;
}.
#[global] Instance eta_pipe : Settable pipe := fun p =>
  mkPipe (pi_data p) (pi_nread p) (pi_nwrite p) (pi_readopen p) (pi_writeopen p).

Record logheader := mkLogheader { lh_n : Z; lh_block : list Z }.
#[global] Instance eta_logheader : Settable logheader :=
  fun h => mkLogheader (lh_n h) (lh_block h).

Record log_t := mkLog {
  log_start : Z;
  log_outstanding : Z;
  log_committing : Z;
  log_dev : Z;
  log_lh : logheader;
}.
#[global] Instance eta_log : Settable log_t := fun l =>
  mkLog (log_start l) (log_outstanding l) (log_committing l) (log_dev l) (log_lh l).

Record superblock := mkSuperblock {
  sb_magic : Z;
  sb_size : Z;
  sb_nblocks : Z;
  sb_ninodes : Z;
  sb_nlog : Z;
  sb_logstart : Z;
  sb_inodestart : Z;
  sb_bmapstart : Z;
}.

Record cons_t := mkCons { cons_buf : list Z; cons_r : Z; cons_w : Z; cons_e : Z }.
#[global] Instance eta_cons : Settable cons_t :=
  fun c => mkCons (cons_buf c) (cons_r c) (cons_w c) (cons_e c).

(** The supervisor registers of the CPU that kernel/trap.c reads and writes. *)
Record csrs := mkCsrs {
  csr_sstatus : Z;
  csr_sepc : Z;
  csr_scause : Z;
  csr_stval : Z;
  csr_stvec : Z;
  csr_satp : Z;
  csr_stimecmp : Z;
  csr_time : Z;
  csr_tp : Z;
}.
#[global] Instance eta_csrs : Settable csrs := fun c =>
  mkCsrs (csr_sstatus c) (csr_sepc c) (csr_scause c) (csr_stval c) (csr_stvec c)
    (csr_satp c) (csr_stimecmp c) (csr_time c) (csr_tp c).

(** Entries of [devsw]: which driver is plugged in. *)
Inductive driver := DrvConsole.

(** ** The whole kernel *)

Record kstate := mkK {
  k_mem : gmap Z Z;                  (* physical memory, by byte *)
  k_freelist : Z;                    (* kmem.freelist *)
  k_procs : list proc;               (* proc[NPROC] *)
  k_nextpid : Z;
  k_initproc : option nat;
  k_cur : option nat;                (* mycpu()->proc *)
  k_held : list lockid;              (* spin locks this CPU holds, newest first *)
  k_ftable : list file;              (* ftable.file[NFILE] *)
  k_itable : list inode;             (* itable.inode[NINODE] *)
  k_pipes : gmap Z pipe;             (* struct pipe, by the page it lives in *)
  k_bufs : list buf;                 (* bcache.buf[NBUF], then bcache.head *)
  k_log : log_t;
  k_sb : superblock;
  k_disk : gmap Z (list Z);          (* blocks on the disk *)
  k_dwrites : list (Z * list Z);     (* history of disk writes, newest first *)
  k_ticks : Z;
  k_devsw : list (option driver);    (* devsw[NDEV] *)
  k_cons : cons_t;
  k_uart_out : list Z;               (* bytes written to the UART, newest first *)
  k_uart_in : list Z;                (* bytes waiting in the UART *)
  k_tx_busy : Z;
  k_panicking : Z;
  k_panicked : Z;
  k_first : Z;                       (* forkret's static int first *)
  k_csr : csrs;
}.
#[global] Instance eta_kstate : Settable kstate := fun k =>
  mkK (k_mem k) (k_freelist k) (k_procs k) (k_nextpid k) (k_initproc k) (k_cur k)
    (k_held k) (k_ftable k) (k_itable k) (k_pipes k) (k_bufs k) (k_log k) (k_sb k)
    (k_disk k) (k_dwrites k) (k_ticks k) (k_devsw k) (k_cons k) (k_uart_out k)
    (k_uart_in k) (k_tx_busy k) (k_panicking k) (k_panicked k) (k_first k) (k_csr k).

(** ** Outcomes and the monad *)

Inductive outcome (A : Type) :=
  | Done (a : A) (s : kstate)        (* returned *)
  | Panic (msg : string) (s : kstate)(* called panic() *)
  | Wait (s : kstate)                (* gave up the CPU and is not resumed *)
  | Undef (msg : string).            (* the C program has no defined behaviour *)
Arguments Done {A} a s.
Arguments Panic {A} msg s.
Arguments Wait {A} s.
Arguments Undef {A} msg.

Definition K (A : Type) : Type := kstate → outcome A.

#[global] Instance K_ret : MRet K := fun A a s => Done a s.
#[global] Instance K_bind : MBind K := fun A B f m s =>
  match m s with
  | Done a s' => f a s'
  | Panic msg s' => Panic msg s'
  | Wait s' => Wait s'
  | Undef msg => Undef msg
  end.

Definition ret {A} (a : A) : K A := fun s => Done a s.
Definition kpanic {A} (msg : string) : K A := fun s => Panic msg s.
Definition kwaitforever {A} : K A := fun s => Wait s.
Definition undef {A} (msg : string) : K A := fun _ => Undef msg.
Definition gets {A} (f : kstate → A) : K A := fun s => Done (f s) s.
Definition modify (f : kstate → kstate) : K unit := fun s => Done tt (f s).
Arguments kpanic {A} _%_string.
Arguments undef {A} _%_string.

(** A table access; an index outside the table is undefined behaviour in C. *)
Definition must {A} (o : option A) (msg : string) : K A :=
  match o with Some a => ret a | None => undef msg end.
Arguments must {A} _ _%_string.

(** [for] over a table without an early exit. *)
Fixpoint for_each {X} (l : list X) (body : X → K unit) : K unit :=
  match l with
  | [] => ret tt
  | x :: l => body x ;; for_each l body
  end.

(** [for] with early exit: the body returns [Some r] to leave the loop with [r]. *)
Fixpoint for_until {X A} (l : list X) (body : X → K (option A)) : K (option A) :=
  match l with
  | [] => ret None
  | x :: l =>
      r ← body x;
      match r with Some a => ret (Some a) | None => for_until l body end
  end.

(** A general loop with loop state [X]: the body continues with [inl] or leaves
    with [inr]; after [n] rounds the loop state itself is the result. *)
Fixpoint iterate {X A} (n : nat) (body : X → K (X + A)) (x : X) : K (X + A) :=
  match n with
  | O => ret (inl x)
  | S n =>
      r ← body x;
      match r with inl x' => iterate n body x' | inr a => ret (inr a) end
  end.

(** A loop whose bound is known to be enough. *)
Definition loop {X A} (n : nat) (body : X → K (X + A)) (x : X) : K A :=
  r ← iterate n body x;
  match r with inl _ => undef "loop bound" | inr a => ret a end.

(** ** Parameters of the model

    [Layout] holds the addresses the linker script and the assembly files
    define.  [Env] is the rest of the system: [env_swtch s] is the state in
    which the scheduler resumes the current process after it called [swtch] in
    state [s], or [None] if it never does; [env_patience] bounds how many times
    a process that waits in a loop is woken; [env_tx_idle] is the transmit-idle
    bit of the UART's line status register, [env_irq] the interrupt number the
    PLIC's claim register holds, and [env_disk_intr] what the disk driver's
    interrupt handler does. *)

Class Layout := {
  sym_end : Z;
  sym_etext : Z;
  sym_trampoline : Z;
  sym_uservec : Z;
  sym_userret : Z;
  sym_forkret : Z;
  sym_usertrap : Z;
  sym_kernelvec : Z;
}.

Class Env := {
  env_swtch : kstate → option kstate;
  env_patience : nat;
  env_tx_idle : kstate → bool;
  env_irq : kstate → Z;
  env_disk_intr : kstate → kstate;
}.

(** A loop that sleeps until some other process makes progress; at most [n] of
    its rounds do not sleep. *)
Definition wait_loop_plus {E : Env} {X A} (n : nat) (body : X → K (X + A)) (x : X) : K A :=
  r ← iterate (n + S env_patience) body x;
  match r with inl _ => kwaitforever | inr a => ret a end.
Definition wait_loop {E : Env} {X A} (body : X → K (X + A)) (x : X) : K A :=
  wait_loop_plus 0 body x.

(** ** Accessors *)

Definition get_proc (i : nat) : K proc :=
  ps ← gets k_procs; must (ps !! i) "proc table index".
Definition upd_proc (i : nat) (f : proc → proc) : K unit :=
  p ← get_proc i; modify (fun s => s <| k_procs ::= <[i := f p]> |>).
Definition get_file (i : nat) : K file :=
  fs ← gets k_ftable; must (fs !! i) "file table index".
Definition upd_file (i : nat) (f : file → file) : K unit :=
  x ← get_file i; modify (fun s => s <| k_ftable ::= <[i := f x]> |>).
Definition get_inode (i : nat) : K inode :=
  ips ← gets k_itable; must (ips !! i) "inode table index".
Definition upd_inode (i : nat) (f : inode → inode) : K unit :=
  x ← get_inode i; modify (fun s => s <| k_itable ::= <[i := f x]> |>).
Definition get_buf (i : nat) : K buf :=
  bs ← gets k_bufs; must (bs !! i) "buffer index".
Definition upd_buf (i : nat) (f : buf → buf) : K unit :=
  x ← get_buf i; modify (fun s => s <| k_bufs ::= <[i := f x]> |>).
Definition get_pipe (pa : Z) : K pipe :=
  ps ← gets k_pipes; must (ps !! pa) "pipe pointer".
Definition upd_pipe (pa : Z) (f : pipe → pipe) : K unit :=
  x ← get_pipe pa; modify (fun s => s <| k_pipes ::= <[pa := f x]> |>).
Definition upd_log (f : log_t → log_t) : K unit := modify (fun s => s <| k_log ::= f |>).
Definition upd_mem (f : gmap Z Z → gmap Z Z) : K unit := modify (fun s => s <| k_mem ::= f |>).
Definition upd_csr (f : csrs → csrs) : K unit := modify (fun s => s <| k_csr ::= f |>).

Definition kload64 (a : Z) : K Z := gets (fun s => load64 (k_mem s) a).
Definition kstore64 (a v : Z) : K unit := upd_mem (fun m => store64 m a v).
Definition kload (a : Z) (n : nat) : K (list Z) := gets (fun s => mload (k_mem s) a n).
Definition kstore (a : Z) (bs : list Z) : K unit := upd_mem (fun m => mstore m a bs).

(** Dereference of a pointer that may be null. *)
Definition nonnull {A} (o : option A) : K A := must o "null pointer".
