(* ===== verification/Logic.v ===== *)
(** * Reasoning about kernel functions

    Two judgements on monadic code, with their structural rules:
    - [within R m]: whatever the outcome of [m], the state it leaves is related
      by [R] to the state it started from (a guarantee that also covers the
      states in which the machine panics or the process waits);
    - [returns P m Q]: if [m] starts in a state satisfying [P] and returns, its
      result and final state satisfy [Q]. *)

From S2P Require Import Prelude Machine Kstate.

(** ** Equations of the monad *)

Lemma bind_unfold {A B} (m : K A) (f : A → K B) s :
  (m ≫= f) s =
    match m s with
    | Done a s' => f a s'
    | Panic msg s' => Panic msg s'
    | Wait s' => Wait s'
    | Undef msg => Undef msg
    end.
Proof. done. Qed.

Lemma bind_done {A B} (m : K A) (f : A → K B) s a s' :
  m s = Done a s' → (m ≫= f) s = f a s'.
Proof. intros H. by rewrite bind_unfold, H. Qed.

Lemma bind_panic {A B} (m : K A) (f : A → K B) s msg s' :
  m s = Panic msg s' → (m ≫= f) s = Panic msg s'.
Proof. intros H. by rewrite bind_unfold, H. Qed.

Lemma bind_inv {A B} (m : K A) (f : A → K B) s r s' :
  (m ≫= f) s = Done r s' → ∃ a s1, m s = Done a s1 ∧ f a s1 = Done r s'.
Proof. rewrite bind_unfold. destruct (m s) eqn:?; try done. eauto. Qed.

(** The state in which an outcome leaves the machine. *)
Definition outcome_state {A} (o : outcome A) : option kstate :=
  match o with
  | Done _ s | Panic _ s | Wait s => Some s
  | Undef _ => None
  end.

Definition within (R : kstate → kstate → Prop) {A} (m : K A) : Prop :=
  ∀ s s', outcome_state (m s) = Some s' → R s s'.

Definition returns {A} (P : kstate → Prop) (m : K A) (Q : A → kstate → Prop) : Prop :=
  ∀ s a s', P s → m s = Done a s' → Q a s'.

(** ** Rules for [within] *)

Section within.
Context (R : kstate → kstate → Prop) `{!PreOrder R}.

Lemma within_ret {A} (a : A) : within R (ret a).
Proof. intros s s' [= <-]. reflexivity. Qed.

Lemma within_panic {A} msg : within R (@kpanic A msg).
Proof. intros s s' [= <-]. reflexivity. Qed.

Lemma within_waitforever {A} : within R (@kwaitforever A).
Proof. intros s s' [= <-]. reflexivity. Qed.

Lemma within_undef {A} msg : within R (@undef A msg).
Proof. by intros s s'. Qed.

Lemma within_gets {A} (f : kstate → A) : within R (gets f).
Proof. intros s s' [= <-]. reflexivity. Qed.

Lemma within_must {A} (o : option A) msg : within R (must o msg).
Proof. destruct o; [apply within_ret | apply within_undef]. Qed.

Lemma within_modify f : (∀ s, R s (f s)) → within R (modify f).
Proof. intros H s s' [= <-]. apply H. Qed.

Lemma within_bind {A B} (m : K A) (f : A → K B) :
  within R m → (∀ a, within R (f a)) → within R (m ≫= f).
Proof.
  intros Hm Hf s s'. rewrite bind_unfold. specialize (Hm s).
  destruct (m s) as [a s1| | |] eqn:E; simpl in Hm; intros H.
  - etransitivity; [by apply Hm | by eapply Hf].
  - by apply Hm.
  - by apply Hm.
  - done.
Qed.

Lemma within_for_each {X} (l : list X) body :
  (∀ x, within R (body x)) → within R (for_each l body).
Proof.
  intros H. induction l as [|x l IH]; simpl; [apply within_ret |].
  apply within_bind; auto.
Qed.

Lemma within_for_until {X A} (l : list X) (body : X → K (option A)) :
  (∀ x, within R (body x)) → within R (for_until l body).
Proof.
  intros H. induction l as [|x l IH]; simpl; [apply within_ret |].
  apply within_bind; [auto |]. intros [a|]; [apply within_ret | auto].
Qed.

Lemma within_iterate {X A} n (body : X → K (X + A)) x :
  (∀ x, within R (body x)) → within R (iterate n body x).
Proof.
  intros H. revert x; induction n as [|n IH]; intros x; simpl; [apply within_ret |].
  apply within_bind; [auto |]. intros [x'|a]; [auto | apply within_ret].
Qed.

Lemma within_loop {X A} n (body : X → K (X + A)) x :
  (∀ x, within R (body x)) → within R (loop n body x).
Proof.
  intros H. apply within_bind; [by apply within_iterate |].
  intros [x'|a]; [apply within_undef | apply within_ret].
Qed.

Lemma within_wait_loop_plus {E : Env} {X A} n (body : X → K (X + A)) x :
  (∀ x, within R (body x)) → within R (wait_loop_plus n body x).
Proof.
  intros H. apply within_bind; [by apply within_iterate |].
  intros [x'|a]; [apply within_waitforever | apply within_ret].
Qed.

Lemma within_wait_loop {E : Env} {X A} (body : X → K (X + A)) x :
  (∀ x, within R (body x)) → within R (wait_loop body x).
Proof. apply within_wait_loop_plus. Qed.

End within.

(** ** Rules for [returns] *)

Lemma returns_bind {A B} P (m : K A) Q (f : A → K B) Q' :
  returns P m Q → (∀ a, returns (Q a) (f a) Q') → returns P (m ≫= f) Q'.
Proof. intros Hm Hf s r s' HP (a & s1 & H1 & H2)%bind_inv. eapply Hf; [by eapply Hm | done]. Qed.

Lemma returns_conseq {A} (P P' : kstate → Prop) (m : K A) (Q Q' : A → kstate → Prop) :
  returns P' m Q' → (∀ s, P s → P' s) → (∀ a s, Q' a s → Q a s) → returns P m Q.
Proof. intros H HP HQ s a s' Hs Hm. eapply HQ, H; eauto. Qed.

Lemma returns_within {A} R (m : K A) P (Q : A → kstate → Prop) :
  within R m → (∀ s s' a, P s → R s s' → Q a s') → returns P m Q.
Proof. intros Hm HQ s a s' HP E. eapply HQ; [done |]. eapply Hm. by rewrite E. Qed.

(** ** [within] from a precondition *)

Definition within_from (P : kstate → Prop) (R : kstate → kstate → Prop) {A} (m : K A) : Prop :=
  ∀ s s', P s → outcome_state (m s) = Some s' → R s s'.

Lemma within_from_within P R {A} (m : K A) : within R m → within_from P R m.
Proof. intros H s s' _. apply H. Qed.

Lemma within_of_from R {A} (m : K A) : within_from (λ _, True) R m → within R m.
Proof. intros H s s'. by apply H. Qed.

Lemma within_from_bind {A B} P (Q : A → kstate → Prop) R `{!PreOrder R} (m : K A) (f : A → K B) :
  within_from P R m → returns P m Q → (∀ a, within_from (Q a) R (f a)) →
  within_from P R (m ≫= f).
Proof.
  intros Hm HQ Hf s s' HP. rewrite bind_unfold. specialize (Hm s). specialize (HQ s).
  destruct (m s) as [a s1| | |]; simpl in Hm; intros H; [| by apply Hm.. | done].
  etransitivity; [by apply Hm | eapply Hf; [by apply HQ | done]].
Qed.

(** ** Loops that end

    A measure that drops with every round and starts below the bound makes
    [loop] return, with what its last round established. *)

Lemma loop_done {X A} (Inv : X → kstate → Prop) (mu : X → nat) (Q : A → kstate → Prop)
    n (body : X → K (X + A)) x s :
  (∀ x s, Inv x s →
     (∃ x' s', body x s = Done (inl x') s' ∧ Inv x' s' ∧ (mu x' < mu x)%nat) ∨
     (∃ a s', body x s = Done (inr a) s' ∧ Q a s')) →
  Inv x s → (mu x < n)%nat → ∃ a s', loop n body x s = Done a s' ∧ Q a s'.
Proof.
  intros Hb. revert x s. induction n as [|n IH]; intros x s Hx Hn; [lia |].
  unfold loop. cbn [iterate]. destruct (Hb x s Hx) as [(x' & s' & E & Hx' & Hmu)|(a & s' & E & HQ)].
  - destruct (IH x' s' Hx') as (a & s'' & E' & HQ); [lia |]. exists a, s''. split; [| done].
    rewrite <-E'. unfold loop. rewrite !bind_unfold, E. done.
  - exists a, s'. split; [| done]. by rewrite !bind_unfold, E.
Qed.

(** ** Total correctness

    [wp m Q s]: run from [s], the function [m] returns, and its result and final
    state satisfy [Q]. *)

Definition wp {A} (m : K A) (Q : A → kstate → Prop) (s : kstate) : Prop :=
  match m s with Done a s' => Q a s' | _ => False end.

Lemma wp_elim {A} (m : K A) Q s : wp m Q s → ∃ a s', m s = Done a s' ∧ Q a s'.
Proof. unfold wp. destruct (m s); naive_solver. Qed.

Lemma wp_done {A} (m : K A) (Q : A → kstate → Prop) s a s' : m s = Done a s' → Q a s' → wp m Q s.
Proof. unfold wp. by intros ->. Qed.

Lemma wp_mono {A} (m : K A) (Q Q' : A → kstate → Prop) s : wp m Q' s → (∀ a s', Q' a s' → Q a s') → wp m Q s.
Proof. unfold wp. destruct (m s); naive_solver. Qed.

Lemma wp_ret {A} (a : A) (Q : A → kstate → Prop) s : Q a s → wp (ret a) Q s.
Proof. done. Qed.

Lemma wp_gets {A} (f : kstate → A) Q s : Q (f s) s → wp (gets f) Q s.
Proof. done. Qed.

Lemma wp_must {A} (o : option A) msg a (Q : A → kstate → Prop) s :
  o = Some a → Q a s → wp (must o msg) Q s.
Proof. by intros ->. Qed.

Lemma wp_bind {A B} (m : K A) (f : A → K B) (Q : B → kstate → Prop) s : wp m (λ a, wp (f a) Q) s → wp (m ≫= f) Q s.
Proof. unfold wp. rewrite bind_unfold. by destruct (m s). Qed.

Lemma wp_assoc {A B C} (m : K A) (f : A → K B) (g : B → K C) (Q : C → kstate → Prop) s :
  wp ((m ≫= f) ≫= g) Q s → wp (m ≫= λ a, f a ≫= g) Q s.
Proof. unfold wp. rewrite !bind_unfold. by destruct (m s). Qed.

(** A loop with an invariant and a measure that drops with every round. *)
Lemma wp_loop {X A} (Inv : X → kstate → Prop) (mu : X → nat) (Q : A → kstate → Prop) n (body : X → K (X + A)) x s :
  (∀ x s, Inv x s →
     wp (body x) (λ r s', match r with
                          | inl x' => Inv x' s' ∧ (mu x' < mu x)%nat
                          | inr a => Q a s'
                          end) s) →
  Inv x s → (mu x < n)%nat → wp (loop n body x) Q s.
Proof.
  intros Hb Hx Hn.
  destruct (loop_done Inv mu Q n body x s) as (a & s' & E & HQ); [| done | done |].
  - intros y t Hy. destruct (wp_elim _ _ _ (Hb y t Hy)) as ([x'|a] & t' & E & H);
      [left | right]; eauto.
  - by eapply wp_done.
Qed.

(** One round of a loop. *)
Lemma wp_loop_S {X A} n (body : X → K (X + A)) x (Q : A → kstate → Prop) s :
  wp (body x) (λ r s', match r with
                       | inl x' => wp (loop n body x') Q s'
                       | inr a => Q a s'
                       end) s →
  wp (loop (S n) body x) Q s.
Proof.
  unfold wp, loop. cbn [iterate]. rewrite !bind_unfold. by destruct (body x s) as [[]| | |].
Qed.

(** A loop that waits for what is there already. *)
Lemma wp_wait_loop {E : Env} {X A} (body : X → K (X + A)) x (Q : A → kstate → Prop) s :
  wp (body x) (λ r t, match r with inl _ => False | inr a => Q a t end) s → wp (wait_loop body x) Q s.
Proof.
  unfold wp, wait_loop, wait_loop_plus. cbn [Nat.add iterate]. rewrite !bind_unfold. by destruct (body x s) as [[]| | |].
Qed.

(** A loop over a range of indices with an invariant. *)
Lemma wp_for_seq (I : nat → kstate → Prop) k n body (Q : unit → kstate → Prop) s :
  I k s → (∀ i s, I i s → (k ≤ i < k + n)%nat → wp (body i) (λ _, I (S i)) s) →
  (∀ s, I (k + n)%nat s → Q tt s) → wp (for_each (seq k n) body) Q s.
Proof.
  revert k s. induction n as [|n IH]; intros k s Hk Hb HQ; cbn [seq for_each].
  - apply wp_ret, HQ. by rewrite Nat.add_0_r.
  - apply wp_bind. eapply wp_mono; [apply Hb; [done | lia] |]. intros [] s' Hs'.
    apply IH; [done | |].
    + intros i s1 H1 Hi. apply Hb; [done | lia].
    + intros s1 H1. apply HQ. by rewrite Nat.add_succ_r.
Qed.

(** Running [wp] over the first call of a sequence whose outcome is known. *)
Lemma wp_bind_done {A B} (m : K A) (f : A → K B) Q s a s' :
  m s = Done a s' → wp (f a) Q s' → wp (m ≫= f) Q s.
Proof. intros H HQ. apply wp_bind. by apply (wp_done _ _ _ _ _ H). Qed.

Lemma wp_modify f Q s : Q tt (f s) → wp (modify f) Q s.
Proof. done. Qed.

Lemma wp_get_buf i x Q s : k_bufs s !! i = Some x → Q x s → wp (get_buf i) Q s.
Proof. intros H HQ. unfold get_buf. apply wp_bind, wp_gets. by eapply wp_must. Qed.

Lemma wp_upd_buf i f x Q s :
  k_bufs s !! i = Some x → Q tt (s <| k_bufs ::= <[i := f x]> |>) → wp (upd_buf i f) Q s.
Proof. intros H HQ. unfold upd_buf. apply wp_bind. by eapply wp_get_buf. Qed.

(** ** Automation

    [solve_within] walks through the structure of a function body; what is left
    are the calls, which the hint database [within] knows, and the primitive
    updates, whose side conditions the database discharges. *)

Create HintDb within discriminated.
#[export] Hint Constants Opaque : within.
#[export] Hint Variables Opaque : within.

Ltac within_step :=
  lazymatch goal with
  | |- within _ (_ ≫= _) => apply within_bind; [apply _ | | intros ?]
  | |- within _ (ret _) => apply within_ret; apply _
  | |- within _ (kpanic _) => apply within_panic; apply _
  | |- within _ (undef _) => apply within_undef
  | |- within _ kwaitforever => apply within_waitforever; apply _
  | |- within _ (gets _) => apply within_gets; apply _
  | |- within _ (must _ _) => apply within_must; apply _
  | |- within _ (nonnull _) => apply within_must; apply _
  | |- within _ (for_each _ _) => apply within_for_each; [apply _ | intros ?]
  | |- within _ (for_until _ _) => apply within_for_until; [apply _ | intros ?]
  | |- within _ (loop _ _ _) => apply within_loop; [apply _ | intros ?]
  | |- within _ (wait_loop _ _) => apply within_wait_loop; [apply _ | intros ?]
  | |- within _ (wait_loop_plus _ _ _) => apply within_wait_loop_plus; [apply _ | intros ?]
  | |- within _ (match ?x with _ => _ end) => destruct x
  | |- within _ (let '_ := ?x in _) => destruct x
  | |- within _ ((match ?x with _ => _ end) _) => destruct x
  end.

Ltac solve_within :=
  repeat first [ progress cbv beta zeta | within_step | solve [eauto 3 with within] ].

(** ** Running a body step by step

    Inversion lemmas for the primitive steps; [kinv H] splits a run
    [H : (m ≫= f) s = Done r s'] into the run of [m] and the run of [f], and
    replaces the run of a primitive by what it says. *)

Lemma ret_inv {A} (a b : A) s s' : ret a s = Done b s' → b = a ∧ s' = s.
Proof. by intros [= <- <-]. Qed.

Lemma gets_inv {A} (f : kstate → A) a s s' : gets f s = Done a s' → a = f s ∧ s' = s.
Proof. by intros [= <- <-]. Qed.

Lemma modify_inv f a s s' : modify f s = Done a s' → s' = f s.
Proof. by intros [= _ <-]. Qed.

Lemma must_inv {A} (o : option A) msg a s s' :
  must o msg s = Done a s' → o = Some a ∧ s' = s.
Proof. by destruct o; intros [= <- <-]. Qed.

Lemma get_proc_inv i p s s' : get_proc i s = Done p s' → k_procs s !! i = Some p ∧ s' = s.
Proof. unfold get_proc. rewrite bind_unfold. simpl. apply must_inv. Qed.

Lemma get_proc_done i p s : k_procs s !! i = Some p → get_proc i s = Done p s.
Proof. intros H. unfold get_proc. rewrite bind_unfold. simpl. by rewrite H. Qed.

Lemma upd_proc_inv i f a s s' :
  upd_proc i f s = Done a s' →
  ∃ p, k_procs s !! i = Some p ∧ s' = (s <| k_procs ::= <[i := f p]> |>).
Proof.
  unfold upd_proc. intros (p & s1 & H1 & H2)%bind_inv.
  apply get_proc_inv in H1 as [? ->]. apply modify_inv in H2. eauto.
Qed.

Lemma upd_proc_done i f p s :
  k_procs s !! i = Some p → upd_proc i f s = Done tt (s <| k_procs ::= <[i := f p]> |>).
Proof. intros H. unfold upd_proc. by rewrite (bind_done _ _ _ _ _ (get_proc_done _ _ _ H)). Qed.

Ltac kprim H :=
  lazymatch type of H with
  | ret _ _ = Done _ _ => apply ret_inv in H as [? ->]
  | gets _ _ = Done _ _ => apply gets_inv in H as [? ->]
  | modify _ _ = Done _ _ => apply modify_inv in H
  | upd_mem _ _ = Done _ _ => apply modify_inv in H
  | upd_csr _ _ = Done _ _ => apply modify_inv in H
  | kload64 _ _ = Done _ _ => apply gets_inv in H as [? ->]
  | kstore64 _ _ _ = Done _ _ => apply modify_inv in H
  | must _ _ _ = Done _ _ => apply must_inv in H as [H ->]
  | nonnull _ _ = Done _ _ => apply must_inv in H as [H ->]
  | get_proc _ _ = Done _ _ => apply get_proc_inv in H as [H ->]
  | upd_proc _ _ _ = Done _ _ => apply upd_proc_inv in H as (? & ? & H)
  | _ => idtac
  end.

Ltac kinv H :=
  let a := fresh "a" in let s1 := fresh "s" in let H1 := fresh "Hrun" in
  apply bind_inv in H as (a & s1 & H1 & H); cbv beta in H; kprim H1.
