(* ===== verification/Strings.v ===== *)
(** * kernel/string.c

    The memory and string routines of the kernel.  [memset] and [memmove] act
    on physical memory; the string routines act on the bytes of a buffer. *)

From S2P Require Import Prelude Machine.

(** ** Definitions *)

Fixpoint memset (m : gmap Z Z) (dst c : Z) (n : nat) : gmap Z Z :=
  match n with
  | O => m
  | S n => memset (<[dst := u8 c]> m) (dst + 1) c n
  end.

Fixpoint memcmp (s1 s2 : list Z) (n : nat) : Z :=
  match n with
  | O => 0
  | S n =>
      if negb (deref s1 =? deref s2) then deref s1 - deref s2
      else memcmp (tail s1) (tail s2) n
  end.

(** [while(n-- > 0) *d++ = *s++;] *)
Fixpoint copy_up (m : gmap Z Z) (d s : Z) (n : nat) : gmap Z Z :=
  match n with
  | O => m
  | S n => copy_up (<[d := mread m s]> m) (d + 1) (s + 1) n
  end.

(** [while(n-- > 0) *--d = *--s;] *)
Fixpoint copy_down (m : gmap Z Z) (d s : Z) (n : nat) : gmap Z Z :=
  match n with
  | O => m
  | S n => copy_down (<[d - 1 := mread m (s - 1)]> m) (d - 1) (s - 1) n
  end.

Definition memmove (m : gmap Z Z) (dst src : Z) (n : nat) : gmap Z Z :=
  match n with
  | O => m
  | _ =>
      if (src <? dst) && (dst <? src + Z.of_nat n) then
        copy_down m (dst + Z.of_nat n) (src + Z.of_nat n) n
      else copy_up m dst src n
  end.

Fixpoint strncmp (p q : list Z) (n : nat) : Z :=
  match n with
  | O => 0
  | S n =>
      if negb (deref p =? 0) && (deref p =? deref q) then strncmp (tail p) (tail q) n
      else u8 (deref p) - u8 (deref q)
  end.

(** The [n] bytes [strncpy] writes. *)
Fixpoint strncpy (t : list Z) (n : nat) : list Z :=
  match n with
  | O => []
  | S n => deref t :: (if deref t =? 0 then replicate n 0 else strncpy (tail t) n)
  end.

(** The bytes [safestrcpy] writes, from the start of its destination. *)
Fixpoint safestrcpy_bytes (t : list Z) (n : nat) : list Z :=
  match n with
  | O => []
  | S O => [0]
  | S n => if deref t =? 0 then [0; 0] else deref t :: safestrcpy_bytes (tail t) n
  end.

Definition safestrcpy (s t : list Z) (n : nat) : list Z :=
  splice s 0 (safestrcpy_bytes t n).

Fixpoint strlen (s : list Z) : Z :=
  match s with
  | [] => 0
  | c :: s => if c =? 0 then 0 else 1 + strlen s
  end.

(** ** Memory routines against byte-list stores *)

Lemma memset_mstore m dst c n : memset m dst c n = mstore m dst (replicate n (u8 c)).
Proof. revert m dst; induction n as [|n IH]; intros; simpl; [done | apply IH]. Qed.

Lemma lookup_mstore m a bs a' :
  mstore m a bs !! a' =
    if decide (a ≤ a' < a + Z.of_nat (length bs)) then bs !! Z.to_nat (a' - a) else m !! a'.
Proof.
  revert m a; induction bs as [|c bs IH]; intros m a; simpl.
  { case_decide; [lia | done]. }
  rewrite IH, lookup_insert. repeat case_decide; try lia; subst.
  - replace (Z.to_nat (a' - a)) with (S (Z.to_nat (a' - (a + 1)))) by lia. done.
  - by rewrite Z.sub_diag.
  - done.
Qed.

Lemma lookup_copy_up m d s n a :
  d ≤ s ∨ s + Z.of_nat n ≤ d →
  copy_up m d s n !! a =
    if decide (d ≤ a < d + Z.of_nat n) then Some (mread m (s + (a - d))) else m !! a.
Proof.
  revert m d s; induction n as [|n IH]; intros m d s H; simpl.
  { case_decide; [lia | done]. }
  rewrite IH, lookup_insert, mread_insert by lia.
  repeat case_decide; try lia; subst; f_equal; f_equal; lia.
Qed.

Lemma lookup_copy_down m d s n a :
  s ≤ d →
  copy_down m d s n !! a =
    if decide (d - Z.of_nat n ≤ a < d) then Some (mread m (s - (d - a))) else m !! a.
Proof.
  revert m d s; induction n as [|n IH]; intros m d s H; simpl.
  { case_decide; [lia | done]. }
  rewrite IH, lookup_insert, mread_insert by lia.
  repeat case_decide; try lia; subst; f_equal; f_equal; lia.
Qed.

Lemma memmove_mstore m dst src n : memmove m dst src n = mstore m dst (mload m src n).
Proof.
  apply map_eq. intros a. rewrite lookup_mstore, length_mload. unfold memmove.
  destruct n as [|n']; [case_decide; [lia | done] |].
  set (n := S n') in *. clearbody n.
  destruct (Z.ltb_spec src dst); simpl; [destruct (Z.ltb_spec dst (src + Z.of_nat n)) |].
  - rewrite lookup_copy_down by lia. repeat case_decide; try lia; [| done].
    rewrite lookup_mload by lia. do 2 f_equal. lia.
  - rewrite lookup_copy_up by lia. repeat case_decide; try lia; [| done].
    rewrite lookup_mload by lia. do 2 f_equal. lia.
  - rewrite lookup_copy_up by lia. repeat case_decide; try lia; [| done].
    rewrite lookup_mload by lia. do 2 f_equal. lia.
Qed.

(** ** String routines *)

Lemma deref_byte l : Forall is_byte l → is_byte (deref l).
Proof. destruct 1; simpl; [unfold is_byte; lia | done]. Qed.

Lemma tail_bytes l : Forall is_byte l → Forall is_byte (tail l).
Proof. destruct 1; simpl; auto. Qed.

Lemma u8_byte x : is_byte x → u8 x = x.
Proof. apply Z.mod_small. Qed.

Lemma cstr_unfold l : cstr l = if deref l =? 0 then [] else deref l :: cstr (tail l).
Proof. by destruct l. Qed.

Lemma strncmp_0 p q n :
  Forall is_byte p → Forall is_byte q →
  strncmp p q n = 0 ↔ take n (cstr p) = take n (cstr q).
Proof.
  revert p q; induction n as [|n IH]; intros p q Hp Hq; [done |].
  cbn [strncmp]. rewrite (cstr_unfold p), (cstr_unfold q).
  rewrite !u8_byte by (by apply deref_byte).
  destruct (Z.eqb_spec (deref p) 0) as [Ep|Ep]; simpl.
  - rewrite Ep. destruct (Z.eqb_spec (deref q) 0) as [Eq|Eq]; simpl; split; intros; try done; lia.
  - destruct (Z.eqb_spec (deref p) (deref q)) as [E|E].
    + rewrite (IH (tail p) (tail q)) by (by apply tail_bytes).
      rewrite <- E. rewrite (proj2 (Z.eqb_neq _ _) Ep). simpl. split; congruence.
    + split; [lia |]. destruct (deref q =? 0); simpl; congruence.
Qed.

Lemma strlen_cstr s : strlen s = Z.of_nat (length (cstr s)).
Proof. induction s as [|c s IH]; simpl; [done |]. destruct (c =? 0); simpl; lia. Qed.

Lemma length_strncpy t n : length (strncpy t n) = n.
Proof.
  revert t; induction n as [|n IH]; intros t; simpl; [done |].
  f_equal. destruct (deref t =? 0); [apply length_replicate | apply IH].
Qed.

Lemma cstr_strncpy t n : cstr (strncpy t n) = take n (cstr t).
Proof.
  revert t; induction n as [|n IH]; intros t; [done |].
  cbn [strncpy]. rewrite (cstr_unfold t). cbn [cstr].
  destruct (deref t =? 0); simpl; [done |]. by rewrite IH.
Qed.

Lemma length_safestrcpy_bytes t n : (length (safestrcpy_bytes t n) ≤ n)%nat.
Proof.
  revert t; induction n as [|[|n] IH]; intros t; [done | done |].
  cbn [safestrcpy_bytes]. destruct (deref t =? 0); simpl; [lia |].
  specialize (IH (tail t)). simpl in IH. lia.
Qed.

Lemma safestrcpy_bytes_shape t n :
  (0 < n)%nat →
  ∃ r, safestrcpy_bytes t n = take (n - 1) (cstr t) ++ 0 :: r.
Proof.
  revert t; induction n as [|[|n] IH]; intros t Hn; [lia | by exists [] |].
  change (safestrcpy_bytes t (S (S n))) with
    (if deref t =? 0 then [0; 0] else deref t :: safestrcpy_bytes (tail t) (S n)).
  rewrite cstr_unfold. destruct (deref t =? 0).
  - by exists [0].
  - destruct (IH (tail t)) as [r Hr]; [lia |]. exists r. rewrite Hr.
    replace (S (S n) - 1)%nat with (S (S n - 1)) by lia. done.
Qed.

(** The destination of [safestrcpy] is always NUL-terminated and holds the
    longest prefix of the source that leaves room for the NUL. *)
Lemma cstr_safestrcpy s t n :
  (0 < n ≤ length s)%nat → cstr (safestrcpy s t n) = take (n - 1) (cstr t).
Proof.
  intros Hn. unfold safestrcpy, splice.
  destruct (safestrcpy_bytes_shape t n) as [r Hr]; [lia |].
  rewrite take_0, app_nil_l, Hr, <- app_assoc. simpl.
  apply cstr_app_nul. apply Forall_take, cstr_nonzero.
Qed.

#[global] Arguments memset : simpl never.

(** ** Theorems *)

(** [memmove] is correct for overlapping ranges.  For every source,
    destination and length, the destination afterwards holds what the source held
    before, and no byte outside the destination changes. *)
Theorem memmove_correct m dst src n :
  mload (memmove m dst src n) dst n = mload m src n ∧
  ∀ a, a < dst ∨ dst + Z.of_nat n ≤ a → mread (memmove m dst src n) a = mread m a.
Proof.
  rewrite memmove_mstore. split.
  - rewrite <-(length_mload m src n) at 2. apply mload_mstore.
  - intros a Ha. apply mread_mstore_out. by rewrite length_mload.
Qed.

(** The string functions.  [strncmp] is zero exactly when the first [n]
    characters agree; [strncpy] fills exactly [n] bytes with the first [n]
    characters; [safestrcpy] leaves a NUL-terminated string of at most [n-1]
    characters that is a prefix of the source; [strlen] counts the characters
    before the NUL. *)
Theorem string_functions_correct s t n :
  Forall is_byte s → Forall is_byte t →
  (strncmp s t n = 0 ↔ take n (cstr s) = take n (cstr t)) ∧
  length (strncpy t n) = n ∧ cstr (strncpy t n) = take n (cstr t) ∧
  ((0 < n ≤ length s)%nat → cstr (safestrcpy s t n) = take (n - 1) (cstr t)) ∧
  strlen s = Z.of_nat (length (cstr s)).
Proof.
  intros Hs Ht. split; [by apply strncmp_0 |]. split; [apply length_strncpy |].
  split; [apply cstr_strncpy |]. split; [apply cstr_safestrcpy | apply strlen_cstr].
Qed.
