(* ===== verification/Sched.v ===== *)
(** * Locks, the current process, sleep and wakeup (kernel/proc.c)

    Spin locks appear here through what they promise to one CPU (Spinlock.v
    runs kernel/spinlock.c itself on many CPUs and proves this interface): the CPU keeps
    the list of the locks it holds, whose length is [mycpu()->noff]; taking a
    held lock or releasing one that is not held panics. *)

From S2P Require Import Prelude Machine Kstate Logic.

Section sched.
Context {E : Env}.

Definition holding (lk : lockid) : K bool := gets (fun s => bool_decide (lk ∈ k_held s)).

Definition acquire (lk : lockid) : K unit :=
  h ← holding lk;
  if (h : bool) then kpanic "acquire" else modify (fun s => s <| k_held ::= cons lk |>).

Definition release (lk : lockid) : K unit :=
  h ← holding lk;
  if negb h then kpanic "release"
  else modify (fun s => s <| k_held ::= filter (λ l, l ≠ lk) |>).

(** [myproc] may be null; [curproc] is its use as a pointer. *)
Definition myproc : K (option nat) := gets k_cur.
Definition curproc : K nat := p ← myproc; nonnull p.

Definition swtch : K unit := fun s =>
  match env_swtch s with Some s' => Done tt s' | None => Wait s end.

Definition sched : K unit :=
  p ← curproc;
  h ← holding (LkProc p);
  if negb h then kpanic "sched p->lock"
  else
    noff ← gets (fun s => length (k_held s));
    if negb (noff =? 1)%nat then kpanic "sched locks"
    else
      pr ← get_proc p;
      if decide (p_state pr = RUNNING) then kpanic "sched RUNNING"
      else swtch.

Definition yield : K unit :=
  p ← curproc;
  acquire (LkProc p);;
  upd_proc p (fun x => x <| p_state := RUNNABLE |>);;
  sched;;
  release (LkProc p).

Definition sleep (ch : chan) (lk : lockid) : K unit :=
  p ← curproc;
  acquire (LkProc p);;
  release lk;;
  upd_proc p (fun x => x <| p_chan := Some ch |> <| p_state := SLEEPING |>);;
  sched;;
  upd_proc p (fun x => x <| p_chan := None |>);;
  release (LkProc p);;
  acquire lk.

Definition wakeup (ch : option chan) : K unit :=
  for_each (seq 0 NPROC) (fun i =>
    me ← myproc;
    if decide (me = Some i) then ret tt
    else
      acquire (LkProc i);;
      p ← get_proc i;
      (if decide (p_state p = SLEEPING ∧ p_chan p = ch)
       then upd_proc i (fun x => x <| p_state := RUNNABLE |>)
       else ret tt);;
      release (LkProc i)).

Definition kkill (pid : Z) : K Z :=
  r ← for_until (seq 0 NPROC) (fun i =>
    acquire (LkProc i);;
    p ← get_proc i;
    if p_pid p =? pid then
      upd_proc i (fun x => x <| p_killed := 1 |>);;
      (if decide (p_state p = SLEEPING)
       then upd_proc i (fun x => x <| p_state := RUNNABLE |>)
       else ret tt);;
      release (LkProc i);;
      ret (Some 0)
    else
      release (LkProc i);;
      ret None);
  ret (default (-1) r).

Definition setkilled (p : nat) : K unit :=
  acquire (LkProc p);;
  upd_proc p (fun x => x <| p_killed := 1 |>);;
  release (LkProc p).

Definition killed (p : nat) : K Z :=
  acquire (LkProc p);;
  pr ← get_proc p;
  release (LkProc p);;
  ret (p_killed pr).

(** ** kernel/sleeplock.c *)

Definition get_sleeplock (l : sleepid) : K sleeplock :=
  match l with
  | SlInode i => x ← get_inode i; ret (i_lock x)
  | SlBuf i => x ← get_buf i; ret (b_lock x)
  end.
Definition set_sleeplock (l : sleepid) (v : sleeplock) : K unit :=
  match l with
  | SlInode i => upd_inode i (fun x => x <| i_lock := v |>)
  | SlBuf i => upd_buf i (fun x => x <| b_lock := v |>)
  end.

Definition acquiresleep (l : sleepid) : K unit :=
  acquire (LkSleep l);;
  wait_loop (fun _ : unit =>
    sl ← get_sleeplock l;
    if negb (sl_locked sl =? 0) then sleep (ChSleep l) (LkSleep l);; ret (inl tt)
    else ret (inr tt)) tt;;
  p ← curproc;
  pr ← get_proc p;
  set_sleeplock l (mkSleeplock 1 (p_pid pr));;
  release (LkSleep l).

Definition releasesleep (l : sleepid) : K unit :=
  acquire (LkSleep l);;
  set_sleeplock l (mkSleeplock 0 0);;
  wakeup (Some (ChSleep l));;
  release (LkSleep l).

Definition holdingsleep (l : sleepid) : K bool :=
  acquire (LkSleep l);;
  sl ← get_sleeplock l;
  p ← curproc;
  pr ← get_proc p;
  release (LkSleep l);;
  ret (negb (sl_locked sl =? 0) && (sl_pid sl =? p_pid pr)).

End sched.

(** ** What the locks promise *)

Lemma acquire_done lk s :
  lk ∉ k_held s → acquire lk s = Done tt (s <| k_held ::= cons lk |>).
Proof.
  intros H. unfold acquire, holding. rewrite bind_unfold. simpl.
  by rewrite bool_decide_false.
Qed.

Lemma acquire_inv lk a s s' :
  acquire lk s = Done a s' → ¬ (lk ∈ k_held s) ∧ s' = (s <| k_held ::= cons lk |>).
Proof.
  unfold acquire, holding. intros (h & s1 & H1 & H2)%bind_inv.
  apply gets_inv in H1 as [-> ->]. case_bool_decide; [done |]. by apply modify_inv in H2.
Qed.

Lemma release_inv lk a s s' :
  release lk s = Done a s' → lk ∈ k_held s ∧ s' = (s <| k_held ::= filter (λ l, l ≠ lk) |>).
Proof.
  unfold release, holding. intros (h & s1 & H1 & H2)%bind_inv.
  apply gets_inv in H1 as [-> ->]. case_bool_decide; [| done]. by apply modify_inv in H2.
Qed.

Lemma filter_release lk (h : list lockid) : lk ∉ h → filter (λ l, l ≠ lk) (lk :: h) = h.
Proof.
  intros H. rewrite filter_cons_False by naive_solver.
  apply list_filter_all. apply Forall_forall. naive_solver.
Qed.

Lemma acquire_release_id lk s :
  lk ∉ k_held s → (s <| k_held ::= cons lk |> <| k_held ::= filter (λ l, l ≠ lk) |>) = s.
Proof.
  intros H. transitivity (s <| k_held := filter (λ l, l ≠ lk) (lk :: k_held s) |>); [done |].
  rewrite filter_release by done. by destruct s.
Qed.

(** Releasing the lock taken last restores the list of held locks. *)
Lemma release_done lk h s :
  k_held s = lk :: h → lk ∉ h → release lk s = Done tt (s <| k_held := h |>).
Proof.
  intros Hh Hlk. unfold release, holding. rewrite bind_unfold. simpl.
  rewrite bool_decide_true by (rewrite Hh; set_solver). simpl.
  unfold modify. f_equal. rewrite Hh, filter_release by done. done.
Qed.

Lemma curproc_inv p s s' : curproc s = Done p s' → k_cur s = Some p ∧ s' = s.
Proof.
  unfold curproc, myproc. intros H. kinv H. kprim H. by subst.
Qed.

Lemma curproc_done p s : k_cur s = Some p → curproc s = Done p s.
Proof. intros H. unfold curproc, myproc. rewrite bind_unfold. simpl. by rewrite H. Qed.

Ltac kprim H ::=
  lazymatch type of H with
  | ret _ _ = Done _ _ => apply ret_inv in H as [? ->]
  | gets _ _ = Done _ _ => apply gets_inv in H as [? ->]
  | modify _ _ = Done _ _ => apply modify_inv in H
  | upd_mem _ _ = Done _ _ => apply modify_inv in H
  | upd_csr _ _ = Done _ _ => apply modify_inv in H
  | kload64 _ _ = Done _ _ => apply gets_inv in H as [? ->]
  | kstore64 _ _ _ = Done _ _ => apply modify_inv in H
  | must _ _ _ = Done _ _ => apply must_inv in H as [H ->]
  | nonnull _ _ = Done _ _ => apply must_inv in H as [H ->]
  | get_proc _ _ = Done _ _ => apply get_proc_inv in H as [H ->]
  | upd_proc _ _ _ = Done _ _ => apply upd_proc_inv in H as (? & ? & H)
  | acquire _ _ = Done _ _ => apply acquire_inv in H as [? H]
  | release _ _ = Done _ _ => apply release_inv in H as [? H]
  | curproc _ = Done _ _ => apply curproc_inv in H as [H ->]
  | myproc _ = Done _ _ => apply gets_inv in H as [? ->]
  | _ => idtac
  end.

(** ** Effect of wakeup and kkill on the process table *)

(** An entry's lock is taken and released around an update of that entry. *)
Lemma locked_update i p (f : proc → proc) s :
  k_procs s !! i = Some p → LkProc i ∉ k_held s →
  (acquire (LkProc i);; upd_proc i f;; release (LkProc i)) s =
    Done tt (s <| k_procs ::= <[i := f p]> |>).
Proof.
  intros Hp Hlk. rewrite (bind_done _ _ _ _ _ (acquire_done _ _ Hlk)).
  erewrite bind_done by (apply upd_proc_done; simpl; exact Hp).
  erewrite release_done by (simpl; done || exact Hlk). by destruct s.
Qed.

(** What [wakeup] does to entry [i] when process [me] calls it. *)
Definition wake_entry (ch : option chan) (me : option nat) (i : nat) (p : proc) : proc :=
  if decide (me ≠ Some i ∧ p_state p = SLEEPING ∧ p_chan p = ch)
  then p <| p_state := RUNNABLE |> else p.

(** What [kkill] does to the entry it finds. *)
Definition kill_entry (p : proc) : proc :=
  let p := p <| p_killed := 1 |> in
  if decide (p_state p = SLEEPING) then p <| p_state := RUNNABLE |> else p.

Lemma insert_id_state i p s :
  k_procs s !! i = Some p → (s <| k_procs ::= <[i := p]> |>) = s.
Proof. intros H. destruct s; simpl in *. by rewrite list_insert_id. Qed.

(** The list after the entries [k, k + n) have been updated by [f]. *)
Definition map_range {A} (f : nat → A → A) (k n : nat) (l : list A) : list A :=
  imap (λ i x, if decide (k ≤ i < k + n)%nat then f i x else x) l.

Lemma map_range_0 {A} (f : nat → A → A) k (l : list A) : map_range f k 0 l = l.
Proof.
  apply list_eq. intros i. unfold map_range. rewrite list_lookup_imap.
  destruct (l !! i); simpl; [|done]. by rewrite decide_False by lia.
Qed.

Lemma map_range_S {A} (f : nat → A → A) k n (l : list A) x :
  l !! k = Some x → map_range f (S k) n (<[k := f k x]> l) = map_range f k (S n) l.
Proof.
  intros Hx. apply list_eq. intros i. unfold map_range. rewrite !list_lookup_imap.
  destruct (decide (i = k)) as [->|Hik].
  - rewrite list_lookup_insert_eq by (apply lookup_lt_is_Some; eauto). rewrite Hx. simpl.
    by rewrite decide_False, decide_True by lia.
  - rewrite list_lookup_insert_ne by done. destruct (l !! i); simpl; [|done].
    f_equal. do 2 case_decide; done || lia.
Qed.

Lemma map_range_all {A} (f : nat → A → A) n (l : list A) :
  length l = n → map_range f 0 n l = imap f l.
Proof.
  intros <-. apply list_eq. intros i. unfold map_range. rewrite !list_lookup_imap.
  destruct (l !! i) eqn:Hi; simpl; [|done]. apply lookup_lt_Some in Hi.
  by rewrite decide_True by lia.
Qed.

(** A loop over the table whose body updates the entry it visits. *)
Lemma for_each_table (body : nat → K unit) (f : nat → proc → proc) n k s :
  (∀ i p s1, k_procs s1 !! i = Some p → k_held s1 = k_held s → k_cur s1 = k_cur s →
     body i s1 = Done tt (s1 <| k_procs ::= <[i := f i p]> |>)) →
  (k + n ≤ length (k_procs s))%nat →
  for_each (seq k n) body s = Done tt (s <| k_procs ::= map_range f k n |>).
Proof.
  revert k s. induction n as [|n IH]; intros k s Hb Hlen; simpl.
  - rewrite map_range_0. by destruct s.
  - destruct (lookup_lt_is_Some_2 (k_procs s) k) as [p Hp]; [lia |].
    rewrite (bind_done _ _ _ _ _ (Hb _ _ _ Hp eq_refl eq_refl)).
    rewrite IH; [| intros; by apply Hb | simpl; rewrite length_insert; lia].
    simpl. by rewrite map_range_S.
Qed.

Lemma wakeup_body ch i p s :
  k_procs s !! i = Some p → (∀ j, LkProc j ∉ k_held s) →
  (me ← myproc;
   if decide (me = Some i) then ret tt
   else
     acquire (LkProc i);;
     p ← get_proc i;
     (if decide (p_state p = SLEEPING ∧ p_chan p = ch)
      then upd_proc i (fun x => x <| p_state := RUNNABLE |>)
      else ret tt);;
     release (LkProc i)) s =
  Done tt (s <| k_procs ::= <[i := wake_entry ch (k_cur s) i p]> |>).
Proof.
  intros Hp Hlk. rewrite bind_unfold. cbn [myproc gets]. unfold wake_entry.
  destruct (decide (k_cur s = Some i)) as [Hme|Hme].
  { rewrite decide_False by tauto. by rewrite insert_id_state by done. }
  rewrite (bind_done _ _ _ _ _ (acquire_done _ _ (Hlk i))).
  erewrite bind_done by (apply get_proc_done; simpl; exact Hp).
  destruct (decide (p_state p = SLEEPING ∧ p_chan p = ch)) as [Hs|Hs].
  - erewrite bind_done by (apply upd_proc_done; simpl; exact Hp).
    erewrite release_done by (simpl; done || apply Hlk).
    rewrite decide_True by done. by destruct s.
  - rewrite decide_False by tauto. rewrite bind_unfold. cbn [ret].
    erewrite release_done by (simpl; done || apply Hlk).
    rewrite insert_id_state by done. by destruct s.
Qed.

(** Functional specification of [wakeup]: exactly the entries sleeping on the
    channel, other than the caller's, become RUNNABLE. *)
Lemma wakeup_done {E : Env} ch s :
  length (k_procs s) = NPROC → (∀ j, LkProc j ∉ k_held s) →
  wakeup ch s = Done tt (s <| k_procs ::= imap (wake_entry ch (k_cur s)) |>).
Proof.
  intros Hlen Hlk. unfold wakeup.
  rewrite (for_each_table _ (wake_entry ch (k_cur s))); [| |lia].
  - simpl. by rewrite map_range_all.
  - intros i p s1 Hp Hh Hc. rewrite <-Hc. apply wakeup_body; [done |]. by rewrite Hh.
Qed.

Lemma kkill_body i p pid s :
  k_procs s !! i = Some p → LkProc i ∉ k_held s →
  (acquire (LkProc i);;
   p ← get_proc i;
   if p_pid p =? pid then
     upd_proc i (fun x => x <| p_killed := 1 |>);;
     (if decide (p_state p = SLEEPING)
      then upd_proc i (fun x => x <| p_state := RUNNABLE |>)
      else ret tt);;
     release (LkProc i);;
     ret (Some 0)
   else
     release (LkProc i);;
     ret None) s =
  if p_pid p =? pid then Done (Some 0) (s <| k_procs ::= <[i := kill_entry p]> |>)
  else Done None s.
Proof.
  intros Hp Hlk. pose proof (lookup_lt_Some _ _ _ Hp) as Hlt.
  rewrite (bind_done _ _ _ _ _ (acquire_done _ _ Hlk)).
  erewrite bind_done by (apply get_proc_done; simpl; exact Hp).
  destruct (p_pid p =? pid).
  2: { erewrite bind_done by (eapply release_done; [reflexivity | exact Hlk]). by destruct s. }
  erewrite bind_done by (apply upd_proc_done; simpl; exact Hp).
  unfold kill_entry. simpl. destruct (decide (p_state p = SLEEPING)) as [Hs|Hs].
  - erewrite bind_done by (apply upd_proc_done; simpl; by apply list_lookup_insert_eq).
    erewrite bind_done by (eapply release_done; [reflexivity | exact Hlk]).
    destruct s; simpl. by rewrite list_insert_insert_eq.
  - rewrite bind_unfold. cbn [ret].
    erewrite bind_done by (eapply release_done; [reflexivity | exact Hlk]). by destruct s.
Qed.

(** Functional specification of [kkill]: the first entry with the pid is marked
    killed and, if it sleeps, made runnable; without such an entry nothing
    changes and the result is -1. *)
Lemma kkill_done {E : Env} pid s :
  length (k_procs s) = NPROC → (∀ j, LkProc j ∉ k_held s) →
  kkill pid s =
    match list_find (λ p, p_pid p = pid) (k_procs s) with
    | Some (i, p) => Done 0 (s <| k_procs ::= <[i := kill_entry p]> |>)
    | None => Done (-1) s
    end.
Proof.
  intros Hlen Hlk. unfold kkill.
  set (body := fun i => _ : K (option Z)).
  assert (Hb : ∀ i p, k_procs s !! i = Some p → body i s =
    if p_pid p =? pid then Done (Some 0) (s <| k_procs ::= <[i := kill_entry p]> |>)
    else Done None s) by (intros i p Hp; by apply kkill_body).
  clearbody body.
  enough (H : ∀ n k, (k + n = length (k_procs s))%nat →
    for_until (seq k n) body s =
      match list_find (λ p, p_pid p = pid) (drop k (k_procs s)) with
      | Some (i, p) => Done (Some 0) (s <| k_procs ::= <[(k + i)%nat := kill_entry p]> |>)
      | None => Done None s
      end).
  { rewrite bind_unfold, H by lia. rewrite drop_0. by destruct (list_find _ _) as [[i p]|]. }
  induction n as [|n IH]; intros k Hk.
  { rewrite drop_ge by lia. done. }
  destruct (lookup_lt_is_Some_2 (k_procs s) k) as [p Hp]; [lia |].
  rewrite (drop_S _ p) by done. cbn [seq for_until list_find].
  rewrite bind_unfold, (Hb _ _ Hp).
  destruct (Z.eqb_spec (p_pid p) pid) as [Heq|Hne].
  - rewrite decide_True by done. cbn. by rewrite Nat.add_0_r.
  - rewrite decide_False by done. rewrite IH by lia.
    destruct (list_find _ _) as [[i q]|]; cbn; [|done]. by rewrite Nat.add_succ_r.
Qed.

(** ** Theorems *)

(** [wakeup] wakes exactly the processes waiting on the channel.  From a
    state in which the CPU holds no process lock it always returns, makes
    RUNNABLE every entry that sleeps on the channel except the caller's own, and
    changes nothing else; all locks it took are released. *)
Theorem wakeup_exact {E : Env} ch s :
  length (k_procs s) = NPROC → (∀ j, LkProc j ∉ k_held s) →
  ∃ ps, wakeup ch s = Done tt (s <| k_procs := ps |>) ∧ length ps = NPROC ∧
    ∀ i p, k_procs s !! i = Some p → ps !! i = Some
      (if decide (k_cur s ≠ Some i ∧ p_state p = SLEEPING ∧ p_chan p = ch)
       then p <| p_state := RUNNABLE |> else p).
Proof.
  intros Hlen Hlk. rewrite wakeup_done by done. exists (imap (wake_entry ch (k_cur s)) (k_procs s)).
  split; [done |]. split; [by rewrite length_imap |].
  intros i p Hp. by rewrite list_lookup_imap, Hp.
Qed.

(** [kkill] marks one process.  The first entry with the pid is marked killed
    and, if it sleeps, made runnable so that it can exit; no other entry changes;
    if there is no such entry the result is -1 and nothing changes. *)
Theorem kkill_exact {E : Env} pid s :
  length (k_procs s) = NPROC → (∀ j, LkProc j ∉ k_held s) →
  match list_find (λ p, p_pid p = pid) (k_procs s) with
  | Some (i, p) => ∃ p', kkill pid s = Done 0 (s <| k_procs ::= <[i := p']> |>) ∧
      p_killed p' = 1 ∧
      p_state p' = (if decide (p_state p = SLEEPING) then RUNNABLE else p_state p) ∧
      p' = p <| p_killed := 1 |> <| p_state := p_state p' |>
  | None => kkill pid s = Done (-1) s
  end.
Proof.
  intros Hlen Hlk. rewrite kkill_done by done. destruct (list_find _ _) as [[i p]|]; [| done].
  exists (kill_entry p). split; [done |]. unfold kill_entry. simpl.
  destruct (decide (p_state p = SLEEPING)); by destruct p.
Qed.
