(* ===== verification/Spinlock.v ===== *)
(** * Spin locks on several CPUs (kernel/spinlock.c)

    The rest of the development runs one CPU and uses a lock through what it
    promises (Sched.v).  Here is the code that keeps the promise: [acquire] and
    [release] run step by step, one access to shared memory at a time, on any
    number of CPUs that are interleaved arbitrarily.  Between the calls a CPU
    asks for any lock, releases any lock, or switches its interrupts. *)

From stdpp Require Import relations.
From S2P Require Import Prelude.

(** ** kernel/spinlock.h and the fields of struct cpu it uses *)

Record spinlock := mkLock { lk_locked : Z; lk_cpu : option nat }.
#[global] Instance eta_spinlock : Settable spinlock := fun l => mkLock (lk_locked l) (lk_cpu l).

(** Where a CPU is in [acquire] or [release]; the next access is named. *)
Inductive pc :=
  | Idle
  | AcqLocked (lk : nat)   (* holding(): read lk->locked *)
  | AcqCpu (lk : nat)      (* holding(): read lk->cpu *)
  | AcqSpin (lk : nat)     (* __sync_lock_test_and_set *)
  | AcqRecord (lk : nat)   (* lk->cpu = mycpu() *)
  | RelLocked (lk : nat)   (* holding(): read lk->locked *)
  | RelCpu (lk : nat)      (* holding(): read lk->cpu *)
  | RelClear (lk : nat)    (* lk->cpu = 0 *)
  | RelUnlock (lk : nat)   (* __sync_lock_release *)
  | RelPop (lk : nat)      (* pop_off() *)
  | Panicked (msg : string).

(** [c_held] is a history variable: the locks whose swap this CPU won and that it
    has not unlocked since; no step reads it. *)
Record cpu := mkCpu {
  c_noff : Z;
  c_intena : bool;
  c_sie : bool;                (* interrupts enabled, sstatus.SIE *)
  c_pc : pc;
  c_held : list nat;
}.
#[global] Instance eta_cpu : Settable cpu := fun c =>
  mkCpu (c_noff c) (c_intena c) (c_sie c) (c_pc c) (c_held c).

Record machine := mkMachine { m_cpus : list cpu; m_locks : list spinlock }.
#[global] Instance eta_machine : Settable machine := fun m => mkMachine (m_cpus m) (m_locks m).

(** ** The functions of one CPU *)

Definition initlock : spinlock := mkLock 0 None.

Definition push_off (c : cpu) : cpu :=
  let old := c_sie c in
  let c := c <| c_sie := false |> in
  let c := if c_noff c =? 0 then c <| c_intena := old |> else c in
  c <| c_noff := c_noff c + 1 |>.

Definition pop_off (c : cpu) : cpu :=
  if c_sie c then c <| c_pc := Panicked "pop_off - interruptible" |>
  else if c_noff c <? 1 then c <| c_pc := Panicked "pop_off" |>
  else
    let c := c <| c_noff := c_noff c - 1 |> in
    let c := if (c_noff c =? 0) && c_intena c then c <| c_sie := true |> else c in
    c <| c_pc := Idle |>.

(** What a CPU may do between calls. *)
Inductive lockop := Acquire (lk : nat) | Release (lk : nat) | IntrOn | IntrOff.

(** One step of CPU number [me], whose state is [c], on lock [l] where the step
    accesses one.  Interrupts are switched on only when no lock is held. *)
Definition cpu_step (me : nat) (op : lockop) (c : cpu) (l : spinlock) : option (cpu * spinlock) :=
  match c_pc c with
  | Idle =>
      match op with
      | Acquire lk => Some ((push_off c) <| c_pc := AcqLocked lk |>, l)
      | Release lk => Some (c <| c_pc := RelLocked lk |>, l)
      | IntrOn => if c_noff c =? 0 then Some (c <| c_sie := true |>, l) else None
      | IntrOff => if c_noff c =? 0 then Some (c <| c_sie := false |>, l) else None
      end
  | AcqLocked lk =>
      Some (c <| c_pc := if lk_locked l =? 0 then AcqSpin lk else AcqCpu lk |>, l)
  | AcqCpu lk =>
      Some (c <| c_pc := if decide (lk_cpu l = Some me) then Panicked "acquire" else AcqSpin lk |>, l)
  | AcqSpin lk =>
      if lk_locked l =? 0
      then Some (c <| c_pc := AcqRecord lk |> <| c_held ::= cons lk |>, l <| lk_locked := 1 |>)
      else Some (c, l <| lk_locked := 1 |>)
  | AcqRecord lk => Some (c <| c_pc := Idle |>, l <| lk_cpu := Some me |>)
  | RelLocked lk =>
      Some (c <| c_pc := if lk_locked l =? 0 then Panicked "release" else RelCpu lk |>, l)
  | RelCpu lk =>
      Some (c <| c_pc := if decide (lk_cpu l = Some me) then RelClear lk else Panicked "release" |>, l)
  | RelClear lk => Some (c <| c_pc := RelUnlock lk |>, l <| lk_cpu := None |>)
  | RelUnlock lk =>
      Some (c <| c_pc := RelPop lk |> <| c_held ::= filter (λ k, k ≠ lk) |>, l <| lk_locked := 0 |>)
  | RelPop lk => Some (pop_off c, l)
  | Panicked _ => None
  end.

(** The lock a step is about. *)
Definition target (op : lockop) (c : cpu) : nat :=
  match c_pc c with
  | Idle => match op with Acquire lk | Release lk => lk | _ => 0%nat end
  | AcqLocked lk | AcqCpu lk | AcqSpin lk | AcqRecord lk
  | RelLocked lk | RelCpu lk | RelClear lk | RelUnlock lk | RelPop lk => lk
  | Panicked _ => 0%nat
  end.

Definition mstep (me : nat) (op : lockop) (m : machine) : option machine :=
  c ← m_cpus m !! me;
  l ← m_locks m !! target op c;
  '(c', l') ← cpu_step me op c l;
  Some (m <| m_cpus ::= <[me := c']> |> <| m_locks ::= <[target op c := l']> |>).

Definition step (m m' : machine) : Prop := ∃ me op, mstep me op m = Some m'.

(** All locks initialised, all CPUs between calls without locks. *)
Definition initial (m : machine) : Prop :=
  Forall (λ l, l = initlock) (m_locks m) ∧
  Forall (λ c, c_noff c = 0 ∧ c_pc c = Idle ∧ c_held c = []) (m_cpus m).

Definition reachable (m : machine) : Prop := ∃ m0, initial m0 ∧ rtc step m0 m.

(** What a lock promises: a list of the held locks for each CPU; a lock is taken
    only when nobody holds it and released only by its holder. *)
Definition held_locks (m : machine) : list (list nat) := c_held <$> m_cpus m.

Inductive lock_spec (a : list (list nat)) : list (list nat) → Prop :=
  | spec_acquire i h lk : a !! i = Some h → (∀ j h', a !! j = Some h' → lk ∉ h') →
      lock_spec a (<[i := lk :: h]> a)
  | spec_release i h lk : a !! i = Some h → lk ∈ h →
      lock_spec a (<[i := filter (λ k, k ≠ lk) h]> a).

(** [n] steps of one CPU while the others stand still. *)
Fixpoint solo (me : nat) (ops : list lockop) (m : machine) : option machine :=
  match ops with
  | [] => Some m
  | op :: ops => m' ← mstep me op m; solo me ops m'
  end.

(** ** The invariant *)

(** The CPU owns [lk] and [lk->cpu] does not say so yet, or no longer. *)
Definition recording (c : cpu) (lk : nat) : bool :=
  match c_pc c with AcqRecord k | RelUnlock k => (k =? lk)%nat | _ => false end.

(** Calls of [push_off] that belong to no held lock. *)
Definition pending (p : pc) : Z :=
  match p with
  | AcqLocked _ | AcqCpu _ | AcqSpin _ | RelPop _ => 1
  | Panicked m => if decide (m = "acquire"%string) then 1 else 0
  | _ => 0
  end.

Definition pc_ok (c : cpu) : Prop :=
  match c_pc c with
  | AcqSpin lk | RelPop lk => lk ∉ c_held c
  | AcqRecord lk | RelClear lk | RelUnlock lk => lk ∈ c_held c
  | Panicked m => m = "acquire"%string ∨ m = "release"%string
  | _ => True
  end.

Record cpu_ok (nlocks : nat) (c : cpu) : Prop := {
  ok_nodup : NoDup (c_held c);
  ok_range : ∀ lk, lk ∈ c_held c → (lk < nlocks)%nat;
  ok_noff : c_noff c = Z.of_nat (length (c_held c)) + pending (c_pc c);
  ok_sie : 0 < c_noff c → c_sie c = false;
  ok_pc : pc_ok c;
}.

Inductive lock_ok (cs : list cpu) (lk : nat) : spinlock → Prop :=
  | lock_free : (∀ i c, cs !! i = Some c → lk ∉ c_held c) → lock_ok cs lk (mkLock 0 None)
  | lock_owned i c : cs !! i = Some c → lk ∈ c_held c →
      (∀ j c', cs !! j = Some c' → lk ∈ c_held c' → j = i) →
      lock_ok cs lk (mkLock 1 (if recording c lk then None else Some i)).

Record machine_ok (m : machine) : Prop := {
  ok_cpus : ∀ i c, m_cpus m !! i = Some c → cpu_ok (length (m_locks m)) c;
  ok_locks : ∀ lk l, m_locks m !! lk = Some l → lock_ok (m_cpus m) lk l;
}.

(** ** Proofs *)

Lemma initial_ok m : initial m → machine_ok m.
Proof.
  intros [Hl Hc]. rewrite Forall_lookup in Hl. rewrite Forall_lookup in Hc. split.
  - intros i c (Hn & Hp & Hh)%Hc.
    split; rewrite ?Hh, ?Hn; [constructor | set_solver | by rewrite Hp | lia | by unfold pc_ok; rewrite Hp].
  - intros lk l ->%Hl. constructor. intros i c (_ & _ & ->)%Hc. set_solver.
Qed.

(** A step of a CPU that changes neither whether it holds [lk] nor whether it is
    recording it. *)
Lemma lock_ok_frame cs me c c' lk l : cs !! me = Some c →
  (lk ∈ c_held c' ↔ lk ∈ c_held c) → recording c' lk = recording c lk →
  lock_ok cs lk l → lock_ok (<[me := c']> cs) lk l.
Proof.
  intros Hc Hh Hr Hl. pose proof (lookup_lt_Some _ _ _ Hc) as Hlt.
  assert (Hback : ∀ j x, <[me := c']> cs !! j = Some x → lk ∈ c_held x →
    ∃ y, cs !! j = Some y ∧ lk ∈ c_held y ∧ recording x lk = recording y lk).
  { intros j x [[<- [<- _]]|[_ Hx]]%list_lookup_insert_Some Hin; naive_solver. }
  destruct Hl as [Hno | i x Hx Hin Hu].
  - constructor. intros j y Hy Hin. destruct (Hback _ _ Hy Hin) as (z & Hz & Hin' & _). by eapply Hno.
  - destruct (decide (i = me)) as [-> | Hne].
    + simplify_eq. rewrite <- Hr. econstructor; [by apply list_lookup_insert_eq | by apply Hh |].
      intros j y Hy Hj. destruct (Hback _ _ Hy Hj) as (z & Hz & Hin' & _). by eapply Hu.
    + econstructor; [by rewrite list_lookup_insert_ne by done | done |].
      intros j y Hy Hj. destruct (Hback _ _ Hy Hj) as (z & Hz & Hin' & _). by eapply Hu.
Qed.

(** The lock of a CPU that holds it. *)
Lemma lock_ok_own cs me c lk l : cs !! me = Some c → lk ∈ c_held c → lock_ok cs lk l →
  l = mkLock 1 (if recording c lk then None else Some me).
Proof.
  intros Hc Hin [Hno | i x Hx Hi Hu]; [by destruct (Hno _ _ Hc) |].
  pose proof (Hu _ _ Hc Hin); by simplify_eq.
Qed.

Lemma lock_ok_keep cs me c c' lk l : cs !! me = Some c → lk ∈ c_held c → lk ∈ c_held c' →
  lock_ok cs lk l → lock_ok (<[me := c']> cs) lk (mkLock 1 (if recording c' lk then None else Some me)).
Proof.
  intros Hc Hin Hin' Hl. pose proof (lookup_lt_Some _ _ _ Hc).
  econstructor; [by apply list_lookup_insert_eq | done |].
  intros j y [[<- _]|[Hne Hy]]%list_lookup_insert_Some Hj; [done |].
  destruct Hl as [Hno | i x Hx Hi Hu]; [by destruct (Hno _ _ Hc) |].
  by rewrite (Hu _ _ Hc Hin), (Hu _ _ Hy Hj).
Qed.

(** The steps that take a free lock and give it up. *)
Lemma lock_ok_take cs me c c' lk l : cs !! me = Some c → lk ∈ c_held c' → recording c' lk = true →
  lk_locked l = 0 → lock_ok cs lk l → lock_ok (<[me := c']> cs) lk (l <| lk_locked := 1 |>).
Proof.
  intros Hc Hin Hr H0 Hl. pose proof (lookup_lt_Some _ _ _ Hc).
  destruct Hl as [Hno |]; [| done]. simpl.
  replace (mkLock 1 None) with (mkLock 1 (if recording c' lk then None else Some me)) by by rewrite Hr.
  econstructor; [by apply list_lookup_insert_eq | done |].
  intros j y [[<- _]|[Hne Hy]]%list_lookup_insert_Some Hj; [done | by destruct (Hno _ _ Hy)].
Qed.

Lemma lock_ok_drop cs me c c' lk l : cs !! me = Some c → lk ∈ c_held c → recording c lk = true →
  lk ∉ c_held c' → lock_ok cs lk l → lock_ok (<[me := c']> cs) lk (l <| lk_locked := 0 |>).
Proof.
  intros Hc Hin Hr Hout Hl. rewrite (lock_ok_own _ _ _ _ _ Hc Hin Hl), Hr. simpl. constructor.
  intros j y [[<- [<- _]]|[Hne Hy]]%list_lookup_insert_Some; [done | intros Hj].
  destruct Hl as [Hno | i x Hx Hi Hu]; [by destruct (Hno _ _ Hc) |].
  apply Hne. by rewrite (Hu _ _ Hc Hin), (Hu _ _ Hy Hj).
Qed.

Lemma filter_neq_length (lk : nat) h : NoDup h → lk ∈ h →
  length h = S (length (filter (λ k, k ≠ lk) h)).
Proof.
  intros Hnd Hin. apply list_elem_of_split in Hin as (h1 & h2 & ->).
  rewrite filter_app, filter_cons_False by auto. rewrite !length_app. simpl.
  apply NoDup_app in Hnd as (_ & H1 & [H2 _]%NoDup_cons).
  rewrite !list_filter_all; [lia | apply Forall_forall; intros x Hx ->; set_solver..].
Qed.

Section step.
Context (cs : list cpu) (nlocks me : nat) (op : lockop) (c c' : cpu) (l l' : spinlock).
Hypothesis Hc : cs !! me = Some c.
Hypothesis Hok : cpu_ok nlocks c.
Hypothesis Hn : (target op c < nlocks)%nat.
Hypothesis Hl : lock_ok cs (target op c) l.
Hypothesis Hstep : cpu_step me op c l = Some (c', l').

(** The holding test says whether this CPU has the lock, in spite of the others. *)
Lemma holding_locked : target op c ∈ c_held c → lk_locked l = 1.
Proof. intros Hin. by rewrite (lock_ok_own _ _ _ _ _ Hc Hin Hl). Qed.

Lemma holding_cpu : recording c (target op c) = false →
  lk_cpu l = Some me ↔ target op c ∈ c_held c.
Proof.
  intros Hr. split; [| intros Hin; by rewrite (lock_ok_own _ _ _ _ _ Hc Hin Hl), Hr].
  destruct Hl as [| i x Hx Hi Hu]; [done |]. simpl. destruct (recording x _); intros; by simplify_eq.
Qed.

Ltac pcs := unfold cpu_step, target, recording, pc_ok, pop_off, push_off in *;
  destruct (c_pc c) eqn:Epc; 
  try match type of Hstep with context [match op with _ => _ end] => destruct op end;
  simplify_eq/=; repeat case_match; simplify_eq/=.

Lemma step_frame lk : lk ≠ target op c →
  (lk ∈ c_held c' ↔ lk ∈ c_held c) ∧ recording c' lk = recording c lk.
Proof.
  clear Hok Hn Hl. intros Hne. pcs; rewrite ?Epc; try done; split; try done.
  all: first [apply Nat.eqb_neq; congruence | symmetry; apply Nat.eqb_neq; congruence | rewrite elem_of_cons; intuition congruence
    | rewrite list_elem_of_filter; intuition congruence].
Qed.

Ltac solve_noff := repeat case_decide; simplify_eq/=; lia.

Lemma step_cpu_ok : cpu_ok nlocks c'.
Proof.
  destruct Hok as [Hnd Hr Hno Hs Hp].
  pose proof holding_locked as HL. pose proof holding_cpu as HC. clear Hl Hc Hok.
  pcs; split; simpl; rewrite ?Epc in *; simpl in *; try done; try solve_noff.
  all: unfold pc_ok; simpl; rewrite ?Epc; try done; try (by auto).
  - intros Hin%HL. lia.
  - intros Hin. by apply HC in Hin.
  - by apply NoDup_cons.
  - intros k [-> | Hk]%elem_of_cons; auto.
  - apply elem_of_cons. by left.
  - by apply HC.
  - by apply NoDup_filter.
  - intros k [_ Hk]%list_elem_of_filter. auto.
  - pose proof (filter_neq_length lk _ Hnd Hp). lia.
  - rewrite list_elem_of_filter. naive_solver.
Qed.

Lemma step_lock_ok : lock_ok (<[me := c']> cs) (target op c) l'.
Proof.
  pose proof (ok_pc _ _ Hok) as Hp. clear Hok Hn. pose proof Hl as Hl'.
  pcs; try (eapply lock_ok_frame; [done | done | by unfold recording; rewrite ?Epc | done]).
  - apply (lock_ok_take _ _ c); [done | apply elem_of_cons; by left | apply Nat.eqb_refl | lia | done].
  - replace (mkLock 1 (lk_cpu l)) with l by (destruct Hl; done).
    by rewrite list_insert_id.
  - rewrite (lock_ok_own _ _ _ _ _ Hc Hp Hl). by eapply (lock_ok_keep _ _ c (mkCpu _ _ _ Idle _)).
  - rewrite (lock_ok_own _ _ _ _ _ Hc Hp Hl).
    pose proof (lock_ok_keep _ _ c (mkCpu (c_noff c) (c_intena c) (c_sie c) (RelUnlock lk) (c_held c))
      _ _ Hc Hp Hp Hl) as HK.
    unfold recording in HK; simpl in HK. by rewrite Nat.eqb_refl in HK.
  - apply (lock_ok_drop _ _ c); [done.. | by unfold recording; rewrite Epc, Nat.eqb_refl | | done].
    simpl. rewrite list_elem_of_filter. naive_solver.
Qed.

(** A step into a panic: the CPU asked for a lock it has, or gave one it has not. *)
Lemma step_panic msg : c_pc c' = Panicked msg →
  (c_pc c = AcqCpu (target op c) ∧ msg = "acquire"%string ∧ target op c ∈ c_held c) ∨
  ((c_pc c = RelLocked (target op c) ∨ c_pc c = RelCpu (target op c)) ∧
   msg = "release"%string ∧ target op c ∉ c_held c).
Proof.
  intros Hm. destruct Hok as [_ _ Hno Hs Hp].
  pose proof holding_locked as HL. pose proof holding_cpu as HC. clear Hl Hc Hok Hn.
  pcs; rewrite ?Epc in *; try done; simpl in *; try lia.
  - left. naive_solver.
  - right. split_and!; [by left | done |]. intros Hin%HL. lia.
  - right. split_and!; [by right | done |]. intros Hin. by apply HC in Hin.
Qed.
End step.

(** ** Every reachable state *)

Lemma mstep_inv me op m m' : mstep me op m = Some m' → ∃ c l c' l',
  m_cpus m !! me = Some c ∧ m_locks m !! target op c = Some l ∧ cpu_step me op c l = Some (c', l') ∧
  m' = mkMachine (<[me := c']> (m_cpus m)) (<[target op c := l']> (m_locks m)).
Proof.
  unfold mstep. destruct (m_cpus m !! me) as [c|] eqn:Hc; [simpl | done].
  destruct (m_locks m !! target op c) as [l|] eqn:Hl; [simpl | done].
  destruct (cpu_step me op c l) as [[c' l']|] eqn:Hs; [simpl | done].
  intros [= <-]. naive_solver.
Qed.

Lemma mstep_ok me op m m' : machine_ok m → mstep me op m = Some m' → machine_ok m'.
Proof.
  intros [HC HL] (c & l & c' & l' & Hc & Hl & Hs & ->)%mstep_inv.
  pose proof (lookup_lt_Some _ _ _ Hl) as Hlt. split; simpl; rewrite ?length_insert.
  - intros i x [[<- [<- _]]|[_ Hx]]%list_lookup_insert_Some; [| by apply (HC i)].
    by eapply step_cpu_ok; eauto.
  - intros k x [[<- [<- _]]|[Hne Hx]]%list_lookup_insert_Some; [by eapply step_lock_ok; eauto |].
    destruct (step_frame _ me _ _ _ _ _ Hc Hs k) as [Hh Hr]; [done |].
    by eapply lock_ok_frame; eauto.
Qed.

Lemma reachable_ok m : reachable m → machine_ok m.
Proof.
  intros (m0 & H0%initial_ok & Hr). induction Hr as [| a b d (me & op & Hs) _ IH]; [done |].
  apply IH. by eapply mstep_ok.
Qed.

Lemma held_locks_insert m me c' ls :
  held_locks (mkMachine (<[me := c']> (m_cpus m)) ls) = <[me := c_held c']> (held_locks m).
Proof. unfold held_locks. simpl. apply list_fmap_insert. Qed.

Lemma held_locks_id m me c : m_cpus m !! me = Some c →
  <[me := c_held c]> (held_locks m) = held_locks m.
Proof. intros Hc. apply list_insert_id. unfold held_locks. by rewrite list_lookup_fmap, Hc. Qed.

(** The steps seen through the held locks. *)
Lemma mstep_spec me op m m' : machine_ok m → mstep me op m = Some m' →
  held_locks m' = held_locks m ∨ lock_spec (held_locks m) (held_locks m').
Proof.
  intros [HC HL] (c & l & c' & l' & Hc & Hl & Hs & ->)%mstep_inv. rewrite held_locks_insert.
  pose proof (ok_pc _ _ (HC _ _ Hc)) as Hp. specialize (HL _ _ Hl).
  assert (held_locks m !! me = Some (c_held c)) as Hh by (unfold held_locks; by rewrite list_lookup_fmap, Hc).
  assert (c_held c' = c_held c → <[me := c_held c']> (held_locks m) = held_locks m) as Hid
    by (intros ->; by apply held_locks_id).
  unfold cpu_step, target, pc_ok, pop_off, push_off in *.
  destruct (c_pc c) eqn:Epc; repeat case_match; simplify_eq/=; try (left; by apply Hid); right.
  - apply spec_acquire; [done |]. intros j h. unfold held_locks. rewrite list_lookup_fmap.
    intros (x & Hx & ->)%fmap_Some. destruct HL as [Hno|]; [by eapply Hno | done].
  - by apply spec_release.
Qed.

Lemma nodup_bound (h : list nat) n : NoDup h → (∀ k, k ∈ h → (k < n)%nat) → (length h <= n)%nat.
Proof.
  intros Hnd Hlt. rewrite <- (length_seq n 0). apply submseteq_length, NoDup_submseteq; [done |].
  intros k Hk%Hlt. apply elem_of_seq. lia.
Qed.

(** [push_off] and [pop_off] on the fields. *)
Lemma acquire_starts me lk n ie sie h l : cpu_step me (Acquire lk) (mkCpu n ie sie Idle h) l =
  Some (mkCpu (n + 1) (if n =? 0 then sie else ie) false (AcqLocked lk) h, l).
Proof. unfold cpu_step, push_off. simpl. by destruct (n =? 0). Qed.

Lemma release_ends me o lk n ie h l : 0 ≤ n →
  cpu_step me o (mkCpu (n + 1) ie false (RelPop lk) h) l = Some (mkCpu n ie ((n =? 0) && ie) Idle h, l).
Proof.
  intros Hn. unfold cpu_step, pop_off. simpl. replace (n + 1 <? 1) with false by lia.
  rewrite Z.add_simpl_r. by destruct (n =? 0), ie.
Qed.

(** A step of one CPU on one lock, for computing. *)
Lemma mstep_at me op m c l c0 l0 lk : m_cpus m !! me = Some c0 → m_locks m !! lk = Some l0 →
  target op c = lk →
  mstep me op (mkMachine (<[me := c]> (m_cpus m)) (<[lk := l]> (m_locks m))) =
  ('(c', l') ← cpu_step me op c l; Some (mkMachine (<[me := c']> (m_cpus m)) (<[lk := l']> (m_locks m)))).
Proof.
  intros Hc Hl <-. unfold mstep. simpl.
  rewrite list_lookup_insert_eq by by eapply lookup_lt_Some. simpl.
  rewrite list_lookup_insert_eq by by eapply lookup_lt_Some. simpl.
  destruct (cpu_step _ _ _ _) as [[c' l']|]; [| done]. simpl. by rewrite !list_insert_insert_eq.
Qed.

(** C24: in every state that any interleaving of the CPUs can reach, a lock has at
    most one holder; for a CPU that is in no lock operation, [holding] is true
    exactly of the locks it has and [noff] is their number; a CPU with a lock
    has its interrupts off; and [noff] is at most one more than the number of
    locks, so the counter never overflows. *)
Theorem spinlocks_exclude m : reachable m →
  (∀ i j ci cj lk, m_cpus m !! i = Some ci → m_cpus m !! j = Some cj →
     lk ∈ c_held ci → lk ∈ c_held cj → i = j) ∧
  (∀ i c lk l, m_cpus m !! i = Some c → m_locks m !! lk = Some l → c_pc c = Idle →
     (lk_locked l ≠ 0 ∧ lk_cpu l = Some i) ↔ lk ∈ c_held c) ∧
  (∀ i c, m_cpus m !! i = Some c →
     (c_pc c = Idle → c_noff c = Z.of_nat (length (c_held c))) ∧
     (c_held c ≠ [] → c_sie c = false) ∧ 0 ≤ c_noff c ≤ Z.of_nat (length (m_locks m)) + 1).
Proof.
  intros [HC HL]%reachable_ok. split_and!.
  - intros i j ci cj lk Hi Hj Hhi Hhj. pose proof (ok_range _ _ (HC _ _ Hi) _ Hhi) as [l Hl]%lookup_lt_is_Some.
    destruct (HL _ _ Hl) as [Hno | k x _ _ Hu]; [by destruct (Hno _ _ Hi) |].
    by rewrite (Hu _ _ Hi Hhi), (Hu _ _ Hj Hhj).
  - intros i c lk l Hi Hl Hp. assert (recording c lk = false) as Hr by (unfold recording; by rewrite Hp).
    split; [| intros Hin; by rewrite (lock_ok_own _ _ _ _ _ Hi Hin (HL _ _ Hl)), Hr].
    destruct (HL _ _ Hl) as [|k x Hx Hk _]; simpl; [by intros [? _] |].
    destruct (recording x lk); intros [_ [=]]. by simplify_eq.
  - intros i c Hc. destruct (HC _ _ Hc) as [Hnd Hr Hno Hs _].
    pose proof (nodup_bound _ _ Hnd Hr). assert (0 ≤ pending (c_pc c) ≤ 1) by (destruct (c_pc c); simpl; [lia.. |]; case_decide; lia).
    split_and!; [intros Hp; rewrite Hp in Hno; simpl in Hno; lia | | lia..].
    intros Hne. apply Hs. destruct (c_held c); simpl in *; [done | lia].
Qed.

(** C25: the lock code implements the interface of a lock.  Every step of every
    CPU, in every reachable state, leaves the held locks alone, gives a lock to
    one CPU when no CPU has it, or takes one from the CPU that has it.  A CPU
    panics only in an [acquire] of a lock it already has or a [release] of one
    it has not. *)
Theorem spinlocks_refine me op m m' : reachable m → mstep me op m = Some m' →
  (held_locks m' = held_locks m ∨ lock_spec (held_locks m) (held_locks m')) ∧
  (∀ c c' msg, m_cpus m !! me = Some c → m_cpus m' !! me = Some c' → c_pc c' = Panicked msg →
     let lk := target op c in
     (c_pc c = AcqCpu lk ∧ msg = "acquire"%string ∧ lk ∈ c_held c) ∨
     ((c_pc c = RelLocked lk ∨ c_pc c = RelCpu lk) ∧ msg = "release"%string ∧ lk ∉ c_held c)).
Proof.
  intros Hok%reachable_ok Hs. split; [by eapply mstep_spec |].
  intros c c' msg Hc Hc' Hm. destruct Hok as [HC HL].
  apply mstep_inv in Hs as (x & l & x' & l' & Hx & Hl & Hs & ->). simplify_eq/=.
  rewrite list_lookup_insert_eq in Hc' by by eapply lookup_lt_Some. simplify_eq.
  by eapply step_panic; eauto using lookup_lt_Some.
Qed.

(** A CPU that is not disturbed gets a free lock in four steps, with the
    interrupts off, and its release is over in six; afterwards the machine is
    as before, the interrupts included: only the saved flag [intena] remembers
    them. *)
Theorem acquire_release_restores m me c lk l o : reachable m →
  m_cpus m !! me = Some c → c_pc c = Idle → m_locks m !! lk = Some l → lk_locked l = 0 →
  ∃ m1 c1, solo me (Acquire lk :: replicate 3 o) m = Some m1 ∧ m_cpus m1 !! me = Some c1 ∧
    c_pc c1 = Idle ∧ c_held c1 = lk :: c_held c ∧ c_sie c1 = false ∧
    m_locks m1 !! lk = Some (mkLock 1 (Some me)) ∧
    solo me (Release lk :: replicate 5 o) m1 =
      Some (m <| m_cpus ::= <[me := c <| c_intena := if c_noff c =? 0 then c_sie c else c_intena c |>]> |>).
Proof.
  intros [HC HL]%reachable_ok Hc Hp Hl H0. destruct (HC _ _ Hc) as [Hnd Hr Hno Hs _].
  assert (l = mkLock 0 None) as -> by (destruct (HL _ _ Hl); done).
  assert (lk ∉ c_held c) as Hnin by (destruct (HL _ _ Hl) as [Hn|]; [by eapply Hn | done]).
  assert (m = mkMachine (<[me := c]> (m_cpus m)) (<[lk := mkLock 0 None]> (m_locks m))) as Hm
    by (destruct m; simpl in *; by rewrite !list_insert_id).
  destruct c as [n ie sie p h]. simpl in *. subst p. simpl in Hno.
  eexists _, _. split.
  { rewrite Hm at 1. cbn [replicate solo].
    erewrite (mstep_at me _ m) by (done || reflexivity). rewrite acquire_starts. simpl.
    do 3 (erewrite (mstep_at me _ m) by (done || reflexivity); simpl). reflexivity. }
  split; [by apply list_lookup_insert_eq; eapply lookup_lt_Some |].
  split_and!; try done; [by apply list_lookup_insert_eq; eapply lookup_lt_Some |]. simpl.
  do 5 (erewrite (mstep_at me _ m) by (done || reflexivity); simpl; rewrite ?decide_True by done; simpl).
  erewrite (mstep_at me _ m) by (done || reflexivity). rewrite release_ends by lia. simpl.
  rewrite filter_cons_False by auto. rewrite list_filter_all by (apply Forall_forall; intros k Hk ->; done).
  rewrite (list_insert_id (m_locks m)) by done.
  do 4 f_equal. destruct (Z.eqb_spec n 0) as [| Hn0]; [done | symmetry; apply Hs; lia].
Qed.

(** ** Two CPUs, two locks *)

Definition two_cpus : machine :=
  mkMachine [mkCpu 0 false true Idle []; mkCpu 0 false true Idle []] [initlock; initlock].

Lemma two_cpus_initial : initial two_cpus.
Proof. split; repeat constructor. Qed.

(** CPU 1 has lock 1; CPU 0 has lock 0 and spins on lock 1. *)
Definition contended : machine :=
  default two_cpus
    (m ← solo 1 (Acquire 1 :: replicate 3 IntrOn) two_cpus;
     m ← solo 0 (Acquire 0 :: replicate 3 IntrOn) m;
     solo 0 (Acquire 1 :: replicate 3 IntrOn) m).

Lemma solo_rtc me ops m m' : solo me ops m = Some m' → rtc step m m'.
Proof.
  revert m; induction ops as [| op ops IH]; intros m; simpl; [by intros [= ->] |].
  destruct (mstep me op m) as [m1|] eqn:E; [simpl | done]. intros H.
  eapply rtc_l; [by exists me, op | by apply IH].
Qed.

Lemma contended_reachable : reachable contended.
Proof.
  exists two_cpus. split; [apply two_cpus_initial |].
  etrans; [by apply (solo_rtc 1 (Acquire 1 :: replicate 3 IntrOn)) |].
  etrans; [by apply (solo_rtc 0 (Acquire 0 :: replicate 3 IntrOn)) |].
  by apply (solo_rtc 0 (Acquire 1 :: replicate 3 IntrOn)).
Qed.

Lemma spinlocks_exclude_witness : held_locks contended = [[0%nat]; [1%nat]] ∧
  ∀ i j ci cj lk, m_cpus contended !! i = Some ci → m_cpus contended !! j = Some cj →
    lk ∈ c_held ci → lk ∈ c_held cj → i = j.
Proof. split; [reflexivity | exact (proj1 (spinlocks_exclude contended contended_reachable))]. Defined.

Lemma spinlocks_refine_witness : ∃ m', mstep 0 IntrOn contended = Some m' ∧
  (held_locks m' = held_locks contended ∨ lock_spec (held_locks contended) (held_locks m')).
Proof.
  eexists. split; [reflexivity |].
  exact (proj1 (spinlocks_refine 0 IntrOn contended _ contended_reachable eq_refl)).
Defined.

Lemma acquire_release_restores_witness : ∃ m1 c1,
  solo 1 (Acquire 0 :: replicate 3 IntrOn) two_cpus = Some m1 ∧ m_cpus m1 !! 1%nat = Some c1 ∧
  c_held c1 = [0%nat].
Proof.
  destruct (acquire_release_restores two_cpus 1 (mkCpu 0 false true Idle []) 0 initlock IntrOn
    (ex_intro _ two_cpus (conj two_cpus_initial (rtc_refl step two_cpus))) eq_refl eq_refl eq_refl eq_refl)
    as (m1 & c1 & H1 & H2 & _ & H3 & _).
  exists m1, c1. split; [exact H1 | split; [exact H2 | exact H3]].
Defined.
