(* ===== verification/Virtio.v ===== *)
(** * The disk driver (kernel/virtio_disk.c)

    The rest of the kernel uses a disk that transfers one block at a time
    ([Bio.virtio_disk_rw]).  Here is the driver that provides it: descriptors,
    the ring of requests and the ring of answers, shared with a device that works
    on several requests at once and finishes them in any order, while any number
    of processes call [virtio_disk_rw].  What the driver does between taking and
    giving up [vdisk_lock] is one step: the code before the first sleep, a retry
    after a wakeup, the interrupt handler, and the end of the call.  Sleeping and
    wakeup are left to the choice of the next step.

    The device is a parameter; [device_step] is what the virtio standard says of
    it (sections 2.7 and 5.2 of version 1.1, which the code cites). *)

From stdpp Require Import relations.
From S2P Require Import Prelude Machine.

(** ** kernel/virtio.h *)

Definition NUM : nat := 8.
Definition VRING_DESC_F_NEXT : Z := 1.
Definition VRING_DESC_F_WRITE : Z := 2.
Definition VIRTIO_BLK_T_IN : Z := 0.
Definition VIRTIO_BLK_T_OUT : Z := 1.

(** The addresses the driver hands to the device. *)
Inductive daddr :=
  | ANull
  | AOp (i : nat)        (* &disk.ops[i] *)
  | AData (b : nat)      (* b->data *)
  | AStatus (i : nat).   (* &disk.info[i].status *)

Record virtq_desc := mkDesc { d_addr : daddr; d_len : Z; d_flags : Z; d_next : Z }.
Record virtio_blk_req := mkReq { rq_type : Z; rq_reserved : Z; rq_sector : Z }.
Record dinfo := mkInfo { in_b : option nat; in_status : Z }.

(** The fields of struct buf the driver uses. *)
Record dbuf := mkDbuf { db_disk : Z; db_blockno : Z; db_data : list Z }.

(** struct disk, the memory of the queues, the buffers and the sectors. *)
Record vdisk := mkDisk {
  v_desc : list virtq_desc;
  v_avail_idx : Z;             (* disk.avail->idx *)
  v_avail_ring : list Z;
  v_used_idx : Z;              (* disk.used->idx *)
  v_used_ring : list (Z * Z);  (* id, len *)
  v_free : list Z;
  v_seen : Z;                  (* disk.used_idx *)
  v_info : list dinfo;
  v_ops : list virtio_blk_req;
  v_bufs : list dbuf;
  v_sectors : Z → list Z;
}.

#[global] Instance eta_desc : Settable virtq_desc :=
  fun d => mkDesc (d_addr d) (d_len d) (d_flags d) (d_next d).
#[global] Instance eta_info : Settable dinfo := fun x => mkInfo (in_b x) (in_status x).
#[global] Instance eta_dbuf : Settable dbuf := fun x => mkDbuf (db_disk x) (db_blockno x) (db_data x).
#[global] Instance eta_vdisk : Settable vdisk := fun d =>
  mkDisk (v_desc d) (v_avail_idx d) (v_avail_ring d) (v_used_idx d) (v_used_ring d) (v_free d)
    (v_seen d) (v_info d) (v_ops d) (v_bufs d) (v_sectors d).

(** ** The driver *)

(** A run ends with a value, in a panic, or in an access outside an array. *)
Inductive vres (A : Type) := VOk (a : A) (d : vdisk) | VPanic (msg : string) | VUndef.
Arguments VOk {A} _ _.
Arguments VPanic {A} _.
Arguments VUndef {A}.

Definition V (A : Type) : Type := vdisk → vres A.
#[global] Instance V_ret : MRet V := λ A a d, VOk a d.
#[global] Instance V_bind : MBind V := λ A B k m d,
  match m d with VOk a d' => k a d' | VPanic e => VPanic e | VUndef => VUndef end.

Definition vpanic {A} (msg : string) : V A := λ _, VPanic msg.
Definition vget {A} (f : vdisk → A) : V A := λ d, VOk (f d) d.
Definition vset (f : vdisk → vdisk) : V unit := λ d, VOk tt (f d).
Definition vat {A} (f : vdisk → list A) (i : Z) : V A := λ d,
  if i <? 0 then VUndef else match f d !! Z.to_nat i with Some a => VOk a d | None => VUndef end.
Definition vbuf (b : nat) : V dbuf := vat v_bufs (Z.of_nat b).

Definition set_desc (i : Z) (f : virtq_desc → virtq_desc) : V unit :=
  x ← vat v_desc i; vset (λ d, d <| v_desc ::= <[Z.to_nat i := f x]> |>).
Definition set_free (i x : Z) : V unit :=
  vat v_free i;; vset (λ d, d <| v_free ::= <[Z.to_nat i := x]> |>).
Definition set_info (i : Z) (f : dinfo → dinfo) : V unit :=
  x ← vat v_info i; vset (λ d, d <| v_info ::= <[Z.to_nat i := f x]> |>).
Definition set_op (i : Z) (rq : virtio_blk_req) : V unit :=
  vat v_ops i;; vset (λ d, d <| v_ops ::= <[Z.to_nat i := rq]> |>).
Definition set_dbuf (b : nat) (f : dbuf → dbuf) : V unit :=
  x ← vbuf b; vset (λ d, d <| v_bufs ::= <[b := f x]> |>).

Fixpoint alloc_desc_from (i n : nat) : V Z :=
  match n with
  | O => mret (-1)
  | S n =>
      f ← vat v_free (Z.of_nat i);
      if negb (f =? 0) then set_free (Z.of_nat i) 0;; mret (Z.of_nat i) else alloc_desc_from (S i) n
  end.
Definition alloc_desc : V Z := alloc_desc_from 0 NUM.

Definition free_desc (i : Z) : V unit :=
  if Z.of_nat NUM <=? i then vpanic "free_desc 1"
  else
    f ← vat v_free i;
    if negb (f =? 0) then vpanic "free_desc 2"
    else
      set_desc i (λ _, mkDesc ANull 0 0 0);;
      set_free i 1.

(** Every round frees a descriptor that was in use, so NUM + 1 rounds are enough. *)
Fixpoint free_chain_from (fuel : nat) (i : Z) : V unit :=
  match fuel with
  | O => λ _, VUndef
  | S fuel =>
      x ← vat v_desc i;
      free_desc i;;
      if negb (Z.land (d_flags x) VRING_DESC_F_NEXT =? 0) then free_chain_from fuel (d_next x)
      else mret tt
  end.
Definition free_chain (i : Z) : V unit := free_chain_from (S NUM) i.

(** The result is the array idx, or [None] for -1. *)
Fixpoint alloc3_from (n : nat) (idx : list Z) : V (option (list Z)) :=
  match n with
  | O => mret (Some idx)
  | S n =>
      i ← alloc_desc;
      if i <? 0 then
        (fix undo (l : list Z) : V (option (list Z)) :=
           match l with [] => mret None | j :: l => free_desc j;; undo l end) idx
      else alloc3_from n (idx ++ [i])
  end.
Definition alloc3_desc : V (option (list Z)) := alloc3_from 3 [].

(** uint64 sector = b->blockno * (BSIZE / 512), a 32-bit product. *)
Definition sector_of (blockno : Z) : Z := u32 (blockno * (BSIZE / 512)).

(** The part of [virtio_disk_rw] that formats and announces a request. *)
Definition rw_post (b : nat) (write : Z) (i0 i1 i2 : Z) : V unit :=
  x ← vbuf b;
  set_op i0 (mkReq (if negb (write =? 0) then VIRTIO_BLK_T_OUT else VIRTIO_BLK_T_IN) 0
               (sector_of (db_blockno x)));;
  set_desc i0 (λ _, mkDesc (AOp (Z.to_nat i0)) 16 VRING_DESC_F_NEXT i1);;
  set_desc i1 (λ _, mkDesc (AData b) BSIZE
    (Z.lor (if negb (write =? 0) then 0 else VRING_DESC_F_WRITE) VRING_DESC_F_NEXT) i2);;
  set_info i0 (λ x, x <| in_status := 0xff |>);;
  set_desc i2 (λ _, mkDesc (AStatus (Z.to_nat i0)) 1 VRING_DESC_F_WRITE 0);;
  set_dbuf b (λ x, x <| db_disk := 1 |>);;
  set_info i0 (λ x, x <| in_b := Some b |>);;
  idx ← vget v_avail_idx;
  vset (λ d, d <| v_avail_ring ::= <[Z.to_nat (idx mod Z.of_nat NUM) := i0]> |>);;
  vset (λ d, d <| v_avail_idx := u16 (idx + 1) |>).

(** One round of its first loop: the head of the chain, or [None] to sleep. *)
Definition rw_try (b : nat) (write : Z) : V (option Z) :=
  r ← alloc3_desc;
  match r with
  | Some [i0; i1; i2] => rw_post b write i0 i1 i2;; mret (Some i0)
  | _ => mret None
  end.

(** One round of its second loop: sleep while the request is on the device, and
    the end of the call otherwise. *)
Definition rw_wait (b : nat) (i0 : Z) : V bool :=
  x ← vbuf b;
  if db_disk x =? 1 then mret false
  else
    set_info i0 (λ x, x <| in_b := None |>);;
    free_chain i0;;
    mret true.

(** The loop of [virtio_disk_intr].  The counters are 16 bits wide, so 2^16
    rounds are enough. *)
Fixpoint intr_from (fuel : nat) : V unit :=
  match fuel with
  | O => λ _, VUndef
  | S fuel =>
      seen ← vget v_seen;
      used ← vget v_used_idx;
      if seen =? used then mret tt
      else
        '(id, _) ← vat v_used_ring (seen mod Z.of_nat NUM);
        x ← vat v_info id;
        if negb (in_status x =? 0) then vpanic "virtio_disk_intr status"
        else
          match in_b x with
          | None => λ _, VUndef
          | Some b =>
              set_dbuf b (λ y, y <| db_disk := 0 |>);;
              vset (λ d, d <| v_seen := u16 (seen + 1) |>);;
              intr_from fuel
          end
  end.
Definition virtio_disk_intr : V unit := intr_from (Z.to_nat (2 ^ 16)).

(** ** Initialisation

    The registers of the device are a parameter: what a register reads as after
    the writes so far.  [kalloc] is the memory the allocator gives, 0 for none. *)

Definition VIRTIO_MMIO_MAGIC_VALUE : Z := 0x000.
Definition VIRTIO_MMIO_VERSION : Z := 0x004.
Definition VIRTIO_MMIO_DEVICE_ID : Z := 0x008.
Definition VIRTIO_MMIO_VENDOR_ID : Z := 0x00c.
Definition VIRTIO_MMIO_DEVICE_FEATURES : Z := 0x010.
Definition VIRTIO_MMIO_DRIVER_FEATURES : Z := 0x020.
Definition VIRTIO_MMIO_QUEUE_SEL : Z := 0x030.
Definition VIRTIO_MMIO_QUEUE_NUM_MAX : Z := 0x034.
Definition VIRTIO_MMIO_QUEUE_NUM : Z := 0x038.
Definition VIRTIO_MMIO_QUEUE_READY : Z := 0x044.
Definition VIRTIO_MMIO_STATUS : Z := 0x070.
Definition VIRTIO_MMIO_QUEUE_DESC_LOW : Z := 0x080.
Definition VIRTIO_MMIO_QUEUE_DESC_HIGH : Z := 0x084.
Definition VIRTIO_MMIO_DRIVER_DESC_LOW : Z := 0x090.
Definition VIRTIO_MMIO_DRIVER_DESC_HIGH : Z := 0x094.
Definition VIRTIO_MMIO_DEVICE_DESC_LOW : Z := 0x0a0.
Definition VIRTIO_MMIO_DEVICE_DESC_HIGH : Z := 0x0a4.
Notation VIRTIO_CONFIG_S_ACKNOWLEDGE := 1%Z (only parsing).
Notation VIRTIO_CONFIG_S_DRIVER := 2%Z (only parsing).
Notation VIRTIO_CONFIG_S_DRIVER_OK := 4%Z (only parsing).
Notation VIRTIO_CONFIG_S_FEATURES_OK := 8%Z (only parsing).
Notation VIRTIO_BLK_F_RO := 5%Z (only parsing).
Notation VIRTIO_BLK_F_SCSI := 7%Z (only parsing).
Notation VIRTIO_BLK_F_CONFIG_WCE := 11%Z (only parsing).
Notation VIRTIO_BLK_F_MQ := 12%Z (only parsing).
Notation VIRTIO_F_ANY_LAYOUT := 27%Z (only parsing).
Notation VIRTIO_RING_F_INDIRECT_DESC := 28%Z (only parsing).
Notation VIRTIO_RING_F_EVENT_IDX := 29%Z (only parsing).

Definition R (A : Type) : Type := list (Z * Z) → A * list (Z * Z) + string.
#[global] Instance R_ret : MRet R := λ A a w, inl (a, w).
#[global] Instance R_bind : MBind R := λ A B k m w,
  match m w with inl (a, w') => k a w' | inr e => inr e end.

Section init.
Context (reg : list (Z * Z) → Z → Z) (kalloc : nat → Z) (bufs : list dbuf) (sectors : Z → list Z).

Definition rpanic {A} (msg : string) : R A := λ _, inr msg.
Definition rd (r : Z) : R Z := λ w, inl (u32 (reg w r), w).
Definition wr (r v : Z) : R unit := λ w, inl (tt, w ++ [(r, u32 v)]).
Definition clear_feature (k f : Z) : Z := Z.land f (u64 (Z.lnot (Z.shiftl 1 k))).

(** The zeroed queues and bookkeeping with every descriptor free. *)
Definition empty_disk : vdisk :=
  mkDisk (replicate NUM (mkDesc ANull 0 0 0)) 0 (replicate NUM 0) 0 (replicate NUM (0, 0))
    (replicate NUM 1) 0 (replicate NUM (mkInfo None 0)) (replicate NUM (mkReq 0 0 0)) bufs sectors.

Definition virtio_disk_init : R vdisk :=
  m ← rd VIRTIO_MMIO_MAGIC_VALUE;
  v ← rd VIRTIO_MMIO_VERSION;
  di ← rd VIRTIO_MMIO_DEVICE_ID;
  vi ← rd VIRTIO_MMIO_VENDOR_ID;
  if negb (m =? 0x74726976) || negb (v =? 2) || negb (di =? 2) || negb (vi =? 0x554d4551)
  then rpanic "could not find virtio disk"
  else
    let status := 0 in
    wr VIRTIO_MMIO_STATUS status;;
    let status := Z.lor status VIRTIO_CONFIG_S_ACKNOWLEDGE in
    wr VIRTIO_MMIO_STATUS status;;
    let status := Z.lor status VIRTIO_CONFIG_S_DRIVER in
    wr VIRTIO_MMIO_STATUS status;;
    features ← rd VIRTIO_MMIO_DEVICE_FEATURES;
    let features := clear_feature VIRTIO_BLK_F_RO features in
    let features := clear_feature VIRTIO_BLK_F_SCSI features in
    let features := clear_feature VIRTIO_BLK_F_CONFIG_WCE features in
    let features := clear_feature VIRTIO_BLK_F_MQ features in
    let features := clear_feature VIRTIO_F_ANY_LAYOUT features in
    let features := clear_feature VIRTIO_RING_F_EVENT_IDX features in
    let features := clear_feature VIRTIO_RING_F_INDIRECT_DESC features in
    wr VIRTIO_MMIO_DRIVER_FEATURES features;;
    wr VIRTIO_MMIO_STATUS (Z.lor status VIRTIO_CONFIG_S_FEATURES_OK);;
    status ← rd VIRTIO_MMIO_STATUS;
    if Z.land status VIRTIO_CONFIG_S_FEATURES_OK =? 0 then rpanic "virtio disk FEATURES_OK unset"
    else
      wr VIRTIO_MMIO_QUEUE_SEL 0;;
      ready ← rd VIRTIO_MMIO_QUEUE_READY;
      if negb (ready =? 0) then rpanic "virtio disk should not be ready"
      else
        max ← rd VIRTIO_MMIO_QUEUE_NUM_MAX;
        if max =? 0 then rpanic "virtio disk has no queue 0"
        else if max <? Z.of_nat NUM then rpanic "virtio disk max queue too short"
        else if (kalloc 0 =? 0) || (kalloc 1 =? 0) || (kalloc 2 =? 0) then rpanic "virtio disk kalloc"
        else
          wr VIRTIO_MMIO_QUEUE_NUM (Z.of_nat NUM);;
          wr VIRTIO_MMIO_QUEUE_DESC_LOW (kalloc 0);;
          wr VIRTIO_MMIO_QUEUE_DESC_HIGH (Z.shiftr (kalloc 0) 32);;
          wr VIRTIO_MMIO_DRIVER_DESC_LOW (kalloc 1);;
          wr VIRTIO_MMIO_DRIVER_DESC_HIGH (Z.shiftr (kalloc 1) 32);;
          wr VIRTIO_MMIO_DEVICE_DESC_LOW (kalloc 2);;
          wr VIRTIO_MMIO_DEVICE_DESC_HIGH (Z.shiftr (kalloc 2) 32);;
          wr VIRTIO_MMIO_QUEUE_READY 1;;
          wr VIRTIO_MMIO_STATUS (Z.lor status VIRTIO_CONFIG_S_DRIVER_OK);;
          mret empty_disk.
End init.

(** ** The device *)

(** What the device remembers: how far it has read the ring of requests, and the
    chains it works on. *)
Record device := mkDev { dv_seen : Z; dv_flight : list Z }.

Definition sectors_read (f : Z → list Z) (sec len : Z) : list Z :=
  mjoin (map (λ i, f (sec + Z.of_nat i)) (seq 0 (Z.to_nat (len / 512)))).
Definition sectors_write (f : Z → list Z) (sec len : Z) (data : list Z) : Z → list Z := λ k,
  if (sec <=? k) && (k <? sec + len / 512)
  then slice data (Z.to_nat (512 * (k - sec))) 512 else f k.

(** A chain of three descriptors as section 5.2.6 describes it: the header, the
    data, one byte of status. *)
Definition chain_at (d : vdisk) (h : Z) : option (virtq_desc * virtq_desc * virtq_desc) :=
  x0 ← v_desc d !! Z.to_nat h;
  x1 ← v_desc d !! Z.to_nat (d_next x0);
  x2 ← v_desc d !! Z.to_nat (d_next x1);
  if negb (Z.land (d_flags x0) VRING_DESC_F_NEXT =? 0) &&
     negb (Z.land (d_flags x1) VRING_DESC_F_NEXT =? 0) &&
     (Z.land (d_flags x2) VRING_DESC_F_NEXT =? 0)
  then Some (x0, x1, x2) else None.

(** The transfer of a request, the status byte and the answer. *)
Definition transfer (h : Z) (d : vdisk) : option vdisk :=
  '(x0, x1, x2) ← chain_at d h;
  match d_addr x0, d_addr x1, d_addr x2 with
  | AOp i, AData b, AStatus j =>
      rq ← v_ops d !! i;
      x ← v_bufs d !! b;
      d ← (if rq_type rq =? VIRTIO_BLK_T_OUT
           then Some (d <| v_sectors := sectors_write (v_sectors d) (rq_sector rq) (d_len x1) (db_data x) |>)
           else if negb (Z.land (d_flags x1) VRING_DESC_F_WRITE =? 0)
           then Some (d <| v_bufs ::= <[b := x <| db_data := sectors_read (v_sectors d) (rq_sector rq) (d_len x1) |>]> |>)
           else None);
      y ← v_info d !! j;
      Some (d <| v_info ::= <[j := y <| in_status := 0 |>]> |>
              <| v_used_ring ::= <[Z.to_nat (v_used_idx d mod Z.of_nat NUM) := (h, d_len x1 + 1)]> |>
              <| v_used_idx ::= λ i, u16 (i + 1) |>)
  | _, _, _ => None
  end.

Inductive device_step : device * vdisk → device * vdisk → Prop :=
  | dev_fetch dv d h : dv_seen dv ≠ v_avail_idx d →
      v_avail_ring d !! Z.to_nat (dv_seen dv mod Z.of_nat NUM) = Some h →
      device_step (dv, d) (mkDev (u16 (dv_seen dv + 1)) (dv_flight dv ++ [h]), d)
  | dev_finish dv d h f1 f2 d' : dv_flight dv = f1 ++ h :: f2 → transfer h d = Some d' →
      device_step (dv, d) (mkDev (dv_seen dv) (f1 ++ f2), d').

(** ** The system: processes, driver and device *)

Inductive thread :=
  | TIdle
  | TAlloc (b : nat) (write : Z)           (* before or asleep in the first loop *)
  | TWait (b : nat) (write : Z) (i0 : Z).  (* before or asleep in the second loop *)

Record sys := mkSys { y_disk : vdisk; y_dev : device; y_threads : list thread }.

Definition uses (t : thread) (b : nat) : bool :=
  match t with TIdle => false | TAlloc b' _ | TWait b' _ _ => (b' =? b)%nat end.

Section system.
Context (dev : device * vdisk → device * vdisk → Prop).

(** The steps; a buffer belongs to one process at a time (its sleep lock), and
    the process fills it and calls the driver.  Blocks are numbered so that the
    sector number fits. *)
Inductive sys_step : sys → sys → Prop :=
  | step_fill d dv ts b x blockno data :
      v_bufs d !! b = Some x → (∀ t, t ∈ ts → uses t b = false) →
      0 ≤ blockno < 2 ^ 31 → length data = Z.to_nat BSIZE →
      sys_step (mkSys d dv ts)
        (mkSys (d <| v_bufs ::= <[b := x <| db_blockno := blockno |> <| db_data := data |>]> |>) dv ts)
  | step_call d dv ts t b x w :
      ts !! t = Some TIdle → v_bufs d !! b = Some x → (∀ t, t ∈ ts → uses t b = false) →
      sys_step (mkSys d dv ts) (mkSys d dv (<[t := TAlloc b w]> ts))
  | step_sleep d d' dv ts t b w :
      ts !! t = Some (TAlloc b w) → rw_try b w d = VOk None d' → sys_step (mkSys d dv ts) (mkSys d' dv ts)
  | step_post d d' dv ts t b w h :
      ts !! t = Some (TAlloc b w) → rw_try b w d = VOk (Some h) d' →
      sys_step (mkSys d dv ts) (mkSys d' dv (<[t := TWait b w h]> ts))
  | step_wait d d' dv ts t b w h :
      ts !! t = Some (TWait b w h) → rw_wait b h d = VOk false d' → sys_step (mkSys d dv ts) (mkSys d' dv ts)
  | step_return d d' dv ts t b w h :
      ts !! t = Some (TWait b w h) → rw_wait b h d = VOk true d' →
      sys_step (mkSys d dv ts) (mkSys d' dv (<[t := TIdle]> ts))
  | step_intr d d' dv ts :
      virtio_disk_intr d = VOk tt d' → sys_step (mkSys d dv ts) (mkSys d' dv ts)
  | step_device d d' dv dv' ts :
      dev (dv, d) (dv', d') → sys_step (mkSys d dv ts) (mkSys d' dv' ts).
End system.
