(* ===== verification/VirtioSpec.v ===== *)
(** * The disk driver implements a disk of blocks

    [blockdev] is what the callers of [virtio_disk_rw] rely on: each call moves
    one block between its buffer and the disk, in one moment between call and
    return.  The invariant [vinv] describes the descriptors, rings and buffers in
    every state the processes, the interrupt handler and the device can reach;
    from it follow the refinement and that the driver never panics. *)

From stdpp Require Import relations.
From S2P Require Import Prelude Machine Virtio.

(** ** The specification *)

Inductive req := RIdle | RCalled (b : nat) (write : Z) | RDone (b : nat) (write : Z).

Record blockdev := mkBdev {
  a_calls : list req;
  a_bufs : list (Z * list Z);        (* block number and data of a buffer *)
  a_block : Z → list Z;
}.

Definition valid_block (n : Z) : Prop := 0 ≤ n < 2 ^ 31.
Definition same_blocks (f g : Z → list Z) : Prop := ∀ n, valid_block n → f n = g n.

Definition unused (calls : list req) (b : nat) : Prop :=
  ∀ w, (RCalled b w ∉ calls) ∧ (RDone b w ∉ calls).

Inductive bdev_step : blockdev → blockdev → Prop :=
  | bdev_fill cs bs f g b x n data : bs !! b = Some x → unused cs b → same_blocks g f →
      bdev_step (mkBdev cs bs f) (mkBdev cs (<[b := (n, data)]> bs) g)
  | bdev_call cs bs f g t b w : cs !! t = Some RIdle → unused cs b → same_blocks g f →
      bdev_step (mkBdev cs bs f) (mkBdev (<[t := RCalled b w]> cs) bs g)
  | bdev_write cs bs f g t b w n data : cs !! t = Some (RCalled b w) → w ≠ 0 →
      bs !! b = Some (n, data) → same_blocks g (λ k, if k =? n then data else f k) →
      bdev_step (mkBdev cs bs f) (mkBdev (<[t := RDone b w]> cs) bs g)
  | bdev_read cs bs f g t b n data : cs !! t = Some (RCalled b 0) →
      bs !! b = Some (n, data) → same_blocks g f →
      bdev_step (mkBdev cs bs f) (mkBdev (<[t := RDone b 0]> cs) (<[b := (n, f n)]> bs) g)
  | bdev_return cs bs f g t b w : cs !! t = Some (RDone b w) → same_blocks g f →
      bdev_step (mkBdev cs bs f) (mkBdev (<[t := RIdle]> cs) bs g)
  | bdev_none cs bs f g : same_blocks g f → bdev_step (mkBdev cs bs f) (mkBdev cs bs g).

(** A call has had its transfer when the status byte says so. *)
Definition call_of (d : vdisk) (t : thread) : req :=
  match t with
  | TIdle => RIdle
  | TAlloc b w => RCalled b w
  | TWait b w h =>
      match v_info d !! Z.to_nat h with
      | Some x => if in_status x =? 0 then RDone b w else RCalled b w
      | None => RCalled b w
      end
  end.

Definition block_of (f : Z → list Z) (n : Z) : list Z := sectors_read f (sector_of n) BSIZE.

Definition bdev_of (y : sys) : blockdev :=
  mkBdev (call_of (y_disk y) <$> y_threads y)
    ((λ x, (db_blockno x, db_data x)) <$> v_bufs (y_disk y))
    (block_of (v_sectors (y_disk y))).

(** ** The invariant *)

(** The entries of a ring from [start] up to [stop], two 16-bit counters. *)
Record ring_holds {A} (ring : list A) (start stop : Z) (q : list A) : Prop := {
  rh_start : 0 ≤ start < 2 ^ 16;
  rh_stop : stop = u16 (start + Z.of_nat (length q));
  rh_size : (length q <= NUM)%nat ∧ length ring = NUM;
  rh_at : ∀ k x, q !! k = Some x →
    ring !! Z.to_nat ((start + Z.of_nat k) mod Z.of_nat NUM) = Some x;
}.

(** A request in progress, by the head of its chain. *)
Record vreq := mkVreq { r_t : nat; r_b : nat; r_w : Z; r_1 : nat; r_2 : nat }.

Definition nodes (h : nat) (r : vreq) : list nat := [h; r_1 r; r_2 r].

Record chain_ok (d : vdisk) (h : nat) (r : vreq) : Prop := {
  ch_0 : v_desc d !! h = Some (mkDesc (AOp h) 16 VRING_DESC_F_NEXT (Z.of_nat (r_1 r)));
  ch_1 : v_desc d !! r_1 r = Some (mkDesc (AData (r_b r)) BSIZE
           (Z.lor (if negb (r_w r =? 0) then 0 else VRING_DESC_F_WRITE) VRING_DESC_F_NEXT)
           (Z.of_nat (r_2 r)));
  ch_2 : v_desc d !! r_2 r = Some (mkDesc (AStatus h) 1 VRING_DESC_F_WRITE 0);
  ch_op : ∃ x, v_bufs d !! r_b r = Some x ∧ v_ops d !! h = Some
           (mkReq (if negb (r_w r =? 0) then VIRTIO_BLK_T_OUT else VIRTIO_BLK_T_IN) 0
              (sector_of (db_blockno x)));
  ch_nodup : NoDup (nodes h r);
}.

(** The requests [rs], those in the ring of requests [aq], on the device [fl], in
    the ring of answers [uq]. *)
Record vinv (rs : gmap nat vreq) (aq fl uq : list nat) (y : sys) : Prop := {
  vi_sizes : let d := y_disk y in length (v_desc d) = NUM ∧ length (v_info d) = NUM ∧
    length (v_ops d) = NUM ∧ length (v_free d) = NUM;
  vi_threads : ∀ t b w z, y_threads y !! t = Some (TWait b w z) ↔
    ∃ h r, z = Z.of_nat h ∧ rs !! h = Some r ∧ r_t r = t ∧ r_b r = b ∧ r_w r = w;
  vi_chain : ∀ h r, rs !! h = Some r → chain_ok (y_disk y) h r;
  vi_disj : ∀ h h' r r' i, rs !! h = Some r → rs !! h' = Some r' → i ∈ nodes h r → i ∈ nodes h' r' → h = h';
  vi_busy : ∀ i, (i < NUM)%nat → v_free (y_disk y) !! i = Some 0 ↔ ∃ h r, rs !! h = Some r ∧ i ∈ nodes h r;
  vi_free : ∀ i x, v_free (y_disk y) !! i = Some x → x ≠ 0 →
    x = 1 ∧ v_desc (y_disk y) !! i = Some (mkDesc ANull 0 0 0);
  vi_owner : ∀ t t' u u' b, y_threads y !! t = Some u → y_threads y !! t' = Some u' →
    uses u b = true → uses u' b = true → t = t';
  vi_used : ∀ t u b, y_threads y !! t = Some u → uses u b = true → is_Some (v_bufs (y_disk y) !! b);
  vi_bufs : ∀ b x, v_bufs (y_disk y) !! b = Some x →
    valid_block (db_blockno x) ∧ length (db_data x) = Z.to_nat BSIZE;
  vi_disk : ∀ h r x, rs !! h = Some r → v_bufs (y_disk y) !! r_b r = Some x →
    db_disk x = if decide (h ∈ aq ++ fl ++ uq) then 1 else 0;
  vi_info : ∀ h r, rs !! h = Some r → v_info (y_disk y) !! h =
    Some (mkInfo (Some (r_b r)) (if decide (h ∈ aq ++ fl) then 0xff else 0));
  vi_queues : NoDup (aq ++ fl ++ uq) ∧ ∀ h, h ∈ aq ++ fl ++ uq → is_Some (rs !! h);
  vi_flight : dv_flight (y_dev y) = Z.of_nat <$> fl;
  vi_avail : ring_holds (v_avail_ring (y_disk y)) (dv_seen (y_dev y)) (v_avail_idx (y_disk y)) (Z.of_nat <$> aq);
  vi_answers : ring_holds ((v_used_ring (y_disk y)).*1) (v_seen (y_disk y)) (v_used_idx (y_disk y)) (Z.of_nat <$> uq);
  vi_sectors : ∀ k, length (v_sectors (y_disk y) k) = 512%nat;
}.

(** ** Rings *)

Lemma u16_mod_num x : u16 x mod Z.of_nat NUM = x mod Z.of_nat NUM.
Proof. unfold u16, NUM. apply Z.mod_mod_divide. exists (2 ^ 13). lia. Qed.

Lemma ring_nil {A} (ring : list A) start stop : ring_holds ring start stop [] → stop = start.
Proof. intros [? -> _ _]. unfold u16. simpl. rewrite Z.add_0_r. by apply Z.mod_small. Qed.

Lemma ring_cons {A} (ring : list A) start stop x q : ring_holds ring start stop (x :: q) →
  start ≠ stop ∧ ring !! Z.to_nat (start mod Z.of_nat NUM) = Some x ∧
  ring_holds ring (u16 (start + 1)) stop q.
Proof.
  intros [Hs -> [Hl Hr] Ha]. simpl in Hl. split_and!.
  - unfold u16, NUM in *. simpl length. intros E. rewrite Nat2Z.inj_succ in E.
    destruct (decide (start + Z.succ (Z.of_nat (length q)) < 2 ^ 16)).
    + rewrite Z.mod_small in E; lia.
    + rewrite <- (Z_mod_plus_full _ (-1)), Z.mod_small in E; lia.
  - rewrite <- (Ha 0%nat x) by done. by rewrite Z.add_0_r.
  - split; [apply Z.mod_pos_bound; lia | | split; [lia | done] |].
    + unfold u16. rewrite Zplus_mod_idemp_l. f_equal. simpl length. lia.
    + intros k y Hy. rewrite <- (Ha (S k) y) by done. do 2 f_equal.
      rewrite <- Zplus_mod_idemp_l, u16_mod_num, Zplus_mod_idemp_l. f_equal. lia.
Qed.

Lemma ring_snoc {A} (ring : list A) start stop q x : ring_holds ring start stop q → (length q < NUM)%nat →
  ring_holds (<[Z.to_nat (stop mod Z.of_nat NUM) := x]> ring) start (u16 (stop + 1)) (q ++ [x]).
Proof.
  intros [Hs -> [Hl Hr] Ha] Hlt. rewrite u16_mod_num. split; [done | | |].
  - unfold u16. rewrite Zplus_mod_idemp_l. f_equal. rewrite length_app. simpl. lia.
  - rewrite length_app, length_insert. simpl. lia.
  - intros k y Hy. assert (Z.to_nat ((start + Z.of_nat (length q)) mod Z.of_nat NUM) < length ring)%nat
      by (rewrite Hr; unfold NUM; pose proof (Z.mod_pos_bound (start + Z.of_nat (length q)) 8); lia).
    apply lookup_app_Some in Hy as [Hy | [Hk [Hk' ->]%list_lookup_singleton_Some]].
    + pose proof (lookup_lt_Some _ _ _ Hy). rewrite list_lookup_insert_ne; [by apply Ha |].
      unfold NUM in *. Z.div_mod_to_equations. lia.
    + replace k with (length q) by lia. by apply list_lookup_insert_eq.
Qed.

(** ** The operations of the driver *)

Lemma vbind_ok {A B} (m : V A) (k : A → V B) d a d' : m d = VOk a d' → (m ≫= k) d = k a d'.
Proof. intros H. unfold mbind, V_bind. by rewrite H. Qed.

Lemma vbind_get {A B} (f : vdisk → A) (k : A → V B) d : (vget f ≫= k) d = k (f d) d.
Proof. done. Qed.

Lemma vbind_set {B} f (k : () → V B) d : (vset f ≫= k) d = k tt (f d).
Proof. done. Qed.

Lemma vat_ok {A} (f : vdisk → list A) (i : nat) a d : f d !! i = Some a → vat f (Z.of_nat i) d = VOk a d.
Proof. intros H. unfold vat. rewrite (proj2 (Z.ltb_ge _ _) (Nat2Z.is_nonneg i)). by rewrite Nat2Z.id, H. Qed.

Lemma set_free_ok i x d : (i < length (v_free d))%nat →
  set_free (Z.of_nat i) x d = VOk tt (d <| v_free ::= <[i := x]> |>).
Proof.
  intros [y Hy]%lookup_lt_is_Some. unfold set_free. erewrite vbind_ok by by apply vat_ok.
  unfold vset. by rewrite Nat2Z.id.
Qed.

Lemma set_desc_ok i f d x : v_desc d !! i = Some x →
  set_desc (Z.of_nat i) f d = VOk tt (d <| v_desc ::= <[i := f x]> |>).
Proof.
  intros Hx. unfold set_desc. erewrite vbind_ok by by apply vat_ok. unfold vset. by rewrite Nat2Z.id.
Qed.

Lemma set_info_ok i f d x : v_info d !! i = Some x →
  set_info (Z.of_nat i) f d = VOk tt (d <| v_info ::= <[i := f x]> |>).
Proof.
  intros Hx. unfold set_info. erewrite vbind_ok by by apply vat_ok. unfold vset. by rewrite Nat2Z.id.
Qed.

Lemma set_op_ok i rq d : (i < length (v_ops d))%nat →
  set_op (Z.of_nat i) rq d = VOk tt (d <| v_ops ::= <[i := rq]> |>).
Proof.
  intros [y Hy]%lookup_lt_is_Some. unfold set_op. erewrite vbind_ok by by apply vat_ok.
  unfold vset. by rewrite Nat2Z.id.
Qed.

Lemma vbuf_ok b x d : v_bufs d !! b = Some x → vbuf b d = VOk x d.
Proof. apply vat_ok. Qed.

Lemma set_dbuf_ok b f d x : v_bufs d !! b = Some x →
  set_dbuf b f d = VOk tt (d <| v_bufs ::= <[b := f x]> |>).
Proof. intros Hx. unfold set_dbuf. by erewrite vbind_ok by by apply vbuf_ok. Qed.

(** [alloc_desc] takes the first free descriptor. *)
Lemma alloc_desc_from_spec d n : ∀ i, (i + n)%nat = length (v_free d) →
  (∀ k x, (i <= k)%nat → v_free d !! k = Some x → x = 0) ∧ alloc_desc_from i n d = VOk (-1) d ∨
  ∃ k x, v_free d !! k = Some x ∧ x ≠ 0 ∧
    alloc_desc_from i n d = VOk (Z.of_nat k) (d <| v_free ::= <[k := 0]> |>).
Proof.
  induction n as [| n IH]; intros i Hi; cbn [alloc_desc_from].
  - left. split; [| done]. intros k x Hk Hx%lookup_lt_Some. lia.
  - destruct (lookup_lt_is_Some_2 (v_free d) i) as [f Hf]; [lia |].
    erewrite vbind_ok by by apply vat_ok. destruct (Z.eqb_spec f 0) as [-> | Hf0]; cbn [negb].
    + destruct (IH (S i)) as [[Hz E] | (k & x & Hx & Hx0 & E)]; [lia | left | right; eauto].
      split; [| done]. intros k x Hk Hx. destruct (decide (k = i)) as [-> |]; [by simplify_eq |].
      apply (Hz k); [lia | done].
    + right. exists i, f. split_and!; [done.. |].
      erewrite vbind_ok by (apply set_free_ok; lia). done.
Qed.

Lemma alloc_desc_spec d : length (v_free d) = NUM →
  (∀ k x, v_free d !! k = Some x → x = 0) ∧ alloc_desc d = VOk (-1) d ∨
  ∃ k x, v_free d !! k = Some x ∧ x ≠ 0 ∧
    alloc_desc d = VOk (Z.of_nat k) (d <| v_free ::= <[k := 0]> |>).
Proof.
  intros Hl. destruct (alloc_desc_from_spec d NUM 0) as [[Hz E] | H]; [by rewrite Hl | left | by right].
  split; [| done]. intros k x. apply Hz. lia.
Qed.

Lemma free_desc_ok i d x : v_free d !! i = Some 0 → (i < NUM)%nat → v_desc d !! i = Some x →
  free_desc (Z.of_nat i) d =
  VOk tt (d <| v_desc ::= <[i := mkDesc ANull 0 0 0]> |> <| v_free ::= <[i := 1]> |>).
Proof.
  intros Hf Hi Hx. unfold free_desc. rewrite (proj2 (Z.leb_gt (Z.of_nat NUM) (Z.of_nat i))) by lia.
  erewrite vbind_ok by by apply vat_ok. cbn [negb Z.eqb].
  erewrite vbind_ok by by eapply set_desc_ok. rewrite set_free_ok; [done |].
  simpl. by eapply lookup_lt_Some.
Qed.

Section alloc.
Context (d : vdisk).
Hypothesis Hlen : length (v_free d) = NUM ∧ length (v_desc d) = NUM.
Hypothesis Hfree : ∀ i x, v_free d !! i = Some x → x ≠ 0 →
  x = 1 ∧ v_desc d !! i = Some (mkDesc ANull 0 0 0).

Definition avail (l : list nat) : Prop := NoDup l ∧ ∀ i, i ∈ l → v_free d !! i = Some 1.
Definition marked (l : list nat) : vdisk := d <| v_free ::= mark l |>.

Lemma avail_lt l i : avail l → i ∈ l → (i < NUM)%nat.
Proof. intros [_ H] Hi%H. apply lookup_lt_Some in Hi. destruct Hlen. lia. Qed.

Lemma undo_spec l : avail l →
  (fix undo (l : list Z) : V (option (list Z)) :=
     match l with [] => mret None | j :: l => free_desc j;; undo l end) (Z.of_nat <$> l) (marked l) = VOk None d.
Proof.
  induction l as [| j l IH]; intros Hl; [unfold marked; destruct d; reflexivity |].
  pose proof (avail_lt _ j Hl ltac:(set_solver)) as Hj.
  destruct Hl as [[Hn Hnd]%NoDup_cons Ha]. pose proof (Ha j ltac:(set_solver)) as Hf.
  destruct (Hfree _ _ Hf) as [_ Hz]; [done |]. cbn [fmap list_fmap].
  erewrite vbind_ok; [apply IH; split; [done | set_solver] |].
  erewrite free_desc_ok; [| | done |].
  - f_equal. unfold marked. destruct d; simpl in *. f_equal.
    + by apply list_insert_id.
    + rewrite mark_insert, list_insert_insert_eq by done. by rewrite list_insert_id.
  - simpl. rewrite mark_lookup, decide_False, list_lookup_insert_eq; [done | by eapply lookup_lt_Some | done].
  - done.
Qed.

Lemma alloc3_from_spec n : ∀ l, avail l →
  (alloc3_from n (Z.of_nat <$> l) (marked l) = VOk None d ∧
   ∃ l', (length l' < length l + n)%nat ∧ ∀ i, v_free d !! i = Some 1 → i ∈ l') ∨
  ∃ l', length l' = n ∧ avail (l ++ l') ∧
    alloc3_from n (Z.of_nat <$> l) (marked l) = VOk (Some (Z.of_nat <$> l ++ l')) (marked (l ++ l')).
Proof.
  induction n as [| n IH]; intros l Hl; cbn [alloc3_from].
  { right. exists []. rewrite app_nil_r. done. }
  destruct (alloc_desc_spec (marked l)) as [[Hz E] | (k & x & Hx & Hx0 & E)].
  { simpl. rewrite mark_length. by destruct Hlen. }
  - erewrite vbind_ok by done. left. simpl. split; [by apply undo_spec |]. exists l. split; [lia |].
    intros i Hi. specialize (Hz i). simpl in Hz. rewrite mark_lookup, Hi in Hz. case_decide; [done | by specialize (Hz 1 eq_refl)].
  - erewrite vbind_ok by done. rewrite (proj2 (Z.ltb_ge _ _) (Nat2Z.is_nonneg k)).
    simpl in Hx. rewrite mark_lookup in Hx. case_decide as Hin.
    { apply fmap_Some in Hx as (? & ? & ->). done. }
    destruct (Hfree _ _ Hx Hx0) as [-> _].
    assert (avail (l ++ [k])) as Hl'.
    { destruct Hl as [Hnd Ha]. split; [apply NoDup_app; split_and!; [done | set_solver | apply NoDup_singleton] |].
      intros i [Hi | ->%list_elem_of_singleton]%elem_of_app; [by apply Ha | done]. }
    assert ((marked l) <| v_free ::= <[k := 0]> |> = marked (l ++ [k])) as ->
      by (unfold marked; destruct d; simpl; by rewrite mark_snoc).
    change [Z.of_nat k] with (Z.of_nat <$> [k]). rewrite <- fmap_app.
    destruct (IH _ Hl') as [(Hno & l' & Hll & Hin') | (l' & Hn & Hav & Hyes)]; [left | right].
    { split; [done |]. exists l'. rewrite length_app in Hll. simpl in Hll. split; [lia | done]. }
    exists (k :: l'). rewrite <- app_assoc in Hav, Hyes. simpl. split_and!; [by rewrite Hn | done | done].
Qed.

Lemma alloc3_spec :
  (alloc3_desc d = VOk None d ∧ ∃ l', (length l' < 3)%nat ∧ ∀ i, v_free d !! i = Some 1 → i ∈ l') ∨
  ∃ i0 i1 i2, avail [i0; i1; i2] ∧
    alloc3_desc d = VOk (Some [Z.of_nat i0; Z.of_nat i1; Z.of_nat i2]) (marked [i0; i1; i2]).
Proof.
  assert (d = marked []) as Hd by (unfold marked; destruct d; reflexivity).
  destruct (alloc3_from_spec 3 []) as [[H Hl] | (l & Hl & Ha & H)]; [split; [constructor | set_solver] | |];
    rewrite <- Hd in H; [by left | right].
  destruct l as [| i0 [| i1 [| i2 [|]]]]; try done. by exists i0, i1, i2.
Qed.
End alloc.

(** The state after a request is announced. *)
Definition posted (b : nat) (w : Z) (i0 i1 i2 : nat) (x : dbuf) (d : vdisk) : vdisk :=
  d <| v_ops ::= <[i0 := mkReq (if negb (w =? 0) then VIRTIO_BLK_T_OUT else VIRTIO_BLK_T_IN) 0
                          (sector_of (db_blockno x))]> |>
    <| v_desc ::= λ l,
         <[i2 := mkDesc (AStatus i0) 1 VRING_DESC_F_WRITE 0]>
        (<[i1 := mkDesc (AData b) BSIZE
             (Z.lor (if negb (w =? 0) then 0 else VRING_DESC_F_WRITE) VRING_DESC_F_NEXT) (Z.of_nat i2)]>
        (<[i0 := mkDesc (AOp i0) 16 VRING_DESC_F_NEXT (Z.of_nat i1)]> l)) |>
    <| v_info ::= <[i0 := mkInfo (Some b) 0xff]> |>
    <| v_bufs ::= <[b := x <| db_disk := 1 |>]> |>
    <| v_avail_ring ::= <[Z.to_nat (v_avail_idx d mod Z.of_nat NUM) := Z.of_nat i0]> |>
    <| v_avail_idx ::= λ i, u16 (i + 1) |>.

Lemma rw_post_ok b w i0 i1 i2 x d :
  length (v_ops d) = NUM → length (v_desc d) = NUM → length (v_info d) = NUM →
  (i0 < NUM)%nat → (i1 < NUM)%nat → (i2 < NUM)%nat → v_bufs d !! b = Some x →
  rw_post b w (Z.of_nat i0) (Z.of_nat i1) (Z.of_nat i2) d = VOk tt (posted b w i0 i1 i2 x d).
Proof.
  intros Ho Hd Hi H0 H1 H2 Hx. unfold rw_post. rewrite !Nat2Z.id.
  assert (∀ k f, (k < NUM)%nat → ∀ d', length (v_desc d') = NUM → ∃ y,
    set_desc (Z.of_nat k) (λ _, f) d' = VOk tt (d' <| v_desc ::= <[k := f]> |>) ∧ v_desc d' !! k = Some y) as HD.
  { intros k f Hk d' Hl. destruct (lookup_lt_is_Some_2 (v_desc d') k) as [y Hy]; [lia |].
    exists y. split; [| done]. by rewrite (set_desc_ok _ _ _ _ Hy). }
  destruct (lookup_lt_is_Some_2 (v_info d) i0) as [y Hy]; [lia |].
  erewrite vbind_ok by by apply vbuf_ok. erewrite vbind_ok by (apply set_op_ok; lia).
  edestruct (HD i0) as (? & E & _); [done | | erewrite vbind_ok by exact E; clear E]; [done |].
  edestruct (HD i1) as (? & E & _); [done | | erewrite vbind_ok by exact E; clear E]; [simpl; by rewrite length_insert |].
  erewrite vbind_ok by by eapply set_info_ok.
  edestruct (HD i2) as (? & E & _); [done | | erewrite vbind_ok by exact E; clear E]; [simpl; by rewrite !length_insert |].
  erewrite vbind_ok by by eapply set_dbuf_ok.
  erewrite vbind_ok by (eapply set_info_ok; simpl; apply list_lookup_insert_eq; lia).
  unfold vget, vset, posted, mbind, V_bind. destruct d; simpl. by rewrite list_insert_insert_eq.
Qed.

(** The state after the descriptors of a request are given back. *)
Definition returned (h : nat) (r : vreq) (st : Z) (d : vdisk) : vdisk :=
  d <| v_info ::= <[h := mkInfo None st]> |>
    <| v_desc ::= λ l, <[r_2 r := mkDesc ANull 0 0 0]> (<[r_1 r := mkDesc ANull 0 0 0]>
                       (<[h := mkDesc ANull 0 0 0]> l)) |>
    <| v_free ::= λ l, <[r_2 r := 1]> (<[r_1 r := 1]> (<[h := 1]> l)) |>.

Lemma free_chain_step n i d x : v_desc d !! i = Some x → v_free d !! i = Some 0 → (i < NUM)%nat →
  free_chain_from (S n) (Z.of_nat i) d =
  (if negb (Z.land (d_flags x) VRING_DESC_F_NEXT =? 0) then free_chain_from n (d_next x) else mret tt)
    (d <| v_desc ::= <[i := mkDesc ANull 0 0 0]> |> <| v_free ::= <[i := 1]> |>).
Proof.
  intros Hx Hf Hi. cbn [free_chain_from]. erewrite vbind_ok by by apply vat_ok.
  by erewrite vbind_ok by by eapply free_desc_ok.
Qed.

Lemma free_chain_ok h r d : chain_ok d h r → (∀ i, i ∈ nodes h r → v_free d !! i = Some 0) →
  (∀ i, i ∈ nodes h r → (i < NUM)%nat) →
  free_chain (Z.of_nat h) d = VOk tt
    (d <| v_desc ::= λ l, <[r_2 r := mkDesc ANull 0 0 0]> (<[r_1 r := mkDesc ANull 0 0 0]>
                       (<[h := mkDesc ANull 0 0 0]> l)) |>
       <| v_free ::= λ l, <[r_2 r := 1]> (<[r_1 r := 1]> (<[h := 1]> l)) |>).
Proof.
  intros [H0 H1 H2 _ Hnd] Hf Hn. unfold nodes in *. apply NoDup_cons in Hnd as [Hh [H12 _]%NoDup_cons].
  assert (h ≠ r_1 r ∧ h ≠ r_2 r ∧ r_1 r ≠ r_2 r) as (N1 & N2 & N3) by set_solver.
  unfold free_chain. change (S NUM) with 9%nat.
  rewrite (free_chain_step _ _ _ _ H0) by (apply Hf || apply Hn; set_solver).
  cbn [d_flags d_next]. change (negb (Z.land VRING_DESC_F_NEXT VRING_DESC_F_NEXT =? 0)) with true. cbv iota.
  erewrite free_chain_step by (try (simpl; rewrite list_lookup_insert_ne by done); try done; (apply Hf || apply Hn); set_solver).
  cbn [d_flags d_next]. replace (negb (Z.land _ _ =? 0)) with true by (by destruct (r_w r =? 0)). cbv iota.
  erewrite free_chain_step by (try (simpl; rewrite !list_lookup_insert_ne by done); try done; (apply Hf || apply Hn); set_solver).
  simpl. by destruct d.
Qed.

Lemma rw_wait_busy b i0 d x : v_bufs d !! b = Some x → db_disk x = 1 → rw_wait b i0 d = VOk false d.
Proof. intros Hx H1. unfold rw_wait. erewrite vbind_ok by by apply vbuf_ok. by rewrite H1. Qed.

Lemma rw_wait_done h r d x ob st : v_bufs d !! r_b r = Some x → db_disk x = 0 →
  v_info d !! h = Some (mkInfo ob st) → chain_ok d h r →
  (∀ i, i ∈ nodes h r → v_free d !! i = Some 0) → (∀ i, i ∈ nodes h r → (i < NUM)%nat) →
  rw_wait (r_b r) (Z.of_nat h) d = VOk true (returned h r st d).
Proof.
  intros Hx H0 Hi Hc Hf Hn. unfold rw_wait. erewrite vbind_ok by by apply vbuf_ok. rewrite H0. simpl.
  erewrite vbind_ok by by eapply set_info_ok.
  erewrite vbind_ok; [| apply free_chain_ok; [destruct Hc; by split | done | done]]. by destruct d.
Qed.

(** ** Consequences of the invariant *)

Section facts.
Context (rs : gmap nat vreq) (aq fl uq : list nat) (y : sys).
Hypothesis Hinv : vinv rs aq fl uq y.

Lemma nodes_lt h r i : rs !! h = Some r → i ∈ nodes h r → (i < NUM)%nat.
Proof.
  intros Hr Hi. destruct (vi_chain _ _ _ _ _ Hinv _ _ Hr) as [H0 H1 H2 _ _].
  destruct (vi_sizes _ _ _ _ _ Hinv) as [<- _]. unfold nodes in Hi. set_unfold in Hi.
  destruct Hi as [-> | [-> | [-> | []]]]; by eapply lookup_lt_Some.
Qed.

Lemma nodes_busy h r i : rs !! h = Some r → i ∈ nodes h r → v_free (y_disk y) !! i = Some 0.
Proof. intros Hr Hi. apply (vi_busy _ _ _ _ _ Hinv); [by eapply nodes_lt | eauto]. Qed.

Lemma free_not_node h r i : v_free (y_disk y) !! i = Some 1 → rs !! h = Some r → i ∉ nodes h r.
Proof. intros Hf Hr Hi%(nodes_busy h r); [congruence | done]. Qed.

Lemma request_thread h r : rs !! h = Some r → y_threads y !! r_t r = Some (TWait (r_b r) (r_w r) (Z.of_nat h)).
Proof. intros Hr. apply (vi_threads _ _ _ _ _ Hinv). by exists h, r. Qed.

Lemma request_uses h r : rs !! h = Some r →
  uses (TWait (r_b r) (r_w r) (Z.of_nat h)) (r_b r) = true.
Proof. intros _. apply Nat.eqb_refl. Qed.

Lemma request_buf h r : rs !! h = Some r → is_Some (v_bufs (y_disk y) !! r_b r).
Proof. intros Hr. eapply (vi_used _ _ _ _ _ Hinv); [by apply request_thread | by eapply request_uses]. Qed.

(** Two requests are about two buffers. *)
Lemma request_inj h h' r r' : rs !! h = Some r → rs !! h' = Some r' → r_b r = r_b r' → h = h'.
Proof.
  intros Hr Hr' Hb. pose proof (request_thread _ _ Hr) as Ht. pose proof (request_thread _ _ Hr') as Ht'.
  assert (r_t r = r_t r') as E.
  { eapply (vi_owner _ _ _ _ _ Hinv); [exact Ht | exact Ht' | by eapply request_uses |].
    rewrite Hb. by eapply request_uses. }
  rewrite E, Ht' in Ht. injection Ht as _ _ Hz. lia.
Qed.

Lemma queue_lt h : h ∈ aq ++ fl ++ uq → (h < NUM)%nat.
Proof.
  intros Hh. destruct (proj2 (vi_queues _ _ _ _ _ Hinv) _ Hh) as [r Hr].
  eapply nodes_lt; [done |]. unfold nodes. set_solver.
Qed.

Lemma queues_bound : (length (aq ++ fl ++ uq) <= NUM)%nat.
Proof.
  rewrite <- (length_seq NUM 0). apply submseteq_length, NoDup_submseteq; [apply (vi_queues _ _ _ _ _ Hinv) |].
  intros h Hh%queue_lt. apply elem_of_seq. lia.
Qed.

(** A free descriptor is in no queue, so the rings have room for it. *)
Lemma queues_room i : v_free (y_disk y) !! i = Some 1 → (length (aq ++ fl ++ uq) < NUM)%nat.
Proof.
  intros Hf. assert (i ∉ aq ++ fl ++ uq) as Hi.
  { intros Hi. destruct (proj2 (vi_queues _ _ _ _ _ Hinv) _ Hi) as [r Hr].
    eapply free_not_node; [done | done |]. unfold nodes. set_solver. }
  assert (length (i :: (aq ++ fl ++ uq)) <= length (seq 0 NUM))%nat; [| rewrite length_seq in *; simpl in *; lia].
  apply submseteq_length, NoDup_submseteq; [apply NoDup_cons; split; [done | apply (vi_queues _ _ _ _ _ Hinv)] |].
  intros h [-> | Hh%queue_lt]%elem_of_cons; apply elem_of_seq; [| lia].
  apply lookup_lt_Some in Hf. destruct (vi_sizes _ _ _ _ _ Hinv) as (_ & _ & _ & Hl). lia.
Qed.
End facts.

(** ** Preservation *)

Lemma unused_thread (ts : list thread) (b t : nat) u : (∀ t, t ∈ ts → uses t b = false) → ts !! t = Some u → uses u b = true → False.
Proof. intros H Ht%list_elem_of_lookup_2 Hu. by rewrite (H _ Ht) in Hu. Qed.

Lemma chain_ok_bufs d d' h r : v_desc d' = v_desc d → v_ops d' = v_ops d →
  (db_blockno <$> v_bufs d' !! r_b r) = (db_blockno <$> v_bufs d !! r_b r) →
  chain_ok d h r → chain_ok d' h r.
Proof.
  intros Hd Ho Hb [H0 H1 H2 (x & Hx & Hop) Hn]. split; rewrite ?Hd; try done.
  rewrite Hx in Hb. simpl in Hb. apply fmap_Some in Hb as (x' & Hx' & E).
  exists x'. rewrite Ho. by rewrite <- E.
Qed.

Lemma fill_ok rs aq fl uq d dv ts b x n data : vinv rs aq fl uq (mkSys d dv ts) →
  v_bufs d !! b = Some x → (∀ t, t ∈ ts → uses t b = false) → valid_block n → length data = Z.to_nat BSIZE →
  vinv rs aq fl uq
    (mkSys (d <| v_bufs ::= <[b := x <| db_blockno := n |> <| db_data := data |>]> |>) dv ts).
Proof.
  intros Hinv Hx Hun Hn Hdata.
  assert (∀ h r, rs !! h = Some r → r_b r ≠ b) as Hne.
  { intros h r Hr <-. eapply unused_thread; [done | by eapply (request_thread _ _ _ _ _ Hinv) |]. by eapply request_uses. }
  destruct Hinv. split; simpl in *; try done.
  - intros h r Hr. eapply chain_ok_bufs; [..| by eapply vi_chain0]; [done | done |].
    simpl. by rewrite list_lookup_insert_ne by (apply not_eq_sym; eauto).
  - intros t u b' Ht Hu. apply lookup_lt_is_Some. rewrite length_insert. apply lookup_lt_is_Some. eauto.
  - intros b' x' [[<- [<- _]] | [_ Hx']]%list_lookup_insert_Some; [done | eauto].
  - intros h r x' Hr. rewrite list_lookup_insert_ne by (apply not_eq_sym; eauto). eauto.
Qed.

Lemma call_ok rs aq fl uq d dv ts t b x w : vinv rs aq fl uq (mkSys d dv ts) →
  ts !! t = Some TIdle → v_bufs d !! b = Some x → (∀ t, t ∈ ts → uses t b = false) →
  vinv rs aq fl uq (mkSys d dv (<[t := TAlloc b w]> ts)).
Proof.
  intros [] Ht Hx Hun. split; simpl in *; try done.
  - intros t' b' w' z. rewrite <- vi_threads0. destruct (decide (t' = t)) as [-> |].
    + rewrite list_lookup_insert_eq by (by eapply lookup_lt_Some). split; [done | congruence].
    + by rewrite list_lookup_insert_ne.
  - intros t1 t2 u1 u2 b'.
    intros [[<- [<- _]] | [N1 H1]]%list_lookup_insert_Some [[<- [<- _]] | [N2 H2]]%list_lookup_insert_Some; simpl;
      [done | ..].
    + intros ->%Nat.eqb_eq Hu. by destruct (unused_thread _ _ _ _ Hun H2 Hu).
    + intros Hu ->%Nat.eqb_eq. by destruct (unused_thread _ _ _ _ Hun H1 Hu).
    + eauto.
  - intros t' u b' [[<- [<- _]] | [_ H1]]%list_lookup_insert_Some Hu; [| eauto].
    apply Nat.eqb_eq in Hu as ->. eauto.
Qed.

(** [rw_try] sleeps without a trace or announces a request. *)
Lemma rw_try_spec rs aq fl uq d dv ts b w x : vinv rs aq fl uq (mkSys d dv ts) → v_bufs d !! b = Some x →
  (rw_try b w d = VOk None d ∧ rs ≠ ∅) ∨
  ∃ i0 i1 i2, avail d [i0; i1; i2] ∧
    rw_try b w d = VOk (Some (Z.of_nat i0)) (posted b w i0 i1 i2 x (marked d [i0; i1; i2])).
Proof.
  intros Hinv Hx. destruct (vi_sizes _ _ _ _ _ Hinv) as (Hd & Hi & Ho & Hf). simpl in *.
  destruct (alloc3_spec d) as [(E & l & Hl & Hin) | (i0 & i1 & i2 & Ha & E)]; [done | apply (vi_free _ _ _ _ _ Hinv) | left | right].
  - split; [unfold rw_try; by erewrite vbind_ok by done |]. intros ->.
    assert (seq 0 NUM ⊆+ l) as HS%submseteq_length.
    { apply NoDup_submseteq; [apply NoDup_seq |]. intros i Hseq%elem_of_seq. apply Hin.
      destruct (lookup_lt_is_Some_2 (v_free d) i) as [f Hff]; [lia |]. destruct (decide (f = 0)) as [-> | Hf0].
      - apply (vi_busy _ _ _ _ _ Hinv) in Hff as (? & ? & ? & _); [done | lia].
      - by destruct (vi_free _ _ _ _ _ Hinv _ _ Hff Hf0) as [-> _]. }
    rewrite length_seq in HS. unfold NUM in HS. lia.
  - exists i0, i1, i2. split; [done |]. unfold rw_try. erewrite vbind_ok by done.
    assert (∀ i, i ∈ [i0; i1; i2] → (i < NUM)%nat) as Hlt by (intros i Hin; by eapply (avail_lt d)).
    cbv beta iota. erewrite vbind_ok by (apply rw_post_ok; try done; apply Hlt; set_solver). done.
Qed.

(** A chain survives changes elsewhere. *)
Lemma chain_ok_frame d d' h r : (∀ i, i ∈ nodes h r → v_desc d' !! i = v_desc d !! i) →
  v_ops d' !! h = v_ops d !! h →
  (db_blockno <$> v_bufs d' !! r_b r) = (db_blockno <$> v_bufs d !! r_b r) →
  chain_ok d h r → chain_ok d' h r.
Proof.
  intros Hd Ho Hb [H0 H1 H2 (x & Hx & Hop) Hn]. unfold nodes in Hd. split; rewrite ?Hd by set_solver; try done.
  rewrite Hx in Hb. simpl in Hb. apply fmap_Some in Hb as (x' & Hx' & E).
  exists x'. rewrite Ho. by rewrite <- E.
Qed.

Section post.
Context (rs : gmap nat vreq) (aq fl uq : list nat) (d : vdisk) (dv : device) (ts : list thread).
Context (t b : nat) (w : Z) (x : dbuf) (i0 i1 i2 : nat).
Hypothesis Hinv : vinv rs aq fl uq (mkSys d dv ts).
Hypothesis Ht : ts !! t = Some (TAlloc b w).
Hypothesis Hx : v_bufs d !! b = Some x.
Hypothesis Ha : avail d [i0; i1; i2].

Let l := [i0; i1; i2].
Let d' := posted b w i0 i1 i2 x (marked d l).
Let r0 := mkVreq t b w i1 i2.

Lemma post_lt i : i ∈ l → (i < NUM)%nat.
Proof.
  intros Hi%(proj2 Ha)%lookup_lt_Some. destruct (vi_sizes _ _ _ _ _ Hinv) as (_ & _ & _ & Hl). simpl in Hl. lia.
Qed.

Lemma post_fresh h r i : rs !! h = Some r → i ∈ nodes h r → i ∉ l.
Proof. intros Hr Hi Hl. by eapply (free_not_node _ _ _ _ _ Hinv); [apply (proj2 Ha) | |]. Qed.

Lemma post_head h r : rs !! h = Some r → h ≠ i0.
Proof. intros Hr ->. apply (post_fresh _ _ i0 Hr); unfold nodes, l; set_solver. Qed.

Lemma post_other h r : rs !! h = Some r → r_b r ≠ b.
Proof.
  intros Hr <-. pose proof (request_thread _ _ _ _ _ Hinv _ _ Hr) as Ht'. simpl in Ht'.
  assert (r_t r = t) as E; [| rewrite E in Ht'; congruence].
  eapply (vi_owner _ _ _ _ _ Hinv); [exact Ht' | exact Ht | apply Nat.eqb_refl | apply Nat.eqb_refl].
Qed.

Lemma post_queue h : h ∈ aq ++ fl ++ uq → h ≠ i0.
Proof. intros [r Hr]%(proj2 (vi_queues _ _ _ _ _ Hinv)). by eapply post_head. Qed.

Lemma post_desc i : i ∉ l → v_desc d' !! i = v_desc d !! i.
Proof. intros Hi. simpl. unfold l in Hi. rewrite !list_lookup_insert_ne by set_solver. done. Qed.

Lemma post_buf b' : v_bufs d' !! b' = if decide (b' = b) then Some (x <| db_disk := 1 |>) else v_bufs d !! b'.
Proof.
  simpl. case_decide as E; [subst; apply list_lookup_insert_eq; by eapply lookup_lt_Some |].
  by rewrite list_lookup_insert_ne.
Qed.

Lemma post_chain h r : <[i0 := r0]> rs !! h = Some r → chain_ok d' h r.
Proof.
  intros [[<- <-] | [Hne Hr]]%lookup_insert_Some.
  - destruct (vi_sizes _ _ _ _ _ Hinv) as (Hd & _ & Ho & _). simpl in Hd, Ho.
    destruct Ha as [Hnd _]. pose proof Hnd as Hnd'. apply NoDup_cons in Hnd' as [N0 [N1 _]%NoDup_cons].
    pose proof (post_lt i0 ltac:(set_solver)). pose proof (post_lt i1 ltac:(set_solver)). pose proof (post_lt i2 ltac:(set_solver)).
    split; simpl.
    + rewrite !list_lookup_insert_ne by set_solver. apply list_lookup_insert_eq. lia.
    + rewrite list_lookup_insert_ne by set_solver. apply list_lookup_insert_eq. rewrite length_insert. lia.
    + apply list_lookup_insert_eq. rewrite !length_insert. lia.
    + exists (x <| db_disk := 1 |>). split; [apply list_lookup_insert_eq; by eapply lookup_lt_Some |].
      apply list_lookup_insert_eq. lia.
    + done.
  - eapply chain_ok_frame; [..| by apply (vi_chain _ _ _ _ _ Hinv)].
    + intros i Hi. apply post_desc. by eapply post_fresh.
    + simpl. by rewrite list_lookup_insert_ne by done.
    + rewrite post_buf, decide_False by (by eapply post_other). done.
Qed.

Lemma post_busy i : (i < NUM)%nat →
  v_free d' !! i = Some 0 ↔ ∃ h r, <[i0 := r0]> rs !! h = Some r ∧ i ∈ nodes h r.
Proof.
  intros Hi. change (v_free d') with (mark l (v_free d)). rewrite mark_lookup. case_decide as Hin.
  - rewrite (proj2 Ha i Hin). split; [intros _ | done]. exists i0, r0. by rewrite lookup_insert_eq.
  - rewrite (vi_busy _ _ _ _ _ Hinv i Hi). split.
    + intros (h & r & Hr & Hn). exists h, r. rewrite lookup_insert_ne by (apply not_eq_sym; by eapply post_head). done.
    + intros (h & r & [[<- <-] | [Hne Hr]]%lookup_insert_Some & Hn); [done | eauto].
Qed.

Lemma post_disj h h' r r' i : <[i0 := r0]> rs !! h = Some r → <[i0 := r0]> rs !! h' = Some r' →
  i ∈ nodes h r → i ∈ nodes h' r' → h = h'.
Proof.
  intros [[<- <-] | [Hne Hr]]%lookup_insert_Some [[<- <-] | [Hne' Hr']]%lookup_insert_Some Hi Hi'; [done | ..].
  - by destruct (post_fresh _ _ _ Hr' Hi').
  - by destruct (post_fresh _ _ _ Hr Hi).
  - by eapply (vi_disj _ _ _ _ _ Hinv).
Qed.

Lemma post_threads t' b' w' z : <[t := TWait b w (Z.of_nat i0)]> ts !! t' = Some (TWait b' w' z) ↔
  ∃ h r, z = Z.of_nat h ∧ <[i0 := r0]> rs !! h = Some r ∧ r_t r = t' ∧ r_b r = b' ∧ r_w r = w'.
Proof.
  pose proof (lookup_lt_Some _ _ _ Ht). split.
  - intros [[<- [[= <- <- <-] _]] | [Hne H']]%list_lookup_insert_Some.
    + exists i0, r0. by rewrite lookup_insert_eq.
    + apply (vi_threads _ _ _ _ _ Hinv) in H' as (h & r & -> & Hr & E). exists h, r.
      rewrite lookup_insert_ne by (apply not_eq_sym; by eapply post_head). done.
  - intros (h & r & -> & [[<- <-] | [Hne Hr]]%lookup_insert_Some & <- & <- & <-).
    + by apply list_lookup_insert_eq.
    + pose proof (request_thread _ _ _ _ _ Hinv _ _ Hr) as Ht'. simpl in Ht'.
      rewrite list_lookup_insert_ne; [done |]. intros E. rewrite <- E, Ht in Ht'. done.
Qed.

Lemma post_ok : vinv (<[i0 := r0]> rs) (aq ++ [i0]) fl uq
  (mkSys d' dv (<[t := TWait b w (Z.of_nat i0)]> ts)).
Proof.
  pose proof (lookup_lt_Some _ _ _ Ht) as Hlt. pose proof (post_lt i0 ltac:(set_solver)) as H0.
  pose proof (queues_room _ _ _ _ _ Hinv i0 (proj2 Ha i0 ltac:(set_solver))) as Hroom.
  destruct (vi_sizes _ _ _ _ _ Hinv) as (Hd & Hi & Ho & Hf). simpl in Hd, Hi, Ho, Hf.
  split; simpl y_disk; simpl y_dev; simpl y_threads; try apply Hinv.
  - simpl. rewrite !length_insert. done.
  - apply post_threads.
  - apply post_chain.
  - apply post_disj.
  - apply post_busy.
  - intros i y. change (v_free d') with (mark l (v_free d)). rewrite mark_lookup. case_decide as Hin.
    + intros (? & ? & ->)%fmap_Some. done.
    + rewrite post_desc by done. apply (vi_free _ _ _ _ _ Hinv).
  - intros t1 t2 u1 u2 b'.
    assert (∀ t1 u1, <[t:=TWait b w (Z.of_nat i0)]> ts !! t1 = Some u1 → uses u1 b' = true →
      ∃ u, ts !! t1 = Some u ∧ uses u b' = true) as Hold.
    { intros t' u' [[<- [<- _]] | [_ H1]]%list_lookup_insert_Some Hu; eauto. }
    intros H1 H2 U1 U2. destruct (Hold _ _ H1 U1) as (v1 & ? & ?), (Hold _ _ H2 U2) as (v2 & ? & ?).
    by eapply (vi_owner _ _ _ _ _ Hinv).
  - intros t' u b' Hu Hb. rewrite post_buf. case_decide; [done |].
    apply list_lookup_insert_Some in Hu as [[<- [<- _]] | [_ Hu]]; [by apply Nat.eqb_eq in Hb |].
    by eapply (vi_used _ _ _ _ _ Hinv).
  - intros b' y. rewrite post_buf. case_decide as E; [intros [= <-]; subst | ].
    + exact (vi_bufs _ _ _ _ _ Hinv b x Hx).
    + apply (vi_bufs _ _ _ _ _ Hinv).
  - intros h r y [[<- <-] | [Hne Hr]]%lookup_insert_Some; rewrite post_buf.
    + rewrite decide_True by done. intros [= <-]. simpl. rewrite decide_True; [done | set_solver].
    + rewrite decide_False by (by eapply post_other). intros Hy.
      rewrite (vi_disk _ _ _ _ _ Hinv _ _ _ Hr Hy). apply decide_ext. set_solver.
  - intros h r [[<- <-] | [Hne Hr]]%lookup_insert_Some; simpl.
    + rewrite list_lookup_insert_eq by lia. rewrite decide_True; [done | set_solver].
    + rewrite list_lookup_insert_ne by done. etrans; [exact (vi_info _ _ _ _ _ Hinv _ _ Hr) |].
      do 2 f_equal. apply decide_ext. set_solver.
  - destruct (vi_queues _ _ _ _ _ Hinv) as [Hnd Hs]. split.
    + rewrite <- app_assoc, Permutation_app_swap_app. apply NoDup_cons. split; [| done].
      intros E. by apply post_queue in E.
    + intros h Hh. destruct (decide (h = i0)) as [-> |]; [by rewrite lookup_insert_eq |].
      rewrite lookup_insert_ne by done. apply Hs. set_solver.
  - rewrite fmap_app. apply ring_snoc; [apply Hinv |]. rewrite length_fmap. rewrite !length_app in Hroom. lia.
Qed.
End post.

Lemma insert3_lookup {A} (i j k n : nat) (a : A) (m : list A) : (i < length m)%nat → (j < length m)%nat →
  (k < length m)%nat →
  <[k := a]> (<[j := a]> (<[i := a]> m)) !! n = if decide (n ∈ [i; j; k]) then Some a else m !! n.
Proof.
  intros Hi Hj Hk. case_decide as Hn.
  - destruct (decide (n = k)) as [-> |]; [apply list_lookup_insert_eq; rewrite !length_insert; lia |].
    rewrite list_lookup_insert_ne by done.
    destruct (decide (n = j)) as [-> |]; [apply list_lookup_insert_eq; rewrite !length_insert; lia |].
    rewrite list_lookup_insert_ne by done. assert (n = i) as -> by set_solver. by apply list_lookup_insert_eq.
  - rewrite !list_lookup_insert_ne by set_solver. done.
Qed.

Section return_.
Context (rs : gmap nat vreq) (aq fl uq : list nat) (d : vdisk) (dv : device) (ts : list thread).
Context (h : nat) (r : vreq) (st : Z).
Hypothesis Hinv : vinv rs aq fl uq (mkSys d dv ts).
Hypothesis Hr : rs !! h = Some r.
Hypothesis Hq : h ∉ aq ++ fl ++ uq.

Let d' := returned h r st d.

Lemma return_desc i : v_desc d' !! i = if decide (i ∈ nodes h r) then Some (mkDesc ANull 0 0 0) else v_desc d !! i.
Proof.
  destruct (vi_sizes _ _ _ _ _ Hinv) as (Hd & _). simpl in Hd.
  apply insert3_lookup; rewrite Hd; eapply (nodes_lt _ _ _ _ _ Hinv); [exact Hr | | exact Hr | | exact Hr |];
    unfold nodes; set_solver.
Qed.

Lemma return_free i : v_free d' !! i = if decide (i ∈ nodes h r) then Some 1 else v_free d !! i.
Proof.
  destruct (vi_sizes _ _ _ _ _ Hinv) as (_ & _ & _ & Hf). simpl in Hf.
  apply insert3_lookup; rewrite Hf; eapply (nodes_lt _ _ _ _ _ Hinv); [exact Hr | | exact Hr | | exact Hr |];
    unfold nodes; set_solver.
Qed.

Lemma return_threads t b w z : <[r_t r := TIdle]> ts !! t = Some (TWait b w z) ↔
  ∃ h' r', z = Z.of_nat h' ∧ delete h rs !! h' = Some r' ∧ r_t r' = t ∧ r_b r' = b ∧ r_w r' = w.
Proof.
  pose proof (request_thread _ _ _ _ _ Hinv _ _ Hr) as Ht. simpl in Ht. split.
  - intros [[_ [? _]] | [Hne H']]%list_lookup_insert_Some; [done |].
    apply (vi_threads _ _ _ _ _ Hinv) in H' as (h' & r' & -> & Hr' & E & ?). exists h', r'.
    rewrite lookup_delete_ne; [done |]. intros <-. simplify_eq.
  - intros (h' & r' & -> & [Hne Hr']%lookup_delete_Some & <- & <- & <-).
    pose proof (request_thread _ _ _ _ _ Hinv _ _ Hr') as Ht'. simpl in Ht'.
    rewrite list_lookup_insert_ne; [done |]. intros E. rewrite <- E, Ht in Ht'. injection Ht' as _ _ Hz. lia.
Qed.

Lemma return_ok : vinv (delete h rs) aq fl uq (mkSys d' dv (<[r_t r := TIdle]> ts)).
Proof.
  destruct (vi_sizes _ _ _ _ _ Hinv) as (Hd & Hi & Ho & Hf). simpl in Hd, Hi, Ho, Hf.
  split; simpl y_disk; simpl y_dev; simpl y_threads; try apply Hinv.
  - simpl. rewrite !length_insert. done.
  - apply return_threads.
  - intros h' r' [Hne Hr']%lookup_delete_Some. eapply chain_ok_frame; [..| by apply (vi_chain _ _ _ _ _ Hinv)]; try done.
    intros i Hi'. rewrite return_desc, decide_False; [done |]. intros Hin. by destruct Hne; eapply (vi_disj _ _ _ _ _ Hinv).
  - intros h1 h2 r1 r2 i [_ H1]%lookup_delete_Some [_ H2]%lookup_delete_Some. by apply (vi_disj _ _ _ _ _ Hinv).
  - intros i Hlt. rewrite return_free. case_decide as Hin.
    + split; [done |]. intros (h' & r' & [Hne Hr']%lookup_delete_Some & Hi'). by destruct Hne; eapply (vi_disj _ _ _ _ _ Hinv).
    + rewrite (vi_busy _ _ _ _ _ Hinv) by done. split; intros (h' & r' & Hr' & Hi'); exists h', r'.
      * rewrite lookup_delete_ne; [done |]. intros <-. by simplify_eq.
      * by apply lookup_delete_Some in Hr' as [_ ?].
  - intros i x. rewrite return_free, return_desc. case_decide; [by intros [= <-] |]. apply (vi_free _ _ _ _ _ Hinv).
  - intros t1 t2 u1 u2 b [[_ [<- _]] | [_ H1]]%list_lookup_insert_Some; [done |].
    intros [[_ [<- _]] | [_ H2]]%list_lookup_insert_Some; [done |]. by apply (vi_owner _ _ _ _ _ Hinv t1 t2 u1 u2 b).
  - intros t u b [[_ [<- _]] | [_ H1]]%list_lookup_insert_Some; [done |]. by apply (vi_used _ _ _ _ _ Hinv t u b).
  - intros h' r' x [Hne Hr']%lookup_delete_Some. by apply (vi_disk _ _ _ _ _ Hinv).
  - intros h' r' [Hne Hr']%lookup_delete_Some. simpl. rewrite list_lookup_insert_ne by done.
    exact (vi_info _ _ _ _ _ Hinv _ _ Hr').
  - destruct (vi_queues _ _ _ _ _ Hinv) as [Hnd Hs]. split; [done |]. intros h' Hh'.
    rewrite lookup_delete_ne by (intros <-; done). by apply Hs.
Qed.
End return_.

(** What the callers see of the disk. *)
Definition buf_view (x : dbuf) : Z * list Z := (db_blockno x, db_data x).
Record same_view (d d' : vdisk) : Prop := {
  sv_info : v_info d' = v_info d;
  sv_bufs : buf_view <$> v_bufs d' = buf_view <$> v_bufs d;
  sv_sectors : v_sectors d' = v_sectors d;
}.

Definition acked (b : nat) (x : dbuf) (d : vdisk) : vdisk :=
  d <| v_bufs ::= <[b := x <| db_disk := 0 |>]> |> <| v_seen ::= λ i, u16 (i + 1) |>.

Section intr.
Context (rs : gmap nat vreq) (aq fl : list nat) (dv : device) (ts : list thread).

Lemma acked_view b x d : v_bufs d !! b = Some x → same_view d (acked b x d).
Proof.
  intros Hx. split; [done | | done]. simpl. rewrite list_fmap_insert. apply list_insert_id.
  by rewrite list_lookup_fmap, Hx.
Qed.

Lemma ack_ok h uq d r x : vinv rs aq fl (h :: uq) (mkSys d dv ts) → rs !! h = Some r →
  v_bufs d !! r_b r = Some x → vinv rs aq fl uq (mkSys (acked (r_b r) x d) dv ts).
Proof.
  intros Hinv Hr Hx. pose proof (lookup_lt_Some _ _ _ Hx) as Hlt.
  assert (aq ++ fl ++ h :: uq ≡ₚ h :: aq ++ fl ++ uq) as Hperm by (rewrite !app_assoc; symmetry; apply Permutation_middle).
  destruct (vi_queues _ _ _ _ _ Hinv) as [Hnd Hs]. rewrite Hperm in Hnd. apply NoDup_cons in Hnd as [Hh Hnd].
  split; simpl y_disk; simpl y_dev; simpl y_threads; try apply Hinv.
  - intros h' r' Hr'. eapply (chain_ok_frame d); [done | done | | by apply (vi_chain _ _ _ _ _ Hinv)].
    simpl. destruct (decide (r_b r' = r_b r)) as [-> |]; [| by rewrite list_lookup_insert_ne].
    rewrite list_lookup_insert_eq by done. by rewrite Hx.
  - intros t u b Hu Hb. apply lookup_lt_is_Some. simpl. rewrite length_insert. apply lookup_lt_is_Some.
    by eapply (vi_used _ _ _ _ _ Hinv).
  - intros b y [[<- [<- _]] | [_ Hy]]%list_lookup_insert_Some; [| by apply (vi_bufs _ _ _ _ _ Hinv b)].
    exact (vi_bufs _ _ _ _ _ Hinv _ x Hx).
  - intros h' r' y Hr' [[Hb [<- _]] | [Hne Hy]]%list_lookup_insert_Some.
    + rewrite <- (request_inj _ _ _ _ _ Hinv _ _ _ _ Hr Hr' Hb). by rewrite decide_False.
    + etrans; [exact (vi_disk _ _ _ _ _ Hinv _ _ _ Hr' Hy) |]. apply decide_ext. rewrite Hperm.
      rewrite elem_of_cons. split; [intros [-> |]; [by simplify_eq | done] | auto].
  - split; [done |]. intros h' Hh'. apply Hs. rewrite Hperm. set_solver.
  - simpl. exact (proj2 (proj2 (ring_cons _ _ _ _ _ (vi_answers _ _ _ _ _ Hinv)))).
Qed.

Lemma intr_from_ok uq : ∀ n d, vinv rs aq fl uq (mkSys d dv ts) → (length uq < n)%nat →
  ∃ d', intr_from n d = VOk tt d' ∧ vinv rs aq fl [] (mkSys d' dv ts) ∧ same_view d d'.
Proof.
  induction uq as [| h uq IH]; intros [| n] d Hinv Hn; simpl in Hn; try lia; cbn [intr_from].
  - exists d. rewrite !vbind_get.
    pose proof (ring_nil _ _ _ (vi_answers _ _ _ _ _ Hinv)) as E. simpl in E. rewrite E, Z.eqb_refl. done.
  - rewrite !vbind_get.
    pose proof (vi_answers _ _ _ _ _ Hinv) as HA. simpl in HA. pose proof (rh_start _ _ _ _ HA) as H0.
    destruct (ring_cons _ _ _ _ _ HA) as (Hne & Hat & _).
    rewrite (proj2 (Z.eqb_neq _ _) Hne).
    rewrite list_lookup_fmap in Hat. apply fmap_Some in Hat as ([id len] & Hat & E). simpl in E. subst id.
    destruct (proj2 (vi_queues _ _ _ _ _ Hinv) h ltac:(set_solver)) as [r Hr].
    destruct (request_buf _ _ _ _ _ Hinv _ _ Hr) as [x Hx]. simpl in Hx.
    pose proof (vi_info _ _ _ _ _ Hinv _ _ Hr) as Hi. simpl in Hi. rewrite decide_False in Hi.
    2: { destruct (vi_queues _ _ _ _ _ Hinv) as [Hnd _]. rewrite app_assoc in Hnd. apply NoDup_app in Hnd as (_ & Hd & _).
         intros Hin%Hd. set_solver. }
    assert (vat v_used_ring (v_seen d mod Z.of_nat NUM) d = VOk (Z.of_nat h, len) d) as E.
    { rewrite <- (Z2Nat.id (v_seen d mod Z.of_nat NUM)); [by apply vat_ok |]. apply Z.mod_pos_bound. unfold NUM. lia. }
    rewrite (vbind_ok _ _ _ _ _ E). clear E. rewrite (vbind_ok _ _ _ _ _ (vat_ok _ _ _ _ Hi)). cbn [in_status in_b negb Z.eqb].
    rewrite (vbind_ok _ _ _ _ _ (set_dbuf_ok _ _ _ _ Hx)). rewrite vbind_set.
    destruct (IH n (acked (r_b r) x d)) as (d' & E & Hinv' & HV); [by eapply ack_ok | lia |].
    exists d'. split; [| split; [done |]].
    + rewrite <- E. by destruct d.
    + pose proof (acked_view _ _ _ Hx) as [V1 V2 V3]. destruct HV. split; congruence.
Qed.

Lemma virtio_disk_intr_ok uq d : vinv rs aq fl uq (mkSys d dv ts) →
  ∃ d', virtio_disk_intr d = VOk tt d' ∧ vinv rs aq fl [] (mkSys d' dv ts) ∧ same_view d d'.
Proof.
  intros Hinv. apply (intr_from_ok uq); [done |]. pose proof (queues_bound _ _ _ _ _ Hinv) as HB.
  rewrite !length_app in HB. unfold NUM in HB. change (2 ^ 16) with 65536. lia.
Qed.
End intr.

(** ** The device *)

Definition moved (r : vreq) (x : dbuf) (d : vdisk) : vdisk :=
  if negb (r_w r =? 0)
  then d <| v_sectors := sectors_write (v_sectors d) (sector_of (db_blockno x)) BSIZE (db_data x) |>
  else d <| v_bufs ::= <[r_b r := x <| db_data := block_of (v_sectors d) (db_blockno x) |>]> |>.

Definition transferred (h : nat) (r : vreq) (x : dbuf) (d : vdisk) : vdisk :=
  mkDisk (v_desc d) (v_avail_idx d) (v_avail_ring d) (u16 (v_used_idx d + 1))
    (<[Z.to_nat (v_used_idx d mod Z.of_nat NUM) := (Z.of_nat h, BSIZE + 1)]> (v_used_ring d))
    (v_free d) (v_seen d) (<[h := mkInfo (Some (r_b r)) 0]> (v_info d)) (v_ops d)
    (v_bufs (moved r x d)) (v_sectors (moved r x d)).

Lemma sector_of_valid n : valid_block n → sector_of n = 2 * n.
Proof. intros Hn. unfold sector_of, u32, BSIZE, valid_block in *. change (1024 / 512) with 2. rewrite Z.mod_small; lia. Qed.

Lemma read_block f sec : sectors_read f sec BSIZE = f sec ++ f (sec + 1).
Proof. unfold sectors_read. change (Z.to_nat (BSIZE / 512)) with 2%nat. simpl. by rewrite Z.add_0_r, app_nil_r. Qed.

Lemma block_of_length f n : (∀ k, length (f k) = 512%nat) → length (block_of f n) = Z.to_nat BSIZE.
Proof. intros Hf. unfold block_of. rewrite read_block, length_app, !Hf. done. Qed.

(** A written block reads back, and the other blocks keep their content. *)
Lemma block_of_write f n data : valid_block n → length data = Z.to_nat BSIZE →
  same_blocks (block_of (sectors_write f (sector_of n) BSIZE data))
    (λ k, if k =? n then data else block_of f k).
Proof.
  intros Hn Hd k Hk. unfold block_of. rewrite !read_block, !sector_of_valid by done. unfold sectors_write.
  change (BSIZE / 512) with 2. destruct (Z.eqb_spec k n) as [-> | Hne].
  - rewrite (proj2 (Z.leb_le _ _)), (proj2 (Z.ltb_lt _ _)), (proj2 (Z.leb_le _ _)), (proj2 (Z.ltb_lt _ _)) by lia.
    rewrite Z.sub_diag. replace (2 * n + 1 - 2 * n) with 1 by lia. simpl andb. cbv iota.
    unfold slice. change (Z.to_nat (512 * 0)) with 0%nat. change (Z.to_nat (512 * 1)) with 512%nat.
    rewrite drop_0, (firstn_all2 (n := 512) (drop 512 data)); [apply take_drop |].
    rewrite length_drop, Hd. change (Z.to_nat BSIZE) with 1024%nat. lia.
  - f_equal; destruct (Z.leb_spec (2 * n) (2 * k)), (Z.ltb_spec (2 * k) (2 * n + 2)),
      (Z.leb_spec (2 * n) (2 * k + 1)), (Z.ltb_spec (2 * k + 1) (2 * n + 2)); simpl; done || lia.
Qed.

Lemma sectors_write_length f sec data : (∀ k, length (f k) = 512%nat) → length data = Z.to_nat BSIZE →
  ∀ k, length (sectors_write f sec BSIZE data k) = 512%nat.
Proof.
  intros Hf Hd k. unfold sectors_write. change (BSIZE / 512) with 2.
  destruct (Z.leb_spec sec k), (Z.ltb_spec k (sec + 2)); simpl; try apply Hf.
  unfold slice. rewrite length_take, length_drop, Hd. change (Z.to_nat BSIZE) with 1024%nat. lia.
Qed.

Section device.
Context (rs : gmap nat vreq) (aq f1 f2 uq : list nat) (d : vdisk) (dv : device) (ts : list thread).
Context (h : nat) (r : vreq) (x : dbuf).
Hypothesis Hinv : vinv rs aq (f1 ++ h :: f2) uq (mkSys d dv ts).
Hypothesis Hr : rs !! h = Some r.
Hypothesis Hx : v_bufs d !! r_b r = Some x.

Lemma transfer_ok : transfer (Z.of_nat h) d = Some (transferred h r x d).
Proof.
  destruct (vi_chain _ _ _ _ _ Hinv _ _ Hr) as [H0 H1 H2 (x' & Hx' & Hop) _]. simpl in *. simplify_eq.
  unfold transfer, chain_at. rewrite Nat2Z.id, H0. simpl. rewrite Nat2Z.id, H1. simpl. rewrite Nat2Z.id, H2. simpl.
  pose proof (vi_info _ _ _ _ _ Hinv _ _ Hr) as Hi. simpl in Hi.
  unfold transferred, moved, block_of.
  destruct (r_w r =? 0); simpl; rewrite Hop; simpl; rewrite Hx; simpl; rewrite Hi; by destruct d.
Qed.

Lemma moved_buf b : db_blockno <$> v_bufs (moved r x d) !! b = db_blockno <$> v_bufs d !! b ∧
  db_disk <$> v_bufs (moved r x d) !! b = db_disk <$> v_bufs d !! b.
Proof.
  unfold moved. destruct (r_w r =? 0); simpl; [| done].
  destruct (decide (b = r_b r)) as [-> |]; [| by rewrite list_lookup_insert_ne].
  rewrite list_lookup_insert_eq by (by eapply lookup_lt_Some). by rewrite Hx.
Qed.

Lemma moved_sizes b y : v_bufs (moved r x d) !! b = Some y →
  valid_block (db_blockno y) ∧ length (db_data y) = Z.to_nat BSIZE.
Proof.
  pose proof (vi_bufs _ _ _ _ _ Hinv) as HB. simpl in HB. unfold moved. destruct (r_w r =? 0); simpl; [| apply HB].
  intros [[<- [<- _]] | [_ Hy]]%list_lookup_insert_Some; [| by eapply HB].
  simpl. rewrite block_of_length by apply Hinv. split; [by apply (HB (r_b r) x) | done].
Qed.

Lemma moved_sectors k : length (v_sectors (moved r x d) k) = 512%nat.
Proof.
  pose proof (vi_sectors _ _ _ _ _ Hinv) as HS. simpl in HS. unfold moved. destruct (r_w r =? 0); simpl; [done |].
  apply sectors_write_length; [done |]. by apply (vi_bufs _ _ _ _ _ Hinv (r_b r) x).
Qed.

Lemma finish_ok : vinv rs aq (f1 ++ f2) (uq ++ [h])
  (mkSys (transferred h r x d) (mkDev (dv_seen dv) (Z.of_nat <$> f1 ++ f2)) ts).
Proof.
  assert (aq ++ (f1 ++ f2) ++ uq ++ [h] ≡ₚ aq ++ (f1 ++ h :: f2) ++ uq) as Hperm.
  { rewrite <- !app_assoc. simpl. do 2 f_equiv. rewrite app_assoc, Permutation_app_comm. done. }
  destruct (vi_queues _ _ _ _ _ Hinv) as [Hnd Hs]. pose proof Hnd as Hnd'. rewrite <- Hperm, !app_assoc in Hnd'.
  apply NoDup_app in Hnd' as (_ & Hout & _). pose proof (queues_bound _ _ _ _ _ Hinv) as HB.
  destruct (vi_sizes _ _ _ _ _ Hinv) as (Hd & Hi & Ho & Hf). simpl in Hd, Hi, Ho, Hf.
  assert (h < NUM)%nat by (eapply (queue_lt _ _ _ _ _ Hinv); set_solver).
  split; simpl; try apply Hinv.
  - by rewrite length_insert.
  - intros h' r' Hr'. eapply (chain_ok_frame d); [done | done | apply moved_buf | by apply (vi_chain _ _ _ _ _ Hinv)].
  - intros t u b Hu Hb. destruct (vi_used _ _ _ _ _ Hinv _ _ _ Hu Hb) as [y Hy]. simpl in Hy.
    pose proof (proj1 (moved_buf b)) as E. rewrite Hy in E. apply fmap_Some in E as (? & ? & _). eauto.
  - intros b y. apply moved_sizes.
  - intros h' r' y Hr' Hy. pose proof (proj2 (moved_buf (r_b r'))) as E. rewrite Hy in E. symmetry in E.
    apply fmap_Some in E as (y0 & Hy0 & ->). etrans; [exact (vi_disk _ _ _ _ _ Hinv _ _ _ Hr' Hy0) |].
    apply decide_ext. by rewrite Hperm.
  - intros h' r' Hr'. destruct (decide (h' = h)) as [-> | Hne].
    + simplify_eq. rewrite list_lookup_insert_eq by lia. rewrite decide_False; [done |]. set_solver.
    + rewrite list_lookup_insert_ne by done. etrans; [exact (vi_info _ _ _ _ _ Hinv _ _ Hr') |].
      do 2 f_equal. apply decide_ext. set_solver.
  - split; [by rewrite Hperm | intros h' Hh'; apply Hs; by rewrite <- Hperm].
  - done.
  - rewrite list_fmap_insert, fmap_app. apply ring_snoc; [apply Hinv |].
    rewrite length_fmap. rewrite !length_app in HB. simpl in HB. lia.
  - apply moved_sectors.
Qed.
End device.

Lemma fetch_ok rs aq fl uq d dv ts z : vinv rs aq fl uq (mkSys d dv ts) → dv_seen dv ≠ v_avail_idx d →
  v_avail_ring d !! Z.to_nat (dv_seen dv mod Z.of_nat NUM) = Some z →
  ∃ h aq', aq = h :: aq' ∧ z = Z.of_nat h ∧
    vinv rs aq' (fl ++ [h]) uq (mkSys d (mkDev (u16 (dv_seen dv + 1)) (dv_flight dv ++ [z])) ts).
Proof.
  intros Hinv Hne Hz. pose proof (vi_avail _ _ _ _ _ Hinv) as HA. simpl in HA.
  destruct aq as [| h aq]; [by apply ring_nil in HA |]. apply ring_cons in HA as (_ & Hh & HA). simplify_eq.
  exists h, aq. split_and!; [done | done |].
  assert (aq ++ (fl ++ [h]) ++ uq ≡ₚ (h :: aq) ++ fl ++ uq) as Hperm.
  { rewrite <- !app_assoc. simpl. rewrite !(app_assoc aq). symmetry. apply Permutation_middle. }
  split; simpl; try apply Hinv; try done.
  - intros h' r' y Hr' Hy. etrans; [exact (vi_disk _ _ _ _ _ Hinv _ _ _ Hr' Hy) |]. apply decide_ext. by rewrite Hperm.
  - intros h' r' Hr'. etrans; [exact (vi_info _ _ _ _ _ Hinv _ _ Hr') |]. do 2 f_equal. apply decide_ext. set_solver.
  - destruct (vi_queues _ _ _ _ _ Hinv) as [Hnd Hs].
    split; [by rewrite Hperm | intros h' Hh'; apply Hs; by rewrite <- Hperm].
  - pose proof (vi_flight _ _ _ _ _ Hinv) as E. simpl in E. by rewrite E, fmap_app.
Qed.

(** ** What the callers see *)

Lemma calls_same d d' (ts : list thread) :
  (∀ t b w z, ts !! t = Some (TWait b w z) → v_info d' !! Z.to_nat z = v_info d !! Z.to_nat z) →
  call_of d' <$> ts = call_of d <$> ts.
Proof.
  intros H. apply list_eq. intros t. rewrite !list_lookup_fmap. destruct (ts !! t) as [[| b w | b w z]|] eqn:Ht; try done.
  simpl. by rewrite (H _ _ _ _ Ht).
Qed.

Lemma calls_update rs aq fl uq d d' dv ts h r y : vinv rs aq fl uq (mkSys d dv ts) → rs !! h = Some r →
  v_info d' = <[h := y]> (v_info d) → (h < length (v_info d))%nat →
  call_of d' <$> ts =
  <[r_t r := if in_status y =? 0 then RDone (r_b r) (r_w r) else RCalled (r_b r) (r_w r)]> (call_of d <$> ts).
Proof.
  intros Hinv Hr Hi Hlt. pose proof (request_thread _ _ _ _ _ Hinv _ _ Hr) as Ht. simpl in Ht.
  apply list_eq. intros t. destruct (decide (t = r_t r)) as [-> | Hne].
  - rewrite list_lookup_insert_eq by (rewrite length_fmap; by eapply lookup_lt_Some).
    rewrite list_lookup_fmap, Ht. simpl. rewrite Nat2Z.id, Hi, list_lookup_insert_eq by done. done.
  - rewrite list_lookup_insert_ne, !list_lookup_fmap by done.
    destruct (ts !! t) as [[| b w | b w z]|] eqn:Ht'; try done.
    assert (∃ h' r', z = Z.of_nat h' ∧ rs !! h' = Some r' ∧ r_t r' = t) as (h' & r' & -> & Hr' & Et).
    { apply (vi_threads _ _ _ _ _ Hinv) in Ht' as (h' & r' & -> & Hr' & Et & _). by exists h', r'. }
    simpl. rewrite Nat2Z.id, Hi, list_lookup_insert_ne; [done |]. intros <-. congruence.
Qed.

Lemma calls_unused d (ts : list thread) b : (∀ t, t ∈ ts → uses t b = false) → unused (call_of d <$> ts) b.
Proof.
  intros H w. split; intros (t & E & Ht)%list_elem_of_fmap; specialize (H _ Ht);
    destruct t as [| b' w' | b' w' z]; simpl in *; repeat case_match; simplify_eq; by rewrite Nat.eqb_refl in H.
Qed.

Lemma same_blocks_refl f : same_blocks f f.
Proof. done. Qed.
#[local] Hint Resolve same_blocks_refl : core.

Lemma view_none d d' dv dv' ts : same_view d d' → bdev_step (bdev_of (mkSys d dv ts)) (bdev_of (mkSys d' dv' ts)).
Proof.
  intros [Hi Hb Hs]. unfold bdev_of; simpl. fold buf_view. change (λ x, (db_blockno x, db_data x)) with buf_view.
  rewrite Hb, Hs. rewrite (calls_same d d') by (intros; by rewrite Hi). by constructor.
Qed.

(** The system after [virtio_disk_init]: no request, processes idle, buffers with
    valid block numbers. *)
Definition boot_sys (y : sys) : Prop :=
  ∃ reg kalloc bufs sectors wr n,
    virtio_disk_init reg kalloc bufs sectors [] = inl (y_disk y, wr) ∧
    Forall (λ x, valid_block (db_blockno x) ∧ length (db_data x) = Z.to_nat BSIZE) bufs ∧
    (∀ k, length (sectors k) = 512%nat) ∧ y_dev y = mkDev 0 [] ∧ y_threads y = replicate n TIdle.

Definition safe (y : sys) : Prop := ∃ rs aq fl uq, vinv rs aq fl uq y.

Section sim.
Context (rs : gmap nat vreq) (aq fl uq : list nat) (d : vdisk) (dv : device) (ts : list thread).
Hypothesis Hinv : vinv rs aq fl uq (mkSys d dv ts).

Lemma fill_sim b x n data : v_bufs d !! b = Some x → (∀ t, t ∈ ts → uses t b = false) →
  bdev_step (bdev_of (mkSys d dv ts))
    (bdev_of (mkSys (d <| v_bufs ::= <[b := x <| db_blockno := n |> <| db_data := data |>]> |>) dv ts)).
Proof.
  intros Hx Hun. unfold bdev_of; cbn [y_disk y_threads].
  erewrite (calls_same d (upd v_bufs _ d)) by done. simpl. rewrite list_fmap_insert.
  eapply bdev_fill; [by rewrite list_lookup_fmap, Hx | by apply calls_unused | done].
Qed.

Lemma call_sim t b w : ts !! t = Some TIdle → (∀ t, t ∈ ts → uses t b = false) →
  bdev_step (bdev_of (mkSys d dv ts)) (bdev_of (mkSys d dv (<[t := TAlloc b w]> ts))).
Proof.
  intros Ht Hun. unfold bdev_of; simpl. rewrite list_fmap_insert.
  eapply bdev_call; [by rewrite list_lookup_fmap, Ht | by apply calls_unused | done].
Qed.

Lemma post_sim t b w x i0 i1 i2 : ts !! t = Some (TAlloc b w) → v_bufs d !! b = Some x → avail d [i0; i1; i2] →
  bdev_step (bdev_of (mkSys d dv ts))
    (bdev_of (mkSys (posted b w i0 i1 i2 x (marked d [i0; i1; i2])) dv (<[t := TWait b w (Z.of_nat i0)]> ts))).
Proof.
  intros Ht Hx Ha. unfold bdev_of; cbn [y_disk y_threads]. rewrite list_fmap_insert.
  rewrite (calls_same d (posted _ _ _ _ _ _ _)).
  2: { intros t' b' w' z Ht'. apply (vi_threads _ _ _ _ _ Hinv) in Ht' as (h & r & -> & Hr & _). simpl.
       rewrite list_lookup_insert_ne; [done |]. rewrite Nat2Z.id. apply not_eq_sym. by eapply post_head. }
  simpl. rewrite list_insert_id, list_fmap_insert, list_insert_id; [by constructor | ..].
  - by rewrite list_lookup_fmap, Hx.
  - rewrite list_lookup_fmap, Ht. simpl. rewrite Nat2Z.id, list_lookup_insert_eq; [done |].
    destruct (vi_sizes _ _ _ _ _ Hinv) as (_ & Hl & _). simpl in Hl. rewrite Hl.
    eapply post_lt; [exact Hinv | exact Ha | set_solver].
Qed.

Lemma return_sim h r : rs !! h = Some r → h ∉ aq ++ fl ++ uq →
  bdev_step (bdev_of (mkSys d dv ts)) (bdev_of (mkSys (returned h r 0 d) dv (<[r_t r := TIdle]> ts))).
Proof.
  intros Hr Hq. pose proof (request_thread _ _ _ _ _ Hinv _ _ Hr) as Ht. simpl in Ht.
  pose proof (vi_info _ _ _ _ _ Hinv _ _ Hr) as Hi. simpl in Hi. rewrite decide_False in Hi by set_solver.
  unfold bdev_of; cbn [y_disk y_threads]. rewrite list_fmap_insert.
  erewrite (calls_update _ _ _ _ d (returned h r 0 d)) by (eassumption || reflexivity || by eapply lookup_lt_Some).
  simpl. rewrite list_insert_insert_eq.
  eapply (bdev_return _ _ _ _ _ (r_b r) (r_w r)); [| done]. rewrite list_lookup_fmap, Ht. simpl. by rewrite Nat2Z.id, Hi.
Qed.
End sim.

Lemma finish_sim rs aq f1 f2 uq d dv dv' ts h r x : vinv rs aq (f1 ++ h :: f2) uq (mkSys d dv ts) →
  rs !! h = Some r → v_bufs d !! r_b r = Some x →
  bdev_step (bdev_of (mkSys d dv ts)) (bdev_of (mkSys (transferred h r x d) dv' ts)).
Proof.
  intros Hinv Hr Hx. pose proof (request_thread _ _ _ _ _ Hinv _ _ Hr) as Ht. simpl in Ht.
  pose proof (vi_info _ _ _ _ _ Hinv _ _ Hr) as Hi. simpl in Hi. rewrite decide_True in Hi by set_solver.
  pose proof (vi_bufs _ _ _ _ _ Hinv _ _ Hx) as [Hn Hd].
  unfold bdev_of; cbn [y_disk y_threads].
  erewrite (calls_update _ _ _ _ d (transferred h r x d)) by (eassumption || reflexivity || by eapply lookup_lt_Some). simpl.
  assert ((call_of d <$> ts) !! r_t r = Some (RCalled (r_b r) (r_w r))) as Hc.
  { rewrite list_lookup_fmap, Ht. simpl. by rewrite Nat2Z.id, Hi. }
  assert (((λ x0, (db_blockno x0, db_data x0)) <$> v_bufs d) !! r_b r = Some (db_blockno x, db_data x)) as Hb
    by (by rewrite list_lookup_fmap, Hx).
  unfold moved. destruct (Z.eqb_spec (r_w r) 0) as [E | E]; simpl.
  - rewrite E in *. rewrite list_fmap_insert. simpl. eapply bdev_read; [done | done | done].
  - eapply bdev_write; [done | done | done |]. by apply block_of_write.
Qed.

(** ** Every reachable state *)

(** [rw_wait] sleeps exactly while the request is on its way. *)
Lemma rw_wait_spec rs aq fl uq d dv ts t b w z : vinv rs aq fl uq (mkSys d dv ts) →
  ts !! t = Some (TWait b w z) →
  ∃ h r, z = Z.of_nat h ∧ rs !! h = Some r ∧ r_t r = t ∧ r_b r = b ∧ r_w r = w ∧
    ((h ∈ aq ++ fl ++ uq) ∧ rw_wait b z d = VOk false d ∨
     (h ∉ aq ++ fl ++ uq) ∧ rw_wait b z d = VOk true (returned h r 0 d)).
Proof.
  intros Hinv Ht. apply (vi_threads _ _ _ _ _ Hinv) in Ht as (h & r & -> & Hr & <- & <- & <-).
  exists h, r. split_and!; try done.
  destruct (request_buf _ _ _ _ _ Hinv _ _ Hr) as [x Hx]. simpl in Hx.
  pose proof (vi_disk _ _ _ _ _ Hinv _ _ _ Hr Hx) as Hd. case_decide as Hq; [left | right]; (split; [done |]).
  - by eapply rw_wait_busy.
  - pose proof (vi_info _ _ _ _ _ Hinv _ _ Hr) as Hi. simpl in Hi. rewrite decide_False in Hi by set_solver.
    eapply rw_wait_done; [done | done | done | by apply (vi_chain _ _ _ _ _ Hinv) | ..]; intros i Hin.
    + by eapply (nodes_busy _ _ _ _ _ Hinv).
    + by eapply (nodes_lt _ _ _ _ _ Hinv).
Qed.

Section reach.
Context (dev : device * vdisk → device * vdisk → Prop).
Hypothesis Hdev : ∀ p q, dev p q → device_step p q.

Lemma device_sim d dv ts d' dv' : safe (mkSys d dv ts) → dev (dv, d) (dv', d') →
  safe (mkSys d' dv' ts) ∧ bdev_step (bdev_of (mkSys d dv ts)) (bdev_of (mkSys d' dv' ts)).
Proof.
  intros (rs & aq & fl & uq & Hinv) Hs%Hdev. inversion Hs as [? ? z Hne Hz | ? ? z f1 f2 ? Hf Htr]; subst.
  - destruct (fetch_ok _ _ _ _ _ _ _ _ Hinv Hne Hz) as (h & aq' & -> & -> & Hinv').
    split; [do 4 eexists; exact Hinv' | by apply view_none].
  - pose proof (vi_flight _ _ _ _ _ Hinv) as E. simpl in E. rewrite Hf in E. symmetry in E.
    apply fmap_app_inv in E as (g1 & g & E1 & E2 & ->). symmetry in E2.
    apply fmap_cons_inv in E2 as (h & g2 & E2 & E3 & ->). subst.
    destruct (proj2 (vi_queues _ _ _ _ _ Hinv) h ltac:(set_solver)) as [r Hr].
    destruct (request_buf _ _ _ _ _ Hinv _ _ Hr) as [x Hx]. simpl in Hx.
    rewrite (transfer_ok _ _ _ _ _ _ _ _ _ _ _ Hinv Hr Hx) in Htr. injection Htr as <-.
    split; [| by eapply finish_sim]. rewrite <- fmap_app. do 4 eexists. by eapply finish_ok.
Qed.

Lemma sys_step_ok y y' : safe y → sys_step dev y y' → safe y' ∧ bdev_step (bdev_of y) (bdev_of y').
Proof.
  intros HS Hs. destruct Hs as [d dv ts b x n data Hx Hun Hn Hdata | d dv ts t b x w Ht Hx Hun
    | d d' dv ts t b w Ht E | d d' dv ts t b w h Ht E | d d' dv ts t b w h Ht E | d d' dv ts t b w h Ht E
    | d d' dv ts E | d d' dv dv' ts Hd]; [.. | by apply device_sim]; destruct HS as (rs & aq & fl & uq & Hinv).
  - split; [do 4 eexists; exact (fill_ok _ _ _ _ _ _ _ _ _ _ _ Hinv Hx Hun Hn Hdata) | by apply fill_sim].
  - split; [do 4 eexists; exact (call_ok _ _ _ _ _ _ _ _ _ _ _ Hinv Ht Hx Hun) | by apply call_sim].
  - destruct (vi_used _ _ _ _ _ Hinv _ _ b Ht (Nat.eqb_refl b)) as [x Hx].
    destruct (rw_try_spec _ _ _ _ _ _ _ b w x Hinv Hx) as [[E' _] | (i0 & i1 & i2 & Ha & E')]; rewrite E' in E; simplify_eq.
    split; [do 4 eexists; eassumption | by apply view_none].
  - destruct (vi_used _ _ _ _ _ Hinv _ _ b Ht (Nat.eqb_refl b)) as [x Hx].
    destruct (rw_try_spec _ _ _ _ _ _ _ b w x Hinv Hx) as [[E' _] | (i0 & i1 & i2 & Ha & E')]; rewrite E' in E; simplify_eq.
    split; [do 4 eexists; by eapply post_ok | by eapply post_sim].
  - destruct (rw_wait_spec _ _ _ _ _ _ _ _ _ _ _ Hinv Ht) as (h' & r & -> & Hr & _ & _ & _ & [[Hq E'] | [Hq E']]); rewrite E' in E; simplify_eq.
    split; [do 4 eexists; eassumption | by apply view_none].
  - destruct (rw_wait_spec _ _ _ _ _ _ _ _ _ _ _ Hinv Ht) as (h' & r & -> & Hr & <- & <- & <- & [[Hq E'] | [Hq E']]); rewrite E' in E; simplify_eq.
    split; [do 4 eexists; by eapply return_ok | by eapply return_sim].
  - destruct (virtio_disk_intr_ok _ _ _ _ _ _ _ Hinv) as (d'' & E' & Hinv' & HV). rewrite E' in E; simplify_eq.
    split; [do 4 eexists; eassumption | by apply view_none].
Qed.
End reach.

Lemma init_result reg kalloc bufs sectors w0 d w :
  virtio_disk_init reg kalloc bufs sectors w0 = inl (d, w) → d = empty_disk bufs sectors.
Proof.
  unfold virtio_disk_init, rd, wr, rpanic, mbind, R_bind, mret, R_ret. simpl.
  repeat (case_match; try done). congruence.
Qed.

Lemma boot_safe y : boot_sys y → safe y.
Proof.
  destruct y as [d dv ts]. intros (reg & kalloc & bufs & sectors & wr & n & Hd%init_result & Hb & Hs & Hdv & Hts).
  simpl in Hd, Hdv, Hts. subst. exists ∅, [], [], []. rewrite Forall_lookup in Hb.
  assert (∀ t u, replicate n TIdle !! t = Some u → u = TIdle) as Hidle by (intros t u [-> _]%lookup_replicate; done).
  assert (∀ (h : nat) (r : vreq) P, (∅ : gmap nat vreq) !! h = Some r → P) as Hno by (intros h r P; by rewrite lookup_empty).
  assert (∀ i x, replicate NUM 1 !! i = Some x → x = 1) as H1 by (intros i x [-> _]%lookup_replicate; done).
  split; simpl; try done; try (intros; by eapply Hno).
  - intros t b w z. split; [intros H%Hidle; done | intros (h & r & _ & H & _); by eapply Hno].
  - intros i Hi. split; [intros H%H1; done | intros (h & r & H & _); by eapply Hno].
  - intros i x Hx. pose proof (H1 _ _ Hx). apply lookup_lt_Some in Hx. split; [done |].
    by apply (lookup_replicate_2 NUM).
  - intros t t' u u' b Hu _ Hub. apply Hidle in Hu as ->. done.
  - intros t u b Hu Hub. apply Hidle in Hu as ->. done.
  - split; [constructor | set_solver].
  - split; try done; unfold NUM; simpl; lia.
  - split; try done; unfold NUM; simpl; lia.
Qed.

Lemma reachable_safe dev y0 y : (∀ p q, dev p q → device_step p q) → boot_sys y0 →
  rtc (sys_step dev) y0 y → safe y.
Proof.
  intros Hdev H0%boot_safe Hr. induction Hr as [| a b c Hs _ IH]; [done |].
  apply IH. by eapply sys_step_ok.
Qed.


(** The driver neither panics nor leaves an array, and makes progress.  In
    every reachable state a call can try for descriptors, and gets them when no
    request is in progress (none is lost); the device finds a complete chain for
    every request it has taken; the interrupt handler handles all answers; and
    after it a call whose transfer is done returns. *)
Theorem virtio_never_panics dev y0 d dv ts : (∀ p q, dev p q → device_step p q) → boot_sys y0 →
  rtc (sys_step dev) y0 (mkSys d dv ts) →
  (∀ t b w, ts !! t = Some (TAlloc b w) → ∃ r d', rw_try b w d = VOk r d' ∧
     ((∀ t' b' w' h, ts !! t' ≠ Some (TWait b' w' h)) → is_Some r)) ∧
  (∀ t b w h, ts !! t = Some (TWait b w h) → ∃ r d', rw_wait b h d = VOk r d') ∧
  (∀ h, h ∈ dv_flight dv → is_Some (transfer h d)) ∧
  (∃ d', virtio_disk_intr d = VOk tt d' ∧ ∀ t b w h, ts !! t = Some (TWait b w h) →
     call_of d (TWait b w h) = RDone b w → ∃ d'', rw_wait b h d' = VOk true d'').
Proof.
  intros Hdev H0 Hr. destruct (reachable_safe _ _ _ Hdev H0 Hr) as (rs & aq & fl & uq & Hinv). split_and!.
  - intros t b w Ht. destruct (vi_used _ _ _ _ _ Hinv _ _ b Ht (Nat.eqb_refl b)) as [x Hx].
    destruct (rw_try_spec _ _ _ _ _ _ _ b w x Hinv Hx) as [[E Hne] | (i0 & i1 & i2 & _ & E)]; [| eauto].
    exists None, d. split; [done |]. intros Hno. apply map_choose in Hne as (h & r & Hrs).
    by destruct (Hno _ _ _ _ (request_thread _ _ _ _ _ Hinv _ _ Hrs)).
  - intros t b w h Ht.
    destruct (rw_wait_spec _ _ _ _ _ _ _ _ _ _ _ Hinv Ht) as (? & ? & _ & _ & _ & _ & _ & [[_ E] | [_ E]]); eauto.
  - intros z Hz. pose proof (vi_flight _ _ _ _ _ Hinv) as E. simpl in E. rewrite E in Hz.
    apply list_elem_of_fmap in Hz as (h & -> & Hh). apply list_elem_of_split in Hh as (f1 & f2 & ->).
    destruct (proj2 (vi_queues _ _ _ _ _ Hinv) h ltac:(set_solver)) as [r Hrs].
    destruct (request_buf _ _ _ _ _ Hinv _ _ Hrs) as [x Hx].
    eexists. by eapply (transfer_ok _ _ _ _ _ _ _ _ _ _ _ Hinv).
  - destruct (virtio_disk_intr_ok _ _ _ _ _ _ _ Hinv) as (d' & E & Hinv' & HV). exists d'. split; [done |].
    intros t b w z Ht Hc.
    destruct (rw_wait_spec _ _ _ _ _ _ _ _ _ _ _ Hinv' Ht) as (h & r & -> & Hrs & _ & _ & _ & [[Hq E'] | [_ E']]); [| eauto].
    exfalso. simpl in Hc. pose proof (vi_info _ _ _ _ _ Hinv _ _ Hrs) as Hi. simpl in Hi.
    rewrite Nat2Z.id, Hi, decide_True in Hc by set_solver. done.
Qed.

(** ** A device and a run *)

(** A device that serves one request after the other. *)
Definition fifo_device (p : device * vdisk) : option (device * vdisk) :=
  let '(dv, d) := p in
  match dv_flight dv with
  | h :: f => d' ← transfer h d; Some (mkDev (dv_seen dv) f, d')
  | [] =>
      if dv_seen dv =? v_avail_idx d then None
      else h ← v_avail_ring d !! Z.to_nat (dv_seen dv mod Z.of_nat NUM);
           Some (mkDev (u16 (dv_seen dv + 1)) [h], d)
  end.
Definition fifo (p q : device * vdisk) : Prop := fifo_device p = Some q.

Lemma fifo_device_step p q : fifo p q → device_step p q.
Proof.
  destruct p as [[seen [| h f]] d]; unfold fifo, fifo_device; simpl.
  - destruct (Z.eqb_spec seen (v_avail_idx d)); [done |].
    destruct (v_avail_ring d !! _) as [h|] eqn:Hh; [simpl | done]. intros [= <-]. by apply (dev_fetch (mkDev seen [])).
  - destruct (transfer h d) as [d'|] eqn:Ht; [simpl | done]. intros [= <-].
    by apply (dev_finish (mkDev seen (h :: f)) d h [] f).
Qed.

(** The registers of a device that accepts the driver. *)
Definition demo_reg (w : list (Z * Z)) (r : Z) : Z :=
  if r =? VIRTIO_MMIO_MAGIC_VALUE then 0x74726976
  else if r =? VIRTIO_MMIO_VERSION then 2
  else if r =? VIRTIO_MMIO_DEVICE_ID then 2
  else if r =? VIRTIO_MMIO_VENDOR_ID then 0x554d4551
  else if r =? VIRTIO_MMIO_STATUS then 11
  else if r =? VIRTIO_MMIO_QUEUE_NUM_MAX then 1024
  else 0.

(** One process writes one buffer to block 5. *)
Definition demo_data : list Z := replicate (Z.to_nat BSIZE) 7.
Definition demo_sectors (_ : Z) : list Z := replicate 512 0.
Definition demo_disk : vdisk := empty_disk [mkDbuf 0 5 demo_data] demo_sectors.
Definition demo_sys : sys := mkSys demo_disk (mkDev 0 []) [TIdle].

Definition demo_posted : vdisk :=
  match rw_try 0 1 demo_disk with VOk _ d => d | _ => demo_disk end.
Definition demo_done : device * vdisk :=
  default (mkDev 0 [], demo_posted) (p ← fifo_device (mkDev 0 [], demo_posted); fifo_device p).
Definition demo_end : sys := mkSys (snd demo_done) (fst demo_done) [TWait 0 1 0].

Lemma demo_boot : boot_sys demo_sys.
Proof.
  exists demo_reg, (λ _, 0x80100000), [mkDbuf 0 5 demo_data], demo_sectors.
  exists (match virtio_disk_init demo_reg (λ _, 0x80100000) [mkDbuf 0 5 demo_data] demo_sectors [] with
          | inl (_, w) => w | _ => [] end), 1%nat.
  split; [vm_compute; reflexivity |]. split; [apply Forall_singleton; split; [split; reflexivity || done | apply length_replicate] |].
  split; [intros; apply length_replicate | done].
Qed.

Lemma demo_run : rtc (sys_step fifo) demo_sys demo_end.
Proof.
  apply (rtc_l _ _ (mkSys demo_disk (mkDev 0 []) [TAlloc 0 1])).
  { apply (step_call fifo demo_disk (mkDev 0 []) [TIdle] 0 0 (mkDbuf 0 5 demo_data) 1); [reflexivity.. |].
    intros t ->%list_elem_of_singleton. reflexivity. }
  apply (rtc_l _ _ (mkSys demo_posted (mkDev 0 []) [TWait 0 1 0])).
  { apply (step_post fifo demo_disk demo_posted (mkDev 0 []) [TAlloc 0 1] 0 0 1 0); [reflexivity | vm_compute; reflexivity]. }
  apply (rtc_l _ _ (mkSys demo_posted (mkDev 1 [0]) [TWait 0 1 0])).
  { apply (step_device fifo demo_posted demo_posted (mkDev 0 []) (mkDev 1 [0])). vm_compute. reflexivity. }
  apply rtc_once.
  apply (step_device fifo demo_posted _ (mkDev 1 [0])). vm_compute. reflexivity.
Qed.


Lemma virtio_never_panics_witness : ∃ d', virtio_disk_intr (snd demo_done) = VOk tt d' ∧
  ∃ d'', rw_wait 0 0 d' = VOk true d''.
Proof.
  destruct (virtio_never_panics fifo demo_sys _ _ _ fifo_device_step demo_boot demo_run)
    as (_ & _ & _ & d' & Hd' & Hret).
  exists d'. split; [exact Hd' |]. apply (Hret 0%nat 0%nat 1 0); reflexivity.
Defined.
