(* ===== verification/Kalloc.v ===== *)
(** * Physical page allocator (kernel/kalloc.c)

    The free list is threaded through the free pages themselves, as in the
    code: the first eight bytes of a free page hold the address of the next. *)

From S2P Require Import Prelude Machine Kstate Logic Strings Sched.

Definition kmemset (dst c n : Z) : K unit := upd_mem (fun m => memset m dst c (Z.to_nat n)).
Definition kmemmove (dst src n : Z) : K unit :=
  upd_mem (fun m => memmove m dst src (Z.to_nat n)).

Section kalloc.
Context {L : Layout}.

Definition kfree (pa : Z) : K unit :=
  if negb (pa mod PGSIZE =? 0) || (pa <? sym_end) || (PHYSTOP <=? pa) then kpanic "kfree"
  else
    kmemset pa 1 PGSIZE;;
    acquire LkKmem;;
    fl ← gets k_freelist;
    kstore64 pa fl;;
    modify (fun s => s <| k_freelist := pa |>);;
    release LkKmem.

Definition kalloc : K Z :=
  acquire LkKmem;;
  r ← gets k_freelist;
  (if negb (r =? 0) then
     next ← kload64 r;
     modify (fun s => s <| k_freelist := next |>)
   else ret tt);;
  release LkKmem;;
  (if negb (r =? 0) then kmemset r 5 PGSIZE else ret tt);;
  ret r.

Definition freerange (pa_start pa_end : Z) : K unit :=
  loop (S (Z.to_nat ((pa_end - PGROUNDUP pa_start) / PGSIZE))) (fun p =>
    if p + PGSIZE <=? pa_end then kfree p;; ret (inl (p + PGSIZE))
    else ret (inr tt)) (PGROUNDUP pa_start).

Definition kinit : K unit := freerange sym_end PHYSTOP.

End kalloc.

(** ** The free list as a list of pages *)

(** Addresses [kfree] accepts. *)
Definition page_ok {L : Layout} (pa : Z) : Prop :=
  pa mod PGSIZE = 0 ∧ sym_end ≤ pa < PHYSTOP ∧ 0 < pa.

(** The chain of pages that starts at address [a]. *)
Fixpoint chain (m : gmap Z Z) (a : Z) (l : list Z) : Prop :=
  match l with
  | [] => a = 0
  | pa :: l => a = pa ∧ chain m (load64 m pa) l
  end.

(** The abstract state of the allocator: the free pages, most recent first. *)
Record free_pages {L : Layout} (l : list Z) (s : kstate) : Prop := {
  fp_chain : chain (k_mem s) (k_freelist s) l;
  fp_nodup : NoDup l;
  fp_ok : Forall page_ok l;
}.

(** Memory outside one page. *)
Definition same_outside (pa : Z) (m m' : gmap Z Z) : Prop :=
  ∀ a, a < pa ∨ pa + PGSIZE ≤ a → mread m' a = mread m a.

Section pages.
Context {L : Layout}.

Lemma pages_disjoint x y : page_ok x → page_ok y → x ≠ y → x + PGSIZE ≤ y ∨ y + PGSIZE ≤ x.
Proof.
  intros (Hx & _ & _) (Hy & _ & _) Hne.
  apply Z.mod_divide in Hx as [a Ha], Hy as [b Hb]; [| done..]. unfold_consts; lia.
Qed.

Lemma load64_same_outside pa m m' a :
  same_outside pa m m' → a + 8 ≤ pa ∨ pa + PGSIZE ≤ a → load64 m' a = load64 m a.
Proof.
  intros H Ha. unfold load64. f_equal. apply mload_ext. intros i Hi. apply H. lia.
Qed.

(** Changes inside a page that is not on the list do not touch the list. *)
Lemma chain_same_outside m m' pa a l :
  same_outside pa m m' → page_ok pa → pa ∉ l → Forall page_ok l → chain m a l → chain m' a l.
Proof.
  intros Hm Hpa. revert a. induction l as [|x l IH]; intros a Hin Hok; simpl; [done |].
  intros [-> Hl]. apply Forall_cons in Hok as [Hx Hok]. split; [done |].
  rewrite (load64_same_outside pa m m' x Hm).
  - apply IH; [set_solver | done..].
  - assert (pa ≠ x) by set_solver. destruct (pages_disjoint pa x Hpa Hx) as [?|?]; [done | | ];
      unfold_consts; lia.
Qed.

Lemma same_outside_memset m pa c : same_outside pa m (memset m pa c (Z.to_nat PGSIZE)).
Proof.
  intros a Ha. rewrite memset_mstore. apply mread_mstore_out. rewrite length_replicate.
  unfold_consts; lia.
Qed.

Lemma same_outside_store64 m pa v : same_outside pa m (store64 m pa v).
Proof. intros a Ha. apply mread_mstore_out. rewrite length_le_bytes. unfold_consts; lia. Qed.

Lemma same_outside_trans pa m1 m2 m3 :
  same_outside pa m1 m2 → same_outside pa m2 m3 → same_outside pa m1 m3.
Proof. intros H1 H2 a Ha. by rewrite H2, H1. Qed.

Lemma chain_head_range m a l : Forall page_ok l → chain m a l → 0 ≤ a < 2 ^ 64.
Proof.
  intros Hok. destruct l as [|x l]; [by intros -> |]. intros [-> _].
  apply Forall_cons in Hok as [(_ & ? & ?) _]. assert (PHYSTOP < 2 ^ 64) by done. lia.
Qed.

Lemma kfree_guard pa :
  page_ok pa → negb (pa mod PGSIZE =? 0) || (pa <? sym_end) || (PHYSTOP <=? pa) = false.
Proof.
  intros (H1 & H2 & _). rewrite H1. destruct (Z.ltb_spec pa sym_end), (Z.leb_spec PHYSTOP pa); done || lia.
Qed.

Lemma kmemset_done dst c n s :
  kmemset dst c n s = Done tt (s <| k_mem := memset (k_mem s) dst c (Z.to_nat n) |>).
Proof. done. Qed.

Lemma kfree_run pa s :
  page_ok pa → LkKmem ∉ k_held s →
  kfree pa s = Done tt
    (s <| k_mem := store64 (memset (k_mem s) pa 1 (Z.to_nat PGSIZE)) pa (k_freelist s) |>
       <| k_freelist := pa |>).
Proof.
  intros Hpa Hlk. unfold kfree. rewrite kfree_guard by done.
  rewrite (bind_done _ _ _ _ _ (kmemset_done _ _ _ _)).
  generalize (memset (k_mem s) pa 1 (Z.to_nat PGSIZE)). intros m1.
  erewrite bind_done by (apply acquire_done; exact Hlk). rewrite bind_unfold. cbn [gets].
  unfold kstore64, upd_mem. do 2 (rewrite bind_unfold; cbn [modify]).
  erewrite release_done by (reflexivity || exact Hlk). by destruct s.
Qed.

(** [kfree] pushes the page. *)
Lemma kfree_done l pa s :
  free_pages l s → page_ok pa → pa ∉ l → LkKmem ∉ k_held s →
  ∃ m', kfree pa s = Done tt (s <| k_mem := m' |> <| k_freelist := pa |>) ∧
    same_outside pa (k_mem s) m' ∧
    free_pages (pa :: l) (s <| k_mem := m' |> <| k_freelist := pa |>).
Proof.
  intros [Hch Hnd Hok] Hpa Hin Hlk. rewrite kfree_run by done.
  pose proof (same_outside_memset (k_mem s) pa 1) as Hout.
  revert Hout. generalize (memset (k_mem s) pa 1 (Z.to_nat PGSIZE)). intros m1 Hout.
  exists (store64 m1 pa (k_freelist s)).
  assert (Hout' : same_outside pa (k_mem s) (store64 m1 pa (k_freelist s))).
  { eapply same_outside_trans; [done | apply same_outside_store64]. }
  split; [done |]. split; [done |].
  split; simpl; [split; [done |] | by constructor | by constructor].
  rewrite load64_store64, u64_small by (by eapply chain_head_range).
  by apply (chain_same_outside (k_mem s) _ pa).
Qed.

(** [kalloc] pops a page and fills it with junk, or returns null. *)
Lemma kalloc_done l s :
  free_pages l s → LkKmem ∉ k_held s →
  match l with
  | [] => kalloc s = Done 0 s
  | pa :: l' =>
      ∃ m' next, kalloc s = Done pa (s <| k_freelist := next |> <| k_mem := m' |>) ∧
        same_outside pa (k_mem s) m' ∧ mload m' pa (Z.to_nat PGSIZE) = replicate (Z.to_nat PGSIZE) 5 ∧
        free_pages l' (s <| k_freelist := next |> <| k_mem := m' |>)
  end.
Proof.
  intros [Hch Hnd Hok] Hlk. unfold kalloc.
  rewrite (bind_done _ _ _ _ _ (acquire_done LkKmem _ Hlk)). rewrite bind_unfold. cbn [gets].
  change (k_freelist (s <| k_held ::= cons LkKmem |>)) with (k_freelist s).
  destruct l as [|pa l']; simpl in Hch.
  - rewrite Hch. cbn [Z.eqb negb]. rewrite bind_unfold. cbn [ret].
    erewrite bind_done by (eapply release_done; [reflexivity | exact Hlk]).
    rewrite bind_unfold. cbn [ret]. destruct s; simpl in *. by subst.
  - destruct Hch as [Hfl Hch]. apply Forall_cons in Hok as [Hpa Hok].
    assert (Hnz : (pa =? 0) = false) by (apply Z.eqb_neq; destruct Hpa; lia).
    rewrite Hfl, Hnz. cbn [negb]. erewrite bind_done by reflexivity.
    erewrite bind_done by (eapply release_done; [reflexivity | exact Hlk]).
    rewrite (bind_done _ _ _ _ _ (kmemset_done _ _ _ _)).
    match goal with |- context [memset ?m pa 5 _] => change m with (k_mem s) end.
    assert (Hload : mload (memset (k_mem s) pa 5 (Z.to_nat PGSIZE)) pa (Z.to_nat PGSIZE) =
      replicate (Z.to_nat PGSIZE) 5).
    { rewrite memset_mstore. rewrite <-(length_replicate (Z.to_nat PGSIZE) (u8 5)) at 2.
      apply mload_mstore. }
    pose proof (same_outside_memset (k_mem s) pa 5) as Hout. revert Hload Hout.
    generalize (memset (k_mem s) pa 5 (Z.to_nat PGSIZE)). intros m'.
    generalize (Z.to_nat PGSIZE). intros npg Hload Hout. exists m', (load64 (k_mem s) pa).
    split; [by destruct s |]. split; [done |]. split; [done |].
    apply NoDup_cons in Hnd as [Hin Hnd]. split; simpl; [| done | done].
    by apply (chain_same_outside (k_mem s) _ pa).
Qed.

(** [n] consecutive pages, the last one first. *)
Fixpoint pages_down (a : Z) (n : nat) : list Z :=
  match n with
  | O => []
  | S n => (a + Z.of_nat n * PGSIZE) :: pages_down a n
  end.

Lemma elem_of_pages_down a n x :
  x ∈ pages_down a n ↔ ∃ k, (k < n)%nat ∧ x = a + Z.of_nat k * PGSIZE.
Proof.
  induction n as [|n IH]; simpl.
  - split; [by intros ?%elem_of_nil | intros (k & ? & _); lia].
  - rewrite elem_of_cons, IH. split.
    + intros [->|(k & ? & ->)]; eauto with lia.
    + intros (k & Hk & ->). destruct (decide (k = n)) as [->|]; [by left |]. right. exists k. lia.
Qed.

Lemma freerange_done pa_start s :
  let a := PGROUNDUP pa_start in
  let n := Z.to_nat ((PHYSTOP - a) / PGSIZE) in
  a mod PGSIZE = 0 → 0 < a → sym_end ≤ a ≤ PHYSTOP →
  k_freelist s = 0 → LkKmem ∉ k_held s →
  ∃ s', freerange pa_start PHYSTOP s = Done tt s' ∧ free_pages (pages_down a n) s' ∧
    k_held s' = k_held s.
Proof.
  intros a n Hal Ha Hrange Hfl Hlk. unfold freerange. fold a.
  edestruct (loop_done
    (λ p s', ∃ k, (k ≤ n)%nat ∧ p = a + Z.of_nat k * PGSIZE ∧ free_pages (pages_down a k) s' ∧
       k_held s' = k_held s)
    (λ p, Z.to_nat ((PHYSTOP - p) / PGSIZE))
    (λ (_ : unit) s', free_pages (pages_down a n) s' ∧ k_held s' = k_held s))
    as ([] & s' & E & Hf & Hh); [| | | by exists s'].
  - intros p s1 (k & Hk & -> & Hf & Hh).
    assert (Hn : Z.of_nat n = (PHYSTOP - a) / PGSIZE) by (subst n; rewrite Z2Nat.id; [done | apply Z.div_pos; [lia | done]]).
    pose proof (Z.div_mod (PHYSTOP - a) PGSIZE ltac:(done)) as Hdm.
    assert (Hdiv : (PHYSTOP - a) mod PGSIZE = 0).
    { rewrite Zminus_mod, Hal. done. }
    destruct (Z.leb_spec (a + Z.of_nat k * PGSIZE + PGSIZE) PHYSTOP) as [Hle|Hgt].
    + left. assert (Hok : page_ok (a + Z.of_nat k * PGSIZE)).
      { split; [by rewrite Z.mod_add | unfold_consts; lia]. }
      destruct (kfree_done _ _ _ Hf Hok) as (m' & Ek & _ & Hf'); [| by rewrite Hh |].
      { rewrite elem_of_pages_down. intros (j & Hj & ?). unfold_consts; lia. }
      do 2 eexists. split; [by rewrite (bind_done _ _ _ _ _ Ek) |]. split.
      * exists (S k). split; [unfold_consts; lia |]. split; [unfold_consts; lia |]. split; [exact Hf' | exact Hh].
      * assert (1 ≤ (PHYSTOP - (a + Z.of_nat k * PGSIZE)) / PGSIZE)
          by (apply Z.div_le_lower_bound; unfold_consts; lia).
        replace (PHYSTOP - (a + Z.of_nat k * PGSIZE + PGSIZE))
          with (PHYSTOP - (a + Z.of_nat k * PGSIZE) + (-1) * PGSIZE) by lia.
        rewrite Z.div_add by done. lia.
    + right. do 2 eexists. split; [done |]. replace n with k; [done |]. unfold_consts; lia.
  - exists O. split; [lia |]. split; [lia |]. split; [| done]. split; [done | constructor..].
  - lia.
Qed.

End pages.

(** ** The contract of the allocator

    What the rest of the kernel may assume: the abstract state is the list of
    free pages; allocation removes a page that nobody else has, freeing gives it
    back, and neither touches any other page or any other part of the state. *)

Definition only_pages (s s' : kstate) : Prop :=
  s' = (s <| k_mem := k_mem s' |> <| k_freelist := k_freelist s' |>).

Class PageAllocator {L : Layout} (alloc : K Z) (free : Z → K unit)
    (rep : list Z → kstate → Prop) : Prop := {
  alloc_none s : rep [] s → LkKmem ∉ k_held s → alloc s = Done 0 s;
  alloc_page pa l s : rep (pa :: l) s → LkKmem ∉ k_held s →
    ∃ s', alloc s = Done pa s' ∧ rep l s' ∧ page_ok pa ∧ (pa ∉ l) ∧
      same_outside pa (k_mem s) (k_mem s') ∧ only_pages s s';
  free_page pa l s : rep l s → page_ok pa → pa ∉ l → LkKmem ∉ k_held s →
    ∃ s', free pa s = Done tt s' ∧ rep (pa :: l) s' ∧
      same_outside pa (k_mem s) (k_mem s') ∧ only_pages s s';
  free_reject pa s : pa mod PGSIZE ≠ 0 ∨ pa < sym_end ∨ PHYSTOP ≤ pa →
    free pa s = Panic "kfree" s;
}.

(** C23: [kalloc] and [kfree] implement the contract.  The list threaded through
    the free pages behaves as a stack of distinct pages: an allocated page is
    aligned, inside the memory the kernel manages and no longer free; the other
    pages keep their bytes; a bad address makes [kfree] panic. *)
Theorem kalloc_implements_allocator {L : Layout} : PageAllocator kalloc kfree free_pages.
Proof.
  split.
  - intros s Hs Hlk. exact (kalloc_done [] s Hs Hlk).
  - intros pa l s Hs Hlk. destruct (kalloc_done _ _ Hs Hlk) as (m' & next & E & Hout & _ & Hf).
    destruct Hs as [_ Hnd Hok]. apply NoDup_cons in Hnd as [Hin _].
    apply Forall_cons in Hok as [Hpa _]. eexists. split; [exact E |].
    do 3 (split; [done |]). split; [exact Hout | done].
  - intros pa l s Hs Hpa Hin Hlk. destruct (kfree_done _ _ _ Hs Hpa Hin Hlk) as (m' & E & Hout & Hf).
    eexists. split; [exact E |]. split; [done |]. split; [exact Hout | done].
  - intros pa s H. unfold kfree.
    destruct (Z.eqb_spec (pa mod PGSIZE) 0), (Z.ltb_spec pa sym_end), (Z.leb_spec PHYSTOP pa);
      simpl; done || lia.
Qed.

(** Boot hands every page to the allocator.  [kinit] ends with the free list
    holding each page between the end of the kernel and the top of memory exactly
    once. *)
Theorem kinit_frees_all_memory {L : Layout} s :
  0 < sym_end ≤ PHYSTOP → k_freelist s = 0 → LkKmem ∉ k_held s →
  let first := PGSIZE * ((sym_end + PGSIZE - 1) / PGSIZE) in
  ∃ s', kinit s = Done tt s' ∧
    free_pages (pages_down first (Z.to_nat ((PHYSTOP - first) / PGSIZE))) s'.
Proof.
  intros Hend Hfl Hlk first.
  assert (Hup : PGROUNDUP sym_end = first).
  { apply PGROUNDUP_spec; [lia |]. assert (PHYSTOP + PGSIZE < 2 ^ 64) by done. lia. }
  pose proof (Z.div_mod (sym_end + PGSIZE - 1) PGSIZE ltac:(done)) as Hdm.
  pose proof (Z.mod_pos_bound (sym_end + PGSIZE - 1) PGSIZE ltac:(done)) as Hmod.
  assert (Hf1 : first mod PGSIZE = 0) by (unfold first; rewrite Z.mul_comm; by apply Z.mod_mul).
  assert (Hle : first ≤ PHYSTOP).
  { assert ((sym_end + PGSIZE - 1) / PGSIZE ≤ (PHYSTOP + PGSIZE - 1) / PGSIZE)
      by (apply Z.div_le_mono; [done | lia]).
    assert ((PHYSTOP + PGSIZE - 1) / PGSIZE = PHYSTOP / PGSIZE) by done.
    assert (PGSIZE * (PHYSTOP / PGSIZE) = PHYSTOP) by done. unfold first. nia. }
  destruct (freerange_done sym_end s) as (s' & E & Hf & _); rewrite ?Hup; try done.
  - unfold first in *. lia.
  - unfold first in *. lia.
  - rewrite Hup in Hf. exists s'. done.
Qed.
