(* ===== verification/Vm.v ===== *)
(** * Page tables and user memory (kernel/vm.c)

    Page tables live in physical memory as three levels of 512 eight-byte
    entries; [walk] and its clients read and write those bytes. *)

From S2P Require Import Prelude Machine Kstate Logic Strings Sched Kalloc.

Definition has_flag (pte flag : Z) : bool := negb (Z.land pte flag =? 0).

Section vm.
Context {L : Layout}.

(** One round of the loop of [walk]: the next page-table page, or [None] when
    there is none and none may (or can) be allocated. *)
Definition walk_level (va alloc level pagetable : Z) : K (option Z) :=
  let pte := pagetable + 8 * PX level va in
  v ← kload64 pte;
  if has_flag v PTE_V then ret (Some (PTE2PA v))
  else if alloc =? 0 then ret None
  else
    pt ← kalloc;
    if pt =? 0 then ret None
    else
      kmemset pt 0 PGSIZE;;
      kstore64 pte (Z.lor (PA2PTE pt) PTE_V);;
      ret (Some pt).

(** The address of the page-table entry, [None] for the null pointer. *)
Definition walk (pagetable va alloc : Z) : K (option Z) :=
  if MAXVA <=? va then kpanic "walk"
  else
    pt1 ← walk_level va alloc 2 pagetable;
    match pt1 with
    | None => ret None
    | Some pt1 =>
        pt0 ← walk_level va alloc 1 pt1;
        match pt0 with
        | None => ret None
        | Some pt0 => ret (Some (pt0 + 8 * PX 0 va))
        end
    end.

Definition walkaddr (pagetable va : Z) : K Z :=
  if MAXVA <=? va then ret 0
  else
    pte ← walk pagetable va 0;
    match pte with
    | None => ret 0
    | Some pte =>
        v ← kload64 pte;
        if negb (has_flag v PTE_V) then ret 0
        else if negb (has_flag v PTE_U) then ret 0
        else ret (PTE2PA v)
    end.

Definition mappages (pagetable va size pa perm : Z) : K Z :=
  if negb (va mod PGSIZE =? 0) then kpanic "mappages: va not aligned"
  else if negb (size mod PGSIZE =? 0) then kpanic "mappages: size not aligned"
  else if size =? 0 then kpanic "mappages: size"
  else
    let last := u64 (va + size - PGSIZE) in
    loop (Z.to_nat (size / PGSIZE)) (fun '(a, pa) =>
      pte ← walk pagetable a 1;
      match pte with
      | None => ret (inr (-1))
      | Some pte =>
          v ← kload64 pte;
          if has_flag v PTE_V then kpanic "mappages: remap"
          else
            kstore64 pte (Z.lor (Z.lor (PA2PTE pa) perm) PTE_V);;
            if a =? last then ret (inr 0)
            else ret (inl (u64 (a + PGSIZE), u64 (pa + PGSIZE)))
      end) (va, pa).

Definition kvmmap (kpgtbl va pa sz perm : Z) : K unit :=
  r ← mappages kpgtbl va sz pa perm;
  if negb (r =? 0) then kpanic "kvmmap" else ret tt.

Definition uvmcreate : K Z :=
  pagetable ← kalloc;
  if pagetable =? 0 then ret 0
  else kmemset pagetable 0 PGSIZE;; ret pagetable.

Definition uvmunmap (pagetable va npages do_free : Z) : K unit :=
  if negb (va mod PGSIZE =? 0) then kpanic "uvmunmap: not aligned"
  else
    loop (S (Z.to_nat npages)) (fun a =>
      if a <? u64 (va + u64 (npages * PGSIZE)) then
        pte ← walk pagetable a 0;
        (match pte with
         | None => ret tt
         | Some pte =>
             v ← kload64 pte;
             if negb (has_flag v PTE_V) then ret tt
             else
               (if negb (do_free =? 0) then kfree (PTE2PA v) else ret tt);;
               kstore64 pte 0
         end);;
        ret (inl (u64 (a + PGSIZE)))
      else ret (inr tt)) va.

Definition uvmdealloc (pagetable oldsz newsz : Z) : K Z :=
  if oldsz <=? newsz then ret oldsz
  else
    (if PGROUNDUP newsz <? PGROUNDUP oldsz then
       let npages := i32 ((PGROUNDUP oldsz - PGROUNDUP newsz) / PGSIZE) in
       uvmunmap pagetable (PGROUNDUP newsz) (u64 npages) 1
     else ret tt);;
    ret newsz.

Definition uvmalloc (pagetable oldsz newsz xperm : Z) : K Z :=
  if newsz <? oldsz then ret oldsz
  else
    let oldsz := PGROUNDUP oldsz in
    loop (S (Z.to_nat (newsz / PGSIZE + 1))) (fun a =>
      if a <? newsz then
        mem ← kalloc;
        if mem =? 0 then
          uvmdealloc pagetable a oldsz;;
          ret (inr 0)
        else
          kmemset mem 0 PGSIZE;;
          r ← mappages pagetable a PGSIZE mem (Z.lor (Z.lor PTE_R PTE_U) xperm);
          if negb (r =? 0) then
            kfree mem;;
            uvmdealloc pagetable a oldsz;;
            ret (inr 0)
          else ret (inl (u64 (a + PGSIZE)))
      else ret (inr newsz)) oldsz.

(** [freewalk] recurses once per level of the table; [fuel] is that depth. *)
Fixpoint freewalk_aux (fuel : nat) (pagetable : Z) : K unit :=
  match fuel with
  | O => undef "freewalk: page table deeper than Sv39"
  | S fuel =>
      for_each (seq 0 512) (fun i =>
        pte ← kload64 (pagetable + 8 * Z.of_nat i);
        if has_flag pte PTE_V && (Z.land pte (Z.lor (Z.lor PTE_R PTE_W) PTE_X) =? 0) then
          freewalk_aux fuel (PTE2PA pte);;
          kstore64 (pagetable + 8 * Z.of_nat i) 0
        else if has_flag pte PTE_V then kpanic "freewalk: leaf"
        else ret tt);;
      kfree pagetable
  end.

Definition freewalk (pagetable : Z) : K unit := freewalk_aux 3 pagetable.

Definition uvmfree (pagetable sz : Z) : K unit :=
  (if 0 <? sz then uvmunmap pagetable 0 (PGROUNDUP sz / PGSIZE) 1 else ret tt);;
  freewalk pagetable.

Definition uvmcopy (old new sz : Z) : K Z :=
  r ← loop (S (Z.to_nat (sz / PGSIZE + 1))) (fun i =>
    if i <? sz then
      pte ← walk old i 0;
      match pte with
      | None => ret (inl (u64 (i + PGSIZE)))
      | Some pte =>
          v ← kload64 pte;
          if negb (has_flag v PTE_V) then ret (inl (u64 (i + PGSIZE)))
          else
            let pa := PTE2PA v in
            let flags := PTE_FLAGS v in
            mem ← kalloc;
            if mem =? 0 then ret (inr (Some i))
            else
              kmemmove mem pa PGSIZE;;
              r ← mappages new i PGSIZE mem flags;
              if negb (r =? 0) then kfree mem;; ret (inr (Some i))
              else ret (inl (u64 (i + PGSIZE)))
      end
    else ret (inr None)) 0;
  match r with
  | None => ret 0
  | Some i => uvmunmap new 0 (i / PGSIZE) 1;; ret (-1)
  end.

Definition uvmclear (pagetable va : Z) : K unit :=
  pte ← walk pagetable va 0;
  match pte with
  | None => kpanic "uvmclear"
  | Some pte => v ← kload64 pte; kstore64 pte (Z.land v (u64 (Z.lnot PTE_U)))
  end.

Definition ismapped (pagetable va : Z) : K bool :=
  pte ← walk pagetable va 0;
  match pte with
  | None => ret false
  | Some pte => v ← kload64 pte; ret (has_flag v PTE_V)
  end.

Definition vmfault (pagetable va read : Z) : K Z :=
  p ← curproc;
  pr ← get_proc p;
  if p_sz pr <=? va then ret 0
  else
    let va := PGROUNDDOWN va in
    m ← ismapped pagetable va;
    if (m : bool) then ret 0
    else
      mem ← kalloc;
      if mem =? 0 then ret 0
      else
        kmemset mem 0 PGSIZE;;
        r ← mappages (p_pagetable pr) va PGSIZE mem (Z.lor (Z.lor PTE_W PTE_U) PTE_R);
        if negb (r =? 0) then kfree mem;; ret 0
        else ret mem.

(** ** Copies between user and kernel memory

    The kernel side of a copy is a list of bytes.  [copyin] also returns what
    it had copied when it failed, since the caller's buffer keeps those bytes. *)

Definition copyout (pagetable dstva : Z) (src : list Z) : K Z :=
  loop (Z.to_nat (Z.of_nat (length src) / PGSIZE + 3)) (fun '(dstva, src) =>
    match src with
    | [] => ret (inr 0)
    | _ =>
        let va0 := PGROUNDDOWN dstva in
        if MAXVA <=? va0 then ret (inr (-1))
        else
          pa ← walkaddr pagetable va0;
          pa0 ← (if pa =? 0 then vmfault pagetable va0 0 else ret pa);
          if pa0 =? 0 then ret (inr (-1))
          else
            pte ← walk pagetable va0 0;
            pte ← nonnull pte;
            v ← kload64 pte;
            if negb (has_flag v PTE_W) then ret (inr (-1))
            else
              let n := Z.min (PGSIZE - (dstva - va0)) (Z.of_nat (length src)) in
              kstore (u64 (pa0 + (dstva - va0))) (take (Z.to_nat n) src);;
              ret (inl (u64 (va0 + PGSIZE), drop (Z.to_nat n) src))
    end) (dstva, src).

Definition copyin (pagetable srcva len : Z) : K (list Z * Z) :=
  loop (Z.to_nat (len / PGSIZE + 3)) (fun '(srcva, len, acc) =>
    if 0 <? len then
      let va0 := PGROUNDDOWN srcva in
      pa ← walkaddr pagetable va0;
      pa0 ← (if pa =? 0 then vmfault pagetable va0 0 else ret pa);
      if pa0 =? 0 then ret (inr (acc, -1))
      else
        let n := Z.min (PGSIZE - (srcva - va0)) len in
        bs ← kload (u64 (pa0 + (srcva - va0))) (Z.to_nat n);
        ret (inl (u64 (va0 + PGSIZE), len - n, acc ++ bs))
    else ret (inr (acc, 0))) (srcva, len, []).

(** The inner loop of [copyinstr]: the bytes copied from one page, up to a NUL
    or to [n] bytes, and whether the NUL was found. *)
Fixpoint copy_until_nul (bs : list Z) : list Z * bool :=
  match bs with
  | [] => ([], false)
  | c :: bs =>
      if c =? 0 then ([], true)
      else let '(l, got_null) := copy_until_nul bs in (c :: l, got_null)
  end.

(** The copied string without its NUL, or [None] for -1. *)
Definition copyinstr (pagetable srcva max : Z) : K (option (list Z)) :=
  loop (Z.to_nat (max / PGSIZE + 3)) (fun '(srcva, max, acc) =>
    if 0 <? max then
      let va0 := PGROUNDDOWN srcva in
      pa0 ← walkaddr pagetable va0;
      if pa0 =? 0 then ret (inr None)
      else
        let n := Z.min (PGSIZE - (srcva - va0)) max in
        bs ← kload (u64 (pa0 + (srcva - va0))) (Z.to_nat n);
        let '(l, got_null) := copy_until_nul bs in
        if (got_null : bool) then ret (inr (Some (acc ++ l)))
        else ret (inl (u64 (va0 + PGSIZE), max - n, acc ++ l))
    else ret (inr None)) (srcva, max, []).

(** ** The kernel page table *)

Definition proc_mapstacks (kpgtbl : Z) : K unit :=
  for_each (seq 0 NPROC) (fun p =>
    pa ← kalloc;
    if pa =? 0 then kpanic "kalloc"
    else kvmmap kpgtbl (KSTACK (Z.of_nat p)) pa PGSIZE (Z.lor PTE_R PTE_W)).

Definition kvmmake : K Z :=
  kpgtbl ← kalloc;
  if kpgtbl =? 0 then undef "null pointer"
  else
    kmemset kpgtbl 0 PGSIZE;;
    kvmmap kpgtbl UART0 UART0 PGSIZE (Z.lor PTE_R PTE_W);;
    kvmmap kpgtbl VIRTIO0 VIRTIO0 PGSIZE (Z.lor PTE_R PTE_W);;
    kvmmap kpgtbl PLIC PLIC 0x4000000 (Z.lor PTE_R PTE_W);;
    kvmmap kpgtbl KERNBASE KERNBASE (u64 (sym_etext - KERNBASE)) (Z.lor PTE_R PTE_X);;
    kvmmap kpgtbl sym_etext sym_etext (u64 (PHYSTOP - sym_etext)) (Z.lor PTE_R PTE_W);;
    kvmmap kpgtbl TRAMPOLINE sym_trampoline PGSIZE (Z.lor PTE_R PTE_X);;
    proc_mapstacks kpgtbl;;
    ret kpgtbl.

(** ** kernel/proc.c: either_copyout, either_copyin *)

(** Where the kernel copies from or to: a user address of the current process,
    a physical address, or a local variable of the caller. *)
Inductive mdest := DUser (va : Z) | DKernel (pa : Z) | DLocal.
Inductive msrc := SUser (va : Z) | SLocal (bs : list Z).

Definition either_copyout (dst : mdest) (src : list Z) : K Z :=
  match dst with
  | DUser va => p ← curproc; pr ← get_proc p; copyout (p_pagetable pr) va src
  | DKernel pa => kstore pa src;; ret 0
  | DLocal => ret 0
  end.

(** The bytes that reach the destination, and the return value. *)
Definition either_copyin (src : msrc) (len : Z) : K (list Z * Z) :=
  match src with
  | SUser va => p ← curproc; pr ← get_proc p; copyin (p_pagetable pr) va len
  | SLocal bs => ret (take (Z.to_nat len) bs, 0)
  end.

End vm.

(** ** Reading a page table

    The three-level lookup as a function of memory: the next page-table page,
    the address of the last-level entry, the page a user address maps to. *)

Definition next_table (m : gmap Z Z) (level pt va : Z) : option Z :=
  let v := load64 m (pt + 8 * PX level va) in
  if has_flag v PTE_V then Some (PTE2PA v) else None.

Definition leaf_pte (m : gmap Z Z) (pt va : Z) : option Z :=
  pt1 ← next_table m 2 pt va;
  pt0 ← next_table m 1 pt1 va;
  Some (pt0 + 8 * PX 0 va).

Definition user_page (m : gmap Z Z) (pt va : Z) : Z :=
  if MAXVA <=? va then 0
  else
    match leaf_pte m pt va with
    | None => 0
    | Some pte =>
        let v := load64 m pte in
        if has_flag v PTE_V && has_flag v PTE_U then PTE2PA v else 0
    end.

Section read_only.
Context {L : Layout}.

Lemma walk_level_lookup va level pt s :
  walk_level va 0 level pt s = Done (next_table (k_mem s) level pt va) s.
Proof.
  unfold walk_level, next_table, kload64. rewrite bind_unfold. cbn [gets].
  by destruct (has_flag _ _).
Qed.

(** Without permission to allocate, [walk] reads the table and changes nothing. *)
Lemma walk_lookup pt va s :
  va < MAXVA → walk pt va 0 s = Done (leaf_pte (k_mem s) pt va) s.
Proof.
  intros Hva. unfold walk, leaf_pte. destruct (Z.leb_spec MAXVA va); [lia |].
  rewrite (bind_done _ _ _ _ _ (walk_level_lookup _ _ _ _)).
  destruct (next_table _ 2 pt va) as [pt1|]; [| done].
  rewrite (bind_done _ _ _ _ _ (walk_level_lookup _ _ _ _)). simpl.
  by destruct (next_table _ 1 pt1 va).
Qed.

Lemma walkaddr_lookup pt va s : walkaddr pt va s = Done (user_page (k_mem s) pt va) s.
Proof.
  unfold walkaddr, user_page. destruct (Z.leb_spec MAXVA va); [done |].
  rewrite (bind_done _ _ _ _ _ (walk_lookup _ _ _ ltac:(done))).
  destruct (leaf_pte _ _ _) as [pte|]; [| done].
  unfold kload64. rewrite bind_unfold. cbn [gets].
  by do 2 destruct (has_flag _ _).
Qed.

Lemma user_page_aligned m pt va : user_page m pt va mod PGSIZE = 0 ∧ 0 ≤ user_page m pt va < 2 ^ 64.
Proof.
  unfold user_page. destruct (_ <=? _); [done |]. destruct (leaf_pte _ _ _) as [pte|]; [| done].
  destruct (_ && _); [| done]. destruct (PTE2PA_page (load64 m pte)). auto.
Qed.

(** ** copyinstr against its specification

    The byte at a user address, and the NUL-terminated string of at most
    [n] bytes (the NUL included) at a user address, read byte by byte. *)

Definition user_byte (m : gmap Z Z) (pt va : Z) : option Z :=
  let pa := user_page m pt (PGROUNDDOWN va) in
  if pa =? 0 then None else Some (mread m (pa + va mod PGSIZE)).

Fixpoint user_string (m : gmap Z Z) (pt va : Z) (n : nat) : option (list Z) :=
  match n with
  | O => None
  | S n =>
      match user_byte m pt va with
      | None => None
      | Some c => if c =? 0 then Some [] else cons c <$> user_string m pt (va + 1) n
      end
  end.

Lemma user_string_chunk m pt va a n k :
  (∀ i, 0 ≤ i < Z.of_nat n → user_byte m pt (va + i) = Some (mread m (a + i))) →
  user_string m pt va (n + k) =
    let '(l, got_null) := copy_until_nul (mload m a n) in
    if (got_null : bool) then Some l else app l <$> user_string m pt (va + Z.of_nat n) k.
Proof.
  revert va a. induction n as [|n IH]; intros va a Hb; cbn [mload copy_until_nul Nat.add user_string].
  { rewrite Z.add_0_r. by destruct (user_string m pt va k). }
  pose proof (Hb 0) as H0. rewrite !Z.add_0_r in H0. rewrite H0 by lia.
  destruct (mread m a =? 0); [done |].
  rewrite (IH (va + 1) (a + 1)).
  - destruct (copy_until_nul (mload m (a + 1) n)) as [l got]. destruct got; [done |].
    replace (va + 1 + Z.of_nat n) with (va + Z.of_nat (S n)) by lia.
    by destruct (user_string m pt _ k).
  - intros i Hi. rewrite <-!Z.add_assoc. apply Hb. lia.
Qed.

(** Within one page the virtual and the physical bytes run in parallel. *)
Lemma user_byte_page m pt va i :
  0 ≤ va < 2 ^ 64 → 0 ≤ i < PGSIZE - (va - PGROUNDDOWN va) →
  user_page m pt (PGROUNDDOWN va) ≠ 0 →
  user_byte m pt (va + i) =
    Some (mread m (u64 (user_page m pt (PGROUNDDOWN va) + (va - PGROUNDDOWN va)) + i)).
Proof.
  intros Hva Hi Hp. rewrite PGROUNDDOWN_spec in * by lia.
  pose proof (Z.div_mod va PGSIZE ltac:(done)) as Hdm.
  pose proof (Z.mod_pos_bound va PGSIZE ltac:(done)) as Hmod.
  assert (Hq : (va + i) / PGSIZE = va / PGSIZE).
  { symmetry. apply Z.div_unique with (va mod PGSIZE + i); lia. }
  assert (Hr : (va + i) mod PGSIZE = va mod PGSIZE + i).
  { symmetry. apply Z.mod_unique with (va / PGSIZE); lia. }
  assert (Hhi : va / PGSIZE < 2 ^ 52) by (apply Z.div_lt_upper_bound; unfold_consts; lia).
  unfold user_byte. rewrite PGROUNDDOWN_spec by (unfold_consts; lia).
  rewrite Hq, Hr, (proj2 (Z.eqb_neq _ _) Hp). do 2 f_equal.
  destruct (user_page_aligned m pt (PGSIZE * (va / PGSIZE))) as [Hal Hrg].
  assert (user_page m pt (PGSIZE * (va / PGSIZE)) + PGSIZE ≤ 2 ^ 64).
  { apply Z.mod_divide in Hal as [x Hx]; [| done]. unfold_consts; lia. }
  rewrite u64_small; lia.
Qed.

(** Pages still to visit for [max] bytes from [va]. *)
Definition pages_left (va max : Z) : nat :=
  Z.to_nat (if max <=? 0 then 0 else (va mod PGSIZE + max + PGSIZE - 1) / PGSIZE).

Lemma pages_left_bound va max :
  0 ≤ max → (pages_left va max < Z.to_nat (max / PGSIZE + 3))%nat.
Proof.
  intros Hmax. unfold pages_left. pose proof (Z.mod_pos_bound va PGSIZE ltac:(done)).
  assert (0 ≤ max / PGSIZE) by (by apply Z.div_pos).
  destruct (Z.leb_spec max 0); [lia |].
  assert ((va mod PGSIZE + max + PGSIZE - 1) / PGSIZE ≤ (max + 2 * PGSIZE) / PGSIZE)
    by (apply Z.div_le_mono; lia).
  rewrite Z.div_add in * by done. lia.
Qed.

Lemma pages_left_step va max :
  0 < max → (pages_left (va + (PGSIZE - va mod PGSIZE)) (max - Z.min (PGSIZE - va mod PGSIZE) max)
    < pages_left va max)%nat.
Proof.
  intros Hmax. unfold pages_left. pose proof (Z.mod_pos_bound va PGSIZE ltac:(done)) as Hmod.
  pose proof (Z.div_mod va PGSIZE ltac:(done)) as Hdm.
  replace ((va + (PGSIZE - va mod PGSIZE)) mod PGSIZE) with 0.
  2: { apply Z.mod_unique with (va / PGSIZE + 1); lia. }
  assert (Hone : 1 ≤ (va mod PGSIZE + max + PGSIZE - 1) / PGSIZE)
    by (apply Z.div_le_lower_bound; lia).
  destruct (Z.leb_spec max 0) as [?|_]; [lia |].
  destruct (Z.leb_spec (max - Z.min (PGSIZE - va mod PGSIZE) max) 0); [lia |].
  rewrite Z.min_l by lia.
  replace (va mod PGSIZE + max + PGSIZE - 1)
    with (0 + (max - (PGSIZE - va mod PGSIZE)) + PGSIZE - 1 + 1 * PGSIZE) by lia.
  rewrite Z.div_add by done.
  assert (0 ≤ (0 + (max - (PGSIZE - va mod PGSIZE)) + PGSIZE - 1) / PGSIZE)
    by (apply Z.div_pos; lia). lia.
Qed.

Lemma PGROUNDDOWN_off va : 0 ≤ va < 2 ^ 64 → va - PGROUNDDOWN va = va mod PGSIZE.
Proof.
  intros Hva. rewrite PGROUNDDOWN_spec by done.
  pose proof (Z.div_mod va PGSIZE ltac:(done)). lia.
Qed.

(** The page after a mapped one starts where the arithmetic says. *)
Lemma user_page_next m pt va :
  0 ≤ va < 2 ^ 64 → user_page m pt (PGROUNDDOWN va) ≠ 0 →
  u64 (PGROUNDDOWN va + PGSIZE) = va + (PGSIZE - va mod PGSIZE).
Proof.
  intros Hva Hp. pose proof (PGROUNDDOWN_off va Hva).
  pose proof (Z.mod_pos_bound va PGSIZE ltac:(done)).
  assert (PGROUNDDOWN va < MAXVA).
  { unfold user_page in Hp. destruct (Z.leb_spec MAXVA (PGROUNDDOWN va)); [done | lia]. }
  assert (MAXVA = 2 ^ 38) by done. rewrite u64_small; unfold_consts; lia.
Qed.

(** One round of [copyinstr] that finds the page mapped. *)
Lemma copyinstr_round m pt va max :
  0 ≤ va < 2 ^ 64 → 0 < max → user_page m pt (PGROUNDDOWN va) ≠ 0 →
  let n := Z.min (PGSIZE - (va - PGROUNDDOWN va)) max in
  let '(l, got_null) := copy_until_nul
    (mload m (u64 (user_page m pt (PGROUNDDOWN va) + (va - PGROUNDDOWN va))) (Z.to_nat n)) in
  user_string m pt va (Z.to_nat max) =
    if (got_null : bool) then Some l
    else app l <$> user_string m pt (va + n) (Z.to_nat (max - n)).
Proof.
  intros Hva Hmax Hp n. pose proof (Z.mod_pos_bound va PGSIZE ltac:(done)) as Hmod.
  pose proof (PGROUNDDOWN_off va Hva) as Hoff.
  replace (Z.to_nat max) with (Z.to_nat n + Z.to_nat (max - n))%nat by lia.
  rewrite (user_string_chunk m pt va
    (u64 (user_page m pt (PGROUNDDOWN va) + (va - PGROUNDDOWN va)))).
  - rewrite Z2Nat.id by lia. by destruct (copy_until_nul _).
  - intros i Hi. apply user_byte_page; [done | lia | done].
Qed.

(** Functional specification of [copyinstr]: page by page, it returns the string
    that is in user memory, and it always returns. *)
Lemma copyinstr_done pt va max s :
  0 ≤ va < 2 ^ 64 → 0 ≤ max →
  copyinstr pt va max s = Done (user_string (k_mem s) pt va (Z.to_nat max)) s.
Proof.
  intros Hva Hmax. unfold copyinstr.
  edestruct (loop_done
    (λ '(va', max', acc) s', s' = s ∧ 0 ≤ va' < 2 ^ 64 ∧ 0 ≤ max' ∧
       user_string (k_mem s) pt va (Z.to_nat max) =
         app acc <$> user_string (k_mem s) pt va' (Z.to_nat max'))
    (λ '(va', max', acc), pages_left va' max')
    (λ r s', s' = s ∧ r = user_string (k_mem s) pt va (Z.to_nat max)))
    as (r & s' & E & -> & ->); [| | | exact E].
  2: { split; [done |]. split; [done |]. split; [done |]. by destruct (user_string _ _ _ _). }
  2: { by apply pages_left_bound. }
  intros [[va' max'] acc] ? (-> & Hva' & Hmax' & Heq). rewrite Heq.
  destruct (Z.ltb_spec 0 max').
  2: { right. do 2 eexists. split; [done |]. split; [done |].
       replace max' with 0 by lia. done. }
  rewrite (bind_done _ _ _ _ _ (walkaddr_lookup _ _ _)).
  pose proof (user_page_aligned (k_mem s) pt (PGROUNDDOWN va')) as Hal.
  destruct (Z.eqb_spec (user_page (k_mem s) pt (PGROUNDDOWN va')) 0) as [Hp|Hp].
  { right. do 2 eexists. split; [done |]. split; [done |].
    replace (Z.to_nat max') with (S (Z.to_nat (max' - 1))) by lia.
    cbn [user_string]. unfold user_byte. by rewrite Hp. }
  pose proof (copyinstr_round (k_mem s) pt va' max' Hva' ltac:(done) Hp) as Hround.
  cbv zeta in Hround. unfold kload. rewrite bind_unfold. cbn [gets].
  destruct (copy_until_nul _) as [l got_null]. rewrite Hround. destruct got_null.
  { right. by do 2 eexists. }
  left. do 2 eexists. split; [done |]. rewrite (user_page_next _ _ _ Hva' Hp).
  pose proof (Z.mod_pos_bound va' PGSIZE ltac:(done)).
  rewrite PGROUNDDOWN_off by done. split; [| by apply pages_left_step].
  split; [done |]. split; [split; [lia |] |].
  { pose proof (user_page_next _ _ _ Hva' Hp) as Hn. rewrite <-Hn. apply u64_range. }
  split; [lia |]. destruct (decide (PGSIZE - va' mod PGSIZE ≤ max')).
  - rewrite Z.min_l, <-option_fmap_compose by done.
    apply option_fmap_ext. intros x. apply app_assoc.
  - rewrite Z.min_r, Z.sub_diag by lia. done.
Qed.

End read_only.

(** ** Theorems *)

(** [copyinstr] reads the string that is in user memory.  Working page by
    page through the page table, it returns for every address and every bound
    exactly what reading byte by byte would give: the bytes before the first NUL,
    or an error if a byte is not mapped or there is no NUL in bounds.  It always
    returns and leaves the kernel state alone. *)
Theorem copyinstr_reads_user_string {L : Layout} pt va max s :
  0 ≤ va < 2 ^ 64 → 0 ≤ max →
  copyinstr pt va max s = Done (user_string (k_mem s) pt va (Z.to_nat max)) s.
Proof. apply copyinstr_done. Qed.
