(* ===== verification/VmSpec.v ===== *)
(** * Address spaces (kernel/vm.c)

    A page table is a tree of pages in physical memory.  [vm_ok] says what every
    page of the allocator's memory is used for: it is free, or it is a table of
    the tree of one root, at one place in it, or it holds the data of one page of
    one address space.  From this follow that the trees do not share pages, that
    a change of one entry changes one translation, and that address spaces are
    isolated from each other. *)

From S2P Require Import Prelude Machine Kstate Logic Strings Sched Kalloc Vm.

(** Where a table page stands in its tree: the root, the page behind entry [i] of
    the root, the page behind entry [j] of that one. *)
Inductive tpath := Root | Mid (i : Z) | Low (i j : Z).

Inductive puse :=
  | Table (root : Z) (q : tpath)
  | Data (root va : Z).
#[global] Instance tpath_dec : EqDecision tpath.
Proof. solve_decision. Defined.
#[global] Instance puse_dec : EqDecision puse.
Proof. solve_decision. Defined.

(** Entry [i] of a table. *)
Definition entry (m : gmap Z Z) (p i : Z) : Z := load64 m (p + 8 * i).

(** The leaf entry of an address, 0 if the tree has none. *)
Definition trans (m : gmap Z Z) (root va : Z) : Z :=
  let e2 := entry m root (PX 2 va) in
  if has_flag e2 PTE_V then
    let e1 := entry m (PTE2PA e2) (PX 1 va) in
    if has_flag e1 PTE_V then entry m (PTE2PA e1) (PX 0 va) else 0
  else 0.

(** The next step down the tree. *)
Definition below (q : tpath) (i : Z) : option tpath :=
  match q with Root => Some (Mid i) | Mid j => Some (Low j i) | Low _ _ => None end.

(** The address of the page that leaf entry [k] of a lowest table stands for. *)
Definition va_of (i j k : Z) : Z := ((i * 512 + j) * 512 + k) * PGSIZE.

(** [kpt] is the kernel's page table, which maps memory it does not own; the other
    trees belong to processes and own the pages they map below the trap frame and
    all pages they let the user access. *)
Record vm_base {L : Layout} (kpt : Z) (pages : gmap Z puse) (l : list Z) (s : kstate) : Prop := {
  vo_free : free_pages l s;
  vo_notfree : ∀ p, p ∈ l → pages !! p = None;
  vo_page : ∀ p u, pages !! p = Some u → page_ok p;
  vo_root : ∀ p root, pages !! p = Some (Table root Root) → p = root;
  vo_below : ∀ p root q q' i, pages !! p = Some (Table root q) → below q i = Some q' → 0 ≤ i < 512 →
    has_flag (entry (k_mem s) p i) PTE_V = true →
    pages !! PTE2PA (entry (k_mem s) p i) = Some (Table root q');
  vo_leaf : ∀ p root i j k, pages !! p = Some (Table root (Low i j)) → 0 ≤ k < 512 →
    root ≠ kpt → has_flag (entry (k_mem s) p k) PTE_V = true →
    has_flag (entry (k_mem s) p k) PTE_U = true ∨ va_of i j k < TRAPFRAME →
    pages !! PTE2PA (entry (k_mem s) p k) = Some (Data root (va_of i j k));
}.

(** Every table but a root is linked in its tree. *)
Definition linked (pages : gmap Z puse) (m : gmap Z Z) : Prop :=
  ∀ p' root q', pages !! p' = Some (Table root q') → q' ≠ Root →
    ∃ p q i, below q i = Some q' ∧ 0 ≤ i < 512 ∧ pages !! p = Some (Table root q) ∧
      has_flag (entry m p i) PTE_V = true ∧ PTE2PA (entry m p i) = p'.

Record vm_ok {L : Layout} (kpt : Z) (pages : gmap Z puse) (l : list Z) (s : kstate) : Prop := {
  vo_base :> vm_base kpt pages l s;
  vo_linked : linked pages (k_mem s);
}.

(** The bytes of a page. *)
Definition same_page (p : Z) (m m' : gmap Z Z) : Prop :=
  ∀ a, p ≤ a < p + PGSIZE → mread m' a = mread m a.

(** The lowest table of an address. *)
Definition leaf_page (m : gmap Z Z) (root va : Z) : option Z :=
  let e2 := entry m root (PX 2 va) in
  if has_flag e2 PTE_V then
    let e1 := entry m (PTE2PA e2) (PX 1 va) in
    if has_flag e1 PTE_V then Some (PTE2PA e1) else None
  else None.

Definition is_root (pages : gmap Z puse) (root : Z) : Prop := pages !! root = Some (Table root Root).

(** One entry of a table gets a value, the memory outside the table stays. *)
Record entry_set (p i v : Z) (m m' : gmap Z Z) : Prop := {
  es_at : entry m' p i = v;
  es_ne : ∀ i', 0 ≤ i' < 512 → i' ≠ i → entry m' p i' = entry m p i';
  es_out : same_outside p m m';
}.

(** Pages that a tree may get: tables, a certain data page, any data page. *)
Definition table_of (root p : Z) (u : puse) : Prop := ∃ q, u = Table root q ∧ q ≠ Root.
Definition page_of (root va pg p : Z) (u : puse) : Prop := table_of root p u ∨ p = pg ∧ u = Data root va.
Definition owned_by (root p : Z) (u : puse) : Prop := table_of root p u ∨ ∃ va, u = Data root va.

(** A tree gets pages as [new] allows out of the free pages; nothing changes but
    its tables and pages that were free. *)
Record grows (new : Z → puse → Prop) (root : Z) (pages : gmap Z puse) (l : list Z) (s : kstate)
    (pages' : gmap Z puse) (l' : list Z) (s' : kstate) : Prop := {
  g_pages : ∀ p u, pages !! p = Some u → pages' !! p = Some u;
  g_new : ∀ p u, pages' !! p = Some u → pages !! p = Some u ∨ p ∈ l ∧ new p u;
  g_sub : ∀ p, p ∈ l' → p ∈ l;
  g_free : ∀ p, p ∈ l → p ∈ l' ∨ is_Some (pages' !! p);
  g_only : only_pages s s';
  g_mem : ∀ a, (∀ p q, pages !! p = Some (Table root q) → a < p ∨ p + PGSIZE ≤ a) →
    (∀ p, p ∈ l → a < p ∨ p + PGSIZE ≤ a) → mread (k_mem s') a = mread (k_mem s) a;
}.

(** ... and no translation changes either. *)
Record tables_grow (root : Z) (pages : gmap Z puse) (l : list Z) (s : kstate)
    (pages' : gmap Z puse) (l' : list Z) (s' : kstate) : Prop := {
  tg_grows : grows (table_of root) root pages l s pages' l' s';
  tg_valid : ∀ p q i, pages !! p = Some (Table root q) → 0 ≤ i < 512 →
    has_flag (entry (k_mem s) p i) PTE_V = true → entry (k_mem s') p i = entry (k_mem s) p i;
  tg_trans : ∀ root' va, is_root pages root' → trans (k_mem s') root' va = trans (k_mem s) root' va;
}.

(** Of the translations in [m], those of [n] pages from [va] on lead to the pages
    from [pa] on in [m']. *)
Definition trans_mapped (pages : gmap Z puse) (m m' : gmap Z Z) (root va n pa perm : Z) : Prop :=
  ∀ root' va', is_root pages root' → 0 ≤ va' < MAXVA →
    trans m' root' va' =
      if decide (root' = root ∧ va ≤ va' < va + n * PGSIZE)
      then Z.lor (Z.lor (PA2PTE (pa + PGSIZE * ((va' - va) / PGSIZE))) perm) PTE_V
      else trans m root' va'.

(** What [mappages] is entitled to: page-aligned ranges, no entry in use, and for a
    process the right to the pages it maps. *)
Record mappable (kpt : Z) (pages : gmap Z puse) (s : kstate) (root va n pa perm : Z) : Prop := {
  mp_lock : LkKmem ∉ k_held s;
  mp_root : is_root pages root;
  mp_va : va mod PGSIZE = 0 ∧ 0 ≤ va ∧ va + n * PGSIZE ≤ MAXVA;
  mp_pa : pa mod PGSIZE = 0 ∧ 0 ≤ pa ∧ pa + n * PGSIZE ≤ 2 ^ 56;
  mp_perm : 0 ≤ perm < 2 ^ 10;
  mp_free : ∀ va', va ≤ va' < va + n * PGSIZE → has_flag (trans (k_mem s) root va') PTE_V = false;
  mp_data : root ≠ kpt → ∀ k, 0 ≤ k < n → has_flag perm PTE_U = true ∨ va + k * PGSIZE < TRAPFRAME →
    pages !! (pa + k * PGSIZE) = Some (Data root (va + k * PGSIZE));
}.

(** What a call of [mappages] that got [n] pages far has done. *)
Definition mapped {L : Layout} (kpt : Z) (pages : gmap Z puse) (l : list Z) (s : kstate) (root va n pa perm : Z)
    (pages' : gmap Z puse) (l' : list Z) (s' : kstate) : Prop :=
  vm_ok kpt pages' l' s' ∧ grows (table_of root) root pages l s pages' l' s' ∧
  trans_mapped pages (k_mem s) (k_mem s') root va n pa perm.

(** ** Entries *)

Section entries.
Context {L : Layout}.

Lemma entry_range p i : 0 ≤ i < 512 → p ≤ p + 8 * i ∧ p + 8 * i + 8 ≤ p + PGSIZE.
Proof. unfold_consts. lia. Qed.

Lemma entry_same_page p m m' i : same_page p m m' → 0 ≤ i < 512 → entry m' p i = entry m p i.
Proof.
  intros H Hi. unfold entry, load64. f_equal. apply mload_ext. intros a Ha. apply H.
  pose proof (entry_range p i Hi). lia.
Qed.

Lemma same_page_outside pa p m m' : page_ok pa → page_ok p → p ≠ pa → same_outside pa m m' → same_page p m m'.
Proof.
  intros Hpa Hp Hne H a Ha. apply H. destruct (pages_disjoint pa p Hpa Hp (not_eq_sym Hne)); lia.
Qed.

Lemma entry_set_store p i v m : 0 ≤ v < 2 ^ 64 → 0 ≤ i < 512 → entry_set p i v m (store64 m (p + 8 * i) v).
Proof.
  intros Hv Hi. pose proof (entry_range p i Hi). split.
  - unfold entry. by rewrite load64_store64, u64_small.
  - intros i' Hi' Hne. apply load64_store64_out. lia.
  - intros a Ha. apply mread_mstore_out. rewrite length_le_bytes. lia.
Qed.

Lemma entry_set_ne p i v m m' p' i' : entry_set p i v m m' → page_ok p → page_ok p' → 0 ≤ i' < 512 →
  (p', i') ≠ (p, i) → entry m' p' i' = entry m p' i'.
Proof.
  intros [_ Hi Ho] Hp Hp' Hi' Hne. destruct (decide (p' = p)) as [-> | Hpp].
  - apply Hi; [done | congruence].
  - by apply entry_same_page; [apply (same_page_outside p) |].
Qed.

Lemma entry_zero_page m p i : 0 ≤ i < 512 → entry (memset m p 0 (Z.to_nat PGSIZE)) p i = 0.
Proof.
  intros Hi. unfold entry. rewrite memset_mstore. apply load64_fill0; [lia |].
  rewrite Z2Nat.id by (unfold_consts; lia). pose proof (entry_range p i Hi). lia.
Qed.

(** The entry [walk] stores for a new table. *)
Lemma table_entry p : page_ok p →
  has_flag (Z.lor (PA2PTE p) PTE_V) PTE_V = true ∧ PTE2PA (Z.lor (PA2PTE p) PTE_V) = p ∧
  0 ≤ Z.lor (PA2PTE p) PTE_V < 2 ^ 64.
Proof.
  intros (Hal & Hr & Hpos). assert (PHYSTOP < 2 ^ 56) by done. split; [| split].
  - unfold has_flag. rewrite Z.land_lor_distr_l. change (Z.land PTE_V PTE_V) with 1.
    apply negb_true_iff, Z.eqb_neq. intros E%Z.lor_eq_0_iff. lia.
  - apply PTE2PA_PA2PTE; [lia | done | done].
  - apply lor_range; [done | apply u64_range | done].
Qed.
End entries.

(** ** Changes that keep the invariant *)

Section invariant.
Context {L : Layout} (kpt : Z).

Lemma same_page_refl p m : same_page p m m.
Proof. done. Qed.

Lemma free_pages_outside l s p m' : free_pages l s → page_ok p → p ∉ l → same_outside p (k_mem s) m' →
  free_pages l (s <| k_mem := m' |>).
Proof.
  intros [Hc Hn Ho] Hp Hin Hm. split; simpl; [| done | done]. by apply (chain_same_outside (k_mem s) _ p).
Qed.

Lemma table_not_free pages l s p u : vm_base kpt pages l s → pages !! p = Some u → p ∉ l.
Proof. intros H Hp Hin. apply (vo_notfree _ _ _ _ H) in Hin. congruence. Qed.

Lemma vm_page pages l s p u : vm_ok kpt pages l s → pages !! p = Some u → page_ok p.
Proof. intros H. apply (vo_page _ _ _ _ H). Qed.

Lemma linked_same pages m m' : linked pages m →
  (∀ p root q, pages !! p = Some (Table root q) → same_page p m m') → linked pages m'.
Proof.
  intros H Hs p' root q' Hp' Hq'. destruct (H _ _ _ Hp' Hq') as (p & q & i & Hb & Hi & Hp & HV).
  exists p, q, i. by rewrite (entry_same_page _ _ _ _ (Hs _ _ _ Hp) Hi).
Qed.

(** The free list changes, and no table. *)
Lemma vm_base_free pages l s l' s' : vm_base kpt pages l s → free_pages l' s' → (∀ p, p ∈ l' → pages !! p = None) →
  (∀ p root q, pages !! p = Some (Table root q) → same_page p (k_mem s) (k_mem s')) → vm_base kpt pages l' s'.
Proof.
  intros [Hf Hn Hok Hr Hb Hl] Hf' Hn' Hs. split; [done | done | done | done | |].
  - intros p root q q' i Hp Hq Hi. rewrite (entry_same_page _ _ _ _ (Hs _ _ _ Hp) Hi). by eapply Hb.
  - intros p root i j k Hp Hk. rewrite (entry_same_page _ _ _ _ (Hs _ _ _ Hp) Hk). by eapply Hl.
Qed.

Lemma vm_ok_free pages l s l' s' : vm_ok kpt pages l s → free_pages l' s' → (∀ p, p ∈ l' → pages !! p = None) →
  (∀ p root q, pages !! p = Some (Table root q) → same_page p (k_mem s) (k_mem s')) → vm_ok kpt pages l' s'.
Proof. intros [H Hlk] Hf Hn Hs. split; [by eapply vm_base_free | by eapply linked_same]. Qed.

(** A page that is no table may change. *)
Lemma vm_ok_page pages l s p m' : vm_ok kpt pages l s → page_ok p → p ∉ l →
  (∀ root q, pages !! p ≠ Some (Table root q)) → same_outside p (k_mem s) m' → vm_ok kpt pages l (s <| k_mem := m' |>).
Proof.
  intros Hok Hp Hin Hnt Hm. apply (vm_ok_free _ l s); [done | | by apply Hok |].
  - eapply free_pages_outside; [by apply Hok | done..].
  - intros p' root q Hp'. apply (same_page_outside p); [done | by eapply vm_page | | done]. intros ->. by eapply Hnt.
Qed.

(** An allocated page gets a use. *)
Lemma vm_ok_data pages l s p root va : vm_ok kpt pages l s → page_ok p → p ∉ l → pages !! p = None →
  vm_ok kpt (<[p := Data root va]> pages) l s.
Proof.
  intros [[Hf Hn Hok Hr Hb Hl] Hlk] Hp Hin Hnone. split; [split; try done |].
  - intros p' Hp'. rewrite lookup_insert_ne by (intros <-; done). by apply Hn.
  - intros p' u [[<- <-] | [_ Hu]]%lookup_insert_Some; [done | by eapply Hok].
  - intros p' r [[_ ?] | [_ Hu]]%lookup_insert_Some; [done | by apply Hr].
  - intros p' r q q' i [[_ ?] | [_ Hu]]%lookup_insert_Some Hq Hi Hv; [done |].
    pose proof (Hb _ _ _ _ _ Hu Hq Hi Hv) as H. rewrite lookup_insert_ne; [done | congruence].
  - intros p' r i j k [[_ ?] | [_ Hu]]%lookup_insert_Some Hk Hkp Hv HU; [done |].
    pose proof (Hl _ _ _ _ _ Hu Hk Hkp Hv HU) as H. rewrite lookup_insert_ne; [done | congruence].
  - intros p' r q' [[_ ?] | [_ Hu]]%lookup_insert_Some Hq'; [done |].
    destruct (Hlk _ _ _ Hu Hq') as (p1 & q & i & Hbl & Hi & Hp1 & HV). exists p1, q, i.
    by rewrite lookup_insert_ne by congruence.
Qed.

Lemma vm_base_table pages l s p root q : vm_base kpt pages l s → page_ok p → p ∉ l → pages !! p = None →
  (q = Root → root = p) → (∀ i, 0 ≤ i < 512 → entry (k_mem s) p i = 0) →
  vm_base kpt (<[p := Table root q]> pages) l s.
Proof.
  intros [Hf Hn Hok Hr Hb Hl] Hp Hin Hnone Hroot Hz. split; try done.
  - intros p' Hp'. rewrite lookup_insert_ne by (intros <-; done). by apply Hn.
  - intros p' u [[<- <-] | [_ Hu]]%lookup_insert_Some; [done | by eapply Hok].
  - intros p' r [[<- [= <- ->]] | [_ Hu]]%lookup_insert_Some; [by rewrite Hroot | by apply Hr].
  - intros p' r q1 q' i [[<- [= <- <-]] | [_ Hu]]%lookup_insert_Some Hq Hi Hv; [by rewrite Hz in Hv by done |].
    pose proof (Hb _ _ _ _ _ Hu Hq Hi Hv) as H. rewrite lookup_insert_ne; [done | congruence].
  - intros p' r i j k [[<- [= <- ->]] | [_ Hu]]%lookup_insert_Some Hk Hkp Hv HU; [by rewrite Hz in Hv by done |].
    pose proof (Hl _ _ _ _ _ Hu Hk Hkp Hv HU) as H. rewrite lookup_insert_ne; [done | congruence].
Qed.

(** An entry of a table is stored. *)
Lemma vm_base_entry pages l s p root q i v m' : vm_base kpt pages l s → pages !! p = Some (Table root q) →
  0 ≤ i < 512 → entry_set p i v (k_mem s) m' →
  (∀ q', below q i = Some q' → has_flag v PTE_V = true → pages !! PTE2PA v = Some (Table root q')) →
  (∀ i' j', q = Low i' j' → root ≠ kpt → has_flag v PTE_V = true →
     has_flag v PTE_U = true ∨ va_of i' j' i < TRAPFRAME → pages !! PTE2PA v = Some (Data root (va_of i' j' i))) →
  vm_base kpt pages l (s <| k_mem := m' |>).
Proof.
  intros Hok Hp Hi Hset Hq Hleaf. assert (p ∉ l) as Hin by (by eapply table_not_free).
  destruct Hok as [Hf Hn Hpg Hr Hb Hl]. pose proof (Hpg _ _ Hp) as Hpok.
  assert (∀ p' u i', pages !! p' = Some u → 0 ≤ i' < 512 → (p', i') ≠ (p, i) →
    entry m' p' i' = entry (k_mem s) p' i') as E.
  { intros p' u i' Hp' Hi' Hne. eapply entry_set_ne; eauto. }
  split; simpl; [| exact Hn | exact Hpg | exact Hr | |].
  - eapply (free_pages_outside l s p); [done.. | by apply Hset].
  - intros p' r q1 q' i' Hp' Hq' Hi'. destruct (decide ((p', i') = (p, i))) as [[= -> ->] | Hne].
    + rewrite (es_at _ _ _ _ _ Hset). simplify_eq. by apply Hq.
    + rewrite (E _ _ _ Hp' Hi' Hne). by eapply Hb.
  - intros p' r i1 j1 k Hp' Hk. destruct (decide ((p', k) = (p, i))) as [[= -> ->] | Hne].
    + rewrite (es_at _ _ _ _ _ Hset). simplify_eq. by apply Hleaf.
    + rewrite (E _ _ _ Hp' Hk Hne). by eapply Hl.
Qed.
(** A leaf entry is no link. *)
Lemma linked_leaf pages l s p root i j k v m' : vm_ok kpt pages l s → pages !! p = Some (Table root (Low i j)) →
  entry_set p k v (k_mem s) m' → linked pages m'.
Proof.
  intros Hok Hp Hset p' r q' Hp' Hq'. destruct (vo_linked _ _ _ _ Hok _ _ _ Hp' Hq') as (p1 & q1 & i1 & Hb & Hi & Hp1 & HV).
  exists p1, q1, i1. rewrite (entry_set_ne _ _ _ _ _ p1 i1 Hset); [done | by eapply vm_page | by eapply vm_page | done |].
  intros [= -> ->]. rewrite Hp in Hp1. by simplify_eq.
Qed.

Lemma vm_ok_entry pages l s p root i j k v m' : vm_ok kpt pages l s → pages !! p = Some (Table root (Low i j)) →
  0 ≤ k < 512 → entry_set p k v (k_mem s) m' →
  (root ≠ kpt → has_flag v PTE_V = true → has_flag v PTE_U = true ∨ va_of i j k < TRAPFRAME →
     pages !! PTE2PA v = Some (Data root (va_of i j k))) →
  vm_ok kpt pages l (s <| k_mem := m' |>).
Proof.
  intros Hok Hp Hk Hset Hleaf. split; [| by eapply linked_leaf].
  eapply vm_base_entry; [apply Hok | exact Hp | exact Hk | exact Hset | done |]. by intros i' j' [= <- <-].
Qed.

(** ** Allocation *)

Lemma kalloc_vm pages l s : vm_ok kpt pages l s → LkKmem ∉ k_held s →
  match l with
  | [] => kalloc s = Done 0 s
  | pg :: l' =>
      ∃ s', kalloc s = Done pg s' ∧ vm_ok kpt pages l' s' ∧ only_pages s s' ∧
        same_outside pg (k_mem s) (k_mem s') ∧ page_ok pg ∧ (pg ∉ l') ∧ pages !! pg = None
  end.
Proof.
  intros Hok Hlk. pose proof (kalloc_done l s (vo_free _ _ _ _ Hok) Hlk) as H.
  destruct l as [|pg l']; [done |]. destruct H as (m' & next & E & Ho & _ & Hf).
  destruct (vo_free _ _ _ _ Hok) as [_ Hnd Hpg]. apply NoDup_cons in Hnd as [Hin Hnd].
  apply Forall_cons in Hpg as [Hpg _].
  assert (pages !! pg = None) as Hnone by (apply (vo_notfree _ _ _ _ Hok); set_solver).
  eexists. split; [exact E |]. split_and!; [| by destruct s | done..].
  apply (vm_ok_free _ (pg :: l') s); [done | done | |].
  - intros p Hp. apply (vo_notfree _ _ _ _ Hok). set_solver.
  - intros p root q Hp. apply (same_page_outside pg); [done | by eapply vm_page | congruence | done].
Qed.
End invariant.

(** ** Translations *)

Section translations.
Context {L : Layout} (kpt : Z).

Lemma leaf_page_trans m root va :
  trans m root va = match leaf_page m root va with Some p => entry m p (PX 0 va) | None => 0 end.
Proof. unfold trans, leaf_page. simpl. destruct (has_flag _ _); [| done]. by destruct (has_flag _ _). Qed.

Lemma leaf_page_pte m root va : leaf_pte m root va = (λ p, p + 8 * PX 0 va) <$> leaf_page m root va.
Proof.
  unfold leaf_pte, leaf_page, next_table, entry. simpl. destruct (has_flag _ _); [| done]. simpl.
  by destruct (has_flag _ _).
Qed.

(** What the tree of a root looks like along the path of an address. *)
Lemma mid_use pages l s root va : vm_ok kpt pages l s → is_root pages root →
  has_flag (entry (k_mem s) root (PX 2 va)) PTE_V = true →
  pages !! PTE2PA (entry (k_mem s) root (PX 2 va)) = Some (Table root (Mid (PX 2 va))).
Proof. intros Hok Hr. apply (vo_below _ _ _ _ Hok _ _ Root); [done | done | apply PX_range]. Qed.

Lemma leaf_page_use pages l s root va p : vm_ok kpt pages l s → is_root pages root →
  leaf_page (k_mem s) root va = Some p → pages !! p = Some (Table root (Low (PX 2 va) (PX 1 va))).
Proof.
  intros Hok Hr. unfold leaf_page. destruct (has_flag _ _) eqn:H2; [| done].
  destruct (has_flag (entry _ (PTE2PA _) _) _) eqn:H1; [| done]. intros [= <-].
  apply (vo_below _ _ _ _ Hok _ _ (Mid (PX 2 va))); [by eapply mid_use | done | apply PX_range | done].
Qed.

(** Changes outside the tables of a root do not touch its translations. *)
Lemma leaf_page_same pages l s m' root va : vm_ok kpt pages l s → is_root pages root →
  (∀ p q, pages !! p = Some (Table root q) → same_page p (k_mem s) m') →
  leaf_page m' root va = leaf_page (k_mem s) root va.
Proof.
  intros Hok Hr Hs. unfold leaf_page. rewrite (entry_same_page _ _ _ _ (Hs _ _ Hr) (PX_range _ _)).
  destruct (has_flag _ _) eqn:H2; [| done]. pose proof (mid_use _ _ _ _ _ Hok Hr H2) as Hm.
  by rewrite (entry_same_page _ _ _ _ (Hs _ _ Hm) (PX_range _ _)).
Qed.

Lemma trans_same pages l s m' root va : vm_ok kpt pages l s → is_root pages root →
  (∀ p q, pages !! p = Some (Table root q) → same_page p (k_mem s) m') →
  trans m' root va = trans (k_mem s) root va.
Proof.
  intros Hok Hr Hs. rewrite !leaf_page_trans, (leaf_page_same _ _ _ _ _ _ Hok Hr Hs).
  destruct (leaf_page _ _ _) as [p|] eqn:E; [| done]. pose proof (leaf_page_use _ _ _ _ _ _ Hok Hr E).
  eapply entry_same_page; [by eapply Hs | apply PX_range].
Qed.

(** A leaf entry is stored: one translation changes. *)
Lemma trans_set pages l s m' root i j p k v root' va : vm_ok kpt pages l s → is_root pages root' →
  pages !! p = Some (Table root (Low i j)) → entry_set p k v (k_mem s) m' →
  leaf_page m' root' va = leaf_page (k_mem s) root' va ∧
  trans m' root' va =
    if decide (leaf_page (k_mem s) root' va = Some p ∧ PX 0 va = k) then v else trans (k_mem s) root' va.
Proof.
  intros Hok Hr Hp Hset. pose proof (λ p u, vo_page _ _ _ _ Hok p u) as Hpg.
  assert (∀ p' i' u, pages !! p' = Some u → p' ≠ p → 0 ≤ i' < 512 → entry m' p' i' = entry (k_mem s) p' i') as E.
  { intros p' i' u Hp' Hne Hi'. eapply entry_set_ne; eauto. congruence. }
  assert (leaf_page m' root' va = leaf_page (k_mem s) root' va) as Hleaf.
  { unfold leaf_page. unfold is_root in Hr. rewrite (E _ _ _ Hr) by (apply PX_range || congruence).
    destruct (has_flag _ _) eqn:H2; [| done]. pose proof (mid_use _ _ _ _ _ Hok Hr H2) as Hm.
    by rewrite (E _ _ _ Hm) by (apply PX_range || congruence). }
  split; [done |]. rewrite !leaf_page_trans, Hleaf.
  destruct (leaf_page (k_mem s) root' va) as [p'|] eqn:El.
  2: { case_decide as Hd; [by destruct Hd as [[=] _] | done]. }
  pose proof (leaf_page_use _ _ _ _ _ _ Hok Hr El) as Hp'. case_decide as Hd.
  - destruct Hd as [[= ->] <-]. apply Hset.
  - eapply entry_set_ne; [done | eauto | eauto | apply PX_range |]. intros [= -> Hk]. by apply Hd.
Qed.

(** A new, empty table is linked in: no translation changes. *)
Lemma trans_new_table pages l s m' root q q' p i pg v root' va : vm_ok kpt pages l s → is_root pages root' →
  pages !! p = Some (Table root q) → below q i = Some q' →
  has_flag (entry (k_mem s) p i) PTE_V = false →
  (∀ p' u, pages !! p' = Some u → p' ≠ p → same_page p' (k_mem s) m') →
  (∀ i', 0 ≤ i' < 512 → i' ≠ i → entry m' p i' = entry (k_mem s) p i') →
  entry m' p i = v → PTE2PA v = pg → (∀ i', 0 ≤ i' < 512 → entry m' pg i' = 0) →
  trans m' root' va = trans (k_mem s) root' va.
Proof.
  intros Hok Hr Hp Hq Hinv Hs Hne Hv Hpg Hz. unfold is_root in Hr.
  assert (∀ p' u level, pages !! p' = Some u → p' ≠ p ∨ PX level va ≠ i →
    entry m' p' (PX level va) = entry (k_mem s) p' (PX level va)) as E.
  { intros p' u level Hp' [Hd | Hd].
    { apply entry_same_page; [by eapply Hs | apply PX_range]. }
    destruct (decide (p' = p)) as [-> |].
    { apply Hne; [apply PX_range | done]. }
    apply entry_same_page; [by eapply Hs | apply PX_range]. }
  unfold trans. cbv zeta. destruct (decide (root' = p ∧ PX 2 va = i)) as [[-> H2] | H2].
  { subst i. rewrite Hinv, Hv, Hpg, Hz by apply PX_range. by destruct (has_flag v _). }
  rewrite (E root' _ 2 Hr) by (by apply not_and_l).
  destruct (has_flag (entry (k_mem s) root' _) _) eqn:V2; [| done]. pose proof (mid_use _ _ _ _ _ Hok Hr V2) as Hm.
  set (p1 := PTE2PA (entry (k_mem s) root' (PX 2 va))) in *. clearbody p1.
  destruct (decide (p1 = p ∧ PX 1 va = i)) as [[-> H1] | H1].
  { subst i. rewrite Hinv, Hv, Hpg, Hz by apply PX_range. by destruct (has_flag v _). }
  rewrite (E p1 _ 1 Hm) by (by apply not_and_l).
  destruct (has_flag (entry (k_mem s) p1 _) _) eqn:V1; [| done].
  pose proof (vo_below _ _ _ _ Hok _ _ _ _ _ Hm eq_refl (PX_range _ _) V1) as Hl.
  eapply E; [exact Hl | left]. intros Heq. rewrite Heq, Hp in Hl. by simplify_eq.
Qed.
End translations.

(** ** walk *)

Section walk.
Context {L : Layout} (kpt : Z).

Lemma grows_refl new root pages l s : grows new root pages l s pages l s.
Proof. split; [done | by left | done | by left | by destruct s | done]. Qed.

Lemma grows_trans new root pages1 l1 s1 pages2 l2 s2 pages3 l3 s3 :
  grows new root pages1 l1 s1 pages2 l2 s2 → grows new root pages2 l2 s2 pages3 l3 s3 →
  grows new root pages1 l1 s1 pages3 l3 s3.
Proof.
  intros [P1 N1 B1 F1 O1 M1] [P2 N2 B2 F2 O2 M2]. split.
  - auto.
  - intros p u Hp. destruct (N2 p u Hp) as [H | [H ?]]; [by apply N1 | right]. auto.
  - auto.
  - intros p Hp. destruct (F1 p Hp) as [H | [u Hu]]; [by apply F2 | right; eauto].
  - unfold only_pages in *. rewrite O2, O1. by destruct s1.
  - intros a Ha Hf. rewrite M2, M1; [done | done | done | | auto].
    intros p q Hp. destruct (N1 _ _ Hp) as [H | [H _]]; [by eapply Ha | by apply Hf].
Qed.

Lemma grows_weaken (new new' : Z → puse → Prop) root pages l s pages' l' s' : (∀ p u, new p u → new' p u) →
  grows new root pages l s pages' l' s' → grows new' root pages l s pages' l' s'.
Proof.
  intros Hn [P N B F O M]. split; try done. intros p u Hp. destruct (N p u Hp) as [? | [? ?]]; auto.
Qed.

Lemma tables_grow_refl root pages l s : tables_grow root pages l s pages l s.
Proof. split; [apply grows_refl | done | done]. Qed.

Lemma tables_grow_trans root pages1 l1 s1 pages2 l2 s2 pages3 l3 s3 :
  tables_grow root pages1 l1 s1 pages2 l2 s2 → tables_grow root pages2 l2 s2 pages3 l3 s3 →
  tables_grow root pages1 l1 s1 pages3 l3 s3.
Proof.
  intros [G1 V1 T1] [G2 V2 T2]. pose proof (g_pages _ _ _ _ _ _ _ _ G1) as P1.
  split; [by eapply grows_trans | |].
  - intros p q i Hp Hi Hv. rewrite (V2 p q i); [by apply (V1 p q) | auto | done |]. by rewrite (V1 p q i).
  - intros root' va Hr. rewrite T2 by (by apply P1). by apply T1.
Qed.

Lemma link_linked pages l s root q q' p i pg m3 : vm_ok kpt pages l s →
  pages !! p = Some (Table root q) → below q i = Some q' → 0 ≤ i < 512 → pages !! pg = None →
  has_flag (entry (k_mem s) p i) PTE_V = false →
  (∀ p' u, pages !! p' = Some u → p' ≠ p → same_page p' (k_mem s) m3) →
  (∀ i', 0 ≤ i' < 512 → i' ≠ i → entry m3 p i' = entry (k_mem s) p i') →
  has_flag (entry m3 p i) PTE_V = true → PTE2PA (entry m3 p i) = pg →
  linked (<[pg := Table root q']> pages) m3.
Proof.
  intros Hok Hp Hq Hi Hnone Hinv Hs Hes HV HPA p' r q1 [[<- [= <- <-]] | [_ Hp']]%lookup_insert_Some Hq1.
  - exists p, q, i. by rewrite lookup_insert_ne by congruence.
  - destruct (vo_linked _ _ _ _ Hok _ _ _ Hp' Hq1) as (p1 & q2 & i1 & Hb & Hi1 & Hp1 & HV1 & HP1).
    exists p1, q2, i1. rewrite lookup_insert_ne by congruence.
    destruct (decide (p1 = p)) as [-> | Hd].
    + rewrite Hes by (done || congruence). done.
    + by rewrite (entry_same_page _ _ _ _ (Hs _ _ Hp1 Hd) Hi1).
Qed.

(** A free page becomes an empty table behind entry [i] of table [p]. *)
Lemma link_table pages l s root q q' p i pg s1 m2 m3 : vm_ok kpt pages (pg :: l) s →
  pages !! p = Some (Table root q) → below q i = Some q' → 0 ≤ i < 512 →
  has_flag (entry (k_mem s) p i) PTE_V = false →
  vm_ok kpt pages l s1 → only_pages s s1 → same_outside pg (k_mem s) (k_mem s1) → page_ok pg → pg ∉ l →
  pages !! pg = None →
  same_outside pg (k_mem s1) m2 → (∀ i', 0 ≤ i' < 512 → entry m2 pg i' = 0) →
  entry_set p i (Z.lor (PA2PTE pg) PTE_V) m2 m3 →
  vm_ok kpt (<[pg := Table root q']> pages) l (s1 <| k_mem := m3 |>) ∧
  tables_grow root pages (pg :: l) s (<[pg := Table root q']> pages) l (s1 <| k_mem := m3 |>).
Proof.
  intros Hok Hp Hq Hi Hinv Hok1 Hon Ho1 Hpg Hin Hnone Ho2 Hz Hset.
  destruct (table_entry pg Hpg) as (HV & HPA & _).
  assert (p ≠ pg) as Hne by congruence. pose proof (vo_page _ _ _ _ Hok _ _ Hp) as Hpok.
  assert (q' ≠ Root) as Hq' by (by intros ->; destruct q).
  assert (∀ p' u, pages !! p' = Some u → same_page p' (k_mem s) m2) as Hs2.
  { intros p' u Hp'. apply (same_page_outside pg); [done | by eapply vm_page | congruence |].
    by eapply same_outside_trans. }
  assert (∀ p' u, pages !! p' = Some u → p' ≠ p → same_page p' (k_mem s) m3) as Hs3.
  { intros p' u Hp' Hd a Ha. rewrite <-(Hs2 p' u Hp' a Ha). revert a Ha.
    apply (same_page_outside p); [done | by eapply vm_page | done | apply Hset]. }
  assert (∀ i', 0 ≤ i' < 512 → i' ≠ i → entry m3 p i' = entry (k_mem s) p i') as Hes.
  { intros i' Hi' Hd. rewrite (es_ne _ _ _ _ _ Hset) by done. eapply entry_same_page; [by eapply Hs2 | done]. }
  assert (∀ i', 0 ≤ i' < 512 → entry m3 pg i' = 0) as Hz3.
  { intros i' Hi'. rewrite (entry_set_ne _ _ _ _ _ _ _ Hset) by (done || congruence). by apply Hz. }
  split.
  - split; [| by apply (link_linked pages (pg :: l) s root q q' p i pg m3); rewrite ?(es_at _ _ _ _ _ Hset)].
    assert (vm_base kpt (<[pg := Table root q']> pages) l (s1 <| k_mem := m2 |>)) as Hok2.
    { apply vm_base_table; [| done..]. apply (vm_ok_page _ _ _ _ pg); [done.. | | done]. congruence. }
    change (s1 <| k_mem := m3 |>) with (s1 <| k_mem := m2 |> <| k_mem := m3 |>).
    eapply vm_base_entry; [exact Hok2 | | exact Hi | exact Hset | |].
    + by rewrite lookup_insert_ne.
    + intros q1 Hq1 _. rewrite HPA, lookup_insert_eq. congruence.
    + intros i' j' ->. done.
  - split; simpl; [split; simpl |..].
    + intros p' u Hp'. rewrite lookup_insert_ne by congruence. done.
    + intros p' u [[<- <-] | [_ Hu]]%lookup_insert_Some; [right | by left]. split; [left | by exists q'].
    + intros p' Hp'. by right.
    + intros p' [-> | Hp']%elem_of_cons; [right; rewrite lookup_insert_eq; done | by left].
    + unfold only_pages in *. rewrite Hon. by destruct s.
    + intros a Ha Hf. pose proof (Hf pg ltac:(left)) as Ha1. pose proof (Ha p q Hp) as Ha2.
      by rewrite (es_out _ _ _ _ _ Hset), Ho2, Ho1.
    + intros p' q1 i' Hp' Hi' Hv'. destruct (decide (p' = p)) as [-> | Hd].
      * apply Hes; [done |]. congruence.
      * apply entry_same_page; [by eapply Hs3 | done].
    + intros root' va Hr.
      exact (trans_new_table kpt _ _ _ _ _ _ _ _ _ _ _ _ _ Hok Hr Hp Hq Hinv Hs3 Hes (es_at _ _ _ _ _ Hset) HPA Hz3).
Qed.

(** One level of [walk], allowed to allocate. *)
Lemma walk_level_alloc pages l s root q q' p va level : vm_ok kpt pages l s → LkKmem ∉ k_held s →
  pages !! p = Some (Table root q) → below q (PX level va) = Some q' →
  ∃ r s' pages' l', walk_level va 1 level p s = Done r s' ∧ vm_ok kpt pages' l' s' ∧
    tables_grow root pages l s pages' l' s' ∧
    match r with
    | None => l' = []
    | Some pt => has_flag (entry (k_mem s') p (PX level va)) PTE_V = true ∧
        PTE2PA (entry (k_mem s') p (PX level va)) = pt
    end.
Proof.
  intros Hok Hlk Hp Hq. pose proof (PX_range level va) as Hi. unfold walk_level, kload64.
  rewrite bind_unfold. cbn [gets]. change (load64 _ _) with (entry (k_mem s) p (PX level va)).
  destruct (has_flag _ _) eqn:HV.
  { do 4 eexists. split; [reflexivity |]. split; [done |]. split; [apply tables_grow_refl | done]. }
  cbn [Z.eqb]. pose proof (kalloc_vm kpt pages l s Hok Hlk) as Ha. destruct l as [|pg l'].
  { erewrite bind_done by exact Ha. do 4 eexists. split; [reflexivity |]. split; [done |].
    split; [apply tables_grow_refl | done]. }
  destruct Ha as (s1 & E & Hok1 & Hon & Ho & Hpg & Hin & Hnone). erewrite bind_done by exact E.
  rewrite (proj2 (Z.eqb_neq pg 0)) by (destruct Hpg; lia).
  erewrite bind_done by apply kmemset_done. destruct (table_entry pg Hpg) as (HV' & HPA & Hrg).
  pose proof (entry_zero_page (k_mem s1) pg) as Hz. pose proof (same_outside_memset (k_mem s1) pg 0) as Ho2.
  revert Hz Ho2. generalize (memset (k_mem s1) pg 0 (Z.to_nat PGSIZE)). intros m2 Hz Ho2.
  pose proof (entry_set_store p (PX level va) _ m2 Hrg Hi) as Hset.
  destruct (link_table _ _ _ _ _ _ _ _ _ _ _ _ Hok Hp Hq Hi HV Hok1 Hon Ho Hpg Hin Hnone Ho2 Hz Hset) as [Hok3 Hg].
  do 4 eexists. split; [reflexivity |]. split; [exact Hok3 |]. split; [exact Hg |].
  change (k_mem _) with (store64 m2 (p + 8 * PX level va) (Z.lor (PA2PTE pg) PTE_V)).
  by rewrite (es_at _ _ _ _ _ Hset).
Qed.

Lemma only_pages_held s s' : only_pages s s' → k_held s' = k_held s.
Proof. unfold only_pages. by intros ->. Qed.

(** [walk] with allocation: the entry of the address, or out of memory. *)
Lemma walk_alloc pages l s root va : vm_ok kpt pages l s → LkKmem ∉ k_held s → is_root pages root → va < MAXVA →
  ∃ r s' pages' l', walk root va 1 s = Done r s' ∧ vm_ok kpt pages' l' s' ∧
    tables_grow root pages l s pages' l' s' ∧
    match r with
    | None => l' = []
    | Some pte => ∃ p, leaf_page (k_mem s') root va = Some p ∧ pte = p + 8 * PX 0 va
    end.
Proof.
  intros Hok Hlk Hr Hva. unfold walk. rewrite (proj2 (Z.leb_gt _ _) Hva).
  destruct (walk_level_alloc pages l s root Root _ root va 2 Hok Hlk Hr eq_refl)
    as (r1 & s1 & pages1 & l1 & E1 & Hok1 & Hg1 & H1).
  erewrite bind_done by exact E1. destruct r1 as [pt1|]; [| by do 4 eexists].
  destruct H1 as [HV1 HP1]. pose proof (g_pages _ _ _ _ _ _ _ _ (tg_grows _ _ _ _ _ _ _ Hg1) _ _ Hr) as Hr1.
  pose proof (mid_use _ _ _ _ _ _ Hok1 Hr1 HV1) as Hm. rewrite HP1 in Hm.
  destruct (walk_level_alloc pages1 l1 s1 root _ _ pt1 va 1 Hok1
      ltac:(by rewrite (only_pages_held s s1) by apply Hg1) Hm eq_refl)
    as (r2 & s2 & pages2 & l2 & E2 & Hok2 & Hg2 & H2).
  pose proof (tables_grow_trans _ _ _ _ _ _ _ _ _ _ Hg1 Hg2) as Hg.
  erewrite bind_done by exact E2. destruct r2 as [pt0|]; [| by do 4 eexists].
  destruct H2 as [HV2 HP2]. do 4 eexists. split; [reflexivity |]. split; [done |]. split; [done |].
  exists pt0. split; [| done]. unfold leaf_page.
  rewrite (tg_valid _ _ _ _ _ _ _ Hg2 _ _ _ Hr1 (PX_range _ _) HV1), HV1, HP1. cbv zeta.
  by rewrite HV2, HP2.
Qed.
End walk.

(** ** Addresses and entries *)

Section addresses.
Context {L : Layout} (kpt : Z).

Lemma PX_spec level va : 0 ≤ level → PX level va = va / PGSIZE / 512 ^ level mod 512.
Proof.
  intros Hl. unfold PX, PXMASK, PXSHIFT, PGSHIFT. change 0x1FF with (Z.ones 9).
  rewrite Z.land_ones, Z.shiftr_div_pow2 by lia. f_equal.
  change 512 with (2 ^ 9). change PGSIZE with (2 ^ 12). rewrite <-Z.pow_mul_r, Z.pow_add_r by lia.
  by rewrite Z.div_div by (done || apply Z.pow_pos_nonneg; lia).
Qed.

Lemma PX_page va va' level : 0 ≤ level → va / PGSIZE = va' / PGSIZE → PX level va = PX level va'.
Proof. intros Hl H. by rewrite !PX_spec, H. Qed.

Lemma trans_page m root va va' : va / PGSIZE = va' / PGSIZE → trans m root va = trans m root va'.
Proof. intros H. unfold trans. by rewrite !(PX_page va va') by done. Qed.

(** Pages by their numbers. *)
Lemma page_number va a : a mod PGSIZE = 0 → a ≤ va < a + PGSIZE ↔ va / PGSIZE = a / PGSIZE.
Proof.
  intros Ha. apply Z.mod_divide in Ha as [x ->]; [| done]. rewrite Z.div_mul by done.
  pose proof (Z.div_mod va PGSIZE ltac:(done)). pose proof (Z.mod_pos_bound va PGSIZE ltac:(done)).
  unfold_consts. split; lia.
Qed.

Lemma va_of_PX va : 0 ≤ va < MAXVA → va_of (PX 2 va) (PX 1 va) (PX 0 va) = PGSIZE * (va / PGSIZE).
Proof.
  intros [H0 H]. unfold va_of. rewrite !PX_spec by lia. assert (MAXVA = PGSIZE * 512 * 512 * 256) as E by done.
  assert (0 ≤ va / PGSIZE < 512 * 512 * 256) as Hn.
  { split; [by apply Z.div_pos | apply Z.div_lt_upper_bound; [done | lia]]. }
  generalize dependent (va / PGSIZE). intros n Hn. rewrite (Z.mul_comm PGSIZE). f_equal.
  change (512 ^ 2) with (512 * 512). change (512 ^ 1) with 512. change (512 ^ 0) with 1.
  rewrite <-Z.div_div, Z.div_1_r by lia.
  pose proof (Z.div_mod n 512). pose proof (Z.div_mod (n / 512) 512). pose proof (Z.mod_pos_bound n 512).
  pose proof (Z.mod_pos_bound (n / 512) 512). rewrite (Z.mod_small (n / 512 / 512)) by lia. lia.
Qed.

(** The flags of an entry are its low ten bits. *)
Lemma has_flag_FLAGS v f : Z.land 0x3FF f = f → has_flag v f = has_flag (PTE_FLAGS v) f.
Proof. intros Hf. unfold has_flag, PTE_FLAGS. by rewrite <-Z.land_assoc, Hf. Qed.

(** The entry [mappages] stores. *)
Lemma leaf_entry pa perm : 0 ≤ pa < 2 ^ 56 → pa mod PGSIZE = 0 → 0 ≤ perm < 2 ^ 10 →
  let v := Z.lor (Z.lor (PA2PTE pa) perm) PTE_V in
  has_flag v PTE_V = true ∧ PTE2PA v = pa ∧ PTE_FLAGS v = Z.lor perm PTE_V ∧
  has_flag v PTE_U = has_flag perm PTE_U ∧ 0 ≤ v < 2 ^ 64.
Proof.
  intros Hpa Hal Hperm v. unfold v. rewrite <-Z.lor_assoc. assert (0 ≤ Z.lor perm PTE_V < 2 ^ 10) as Hf by (apply lor_range; done).
  destruct (PTE2PA_PA2PTE pa (Z.lor perm PTE_V) Hpa Hal Hf) as [H1 H2].
  split; [| split; [done | split; [done | split]]].
  - rewrite has_flag_FLAGS, H2 by done. unfold has_flag. rewrite Z.land_lor_distr_l. change (Z.land PTE_V PTE_V) with 1.
    apply negb_true_iff, Z.eqb_neq. intros E%Z.lor_eq_0_iff. lia.
  - rewrite has_flag_FLAGS, H2 by done. unfold has_flag. rewrite Z.land_lor_distr_l. change (Z.land PTE_V PTE_U) with 0.
    by rewrite Z.lor_0_r.
  - apply lor_range; [done | apply u64_range | lia].
Qed.

(** A leaf entry is stored: the translation of its page changes. *)
Lemma trans_set_leaf pages l s m' root va p v root' va' : vm_ok kpt pages l s → is_root pages root →
  is_root pages root' → leaf_page (k_mem s) root va = Some p → 0 ≤ va < MAXVA → 0 ≤ va' < MAXVA →
  entry_set p (PX 0 va) v (k_mem s) m' →
  trans m' root' va' =
    if decide (root' = root ∧ va' / PGSIZE = va / PGSIZE) then v else trans (k_mem s) root' va'.
Proof.
  intros Hok Hr Hr' Hp Hva Hva' Hset. pose proof (leaf_page_use _ _ _ _ _ _ _ Hok Hr Hp) as Hu.
  destruct (trans_set _ _ _ _ _ _ _ _ _ _ _ root' va' Hok Hr' Hu Hset) as [_ ->].
  case_decide as H1; case_decide as H2; [done | | | done].
  - destruct H2. destruct H1 as [Hp' H0]. pose proof (leaf_page_use _ _ _ _ _ _ _ Hok Hr' Hp') as Hu'.
    rewrite Hu in Hu'. simplify_eq. split; [done |].
    pose proof (va_of_PX va Hva) as E. pose proof (va_of_PX va' Hva') as E'.
    assert (PGSIZE * (va / PGSIZE) = PGSIZE * (va' / PGSIZE)) by congruence. unfold_consts. lia.
  - destruct H1, H2 as [-> H2]. split; [| by apply PX_page].
    rewrite <-Hp. unfold leaf_page. by rewrite (PX_page va' va 2), (PX_page va' va 1) by done.
Qed.
End addresses.

(** ** mappages *)

Section mappages.
Context {L : Layout} (kpt : Z).

(** [walk] to an entry and a store to it. *)
Lemma walk_store pages l s root va : vm_ok kpt pages l s → LkKmem ∉ k_held s → is_root pages root →
  0 ≤ va < MAXVA →
  ∃ r s1 pages' l', walk root va 1 s = Done r s1 ∧
    match r with
    | None => vm_ok kpt pages' l' s1 ∧ tables_grow root pages l s pages' l' s1 ∧ l' = []
    | Some pte => load64 (k_mem s1) pte = trans (k_mem s) root va ∧
        ∀ v, 0 ≤ v < 2 ^ 64 →
          (root ≠ kpt → has_flag v PTE_V = true → has_flag v PTE_U = true ∨ PGSIZE * (va / PGSIZE) < TRAPFRAME →
             pages !! PTE2PA v = Some (Data root (PGSIZE * (va / PGSIZE)))) →
          let s' := s1 <| k_mem ::= λ m, store64 m pte v |> in
          vm_ok kpt pages' l' s' ∧ grows (table_of root) root pages l s pages' l' s' ∧
          ∀ root' va', is_root pages root' → 0 ≤ va' < MAXVA →
            trans (k_mem s') root' va' =
              if decide (root' = root ∧ va' / PGSIZE = va / PGSIZE) then v else trans (k_mem s) root' va'
    end.
Proof.
  intros Hok Hlk Hr Hva. destruct (walk_alloc kpt pages l s root va Hok Hlk Hr) as (r & s1 & pages' & l' & E & Hok1 & Hg & Hm); [lia |].
  exists r, s1, pages', l'. split; [done |]. destruct r as [pte|]; [| done]. destruct Hm as (p & Hp & ->).
  destruct Hg as [Hg _ Ht]. pose proof (g_pages _ _ _ _ _ _ _ _ Hg) as Hmono. pose proof (Hmono _ _ Hr) as Hr1.
  pose proof (leaf_page_use _ _ _ _ _ _ _ Hok1 Hr1 Hp) as Hu. split.
  { rewrite <-Ht, leaf_page_trans, Hp by done. done. }
  intros v Hv Hleaf. pose proof (entry_set_store p (PX 0 va) v (k_mem s1) Hv (PX_range _ _)) as Hset.
  set (m' := store64 (k_mem s1) (p + 8 * PX 0 va) v) in *. cbv zeta.
  change (s1 <| k_mem ::= λ m, store64 m (p + 8 * PX 0 va) v |>) with (s1 <| k_mem := m' |>).
  change (k_mem (s1 <| k_mem := m' |>)) with m'. clearbody m'. split; [| split].
  - eapply vm_ok_entry; [exact Hok1 | exact Hu | apply PX_range | exact Hset |].
    intros Hk HV. rewrite va_of_PX by done. intros HU. by apply Hmono, Hleaf.
  - eapply grows_trans; [exact Hg |]. split; [done | by left | done | by left | by destruct s1 |].
    intros a Ha _. apply (es_out _ _ _ _ _ Hset). by eapply Ha.
  - intros root' va' Hr' Hva'. rewrite (trans_set_leaf _ _ _ _ _ _ _ _ _ root' va' Hok1 Hr1 (Hmono _ _ Hr') Hp Hva Hva' Hset).
    by rewrite Ht.
Qed.

Lemma trans_mapped_0 pages m root va pa perm : trans_mapped pages m m root va 0 pa perm.
Proof. intros root' va' _ _. rewrite decide_False; [done | lia]. Qed.

Lemma page_div va n : va mod PGSIZE = 0 → (va + n * PGSIZE) / PGSIZE = va / PGSIZE + n.
Proof. intros _. by rewrite Z.div_add. Qed.

(** One more page. *)
Lemma trans_mapped_S pages m m1 m' root va n pa perm : 0 ≤ n → va mod PGSIZE = 0 →
  trans_mapped pages m m1 root va n pa perm →
  (∀ root' va', is_root pages root' → 0 ≤ va' < MAXVA →
     trans m' root' va' =
       if decide (root' = root ∧ va' / PGSIZE = (va + n * PGSIZE) / PGSIZE)
       then Z.lor (Z.lor (PA2PTE (pa + n * PGSIZE)) perm) PTE_V else trans m1 root' va') →
  trans_mapped pages m m' root va (n + 1) pa perm.
Proof.
  intros Hn Hal H1 H' root' va' Hr Hva'. rewrite H' by done. rewrite page_div by done.
  apply Z.mod_divide in Hal as [x Hx]; [| done]. subst va. rewrite Z.div_mul by done.
  pose proof (Z.div_mod va' PGSIZE ltac:(done)). pose proof (Z.mod_pos_bound va' PGSIZE ltac:(done)).
  assert (x * PGSIZE + n * PGSIZE ≤ va' < x * PGSIZE + (n + 1) * PGSIZE ↔ va' / PGSIZE = x + n) as Hiff.
  { unfold_consts. split; lia. }
  case_decide as Hd.
  - destruct Hd as [-> Hd]. rewrite decide_True by (split; [done | unfold_consts; lia]). do 3 f_equal.
    replace (va' - x * PGSIZE) with (va' + (- x) * PGSIZE) by lia. rewrite Z.div_add by done. lia.
  - rewrite H1 by done. case_decide as Hd1; case_decide as Hd2; [done | | | done]; destruct Hd; unfold_consts; lia.
Qed.
Lemma grows_held new root pages l s pages' l' s' : grows new root pages l s pages' l' s' → k_held s' = k_held s.
Proof. intros [_ _ _ _ H _]. by apply only_pages_held. Qed.

(** A round of the loop of [mappages]. *)
Lemma mappages_round pages l s root va n N pa perm pages1 l1 s1 : mappable kpt pages s root va N pa perm →
  0 ≤ n < N → mapped kpt pages l s root va n pa perm pages1 l1 s1 →
  ∃ r s2 pages2 l2, walk root (va + n * PGSIZE) 1 s1 = Done r s2 ∧
    match r with
    | None => mapped kpt pages l s root va n pa perm pages2 l2 s2 ∧ l2 = []
    | Some pte => has_flag (load64 (k_mem s2) pte) PTE_V = false ∧
        mapped kpt pages l s root va (n + 1) pa perm pages2 l2
          (s2 <| k_mem ::= λ m, store64 m pte (Z.lor (Z.lor (PA2PTE (pa + n * PGSIZE)) perm) PTE_V) |>)
    end.
Proof.
  intros [Hlk Hr (Hal & Hva & HN) (Hpal & Hpa & HpaN) Hperm Hfree Hdata] Hn (Hok1 & Hg1 & Ht1).
  pose proof (g_pages _ _ _ _ _ _ _ _ Hg1) as Hmono. pose proof (Hmono _ _ Hr) as Hr1.
  destruct (walk_store pages1 l1 s1 root (va + n * PGSIZE) Hok1) as (r & s2 & pages2 & l2 & E & H); [| done | |].
  { by rewrite (grows_held _ _ _ _ _ _ _ _ Hg1). }
  { unfold_consts; lia. }
  exists r, s2, pages2, l2. split; [done |]. destruct r as [pte|].
  2: { destruct H as (Hok2 & [Hg2 _ Ht2] & ->). split; [| done]. split; [done |]. split; [by eapply grows_trans |].
       intros root' va' Hr' Hva'. rewrite Ht2 by (by apply Hmono). by apply Ht1. }
  destruct H as [Hload H]. split.
  { rewrite Hload, Ht1, decide_False by (done || unfold_consts; lia). apply Hfree. unfold_consts; lia. }
  assert (0 ≤ pa + n * PGSIZE < 2 ^ 56) as Hpan by (unfold_consts; lia).
  assert ((pa + n * PGSIZE) mod PGSIZE = 0) as Hpal' by (by rewrite Z.mod_add).
  destruct (leaf_entry (pa + n * PGSIZE) perm Hpan Hpal' Hperm) as (HV & HPA & _ & HU & Hrg).
  assert (PGSIZE * ((va + n * PGSIZE) / PGSIZE) = va + n * PGSIZE) as Hdiv.
  { rewrite <-Z_div_exact_full_2; [done | done | by rewrite Z.mod_add]. }
  destruct (H _ Hrg) as (Hok2 & Hg2 & Ht2).
  { intros Hk _. rewrite HPA, HU, Hdiv. intros HUT. apply Hmono. by apply Hdata. }
  split; [exact Hok2 |]. split; [by eapply grows_trans |].
  eapply trans_mapped_S; [lia | done | exact Ht1 |].
  intros root' va' Hr' Hva'. by rewrite (Ht2 root' va') by (by apply Hmono || done).
Qed.
Lemma mappages_done pages l s root va size pa perm : vm_ok kpt pages l s → size mod PGSIZE = 0 → 0 < size →
  mappable kpt pages s root va (size / PGSIZE) pa perm →
  ∃ r s' n pages' l', mappages root va size pa perm s = Done r s' ∧
    mapped kpt pages l s root va n pa perm pages' l' s' ∧
    (r = 0 ∧ n = size / PGSIZE ∨ r = -1 ∧ 0 ≤ n < size / PGSIZE ∧ l' = []).
Proof.
  intros Hok Hsal Hsz Hm. pose proof (mp_va _ _ _ _ _ _ _ _ Hm) as (Hal & Hva & HN).
  pose proof (mp_pa _ _ _ _ _ _ _ _ Hm) as (_ & Hpa & HpaN).
  set (N := size / PGSIZE) in *. assert (size = N * PGSIZE) as Esz.
  { unfold N. rewrite Z.mul_comm. by apply Z_div_exact_full_2. }
  assert (0 < N) as HN0 by (unfold_consts; lia). assert (MAXVA < 2 ^ 56) as Hmax by done.
  assert (va + size < 2 ^ 56) as Hlast by lia. unfold mappages.
  rewrite Hal, Hsal. cbn [Z.eqb negb]. rewrite (proj2 (Z.eqb_neq size 0)) by lia. fold N.
  rewrite (u64_small (va + size - PGSIZE)) by (unfold_consts; lia). clearbody N.
  match goal with |- ∃ r s' n pages' l', ?f s = Done r s' ∧ _ =>
    cut (wp f (λ r s', ∃ n pages' l', mapped kpt pages l s root va n pa perm pages' l' s' ∧
      (r = 0 ∧ n = N ∨ r = -1 ∧ 0 ≤ n < N ∧ l' = [])) s) end.
  { intros (r & s' & E & n & pages' & l' & H)%wp_elim. by exists r, s', n, pages', l'. }
  eapply (wp_loop (λ '(a, pa') t, ∃ n pages1 l1, 0 ≤ n < N ∧ a = va + n * PGSIZE ∧ pa' = pa + n * PGSIZE ∧
      mapped kpt pages l s root va n pa perm pages1 l1 t) (λ '(a, _), Z.to_nat ((va + size - PGSIZE - a) / PGSIZE))).
  3: { replace (va + size - PGSIZE - va) with ((N - 1) * PGSIZE) by lia. rewrite Z.div_mul by done. lia. }
  2: { exists 0, pages, l. do 3 (split; [lia |]). split; [done |]. split; [apply grows_refl | apply trans_mapped_0]. }
  intros [a pa'] t (n & pages1 & l1 & Hn & -> & -> & Hmap).
  destruct (mappages_round _ _ _ _ _ _ _ _ _ _ _ _ Hm Hn Hmap) as (r & s2 & pages2 & l2 & E & H).
  eapply wp_bind_done; [exact E |]. destruct r as [pte|].
  2: { apply wp_ret. destruct H as [H ->]. eauto 10. }
  destruct H as [Hload Hmap2]. unfold kload64. apply wp_bind, wp_gets. rewrite Hload.
  unfold kstore64, upd_mem. apply wp_bind, wp_modify. destruct (Z.eqb_spec (va + n * PGSIZE) (va + size - PGSIZE)).
  - apply wp_ret. replace (n + 1) with N in Hmap2 by (unfold_consts; lia). eauto 10.
  - apply wp_ret. rewrite !u64_small by (unfold_consts; lia). split.
    + exists (n + 1), pages2, l2. do 3 (split; [unfold_consts; lia |]). done.
    + replace (va + size - PGSIZE - (va + n * PGSIZE)) with ((N - 1 - n) * PGSIZE) by lia.
      replace (va + size - PGSIZE - (va + n * PGSIZE + PGSIZE)) with ((N - 2 - n) * PGSIZE) by lia.
      rewrite !Z.div_mul by done. unfold_consts. lia.
Qed.
End mappages.

(** ** Uniqueness *)

Section uniqueness.
Context {L : Layout} (kpt : Z).

(** A place in a tree is taken by one page. *)
Lemma mid_unique pages l s root i p p' : vm_ok kpt pages l s →
  pages !! p = Some (Table root (Mid i)) → pages !! p' = Some (Table root (Mid i)) → p = p' ∧ 0 ≤ i < 512.
Proof.
  intros Hok H1 H2. destruct (vo_linked _ _ _ _ Hok _ _ _ H1) as (r1 & q1 & i1 & Hb1 & Hi1 & Hr1 & _ & <-); [done |].
  destruct (vo_linked _ _ _ _ Hok _ _ _ H2) as (r2 & q2 & i2 & Hb2 & Hi2 & Hr2 & _ & <-); [done |].
  destruct q1; try done; destruct q2; try done. injection Hb1 as <-. injection Hb2 as <-. apply (vo_root _ _ _ _ Hok) in Hr1 as ->, Hr2 as ->. done.
Qed.

Lemma low_unique pages l s root i j p p' : vm_ok kpt pages l s →
  pages !! p = Some (Table root (Low i j)) → pages !! p' = Some (Table root (Low i j)) →
  p = p' ∧ 0 ≤ i < 512 ∧ 0 ≤ j < 512.
Proof.
  intros Hok H1 H2. destruct (vo_linked _ _ _ _ Hok _ _ _ H1) as (r1 & q1 & i1 & Hb1 & Hi1 & Hr1 & _ & <-); [done |].
  destruct (vo_linked _ _ _ _ Hok _ _ _ H2) as (r2 & q2 & i2 & Hb2 & Hi2 & Hr2 & _ & <-); [done |].
  destruct q1; try done; destruct q2; try done. injection Hb1 as <- <-. injection Hb2 as <- <-. destruct (mid_unique _ _ _ _ _ _ _ Hok Hr1 Hr2) as [-> ?]. done.
Qed.

Lemma va_of_inj i j k i' j' k' : 0 ≤ i < 512 → 0 ≤ j < 512 → 0 ≤ k < 512 → 0 ≤ i' < 512 → 0 ≤ j' < 512 →
  0 ≤ k' < 512 → va_of i j k = va_of i' j' k' → i = i' ∧ j = j' ∧ k = k'.
Proof.
  unfold va_of. intros Hi Hj Hk Hi' Hj' Hk' E. apply Z.mul_reg_r in E; [| done].
  assert (i * 512 + j = i' * 512 + j') by lia. lia.
Qed.

(** The pages a process maps belong to it. *)
Lemma trans_data pages l s root va : vm_ok kpt pages l s → is_root pages root → root ≠ kpt → 0 ≤ va < MAXVA →
  has_flag (trans (k_mem s) root va) PTE_V = true →
  has_flag (trans (k_mem s) root va) PTE_U = true ∨ PGSIZE * (va / PGSIZE) < TRAPFRAME →
  pages !! PTE2PA (trans (k_mem s) root va) = Some (Data root (PGSIZE * (va / PGSIZE))).
Proof.
  intros Hok Hr Hk Hva. rewrite leaf_page_trans. destruct (leaf_page _ _ _) as [p|] eqn:Hp; [| done].
  pose proof (leaf_page_use _ _ _ _ _ _ _ Hok Hr Hp) as Hu. rewrite <-va_of_PX by done.
  apply (vo_leaf _ _ _ _ Hok _ _ _ _ _ Hu (PX_range _ _) Hk).
Qed.
End uniqueness.
