(* ===== verification/UvmSpec.v ===== *)
(** * Operations on address spaces (kernel/vm.c)

    [uvmunmap], [uvmcopy] and the copies between kernel and user memory, over the
    page tables of VmSpec.v. *)

From S2P Require Import Prelude Machine Kstate Logic Strings Sched Kalloc Vm VmSpec.

(** The pages [uvmunmap] gives back, the last one first. *)
Fixpoint freed (m : gmap Z Z) (root va : Z) (n : nat) : list Z :=
  match n with
  | O => []
  | S n =>
      let v := trans m root (va + Z.of_nat n * PGSIZE) in
      if has_flag v PTE_V then PTE2PA v :: freed m root va n else freed m root va n
  end.

(** An entry that is cleared, if it was in use. *)
Definition cleared (b : bool) (v : Z) : Z := if b && has_flag v PTE_V then 0 else v.

(** What a call of [uvmunmap] that frees has done after [n] pages. *)
Record unmapped {L : Layout} (kpt : Z) (pages : gmap Z puse) (l : list Z) (s : kstate) (root va : Z) (n : nat)
    (s' : kstate) : Prop := {
  um_ok : vm_ok kpt (foldr delete pages (freed (k_mem s) root va n)) (freed (k_mem s) root va n ++ l) s';
  um_only : only_pages s s';
  um_trans : ∀ root' va', is_root pages root' → 0 ≤ va' < MAXVA →
    trans (k_mem s') root' va' =
      cleared (bool_decide (root' = root ∧ va ≤ va' < va + Z.of_nat n * PGSIZE)) (trans (k_mem s) root' va');
  um_mem : ∀ a, (∀ p q, pages !! p = Some (Table root q) → a < p ∨ p + PGSIZE ≤ a) →
    (∀ p, p ∈ freed (k_mem s) root va n → a < p ∨ p + PGSIZE ≤ a) → mread (k_mem s') a = mread (k_mem s) a;
  um_data : ∀ p, p ∈ freed (k_mem s) root va n → ∃ va', pages !! p = Some (Data root va');
}.

(** One round of the loop of [uvmunmap]. *)
Definition unmap_round {L : Layout} (pagetable a do_free : Z) : K unit :=
  pte ← walk pagetable a 0;
  match pte with
  | None => ret tt
  | Some pte =>
      v ← kload64 pte;
      if negb (has_flag v PTE_V) then ret tt
      else
        (if negb (do_free =? 0) then kfree (PTE2PA v) else ret tt);;
        kstore64 pte 0
  end.

(** ** uvmunmap *)

Section uvmunmap.
Context {L : Layout} (kpt : Z).

(** The lowest table of a place is the one the walk of its addresses reaches. *)
Lemma leaf_page_linked pages l s root p va : vm_ok kpt pages l s → is_root pages root →
  pages !! p = Some (Table root (Low (PX 2 va) (PX 1 va))) → leaf_page (k_mem s) root va = Some p.
Proof.
  intros Hok Hr Hp.
  destruct (vo_linked _ _ _ _ Hok _ _ _ Hp) as (p1 & q1 & i1 & Hb1 & Hi1 & Hp1 & HV1 & HP1); [done |].
  destruct q1; [done | | done]. injection Hb1 as -> ->.
  destruct (vo_linked _ _ _ _ Hok _ _ _ Hp1) as (p2 & q2 & i2 & Hb2 & Hi2 & Hp2 & HV2 & HP2); [done |].
  destruct q2; [| done..]. injection Hb2 as ->. apply (vo_root _ _ _ _ Hok) in Hp2 as ->.
  unfold leaf_page. by rewrite HV2, HP2, HV1, HP1.
Qed.

(** Only the entry of its address can lead to a data page. *)
Lemma vm_ok_forget pages l s root va pa : vm_ok kpt pages l s → is_root pages root → 0 ≤ va < MAXVA →
  va mod PGSIZE = 0 → pages !! pa = Some (Data root va) →
  has_flag (trans (k_mem s) root va) PTE_V = false → vm_ok kpt (delete pa pages) l s.
Proof.
  intros Hok Hr Hva Hal Hpa HV. split; [split |].
  - apply Hok.
  - intros p' Hp'. apply lookup_delete_None. right. by apply (vo_notfree _ _ _ _ Hok).
  - intros p' u [_ Hp']%lookup_delete_Some. by eapply vm_page.
  - intros p' r [_ Hp']%lookup_delete_Some. by apply (vo_root _ _ _ _ Hok).
  - intros p' r q q' i' [Hd Hp']%lookup_delete_Some Hq Hi' HV'.
    pose proof (vo_below _ _ _ _ Hok _ _ _ _ _ Hp' Hq Hi' HV') as Ht.
    apply lookup_delete_Some. split; [congruence | done].
  - intros p' r i' j' k' [Hd Hp']%lookup_delete_Some Hk' Hrk HV' HU.
    pose proof (vo_leaf _ _ _ _ Hok _ _ _ _ _ Hp' Hk' Hrk HV' HU) as Ht.
    apply lookup_delete_Some. split; [| done]. intros Heq. rewrite <-Heq, Hpa in Ht. injection Ht as <- Eva.
    destruct (low_unique _ _ _ _ _ _ _ _ _ Hok Hp' Hp') as (_ & Hi' & Hj').
    assert (va_of (PX 2 va) (PX 1 va) (PX 0 va) = va) as E.
    { rewrite va_of_PX by done. by rewrite <-Z_div_exact_full_2. }
    rewrite <-E in Eva. destruct (va_of_inj _ _ _ _ _ _ (PX_range 2 va) (PX_range 1 va) (PX_range 0 va) Hi' Hj' Hk' Eva)
      as (<- & <- & <-).
    rewrite leaf_page_trans, (leaf_page_linked _ _ _ _ _ _ Hok Hr Hp') in HV. congruence.
  - intros p' r q' [Hd Hp']%lookup_delete_Some Hq'.
    destruct (vo_linked _ _ _ _ Hok _ _ _ Hp' Hq') as (p1 & q1 & i1 & Hb & Hi & Hp1 & HV').
    exists p1, q1, i1. by rewrite lookup_delete_ne by congruence.
Qed.

(** A data page that is no longer mapped goes to the free list. *)
Lemma vm_ok_give_back pages l s root va pa s' : vm_ok kpt pages l s → is_root pages root → 0 ≤ va < MAXVA →
  va mod PGSIZE = 0 → pages !! pa = Some (Data root va) →
  has_flag (trans (k_mem s) root va) PTE_V = false →
  free_pages (pa :: l) s' → k_mem s' = k_mem s → vm_ok kpt (delete pa pages) (pa :: l) s'.
Proof.
  intros Hok Hr Hva Hal Hpa HV Hf Hm. apply (vm_ok_free _ _ l s); [by eapply vm_ok_forget | done | |].
  - intros p' [-> | Hp']%elem_of_cons; [apply lookup_delete_eq |]. apply lookup_delete_None. right.
    by apply (vo_notfree _ _ _ _ Hok).
  - intros p' r q _. by rewrite Hm.
Qed.

Lemma kfree_unmapped pages l s root va pa : vm_ok kpt pages l s → LkKmem ∉ k_held s → is_root pages root →
  0 ≤ va < MAXVA → va mod PGSIZE = 0 → pages !! pa = Some (Data root va) →
  has_flag (trans (k_mem s) root va) PTE_V = false →
  ∃ s', kfree pa s = Done tt s' ∧ vm_ok kpt (delete pa pages) (pa :: l) s' ∧ only_pages s s' ∧
    same_outside pa (k_mem s) (k_mem s').
Proof.
  intros Hok Hlk Hr Hva Hal Hpa HV. assert (page_ok pa) as Hpg by (by eapply vm_page).
  assert (pa ∉ l) as Hin by (eapply table_not_free; [apply Hok | done]).
  destruct (kfree_done l pa s (vo_free _ _ _ _ Hok) Hpg Hin Hlk) as (m1 & E & Ho & Hf).
  eexists. split; [exact E |]. split; [| split; [by destruct s | done]].
  assert (vm_ok kpt pages l (s <| k_mem := m1 |>)) as Hok1.
  { apply (vm_ok_page _ _ _ _ pa); [done | done | done | congruence | done]. }
  eapply vm_ok_give_back; [exact Hok1 | done.. | | exact Hf | done]. simpl.
  rewrite (trans_same kpt pages l s m1 root va Hok Hr); [done |].
  intros p' q Hp'. apply (same_page_outside pa); [done | by eapply vm_page | congruence | done].
Qed.

Lemma cleared_cleared b1 b2 v : cleared b2 (cleared b1 v) = cleared (b1 || b2) v.
Proof. unfold cleared. destruct b1, b2, (has_flag v PTE_V) eqn:HV; simpl; by rewrite ?HV. Qed.

Lemma unmapped_none pages l s root a : vm_ok kpt pages l s → a mod PGSIZE = 0 →
  has_flag (trans (k_mem s) root a) PTE_V = false → unmapped kpt pages l s root a 1 s.
Proof.
  intros Hok Hal HV. assert (freed (k_mem s) root a 1 = []) as Hf by (simpl; by rewrite Z.add_0_r, HV).
  split; rewrite ?Hf; [done | by destruct s | | done | by intros p ?%elem_of_nil].
  intros root' va' Hr Hva'. unfold cleared. case_bool_decide as Hd; [| done]. destruct Hd as [-> Hd]. simpl.
  rewrite (trans_page _ _ va' a) by (apply page_number; [done | lia]). by rewrite HV.
Qed.

Lemma unmapped_one pages l s root a p pa s1 m2 : vm_ok kpt pages l s → is_root pages root → root ≠ kpt →
  0 ≤ a < TRAPFRAME → a mod PGSIZE = 0 → leaf_page (k_mem s) root a = Some p →
  has_flag (trans (k_mem s) root a) PTE_V = true → PTE2PA (trans (k_mem s) root a) = pa →
  pages !! pa = Some (Data root a) → same_outside pa (k_mem s) (k_mem s1) → free_pages (pa :: l) s1 →
  only_pages s s1 → entry_set p (PX 0 a) 0 (k_mem s1) m2 →
  unmapped kpt pages l s root a 1 (s1 <| k_mem := m2 |>).
Proof.
  intros Hok Hr Hk Ha Hal Hp HV HPA Hpa Ho Hf Hon Hset. assert (TRAPFRAME < MAXVA) by done.
  assert (freed (k_mem s) root a 1 = [pa]) as Efr by (simpl; by rewrite Z.add_0_r, HV, HPA).
  assert (page_ok pa) as Hpg by (by eapply vm_page).
  pose proof (leaf_page_use _ _ _ _ _ _ _ Hok Hr Hp) as Hu.
  assert (∀ p' r q, pages !! p' = Some (Table r q) → same_page p' (k_mem s) (k_mem s1)) as Hsame.
  { intros p' r q Hp'. apply (same_page_outside pa); [done | by eapply vm_page | congruence | done]. }
  assert (vm_ok kpt pages l (s <| k_mem := k_mem s1 |>)) as Hok1.
  { apply (vm_ok_page _ _ _ _ pa); [done | done | | congruence | done]. eapply table_not_free; [apply Hok | done]. }
  assert (leaf_page (k_mem s1) root a = Some p) as Hp1.
  { rewrite <-Hp. apply (leaf_page_same kpt pages l); [done | done |]. intros ??. apply Hsame. }
  assert (∀ root' va', is_root pages root' → 0 ≤ va' < MAXVA → trans m2 root' va' =
    if decide (root' = root ∧ va' / PGSIZE = a / PGSIZE) then 0 else trans (k_mem s) root' va') as Htr.
  { intros root' va' Hr' Hva'.
    rewrite (trans_set_leaf _ _ _ _ m2 root a p 0 root' va' Hok1 Hr Hr' Hp1); [| lia | done | done].
    change (k_mem (s <| k_mem := k_mem s1 |>)) with (k_mem s1).
    by rewrite (trans_same kpt pages l s (k_mem s1) root' va' Hok Hr') by (intros ??; apply Hsame). }
  split; rewrite ?Efr; simpl.
  - pose (sA := s <| k_mem := m2 |>).
    apply (vm_ok_give_back pages l sA root a); [| exact Hr | lia | done | done | | | done].
    + unfold sA. change (s <| k_mem := m2 |>) with (s <| k_mem := k_mem s1 |> <| k_mem := m2 |>).
      eapply vm_ok_entry; [exact Hok1 | exact Hu | apply PX_range | exact Hset | done].
    + change (k_mem sA) with m2. by rewrite Htr, decide_True by (done || lia).
    + apply (free_pages_outside _ _ p); [done | by eapply vm_page | | apply Hset].
      apply not_elem_of_cons. split; [congruence |]. eapply table_not_free; [apply Hok | done].
  - unfold only_pages in *. rewrite Hon. by destruct s.
  - intros root' va' Hr' Hva'. rewrite Htr by done. pose proof (page_number va' a Hal) as Hpn.
    unfold cleared. case_decide as Hd; case_bool_decide as Hd'; [| | | done].
    + destruct Hd as [-> Hd]. by rewrite (trans_page _ _ va' a), HV.
    + destruct Hd', Hd as [-> Hd]. split; [done | lia].
    + destruct Hd, Hd' as [-> Hd']. split; [done | lia].
  - intros x Hx Hxf. pose proof (Hxf pa ltac:(left)). pose proof (Hx _ _ Hu).
    by rewrite (es_out _ _ _ _ _ Hset), Ho.
  - intros p' ->%list_elem_of_singleton. eauto.
Qed.

Lemma unmap_round_done pages l s root a : vm_ok kpt pages l s → LkKmem ∉ k_held s → is_root pages root →
  root ≠ kpt → 0 ≤ a < TRAPFRAME → a mod PGSIZE = 0 →
  ∃ s', unmap_round root a 1 s = Done tt s' ∧ unmapped kpt pages l s root a 1 s'.
Proof.
  intros Hok Hlk Hr Hk Ha Hal. assert (TRAPFRAME < MAXVA) by done. unfold unmap_round.
  rewrite (bind_done _ _ _ _ _ (walk_lookup root a s ltac:(lia))). rewrite leaf_page_pte.
  destruct (leaf_page _ _ _) as [p|] eqn:Hp; simpl.
  2: { exists s. split; [done |]. apply unmapped_none; [done | done |]. by rewrite leaf_page_trans, Hp. }
  unfold kload64. rewrite bind_unfold. cbn [gets].
  assert (load64 (k_mem s) (p + 8 * PX 0 a) = trans (k_mem s) root a) as -> by (by rewrite leaf_page_trans, Hp).
  destruct (has_flag _ _) eqn:HV; cbn [negb Z.eqb]; [| exists s; split; [done | by apply unmapped_none]].
  assert (PGSIZE * (a / PGSIZE) = a) as Ea by (by rewrite <-Z_div_exact_full_2).
  pose proof (leaf_page_use _ _ _ _ _ _ _ Hok Hr Hp) as Hu.
  assert (pages !! PTE2PA (trans (k_mem s) root a) = Some (Data root a)) as Hpa.
  { rewrite <-Ea at 2. apply (trans_data _ _ _ _ _ _ Hok); [done | done | lia | done | right; lia]. }
  set (pa := PTE2PA (trans (k_mem s) root a)) in *.
  assert (page_ok pa) as Hpg by (by eapply vm_page).
  assert (pa ∉ l) as Hin by (eapply table_not_free; [apply Hok | done]).
  destruct (kfree_done l pa s (vo_free _ _ _ _ Hok) Hpg Hin Hlk) as (m1 & E & Ho & Hf).
  rewrite (bind_done _ _ _ _ _ E). set (s1 := s <| k_mem := m1 |> <| k_freelist := pa |>) in *.
  exists (s1 <| k_mem := store64 m1 (p + 8 * PX 0 a) 0 |>). split; [done |].
  apply (unmapped_one _ _ _ _ _ p pa); try done.
  by apply entry_set_store; [| apply PX_range].
Qed.
Lemma foldr_delete_lookup (pages : gmap Z puse) ps p u :
  foldr delete pages ps !! p = Some u ↔ (p ∉ ps) ∧ pages !! p = Some u.
Proof.
  destruct (decide (p ∈ ps)) as [Hin | Hin].
  - rewrite lookup_foldr_delete by done. naive_solver.
  - rewrite lookup_foldr_delete_not_elem_of by done. naive_solver.
Qed.

Lemma unmapped_table pages l s root va n s' p r q : unmapped kpt pages l s root va n s' →
  pages !! p = Some (Table r q) → foldr delete pages (freed (k_mem s) root va n) !! p = Some (Table r q).
Proof.
  intros Hu Hp. apply foldr_delete_lookup. split; [| done]. intros Hin.
  destruct (um_data _ _ _ _ _ _ _ _ Hu p Hin) as [va' ?]. congruence.
Qed.

Lemma unmapped_S pages l s root va n s1 s2 : is_root pages root → 0 ≤ va →
  va + Z.of_nat (S n) * PGSIZE ≤ MAXVA → unmapped kpt pages l s root va n s1 →
  unmapped kpt (foldr delete pages (freed (k_mem s) root va n)) (freed (k_mem s) root va n ++ l) s1 root
    (va + Z.of_nat n * PGSIZE) 1 s2 →
  unmapped kpt pages l s root va (S n) s2.
Proof.
  intros Hr Hva Hmax H1 H2. assert (0 < PGSIZE) by done.
  assert (trans (k_mem s1) root (va + Z.of_nat n * PGSIZE) = trans (k_mem s) root (va + Z.of_nat n * PGSIZE)) as Et.
  { rewrite (um_trans _ _ _ _ _ _ _ _ H1), bool_decide_false by (done || lia). done. }
  assert (freed (k_mem s) root va (S n) =
    freed (k_mem s1) root (va + Z.of_nat n * PGSIZE) 1 ++ freed (k_mem s) root va n) as Efr.
  { cbn [freed Z.of_nat]. rewrite Z.mul_0_l, Z.add_0_r, Et. by destruct (has_flag _ _). }
  split; rewrite ?Efr, ?foldr_app, <-?app_assoc.
  - apply H2.
  - destruct H1 as [_ O1 _ _ _], H2 as [_ O2 _ _ _]. unfold only_pages in *. rewrite O2, O1. by destruct s.
  - intros root' va' Hr' Hva'. rewrite (um_trans _ _ _ _ _ _ _ _ H2) by (done || by eapply unmapped_table).
    rewrite (um_trans _ _ _ _ _ _ _ _ H1 root' va' Hr' Hva'), cleared_cleared. f_equal.
    rewrite <-bool_decide_or. apply bool_decide_ext. lia.
  - intros a Ht Hf. rewrite (um_mem _ _ _ _ _ _ _ _ H2), (um_mem _ _ _ _ _ _ _ _ H1); [done | done | | |].
    + intros p Hp. apply Hf. set_solver.
    + intros p q [_ Hp]%foldr_delete_lookup. by eapply Ht.
    + intros p Hp. apply Hf. set_solver.
  - intros p [Hp | Hp]%elem_of_app; [| by apply (um_data _ _ _ _ _ _ _ _ H1)].
    destruct (um_data _ _ _ _ _ _ _ _ H2 p Hp) as (va' & [_ ?]%foldr_delete_lookup). eauto.
Qed.
Lemma unmapped_0 pages l s root va : vm_ok kpt pages l s → unmapped kpt pages l s root va 0 s.
Proof.
  intros Hok. split; [done | by destruct s | | done | by intros p ?%elem_of_nil].
  intros root' va' _ _. rewrite bool_decide_false; [done | lia].
Qed.

Lemma uvmunmap_done pages l s root va n : vm_ok kpt pages l s → LkKmem ∉ k_held s → is_root pages root →
  root ≠ kpt → va mod PGSIZE = 0 → 0 ≤ va → va + Z.of_nat n * PGSIZE ≤ TRAPFRAME →
  ∃ s', uvmunmap root va (Z.of_nat n) 1 s = Done tt s' ∧ unmapped kpt pages l s root va n s'.
Proof.
  intros Hok Hlk Hr Hk Hal Hva Hmax. assert (TRAPFRAME < MAXVA ∧ MAXVA < 2 ^ 60) as [? ?] by done.
  unfold uvmunmap. rewrite Hal. cbn [Z.eqb negb].
  rewrite (u64_small (Z.of_nat n * PGSIZE)), u64_small by (unfold_consts; lia).
  match goal with |- ∃ s', ?f s = Done tt s' ∧ _ => cut (wp f (λ _ s', unmapped kpt pages l s root va n s') s) end.
  { intros ([] & s' & E & H')%wp_elim. eauto. }
  eapply (wp_loop (λ a t, ∃ i, (i ≤ n)%nat ∧ a = va + Z.of_nat i * PGSIZE ∧ unmapped kpt pages l s root va i t)
    (λ a, n - Z.to_nat ((a - va) / PGSIZE))%nat).
  3: lia.
  2: { exists 0%nat. split; [lia |]. split; [lia |]. by apply unmapped_0. }
  intros a t (i & Hi & -> & Hu). destruct (Z.ltb_spec (va + Z.of_nat i * PGSIZE) (va + Z.of_nat n * PGSIZE)).
  2: { apply wp_ret. replace i with n in Hu by (unfold_consts; lia). done. }
  assert (i < n)%nat by (unfold_consts; lia).
  destruct (unmap_round_done _ _ t root (va + Z.of_nat i * PGSIZE) (um_ok _ _ _ _ _ _ _ _ Hu)) as (t' & E & Hu').
  { by rewrite (only_pages_held s t) by apply Hu. }
  { by eapply unmapped_table. }
  { done. }
  { unfold_consts; lia. }
  { by rewrite Z.mod_add. }
  apply wp_assoc. eapply wp_bind_done; [exact E |]. apply wp_ret. rewrite u64_small by (unfold_consts; lia). split.
  - exists (S i). split; [lia |]. split; [lia |]. eapply unmapped_S; [done | done | unfold_consts; lia | done | done].
  - replace (va + Z.of_nat i * PGSIZE + PGSIZE - va) with (Z.of_nat (S i) * PGSIZE) by lia.
    replace (va + Z.of_nat i * PGSIZE - va) with (Z.of_nat i * PGSIZE) by lia. rewrite !Z.div_mul by done. lia.
Qed.
End uvmunmap.


(** ** A new page in an address space

    The step that [uvmalloc], [uvmcopy] and [vmfault] share: take a page, fill it,
    map it, and give it back if there is no memory for the tables. *)

Section new_page.
Context {L : Layout} (kpt : Z).

(** A page taken from the free list and filled. *)
Record taken (pages : gmap Z puse) (l : list Z) (s : kstate) (pg : Z) (l1 : list Z) (s1 : kstate) : Prop := {
  tk_list : l = pg :: l1;
  tk_ok : vm_ok kpt pages l1 s1;
  tk_only : only_pages s s1;
  tk_mem : same_outside pg (k_mem s) (k_mem s1);
  tk_page : page_ok pg ∧ (pg ∉ l1) ∧ pages !! pg = None;
}.

Lemma kalloc_taken pages l s : vm_ok kpt pages l s → LkKmem ∉ k_held s →
  (l = [] ∧ kalloc s = Done 0 s) ∨
  ∃ pg l1 s1, kalloc s = Done pg s1 ∧ taken pages l s pg l1 s1 ∧ pg ≠ 0.
Proof.
  intros Hok Hlk. pose proof (kalloc_vm kpt pages l s Hok Hlk) as H. destruct l as [|pg l1]; [by left | right].
  destruct H as (s1 & E & Hok1 & Hon & Ho & Hpg & Hin & Hnone). exists pg, l1, s1.
  split; [done |]. split; [by split | destruct Hpg; lia].
Qed.

Lemma taken_fill pages l s pg l1 s1 m : taken pages l s pg l1 s1 → same_outside pg (k_mem s1) m →
  taken pages l s pg l1 (s1 <| k_mem := m |>).
Proof.
  intros [E Hok Hon Ho (Hpg & Hin & Hnone)] Hm. split; [done | | | | done].
  - apply (vm_ok_page _ _ _ _ pg); [done | done | done | congruence | done].
  - unfold only_pages in *. rewrite Hon. by destruct s.
  - by eapply same_outside_trans.
Qed.

Lemma taken_grows pages l s pg l1 s1 root va : taken pages l s pg l1 s1 →
  vm_ok kpt (<[pg := Data root va]> pages) l1 s1 ∧
  grows (page_of root va pg) root pages l s (<[pg := Data root va]> pages) l1 s1.
Proof.
  intros [-> Hok Hon Ho (Hpg & Hin & Hnone)]. split; [by apply vm_ok_data |]. split.
  - intros p u Hp. rewrite lookup_insert_ne; [done | congruence].
  - intros p u [[<- <-] | [_ Hu]]%lookup_insert_Some; [right | by left]. split; [left | by right].
  - intros p Hp. by right.
  - intros p [-> | Hp]%elem_of_cons; [right; rewrite lookup_insert_eq; done | by left].
  - done.
  - intros a _ Hf. apply Ho, Hf. left.
Qed.

Lemma taken_trans pages l s pg l1 s1 root va : vm_ok kpt pages l s → taken pages l s pg l1 s1 → is_root pages root →
  trans (k_mem s1) root va = trans (k_mem s) root va.
Proof.
  intros Hok [_ _ _ Ho (Hpg & _ & Hnone)] Hr. apply (trans_same kpt pages l); [done | done |].
  intros p q Hp. apply (same_page_outside pg); [done | by eapply vm_page | congruence | done].
Qed.
(** The pages that are not tables of the tree keep their contents. *)
Lemma grows_page new pages l s root pages' l' s' p u : vm_ok kpt pages l s →
  grows new root pages l s pages' l' s' → pages !! p = Some u → (∀ q, u ≠ Table root q) →
  same_page p (k_mem s) (k_mem s').
Proof.
  intros Hok Hg Hp Hu a Ha. assert (page_ok p) as Hpg by (by eapply vm_page).
  apply (g_mem _ _ _ _ _ _ _ _ Hg).
  - intros p' q Hp'. assert (page_ok p') by (by eapply vm_page). assert (p ≠ p') as Hne by congruence.
    destruct (pages_disjoint p p'); try done; lia.
  - intros p' Hp'. assert (page_ok p') by (by eapply Forall_forall; [apply (fp_ok _ _ (vo_free _ _ _ _ Hok)) |]).
    assert (p ≠ p') as Hne. { intros <-. apply (vo_notfree _ _ _ _ Hok) in Hp'. congruence. }
    destruct (pages_disjoint p p'); try done; lia.
Qed.

(** What a mapped page changes, and what is left after a failure. *)
Record page_added pages l s root va pg perm s1 pages2 l2 s2 : Prop := {
  pd_ok : vm_ok kpt pages2 l2 s2;
  pd_grows : grows (page_of root va pg) root pages l s pages2 l2 s2;
  pd_data : pages2 !! pg = Some (Data root va);
  pd_page : same_page pg (k_mem s1) (k_mem s2);
  pd_trans : ∀ root' va', is_root pages root' → 0 ≤ va' < MAXVA →
    trans (k_mem s2) root' va' =
      if decide (root' = root ∧ va' / PGSIZE = va / PGSIZE) then Z.lor (Z.lor (PA2PTE pg) perm) PTE_V
      else trans (k_mem s) root' va';
}.

Record no_page_added pages l s root pages2 l2 s2 : Prop := {
  nd_ok : vm_ok kpt pages2 l2 s2;
  nd_grows : grows (table_of root) root pages l s pages2 l2 s2;
  nd_trans : ∀ root' va', is_root pages root' → 0 ≤ va' < MAXVA →
    trans (k_mem s2) root' va' = trans (k_mem s) root' va';
}.

Lemma taken_mappable pages l s pg l1 s1 root va perm : vm_ok kpt pages l s → LkKmem ∉ k_held s →
  taken pages l s pg l1 s1 → is_root pages root → 0 ≤ va < TRAPFRAME → va mod PGSIZE = 0 →
  0 ≤ perm < 2 ^ 10 → has_flag (trans (k_mem s) root va) PTE_V = false →
  mappable kpt (<[pg := Data root va]> pages) s1 root va (PGSIZE / PGSIZE) pg perm.
Proof.
  intros Hok Hlk Htk Hr Hva Hal Hperm HV. change (PGSIZE / PGSIZE) with 1.
  pose proof (tk_page _ _ _ _ _ _ Htk) as (Hpg & _ & Hnone).
  assert (TRAPFRAME + PGSIZE ≤ MAXVA ∧ PHYSTOP + PGSIZE ≤ 2 ^ 56) as [? ?] by done. split.
  - by rewrite (only_pages_held s s1) by apply Htk.
  - unfold is_root in *. rewrite lookup_insert_ne; [done | congruence].
  - split; [done |]. lia.
  - destruct Hpg as (? & ? & ?). split; [done |]. lia.
  - done.
  - intros va' Hva'. rewrite (taken_trans _ _ _ _ _ _ _ _ Hok Htk Hr).
    rewrite (trans_page _ _ va' va); [done |]. apply page_number; [done | lia].
  - intros _ k Hk _. replace k with 0 by lia. rewrite !Z.mul_0_l, !Z.add_0_r. apply lookup_insert_eq.
Qed.

Lemma mapped_one pages m m' root va pg perm root' va' : va mod PGSIZE = 0 →
  trans_mapped pages m m' root va 1 pg perm → is_root pages root' → 0 ≤ va' < MAXVA →
  trans m' root' va' =
    if decide (root' = root ∧ va' / PGSIZE = va / PGSIZE) then Z.lor (Z.lor (PA2PTE pg) perm) PTE_V
    else trans m root' va'.
Proof.
  intros Hal Ht Hr Hva'. rewrite Ht by done. pose proof (page_number va' va Hal).
  case_decide as Hd; case_decide as Hd'; [| | | done].
  - do 3 f_equal. rewrite Z.div_small by lia. lia.
  - destruct Hd'. split; [apply Hd | lia].
  - destruct Hd. split; [apply Hd' | lia].
Qed.
Lemma page_of_grows pages l s pg l1 s1 root va pages2 l2 s2 : taken pages l s pg l1 s1 →
  grows (table_of root) root (<[pg := Data root va]> pages) l1 s1 pages2 l2 s2 →
  grows (page_of root va pg) root pages l s pages2 l2 s2.
Proof.
  intros Htk Hg. eapply grows_trans; [by apply taken_grows |]. eapply grows_weaken; [| exact Hg]. by left.
Qed.

(** After a failure the page is free again and only tables are left. *)
Lemma give_back_grows pages l s pg l1 s1 root va pages2 s2 s3 : taken pages l s pg l1 s1 →
  grows (table_of root) root (<[pg := Data root va]> pages) l1 s1 pages2 [] s2 →
  only_pages s2 s3 → same_outside pg (k_mem s2) (k_mem s3) →
  grows (table_of root) root pages l s (delete pg pages2) [pg] s3.
Proof.
  intros Htk Hg2 Hon3 Ho3. pose proof (page_of_grows _ _ _ _ _ _ _ _ _ _ _ Htk Hg2) as Hg.
  destruct Htk as [-> _ _ _ (_ & _ & Hnone)]. split.
  - intros p u Hp. rewrite lookup_delete_ne by congruence. by apply Hg.
  - intros p u [Hne Hp]%lookup_delete_Some. destruct (g_new _ _ _ _ _ _ _ _ Hg p u Hp) as [? | [? [? | [-> ?]]]]; auto.
    done.
  - intros p ->%list_elem_of_singleton. left.
  - intros p Hp. destruct (decide (p = pg)) as [-> | Hne]; [left; left | right].
    rewrite lookup_delete_ne by done. destruct (g_free _ _ _ _ _ _ _ _ Hg p Hp) as [?%elem_of_nil | ?]; done.
  - pose proof (g_only _ _ _ _ _ _ _ _ Hg) as Hon. unfold only_pages in *. rewrite Hon3, Hon. by destruct s.
  - intros a Ht Hf. rewrite Ho3 by (apply Hf; left). by apply (g_mem _ _ _ _ _ _ _ _ Hg).
Qed.

Lemma map_taken pages l s pg l1 s1 root va perm : vm_ok kpt pages l s → LkKmem ∉ k_held s →
  taken pages l s pg l1 s1 → is_root pages root → 0 ≤ va < TRAPFRAME → va mod PGSIZE = 0 →
  0 ≤ perm < 2 ^ 10 → has_flag (trans (k_mem s) root va) PTE_V = false →
  ∃ r s2, mappages root va PGSIZE pg perm s1 = Done r s2 ∧
    ((r = 0 ∧ ∃ pages2 l2, page_added pages l s root va pg perm s1 pages2 l2 s2) ∨
     (r = -1 ∧ ∃ s3 pages2, kfree pg s2 = Done tt s3 ∧ no_page_added pages l s root pages2 [pg] s3)).
Proof.
  intros Hok Hlk Htk Hr Hva Hal Hperm HV. destruct (taken_grows _ _ _ _ _ _ root va Htk) as [Hok1 Hg1].
  pose proof (taken_mappable _ _ _ _ _ _ _ _ _ Hok Hlk Htk Hr Hva Hal Hperm HV) as Hm.
  destruct (mappages_done kpt _ l1 s1 root va PGSIZE pg perm Hok1) as (r & s2 & n & pages2 & l2 & E & (Hok2 & Hg2 & Ht2) & Hres);
    [done | done | done |].
  exists r, s2. split; [done |]. pose proof (page_of_grows _ _ _ _ _ _ _ _ _ _ _ Htk Hg2) as Hg.
  assert (∀ root', is_root pages root' → is_root (<[pg := Data root va]> pages) root') as Hroot.
  { intros root' Hr'. by apply (g_pages _ _ _ _ _ _ _ _ Hg1). }
  destruct Hres as [[-> ->] | (-> & Hn & ->)]; [left | right]; (split; [done |]).
  - exists pages2, l2. split; [done | done | | |].
    + apply (g_pages _ _ _ _ _ _ _ _ Hg2), lookup_insert_eq.
    + eapply grows_page; [exact Hok1 | exact Hg2 | apply lookup_insert_eq | done].
    + intros root' va' Hr' Hva'. rewrite (mapped_one _ _ _ _ _ _ _ _ _ Hal Ht2) by auto.
      by rewrite (taken_trans _ _ _ _ _ _ _ _ Hok Htk Hr').
  - replace n with 0 in Ht2 by (change (PGSIZE / PGSIZE) with 1 in Hn; lia).
    assert (∀ root' va', is_root pages root' → 0 ≤ va' < MAXVA →
      trans (k_mem s2) root' va' = trans (k_mem s) root' va') as Htr.
    { intros root' va' Hr' Hva'. rewrite Ht2, decide_False by (auto || lia). by eapply taken_trans. }
    assert (TRAPFRAME < MAXVA) by done.
    destruct (kfree_unmapped kpt pages2 [] s2 root va pg Hok2) as (s3 & E3 & Hok3 & Hon3 & Ho3).
    { by rewrite (grows_held _ _ _ _ _ _ _ _ Hg). }
    { by apply (g_pages _ _ _ _ _ _ _ _ Hg). }
    { lia. } { done. }
    { apply (g_pages _ _ _ _ _ _ _ _ Hg2), lookup_insert_eq. }
    { rewrite Htr by (done || lia). done. }
    exists s3, (delete pg pages2). split; [done |]. split; [done | by eapply give_back_grows |].
    intros root' va' Hr' Hva'. rewrite <-(Htr root' va' Hr' Hva').
    apply (trans_same kpt pages2 []); [done | by apply (g_pages _ _ _ _ _ _ _ _ Hg) |].
    intros p q Hp. assert (pages2 !! pg = Some (Data root va)) by (apply (g_pages _ _ _ _ _ _ _ _ Hg2), lookup_insert_eq).
    apply (same_page_outside pg); [by eapply (vm_page kpt pages2) | by eapply (vm_page kpt pages2) | congruence | done].
Qed.
End new_page.

(** ** What a process sees *)

Section user_view.
Context {L : Layout} (kpt : Z).

(** An address a process may access. *)
Definition user_ok (v : Z) : bool := has_flag v PTE_V && has_flag v PTE_U.

Lemma user_page_trans m root va : 0 ≤ va < MAXVA →
  user_page m root va = if user_ok (trans m root va) then PTE2PA (trans m root va) else 0.
Proof.
  intros Hva. unfold user_page. rewrite (proj2 (Z.leb_gt MAXVA va)) by lia.
  rewrite leaf_page_pte, leaf_page_trans. by destruct (leaf_page m root va).
Qed.

Lemma user_byte_trans pages l s root va : vm_ok kpt pages l s → is_root pages root → root ≠ kpt → 0 ≤ va < MAXVA →
  user_byte (k_mem s) root va =
    if user_ok (trans (k_mem s) root va) then Some (mread (k_mem s) (PTE2PA (trans (k_mem s) root va) + va mod PGSIZE))
    else None.
Proof.
  intros Hok Hr Hk Hva. assert (MAXVA < 2 ^ 64) by done. unfold user_byte.
  pose proof (Z.mul_div_le va PGSIZE ltac:(done)). assert (0 ≤ va / PGSIZE) by (apply Z.div_pos; [lia | done]).
  rewrite PGROUNDDOWN_spec by lia. rewrite user_page_trans by (unfold_consts; lia).
  rewrite (trans_page _ _ (PGSIZE * (va / PGSIZE)) va) by (by rewrite (Z.mul_comm PGSIZE), Z.div_mul).
  destruct (user_ok _) eqn:Hu; [| done]. apply andb_true_iff in Hu as [HV HU].
  pose proof (trans_data _ _ _ _ _ _ Hok Hr Hk Hva HV (or_introl HU)) as Hd.
  destruct (vm_page _ _ _ _ _ _ Hok Hd) as (_ & _ & ?). by rewrite (proj2 (Z.eqb_neq _ 0)) by lia.
Qed.

(** A space sees the same when its translations and its pages stay. *)
Lemma user_byte_same pages l s pages' l' s' root va : vm_ok kpt pages l s → vm_ok kpt pages' l' s' →
  is_root pages root → is_root pages' root → root ≠ kpt → 0 ≤ va < MAXVA →
  trans (k_mem s') root va = trans (k_mem s) root va →
  (∀ p va', pages !! p = Some (Data root va') → same_page p (k_mem s) (k_mem s')) →
  user_byte (k_mem s') root va = user_byte (k_mem s) root va.
Proof.
  intros Hok Hok' Hr Hr' Hk Hva Ht Hs. rewrite (user_byte_trans _ _ _ _ _ Hok' Hr' Hk Hva).
  rewrite (user_byte_trans _ _ _ _ _ Hok Hr Hk Hva), Ht.
  destruct (user_ok _) eqn:Hu; [| done]. apply andb_true_iff in Hu as [HV HU]. f_equal.
  pose proof (trans_data _ _ _ _ _ _ Hok Hr Hk Hva HV (or_introl HU)) as Hd.
  apply (Hs _ _ Hd). pose proof (Z.mod_pos_bound va PGSIZE ltac:(done)). lia.
Qed.

Lemma unmapped_page pages l s root va n s' p u : vm_ok kpt pages l s → unmapped kpt pages l s root va n s' →
  pages !! p = Some u → (∀ q, u ≠ Table root q) → (∀ va', u ≠ Data root va') → same_page p (k_mem s) (k_mem s').
Proof.
  intros Hok Hum Hp Ht Hd a Ha. assert (page_ok p) as Hpg by (by eapply vm_page).
  apply (um_mem _ _ _ _ _ _ _ _ Hum).
  - intros p' q Hp'. assert (page_ok p') by (by eapply vm_page). assert (p ≠ p') as Hne by congruence.
    destruct (pages_disjoint p p'); try done; lia.
  - intros p' Hp'. destruct (um_data _ _ _ _ _ _ _ _ Hum p' Hp') as [va' Hp1].
    assert (page_ok p') by (by eapply vm_page). assert (p ≠ p') as Hne by congruence.
    destruct (pages_disjoint p p'); try done; lia.
Qed.

Lemma elem_of_freed m root va n p : p ∈ freed m root va n ↔
  ∃ i, (i < n)%nat ∧ has_flag (trans m root (va + Z.of_nat i * PGSIZE)) PTE_V = true ∧
    PTE2PA (trans m root (va + Z.of_nat i * PGSIZE)) = p.
Proof.
  induction n as [|n IH]; cbn [freed].
  - rewrite elem_of_nil. split; [done |]. intros (i & ? & _). lia.
  - transitivity ((has_flag (trans m root (va + Z.of_nat n * PGSIZE)) PTE_V = true ∧
      PTE2PA (trans m root (va + Z.of_nat n * PGSIZE)) = p) ∨ p ∈ freed m root va n).
    { destruct (has_flag _ _); [rewrite elem_of_cons |]; naive_solver. }
    rewrite IH. split.
    + intros [? | (i & ? & ?)]; [exists n | exists i]; (split; [lia | done]).
    + intros (i & Hi & ?). destruct (decide (i = n)) as [-> |]; [by left | right]. exists i. split; [lia | done].
Qed.
End user_view.
