(* ===== verification/UvmCopy.v ===== *)
(** * Copying an address space (kernel/vm.c: uvmcopy)

    What fork does with the memory of the parent: the child gets a copy of every
    page, in pages of its own, and a fork that runs out of memory gives all of
    them back. *)

From S2P Require Import Prelude Machine Kstate Logic Strings Sched Kalloc Vm VmSpec UvmSpec.

(** The page of an address in the new space holds what the old one holds, in a page
    that was free before. *)
Definition page_copied (m m' : gmap Z Z) (l : list Z) (old new va : Z) : Prop :=
  let v := trans m old va in
  let v' := trans m' new va in
  if has_flag v PTE_V then
    has_flag v' PTE_V = true ∧ PTE_FLAGS v' = PTE_FLAGS v ∧ PTE2PA v' ∈ l ∧
    ∀ k, 0 ≤ k < PGSIZE → mread m' (PTE2PA v' + k) = mread m (PTE2PA v + k)
  else v' = trans m new va.

(** What a call of [uvmcopy] has done after [n] pages. *)
Record copied {L : Layout} (kpt : Z) (pages : gmap Z puse) (l : list Z) (s : kstate) (old new : Z) (n : nat)
    (pages' : gmap Z puse) (l' : list Z) (s' : kstate) : Prop := {
  cp_ok : vm_ok kpt pages' l' s';
  cp_grows : grows (owned_by new) new pages l s pages' l' s';
  cp_other : ∀ root va, is_root pages root → root ≠ new → 0 ≤ va < MAXVA →
    trans (k_mem s') root va = trans (k_mem s) root va;
  cp_done : ∀ va, 0 ≤ va < Z.of_nat n * PGSIZE → page_copied (k_mem s) (k_mem s') l old new va;
  cp_rest : ∀ va, Z.of_nat n * PGSIZE ≤ va < MAXVA → trans (k_mem s') new va = trans (k_mem s) new va;
  cp_mapped : ∀ p va, pages' !! p = Some (Data new va) →
    pages !! p = Some (Data new va) ∨
    0 ≤ va < Z.of_nat n * PGSIZE ∧ va mod PGSIZE = 0 ∧
      has_flag (trans (k_mem s') new va) PTE_V = true ∧ PTE2PA (trans (k_mem s') new va) = p;
}.

(** What [uvmcopy] is called with: two address spaces, the new one empty. *)
Record copyable {L : Layout} (kpt : Z) (pages : gmap Z puse) (l : list Z) (s : kstate) (old new sz : Z) : Prop := {
  ca_ok : vm_ok kpt pages l s;
  ca_lock : LkKmem ∉ k_held s;
  ca_old : is_root pages old ∧ old ≠ kpt;
  ca_new : is_root pages new ∧ new ≠ kpt;
  ca_ne : old ≠ new;
  ca_sz : 0 ≤ sz ≤ TRAPFRAME;
  ca_empty : ∀ va, 0 ≤ va < TRAPFRAME → has_flag (trans (k_mem s) new va) PTE_V = false;
}.

(** One round of the loop of [uvmcopy]. *)
Definition copy_round {L : Layout} (old new i : Z) : K (Z + option Z) :=
  pte ← walk old i 0;
  match pte with
  | None => ret (inl (u64 (i + PGSIZE)))
  | Some pte =>
      v ← kload64 pte;
      if negb (has_flag v PTE_V) then ret (inl (u64 (i + PGSIZE)))
      else
        let pa := PTE2PA v in
        let flags := PTE_FLAGS v in
        mem ← kalloc;
        if mem =? 0 then ret (inr (Some i))
        else
          kmemmove mem pa PGSIZE;;
          r ← mappages new i PGSIZE mem flags;
          if negb (r =? 0) then kfree mem;; ret (inr (Some i))
          else ret (inl (u64 (i + PGSIZE)))
  end.

Section uvmcopy.
Context {L : Layout} (kpt : Z).

Lemma copied_0 pages l s old new : vm_ok kpt pages l s → copied kpt pages l s old new 0 pages l s.
Proof. intros Hok. split; [exact Hok | apply grows_refl | by intros | intros va Hva; lia | by intros | by left]. Qed.

(** A page once copied stays. *)
Lemma page_copied_stays m how pages l0 l s old new va pages' l' s' : vm_ok kpt pages l s → is_root pages new →
  new ≠ kpt → 0 ≤ va < TRAPFRAME → grows how new pages l s pages' l' s' →
  trans (k_mem s') new va = trans (k_mem s) new va →
  page_copied m (k_mem s) l0 old new va → page_copied m (k_mem s') l0 old new va.
Proof.
  intros Hok Hr Hk Hva Hg Ht. unfold page_copied. rewrite Ht. destruct (has_flag (trans m old va) PTE_V); [| done].
  intros (HV & Hf & Hin & Hb). split; [done |]. split; [done |]. split; [done |]. intros k Hkr. rewrite <-Hb by done.
  assert (TRAPFRAME < MAXVA) by done. pose proof (Z.mul_div_le va PGSIZE ltac:(done)).
  assert (pages !! PTE2PA (trans (k_mem s) new va) = Some (Data new (PGSIZE * (va / PGSIZE)))) as Hdt.
  { apply (trans_data _ _ _ _ _ _ Hok Hr Hk); [lia | done | right; lia]. }
  eapply grows_page; [exact Hok | exact Hg | exact Hdt | done | lia].
Qed.

Lemma copied_more pages l s old new n pages1 l1 s1 pages2 l2 s2 : is_root pages new → new ≠ kpt →
  Z.of_nat n * PGSIZE ≤ TRAPFRAME →
  copied kpt pages l s old new n pages1 l1 s1 → no_page_added kpt pages1 l1 s1 new pages2 l2 s2 →
  copied kpt pages l s old new n pages2 l2 s2.
Proof.
  intros Hr Hk Hn [Hok Hg Ho Hd Hrest Hm] [Hok2 Hg2 Ht2]. assert (TRAPFRAME < MAXVA) by done.
  pose proof (g_pages _ _ _ _ _ _ _ _ Hg) as Hmono. assert (0 ≤ Z.of_nat n * PGSIZE) by (unfold_consts; lia). split.
  - done.
  - eapply grows_trans; [exact Hg |]. eapply grows_weaken; [| exact Hg2]. by left.
  - intros root va Hr' Hne Hva. rewrite Ht2 by (by apply Hmono || done). by apply Ho.
  - intros va Hva. eapply page_copied_stays; [exact Hok | by apply Hmono | done | lia | exact Hg2 | | by apply Hd].
    apply Ht2; [by apply Hmono | lia].
  - intros va Hva. rewrite Ht2 by (by apply Hmono || lia). by apply Hrest.
  - intros p va Hp. destruct (g_new _ _ _ _ _ _ _ _ Hg2 p _ Hp) as [Hp1 | [_ [q [? _]]]]; [| done].
    destruct (Hm _ _ Hp1) as [? | (Hva & Hal & HV & HP)]; [by left | right].
    rewrite Ht2 by (by apply Hmono || lia). done.
Qed.

(** The next page. *)
Lemma copied_S pages l s old new n pages1 l1 s1 pg perm s1' pages2 l2 s2 : is_root pages new → new ≠ kpt →
  Z.of_nat (S n) * PGSIZE ≤ TRAPFRAME + PGSIZE → 0 ≤ perm < 2 ^ 10 →
  copied kpt pages l s old new n pages1 l1 s1 →
  page_added kpt pages1 l1 s1 new (Z.of_nat n * PGSIZE) pg perm s1' pages2 l2 s2 →
  page_copied (k_mem s) (k_mem s2) l old new (Z.of_nat n * PGSIZE) →
  copied kpt pages l s old new (S n) pages2 l2 s2.
Proof.
  intros Hr Hk Hn Hperm [Hok Hg Ho Hd Hrest Hm] [Hok2 Hg2 Hdata _ Ht2] Hnew.
  assert (TRAPFRAME + PGSIZE ≤ MAXVA) by done. pose proof (g_pages _ _ _ _ _ _ _ _ Hg) as Hmono.
  assert (0 < PGSIZE ∧ 0 ≤ Z.of_nat n * PGSIZE) as [? ?] by (unfold_consts; lia).
  assert (∀ va, va / PGSIZE = Z.of_nat n * PGSIZE / PGSIZE ↔ Z.of_nat n * PGSIZE ≤ va < Z.of_nat (S n) * PGSIZE) as Hpn.
  { intros va. rewrite <-page_number by (by rewrite Z.mod_mul). lia. }
  assert (∀ va, 0 ≤ va < MAXVA → ¬ (Z.of_nat n * PGSIZE ≤ va < Z.of_nat (S n) * PGSIZE) →
    trans (k_mem s2) new va = trans (k_mem s1) new va) as Hsame.
  { intros va Hva Hno. rewrite Ht2, decide_False; [done | rewrite Hpn; tauto | by apply Hmono | done]. }
  split.
  - done.
  - eapply grows_trans; [exact Hg |]. eapply grows_weaken; [| exact Hg2]. intros p u [? | [_ ?]]; [by left | right; eauto].
  - intros root va Hr' Hne Hva. rewrite Ht2, decide_False by (tauto || by apply Hmono || done). by apply Ho.
  - intros va Hva. destruct (decide (va < Z.of_nat n * PGSIZE)).
    + eapply page_copied_stays; [exact Hok | by apply Hmono | done | lia | exact Hg2 | | apply Hd; lia].
      apply Hsame; lia.
    + assert (va / PGSIZE = Z.of_nat n * PGSIZE / PGSIZE) as E by (apply Hpn; lia). revert Hnew. unfold page_copied.
      by rewrite !(trans_page _ _ va _ E).
  - intros va Hva. rewrite Hsame by lia. apply Hrest. lia.
  - intros p va Hp. destruct (g_new _ _ _ _ _ _ _ _ Hg2 p _ Hp) as [Hp1 | [_ [[q [? _]] | [-> [= ->]]]]]; [| done |].
    + destruct (Hm _ _ Hp1) as [? | (Hva & Hal & HV & HP)]; [by left | right]. rewrite Hsame by lia.
      split; [lia | done].
    + right. split; [lia |]. split; [by rewrite Z.mod_mul |]. rewrite Ht2, decide_True by (done || by apply Hmono || lia).
      assert (page_ok pg) as (? & ? & ?) by (by eapply (vm_page kpt pages2)). assert (PHYSTOP < 2 ^ 56) by done.
      destruct (leaf_entry pg perm) as (HV & HP & _); [lia | done | done |]. done.
Qed.
(** A page the old space does not have. *)
Lemma copied_skip pages l s old new n pages1 l1 s1 : is_root pages old → old ≠ new → Z.of_nat n * PGSIZE < MAXVA →
  copied kpt pages l s old new n pages1 l1 s1 →
  has_flag (trans (k_mem s1) old (Z.of_nat n * PGSIZE)) PTE_V = false →
  copied kpt pages l s old new (S n) pages1 l1 s1.
Proof.
  intros Hr Hne Hn [Hok Hg Ho Hd Hrest Hm] HV. assert (0 < PGSIZE ∧ 0 ≤ Z.of_nat n * PGSIZE) as [? ?] by (unfold_consts; lia).
  rewrite Ho in HV by (done || lia). split; [done | done | done | | |].
  - intros va Hva. destruct (decide (va < Z.of_nat n * PGSIZE)); [apply Hd; lia |].
    assert (va / PGSIZE = Z.of_nat n * PGSIZE / PGSIZE) as E by (apply page_number; [by rewrite Z.mod_mul | lia]).
    unfold page_copied. rewrite !(trans_page _ _ va _ E), HV. apply Hrest. lia.
  - intros va Hva. apply Hrest. lia.
  - intros p va Hp. destruct (Hm p va Hp) as [? | (? & ?)]; [by left | right]. split; [lia | done].
Qed.

Lemma flags_V v : has_flag v PTE_V = true → Z.lor (PTE_FLAGS v) PTE_V = PTE_FLAGS v.
Proof.
  unfold has_flag, PTE_FLAGS, PTE_V. intros H%negb_true_iff%Z.eqb_neq.
  change (Z.shiftl 1 0) with (Z.ones 1) in *. rewrite Z.land_ones in H by lia.
  apply Z.bits_inj'. intros n Hn. rewrite Z.lor_spec, Z.land_spec, Z.testbit_ones_nonneg by lia.
  destruct (Z.ltb_spec n 1); [| by rewrite orb_false_r]. replace n with 0 by lia.
  assert (Z.testbit v 0 = true) as ->; [| done].
  change (2 ^ 1) with 2 in H. rewrite <-(Z.bit0_mod v) in H. by destruct (Z.testbit v 0).
Qed.

Lemma PTE_FLAGS_range v : 0 ≤ PTE_FLAGS v < 2 ^ 10.
Proof. unfold PTE_FLAGS. change 0x3FF with (Z.ones 10). rewrite Z.land_ones by lia. apply Z.mod_pos_bound. lia. Qed.

(** The page that [uvmcopy] makes. *)
Lemma page_copied_new pages l s old new va pages1 l1 s1 pg l2 t m pages2 l3 s2 : vm_ok kpt pages l s →
  is_root pages old → is_root pages new → old ≠ kpt → old ≠ new → 0 ≤ va < TRAPFRAME → va mod PGSIZE = 0 →
  vm_ok kpt pages1 l1 s1 → grows (owned_by new) new pages l s pages1 l1 s1 →
  trans (k_mem s1) old va = trans (k_mem s) old va → has_flag (trans (k_mem s) old va) PTE_V = true →
  taken kpt pages1 l1 s1 pg l2 t →
  m = memmove (k_mem t) pg (PTE2PA (trans (k_mem s) old va)) (Z.to_nat PGSIZE) →
  page_added kpt pages1 l1 s1 new va pg (PTE_FLAGS (trans (k_mem s) old va)) (t <| k_mem := m |>) pages2 l3 s2 →
  page_copied (k_mem s) (k_mem s2) l old new va.
Proof.
  intros Hok Hro Hrn Hk Hne Hva Hal Hok1 Hg1 Ht1 HV Htk Hmv [Hok2 _ Hdata Hsame Ht2].
  assert (TRAPFRAME < MAXVA ∧ PHYSTOP < 2 ^ 56) as [? ?] by done.
  pose proof (tk_page _ _ _ _ _ _ _ Htk) as (Hpg & _ & Hnone). pose proof Hpg as (? & ? & ?).
  pose proof (g_pages _ _ _ _ _ _ _ _ Hg1) as Hmono.
  assert (pages !! PTE2PA (trans (k_mem s) old va) = Some (Data old (PGSIZE * (va / PGSIZE)))) as Hdt.
  { pose proof (Z.mul_div_le va PGSIZE ltac:(done)). apply (trans_data _ _ _ _ _ _ Hok Hro Hk); [lia | done | right; lia]. }
  unfold page_copied. rewrite HV. rewrite (Ht2 new va), decide_True by (done || by apply Hmono || lia).
  destruct (leaf_entry pg (PTE_FLAGS (trans (k_mem s) old va))) as (HV' & HP & HF & _);
    [lia | done | apply PTE_FLAGS_range |].
  rewrite HV', HP, HF, flags_V by done. split; [done |]. split; [done |]. split.
  { apply (g_sub _ _ _ _ _ _ _ _ Hg1). rewrite (tk_list _ _ _ _ _ _ _ Htk). left. }
  set (pa := PTE2PA (trans (k_mem s) old va)) in *. intros k Hkr. rewrite (Hsame (pg + k)) by lia. simpl.
  assert (page_ok pa) as Hpa by (by eapply (vm_page kpt pages)).
  assert (pa ≠ pg) as Hd by (intros ->; apply Hmono in Hdt; congruence).
  rewrite Hmv, memmove_mstore, mread_mstore, length_mload, Z2Nat.id, decide_True by (done || lia).
  rewrite (nth_lookup_Some _ _ _ (mread (k_mem t) (pa + k))).
  2: { rewrite lookup_mload by lia. do 2 f_equal. lia. }
  rewrite (tk_mem _ _ _ _ _ _ _ Htk) by (destruct (pages_disjoint pa pg Hpa Hpg Hd); lia).
  eapply grows_page; [exact Hok | exact Hg1 | exact Hdt | congruence | lia].
Qed.
Lemma copy_round_wp pages l s old new sz n pages1 l1 t : copyable kpt pages l s old new sz →
  copied kpt pages l s old new n pages1 l1 t → Z.of_nat n * PGSIZE < sz →
  wp (copy_round old new (Z.of_nat n * PGSIZE))
    (λ r t', match r with
             | inl i => i = Z.of_nat (S n) * PGSIZE ∧ ∃ pages2 l2, copied kpt pages l s old new (S n) pages2 l2 t'
             | inr (Some i) => i = Z.of_nat n * PGSIZE ∧ ∃ pages2 l2, copied kpt pages l s old new n pages2 l2 t'
             | inr None => False
             end) t.
Proof.
  intros [Hok Hlk [Hro Hko] [Hrn Hkn] Hne Hsz He] Hc Hn. set (i := Z.of_nat n * PGSIZE) in *.
  assert (TRAPFRAME + PGSIZE ≤ MAXVA ∧ MAXVA < 2 ^ 60) as [? ?] by done.
  assert (0 < PGSIZE ∧ 0 ≤ i) as [? ?] by (unfold i; unfold_consts; lia).
  assert (i mod PGSIZE = 0) as Hal by (unfold i; by rewrite Z.mod_mul).
  pose proof (g_pages _ _ _ _ _ _ _ _ (cp_grows _ _ _ _ _ _ _ _ _ _ Hc)) as Hmono.
  unfold copy_round. rewrite u64_small by lia. replace (i + PGSIZE) with (Z.of_nat (S n) * PGSIZE) by lia.
  eapply wp_bind_done; [apply walk_lookup; lia |]. rewrite leaf_page_pte.
  destruct (leaf_page _ _ _) as [p|] eqn:Hp; cbn [fmap option_fmap option_map].
  2: { apply wp_ret. split; [done |]. exists pages1, l1. apply copied_skip; try done; [fold i; lia |].
       fold i. by rewrite leaf_page_trans, Hp. }
  unfold kload64. apply wp_bind, wp_gets.
  assert (load64 (k_mem t) (p + 8 * PX 0 i) = trans (k_mem t) old i) as -> by (by rewrite leaf_page_trans, Hp).
  destruct (has_flag _ _) eqn:HV; cbn [negb].
  2: { apply wp_ret. split; [done |]. exists pages1, l1. apply copied_skip; try done. fold i; lia. }
  cbv zeta. pose proof (cp_ok _ _ _ _ _ _ _ _ _ _ Hc) as Hok1.
  assert (trans (k_mem t) old i = trans (k_mem s) old i) as Eo by (apply (cp_other _ _ _ _ _ _ _ _ _ _ Hc); [done | done | lia]).
  rewrite Eo in *. set (v := trans (k_mem s) old i) in *.
  assert (LkKmem ∉ k_held t) as Hlk1 by (by rewrite (grows_held _ _ _ _ _ _ _ _ (cp_grows _ _ _ _ _ _ _ _ _ _ Hc))).
  destruct (kalloc_taken kpt pages1 l1 t Hok1 Hlk1) as [[-> E] | (pg & l2 & t1 & E & Htk & Hnz)].
  { eapply wp_bind_done; [exact E |]. apply wp_ret. eauto. }
  eapply wp_bind_done; [exact E |]. rewrite (proj2 (Z.eqb_neq pg 0) Hnz).
  set (m := memmove (k_mem t1) pg (PTE2PA v) (Z.to_nat PGSIZE)).
  eapply (wp_bind_done _ _ _ _ tt (t1 <| k_mem := m |>)); [done |].
  assert (same_outside pg (k_mem t1) m) as Hm.
  { intros a Ha. unfold m. rewrite memmove_mstore. apply mread_mstore_out. rewrite length_mload. unfold_consts; lia. }
  destruct (map_taken kpt pages1 l1 t pg l2 _ new i (PTE_FLAGS v) Hok1 Hlk1 (taken_fill _ _ _ _ _ _ _ _ Htk Hm))
    as (r & s2 & Em & Hr); [by apply Hmono | lia | done | apply PTE_FLAGS_range | |].
  { rewrite (cp_rest _ _ _ _ _ _ _ _ _ _ Hc) by lia. apply He. lia. }
  eapply wp_bind_done; [exact Em |]. destruct Hr as [(-> & pages2 & l3 & Hpd) | (-> & s3 & pages2 & Ef & Hnd)]; cbn [Z.eqb negb].
  - apply wp_ret. split; [done |]. exists pages2, l3.
    eapply copied_S; [done | done | lia | apply PTE_FLAGS_range | exact Hc | exact Hpd |].
    eapply page_copied_new; [exact Hok | exact Hro | done | done | done | | done | exact Hok1 | apply Hc | exact Eo | done | exact Htk | done | exact Hpd].
    fold i. lia.
  - eapply wp_bind_done; [exact Ef |]. apply wp_ret. split; [done |]. exists pages2, [pg].
    eapply copied_more; [done | done | fold i; lia | exact Hc | exact Hnd].
Qed.
Lemma uvmcopy_loop pages l s old new sz : copyable kpt pages l s old new sz →
  wp (loop (S (Z.to_nat (sz / PGSIZE + 1))) (λ i, if i <? sz then copy_round old new i else ret (inr None)) 0)
    (λ r t, ∃ n pages' l', copied kpt pages l s old new n pages' l' t ∧
       match r with
       | None => sz ≤ Z.of_nat n * PGSIZE < sz + PGSIZE
       | Some i => i = Z.of_nat n * PGSIZE ∧ i < sz
       end) s.
Proof.
  intros Hca. pose proof (ca_sz _ _ _ _ _ _ _ Hca) as Hsz. assert (0 < PGSIZE) by done.
  assert (0 ≤ sz / PGSIZE) by (apply Z.div_pos; [lia | done]).
  eapply (wp_loop (λ i t, ∃ n pages' l', copied kpt pages l s old new n pages' l' t ∧ i = Z.of_nat n * PGSIZE ∧
      Z.of_nat n * PGSIZE < sz + PGSIZE) (λ i, Z.to_nat (sz / PGSIZE + 1 - i / PGSIZE))).
  3: { change (0 / PGSIZE) with 0. lia. }
  2: { exists 0%nat, pages, l. split; [apply copied_0, Hca | lia]. }
  intros i t (n & pages1 & l1 & Hc & -> & Hn). destruct (Z.ltb_spec (Z.of_nat n * PGSIZE) sz) as [Hlt | Hge].
  2: { apply wp_ret. exists n, pages1, l1. split; [done | lia]. }
  eapply wp_mono; [by eapply copy_round_wp |]. intros [i | [i |]] t' H'; [| | done].
  - destruct H' as (-> & pages2 & l2 & Hc'). split.
    + exists (S n), pages2, l2. split; [done | lia].
    + assert (Z.of_nat n ≤ sz / PGSIZE) by (apply Z.div_le_lower_bound; lia). rewrite !Z.div_mul by done. lia.
  - destruct H' as (-> & pages2 & l2 & Hc'). exists n, pages2, l2. split; [done | split; [done | lia]].
Qed.

(** The pages given back by a failed copy are pages it had taken. *)
Lemma copied_freed pages l s old new sz n pages1 l1 t p : copyable kpt pages l s old new sz →
  copied kpt pages l s old new n pages1 l1 t → Z.of_nat n * PGSIZE ≤ TRAPFRAME →
  p ∈ freed (k_mem t) new 0 n → p ∈ l.
Proof.
  intros Hca Hc Hn (i & Hi & HV & <-)%elem_of_freed. rewrite Z.add_0_l in *. assert (0 < PGSIZE) by done.
  assert (0 ≤ Z.of_nat i * PGSIZE < Z.of_nat n * PGSIZE) as Hr by (unfold_consts; lia).
  pose proof (cp_done _ _ _ _ _ _ _ _ _ _ Hc _ Hr) as Hd. unfold page_copied in Hd.
  destruct (has_flag (trans (k_mem s) old _) _); [by apply Hd |]. rewrite Hd in HV.
  rewrite (ca_empty _ _ _ _ _ _ _ Hca) in HV by lia. done.
Qed.

Lemma copy_undone pages l s old new sz n pages1 l1 t t' : copyable kpt pages l s old new sz →
  copied kpt pages l s old new n pages1 l1 t → Z.of_nat n * PGSIZE ≤ TRAPFRAME →
  unmapped kpt pages1 l1 t new 0 n t' →
  grows (table_of new) new pages l s (foldr delete pages1 (freed (k_mem t) new 0 n)) (freed (k_mem t) new 0 n ++ l1) t'.
Proof.
  intros Hca Hc Hn Hu. pose proof (cp_grows _ _ _ _ _ _ _ _ _ _ Hc) as Hg.
  pose proof (λ p, copied_freed _ _ _ _ _ _ _ _ _ _ p Hca Hc Hn) as Hfr.
  assert (∀ p u, p ∈ l → pages1 !! p = Some u → table_of new p u ∨ p ∈ freed (k_mem t) new 0 n) as Hcase.
  { intros p u Hin Hp. assert (pages !! p = None) as Hnone by (by apply (vo_notfree _ _ _ _ (ca_ok _ _ _ _ _ _ _ Hca))).
    destruct (g_new _ _ _ _ _ _ _ _ Hg p u Hp) as [? | [_ [? | [va ->]]]]; [congruence | by left | right].
    destruct (cp_mapped _ _ _ _ _ _ _ _ _ _ Hc p va Hp) as [? | (Hva & Hal & HV & HP)]; [congruence |].
    apply elem_of_freed. apply Z.mod_divide in Hal as [k ->]; [| done]. exists (Z.to_nat k).
    assert (0 < PGSIZE) by done. rewrite Z.add_0_l, Z2Nat.id by nia. split; [nia | done]. }
  split.
  - intros p u Hp. apply foldr_delete_lookup. split; [| by apply Hg]. intros Hin%Hfr.
    apply (vo_notfree _ _ _ _ (ca_ok _ _ _ _ _ _ _ Hca)) in Hin. congruence.
  - intros p u [Hnin Hp]%foldr_delete_lookup. destruct (g_new _ _ _ _ _ _ _ _ Hg p u Hp) as [? | [Hin _]]; [by left | right].
    split; [done |]. by destruct (Hcase p u Hin Hp).
  - intros p [Hin | Hin]%elem_of_app; [by apply Hfr | by apply Hg].
  - intros p Hin. destruct (g_free _ _ _ _ _ _ _ _ Hg p Hin) as [? | [u Hp]].
    { left. apply elem_of_app. by right. }
    destruct (decide (p ∈ freed (k_mem t) new 0 n)); [left; apply elem_of_app; by left | right].
    exists u. by apply foldr_delete_lookup.
  - pose proof (g_only _ _ _ _ _ _ _ _ Hg) as H1. pose proof (um_only _ _ _ _ _ _ _ _ Hu) as H2.
    unfold only_pages in *. rewrite H2, H1. by destruct s.
  - intros a Ht Hf. rewrite (um_mem _ _ _ _ _ _ _ _ Hu), (g_mem _ _ _ _ _ _ _ _ Hg); [done | done | done | |].
    + intros p q Hp. destruct (g_new _ _ _ _ _ _ _ _ Hg _ _ Hp) as [? | [? _]]; [by eapply Ht | by apply Hf].
    + intros p Hp. by apply Hf, Hfr.
Qed.
End uvmcopy.

(** ** Theorems *)

Section views.
Context {L : Layout} (kpt : Z).

(** The other spaces see nothing of the copy. *)
Lemma grows_other how pages l s new pages' l' s' root va : vm_ok kpt pages l s → vm_ok kpt pages' l' s' →
  grows how new pages l s pages' l' s' → is_root pages root → root ≠ kpt → root ≠ new → 0 ≤ va < MAXVA →
  trans (k_mem s') root va = trans (k_mem s) root va →
  user_byte (k_mem s') root va = user_byte (k_mem s) root va.
Proof.
  intros Hok Hok' Hg Hr Hk Hne Hva Ht.
  eapply user_byte_same; [exact Hok | exact Hok' | done | by apply Hg | done | done | done |].
  intros p va' Hp. eapply grows_page; [exact Hok | exact Hg | exact Hp | congruence].
Qed.

(** The child sees what the parent sees. *)
Lemma copied_byte pages l s old new sz n pages' l' s' va : copyable kpt pages l s old new sz →
  copied kpt pages l s old new n pages' l' s' → 0 ≤ va < Z.of_nat n * PGSIZE → Z.of_nat n * PGSIZE ≤ MAXVA → va < TRAPFRAME →
  user_byte (k_mem s') new va = user_byte (k_mem s) old va ∧
  (has_flag (trans (k_mem s) old va) PTE_V = true →
     PTE_FLAGS (trans (k_mem s') new va) = PTE_FLAGS (trans (k_mem s) old va)).
Proof.
  intros [Hok _ [Hro Hko] [Hrn Hkn] _ _ He] Hc Hva Hn Hlt. pose proof (cp_done _ _ _ _ _ _ _ _ _ _ Hc va Hva) as Hd.
  assert (is_root pages' new) as Hrn' by (by apply (g_pages _ _ _ _ _ _ _ _ (cp_grows _ _ _ _ _ _ _ _ _ _ Hc))).
  rewrite (user_byte_trans kpt pages' l' s') by (done || apply Hc || lia).
  rewrite (user_byte_trans kpt pages l s) by (done || lia). unfold page_copied in Hd. unfold user_ok.
  destruct (has_flag (trans (k_mem s) old va) PTE_V) eqn:HV.
  - destruct Hd as (HV' & HF & _ & Hb). split; [| done]. rewrite HV'. simpl.
    assert (has_flag (trans (k_mem s') new va) PTE_U = has_flag (trans (k_mem s) old va) PTE_U) as ->.
    { by rewrite (has_flag_FLAGS (trans (k_mem s') new va)), (has_flag_FLAGS (trans (k_mem s) old va)), HF. }
    destruct (has_flag (trans (k_mem s) old va) PTE_U); [| done]. f_equal. apply Hb. apply Z.mod_pos_bound. done.
  - rewrite Hd, He by lia. done.
Qed.
End views.

(** C16: fork's copy of memory.  When [uvmcopy] succeeds, every byte of the new
    address space below [sz] is the byte of the old one, with the same
    permissions, in pages that were free before; when it runs out of memory it
    returns -1, the new space is empty again and every page it had taken is free
    or a table of the new space.  Either way no other address space changes, and
    the page tables and the free list stay well-formed. *)
Theorem uvmcopy_copies_memory {L : Layout} kpt pages l s old new sz : copyable kpt pages l s old new sz →
  ∃ r s' pages' l', uvmcopy old new sz s = Done r s' ∧ vm_ok kpt pages' l' s' ∧
    (∀ root va, is_root pages root → root ≠ kpt → root ≠ new → 0 ≤ va < MAXVA →
       user_byte (k_mem s') root va = user_byte (k_mem s) root va) ∧
    ((r = 0 ∧ grows (owned_by new) new pages l s pages' l' s' ∧
      ∀ va, 0 ≤ va < sz →
        user_byte (k_mem s') new va = user_byte (k_mem s) old va ∧
        (has_flag (trans (k_mem s) old va) PTE_V = true →
           PTE_FLAGS (trans (k_mem s') new va) = PTE_FLAGS (trans (k_mem s) old va))) ∨
     (r = -1 ∧ grows (table_of new) new pages l s pages' l' s' ∧
      ∀ va, 0 ≤ va < TRAPFRAME → has_flag (trans (k_mem s') new va) PTE_V = false)).
Proof.
  intros Hca. assert (TRAPFRAME + PGSIZE ≤ MAXVA ∧ 0 < PGSIZE) as [? ?] by done.
  destruct (wp_elim _ _ _ (uvmcopy_loop kpt pages l s old new sz Hca)) as (r & t & E & n & pages1 & l1 & Hc & Hr).
  pose proof Hca as [Hok Hlk _ [Hrn Hkn] _ Hsz He]. unfold uvmcopy.
  pose proof (cp_grows _ _ _ _ _ _ _ _ _ _ Hc) as Hg. erewrite bind_done by exact E. destruct r as [i|].
  - destruct Hr as [-> Hlt]. rewrite Z.div_mul by done.
    destruct (uvmunmap_done kpt pages1 l1 t new 0 n) as (t' & Eu & Hu); [apply Hc | | by apply Hg | done | done | done | lia |].
    { by rewrite (grows_held _ _ _ _ _ _ _ _ Hg). }
    erewrite bind_done by exact Eu. do 4 eexists. split; [reflexivity |]. split; [apply Hu |].
    pose proof (copy_undone _ _ _ _ _ _ _ _ _ _ _ _ Hca Hc ltac:(lia) Hu) as Hg'. split.
    + intros root va Hr Hk Hne Hva. eapply grows_other; [exact Hok | apply Hu | exact Hg' | done.. |].
      rewrite (um_trans _ _ _ _ _ _ _ _ Hu), bool_decide_false by (tauto || by apply Hg || done).
      by apply (cp_other _ _ _ _ _ _ _ _ _ _ Hc).
    + right. split; [done |]. split; [exact Hg' |]. intros va Hva.
      rewrite (um_trans _ _ _ _ _ _ _ _ Hu) by (by apply Hg || lia). unfold cleared. case_bool_decide as Hd.
      * destruct (has_flag (trans (k_mem t) new va) PTE_V) eqn:HV; simpl; [done | by rewrite HV].
      * simpl. rewrite (cp_rest _ _ _ _ _ _ _ _ _ _ Hc) by lia. by apply He.
  - do 4 eexists. split; [reflexivity |]. split; [apply Hc |]. split.
    + intros root va Hr' Hk Hne Hva. eapply grows_other; [exact Hok | apply Hc | exact Hg | done.. |].
      by apply (cp_other _ _ _ _ _ _ _ _ _ _ Hc).
    + left. split; [done |]. split; [exact Hg |]. intros va Hva. eapply copied_byte; [exact Hca | exact Hc | lia | lia | lia].
Qed.
