(* ===== verification/CopySpec.v ===== *)
(** * Copies between the kernel and user memory (kernel/vm.c)

    A process sees its memory as bytes with permissions; pages it has not touched
    yet read as zeros and get a page at their first use.  [copyout] and [copyin]
    work page by page through the page table; here they are shown to write and
    read that view, and to leave the views of all other processes alone. *)

From S2P Require Import Prelude Machine Kstate Logic Strings Sched Kalloc Vm VmSpec UvmSpec.

(** The byte at an address of a process of size [sz], and whether it may be
    written. *)
Definition view (sz : Z) (m : gmap Z Z) (root va : Z) : option (Z * bool) :=
  let v := trans m root va in
  if has_flag v PTE_V then
    if has_flag v PTE_U then Some (mread m (PTE2PA v + va mod PGSIZE), has_flag v PTE_W) else None
  else if PGSIZE * (va / PGSIZE) <? sz then Some (0, true) else None.

(** The running process has the page table [pt] and the size [sz]. *)
Record space {L : Layout} (kpt : Z) (pages : gmap Z puse) (l : list Z) (s : kstate) (pt sz : Z) : Prop := {
  sp_ok : vm_ok kpt pages l s;
  sp_lock : LkKmem ∉ k_held s;
  sp_root : is_root pages pt;
  sp_user : pt ≠ kpt;
  sp_sz : 0 ≤ sz ≤ TRAPFRAME;
  sp_run : ∃ p pr, k_cur s = Some p ∧ k_procs s !! p = Some pr ∧ p_pagetable pr = pt ∧ p_sz pr = sz;
}.

(** Nobody sees a difference. *)
Definition same_view (kpt : Z) (pages : gmap Z puse) (m m' : gmap Z Z) (pt sz : Z) : Prop :=
  ∀ root sz' va, is_root pages root → root ≠ kpt → (root = pt → sz' = sz) → 0 ≤ va < MAXVA →
    view sz' m' root va = view sz' m root va.

Section views.
Context {L : Layout} (kpt : Z).

Lemma view_same pages l s m' root sz va : vm_ok kpt pages l s → is_root pages root → root ≠ kpt →
  0 ≤ va < MAXVA → trans m' root va = trans (k_mem s) root va →
  (∀ p va', pages !! p = Some (Data root va') → same_page p (k_mem s) m') →
  view sz m' root va = view sz (k_mem s) root va.
Proof.
  intros Hok Hr Hk Hva Ht Hs. unfold view. rewrite Ht. destruct (has_flag _ PTE_V) eqn:HV; [| done].
  destruct (has_flag _ PTE_U) eqn:HU; [| done]. do 2 f_equal.
  pose proof (trans_data _ _ _ _ _ _ Hok Hr Hk Hva HV (or_introl HU)) as Hd.
  apply (Hs _ _ Hd). pose proof (Z.mod_pos_bound va PGSIZE ltac:(done)). lia.
Qed.

Lemma grows_data how pages l s root pages' l' s' p r va : vm_ok kpt pages l s →
  grows how root pages l s pages' l' s' → pages !! p = Some (Data r va) → same_page p (k_mem s) (k_mem s').
Proof. intros Hok Hg Hp. eapply grows_page; [exact Hok | exact Hg | exact Hp | done]. Qed.

Lemma no_page_view pages l s pt sz pages' l' s' : vm_ok kpt pages l s →
  no_page_added kpt pages l s pt pages' l' s' → same_view kpt pages (k_mem s) (k_mem s') pt sz.
Proof.
  intros Hok [_ Hg Ht] root sz' va Hr Hk _ Hva. eapply view_same; [done.. | by apply Ht |].
  intros p va'. by eapply grows_data.
Qed.

(** A fresh page of zeros is what the process saw before. *)
Lemma zero_page_view pages l s pt sz va0 pg s1 pages' l' s' : vm_ok kpt pages l s → is_root pages pt →
  0 ≤ va0 < sz → va0 mod PGSIZE = 0 → sz ≤ TRAPFRAME → has_flag (trans (k_mem s) pt va0) PTE_V = false →
  page_added kpt pages l s pt va0 pg (Z.lor (Z.lor PTE_W PTE_U) PTE_R) s1 pages' l' s' →
  (∀ k, 0 ≤ k < PGSIZE → mread (k_mem s1) (pg + k) = 0) →
  same_view kpt pages (k_mem s) (k_mem s') pt sz ∧
  user_ok (trans (k_mem s') pt va0) = true ∧ PTE2PA (trans (k_mem s') pt va0) = pg.
Proof.
  intros Hok Hrp Hva0 Hal Hsz HV [Hok' Hg Hdata Hpage Ht] Hz. assert (TRAPFRAME < MAXVA ∧ PHYSTOP < 2 ^ 56) as [? ?] by done.
  destruct (vm_page _ _ _ _ _ _ Hok' Hdata) as (? & ? & ?).
  destruct (leaf_entry pg (Z.lor (Z.lor PTE_W PTE_U) PTE_R)) as (HV' & HP & HF & HU & _); [lia | done | done |].
  split.
  2: { rewrite Ht, decide_True by (done || lia). unfold user_ok. by rewrite HV', HU, HP. }
  intros root sz' va Hr Hk Hsz' Hva. specialize (Ht root va Hr Hva). case_decide as Hd.
  - destruct Hd as [-> Hd]. rewrite Hsz' by done. unfold view. rewrite Ht, HV', HU, HP.
    rewrite (trans_page (k_mem s) pt va va0), HV by done.
    rewrite (proj2 (Z.ltb_lt _ sz)) by (rewrite Hd, <-Z_div_exact_full_2 by done; lia).
    pose proof (Z.mod_pos_bound va PGSIZE ltac:(done)).
    rewrite (Hpage (pg + va mod PGSIZE)) by lia. rewrite Hz by lia.
    by rewrite (has_flag_FLAGS _ PTE_W), HF.
  - eapply view_same; [done.. |]. intros p va'. by eapply grows_data.
Qed.
End views.

(** ** The page of an address *)

(** [walkaddr], and [vmfault] when there is no page yet. *)
Definition resolve {L : Layout} (pagetable va0 : Z) : K Z :=
  pa ← walkaddr pagetable va0;
  if pa =? 0 then vmfault pagetable va0 0 else ret pa.

Section resolve.
Context {L : Layout} (kpt : Z).

Lemma space_only pages l s pt sz pages' l' s' : space kpt pages l s pt sz → vm_ok kpt pages' l' s' →
  only_pages s s' → is_root pages' pt → space kpt pages' l' s' pt sz.
Proof.
  intros [_ Hlk _ Hk Hsz Hrun] Hok Hon Hr. split; try done.
  - by rewrite (only_pages_held s s').
  - unfold only_pages in Hon. by rewrite Hon.
Qed.

(** What a lookup that may allocate leaves behind. *)
Record resolved pages s pt sz pages' l' s' : Prop := {
  rs_space : space kpt pages' l' s' pt sz;
  rs_only : only_pages s s';
  rs_roots : ∀ root, is_root pages root → is_root pages' root;
  rs_view : same_view kpt pages (k_mem s) (k_mem s') pt sz;
}.

Lemma resolved_refl pages l s pt sz : space kpt pages l s pt sz → resolved pages s pt sz pages l s.
Proof. intros H. split; [done | by destruct s | done | by intros root sz' va]. Qed.

Lemma PGROUNDDOWN_aligned a : 0 ≤ a < 2 ^ 64 → a mod PGSIZE = 0 → PGROUNDDOWN a = a.
Proof. intros Ha Hal. rewrite PGROUNDDOWN_spec by done. by rewrite <-Z_div_exact_full_2. Qed.

Lemma ismapped_done pt va s : va < MAXVA → ismapped pt va s = Done (has_flag (trans (k_mem s) pt va) PTE_V) s.
Proof.
  intros Hva. unfold ismapped. rewrite (bind_done _ _ _ _ _ (walk_lookup pt va s Hva)).
  rewrite leaf_page_pte, leaf_page_trans. by destruct (leaf_page (k_mem s) pt va).
Qed.

Lemma vmfault_done pages l s pt sz va0 : space kpt pages l s pt sz → 0 ≤ va0 < MAXVA → va0 mod PGSIZE = 0 →
  user_ok (trans (k_mem s) pt va0) = false →
  ∃ pa s' pages' l', vmfault pt va0 0 s = Done pa s' ∧ resolved pages s pt sz pages' l' s' ∧
    if pa =? 0 then view sz (k_mem s) pt va0 = None ∨ (length l' ≤ 1)%nat
    else user_ok (trans (k_mem s') pt va0) = true ∧ PTE2PA (trans (k_mem s') pt va0) = pa.
Proof.
  intros Hsp Hva Hal Hu. pose proof Hsp as [Hok Hlk Hr Hk Hsz (p & pr & Hcur & Hpr & <- & Esz)].
  assert (TRAPFRAME < MAXVA ∧ MAXVA < 2 ^ 64) as [? ?] by done.
  assert (PGSIZE * (va0 / PGSIZE) = va0) as Ediv by (by rewrite <-Z_div_exact_full_2).
  unfold vmfault. rewrite (bind_done _ _ _ _ _ (curproc_done _ _ Hcur)), (bind_done _ _ _ _ _ (get_proc_done _ _ _ Hpr)).
  rewrite Esz, PGROUNDDOWN_aligned by (done || lia). destruct (Z.leb_spec sz va0) as [Hge | Hlt].
  { do 4 eexists. split; [reflexivity |]. split; [by apply resolved_refl |]. left. unfold view.
    rewrite Ediv, (proj2 (Z.ltb_ge va0 sz)) by lia. unfold user_ok in Hu. by do 2 destruct (has_flag _ _). }
  rewrite (bind_done _ _ _ _ _ (ismapped_done (p_pagetable pr) va0 s ltac:(lia))). destruct (has_flag _ PTE_V) eqn:HV.
  { do 4 eexists. split; [reflexivity |]. split; [by apply resolved_refl |]. left. unfold view.
    unfold user_ok in Hu. rewrite HV in *. simpl in Hu. by rewrite Hu. }
  destruct (kalloc_taken kpt pages l s Hok Hlk) as [[-> E] | (pg & l1 & s1 & E & Htk & Hnz)].
  { rewrite (bind_done _ _ _ _ _ E). do 4 eexists. split; [reflexivity |]. split; [by apply resolved_refl |]. right. simpl. lia. }
  rewrite (bind_done _ _ _ _ _ E), (proj2 (Z.eqb_neq pg 0) Hnz), (bind_done _ _ _ _ _ (kmemset_done _ _ _ _)).
  pose proof (same_outside_memset (k_mem s1) pg 0) as Ho.
  assert (∀ k, 0 ≤ k < PGSIZE → mread (memset (k_mem s1) pg 0 (Z.to_nat PGSIZE)) (pg + k) = 0) as Hz.
  { intros k Hkr. rewrite memset_mstore, mread_mstore, length_replicate, decide_True by (rewrite ?Z2Nat.id; [lia | done]).
    apply nth_lookup_Some, lookup_replicate_2. unfold_consts. lia. }
  revert Ho Hz. generalize (memset (k_mem s1) pg 0 (Z.to_nat PGSIZE)). intros m1 Ho Hz.
  destruct (map_taken kpt pages l s pg l1 _ (p_pagetable pr) va0 (Z.lor (Z.lor PTE_W PTE_U) PTE_R) Hok Hlk
    (taken_fill _ _ _ _ _ _ _ _ Htk Ho)) as (r & s2 & Em & Hres); [done | lia | done | done | done |].
  rewrite (bind_done _ _ _ _ _ Em). destruct Hres as [(-> & pages2 & l2 & Hpd) | (-> & s3 & pages2 & Ef & Hnd)]; cbn [Z.eqb negb].
  - exists pg, s2, pages2, l2. split; [done |]. rewrite (proj2 (Z.eqb_neq pg 0) Hnz).
    destruct (zero_page_view kpt pages l s (p_pagetable pr) sz va0 pg _ pages2 l2 s2 Hok Hr ltac:(lia) Hal ltac:(lia) HV Hpd Hz) as [Hview Hnew].
    split; [| done]. destruct Hpd as [Hok2 Hg _ _ _].
    split; [by eapply space_only; [| | apply Hg | by apply Hg] | apply Hg | | done]. intros root. apply Hg.
  - rewrite (bind_done _ _ _ _ _ Ef). exists 0, s3, pages2, [pg]. split; [done |]. split; [| right; simpl; lia].
    pose proof (no_page_view _ _ _ _ _ sz _ _ _ Hok Hnd) as Hview. destruct Hnd as [Hok2 Hg _].
    split; [by eapply space_only; [| | apply Hg | by apply Hg] | apply Hg | | done]. intros root. apply Hg.
Qed.

Lemma resolve_done pages l s pt sz va0 : space kpt pages l s pt sz → 0 ≤ va0 < MAXVA → va0 mod PGSIZE = 0 →
  ∃ pa s' pages' l', resolve pt va0 s = Done pa s' ∧ resolved pages s pt sz pages' l' s' ∧
    if pa =? 0 then view sz (k_mem s) pt va0 = None ∨ (length l' ≤ 1)%nat
    else user_ok (trans (k_mem s') pt va0) = true ∧ PTE2PA (trans (k_mem s') pt va0) = pa.
Proof.
  intros Hsp Hva Hal. unfold resolve. rewrite (bind_done _ _ _ _ _ (walkaddr_lookup _ _ _)).
  rewrite user_page_trans by done. destruct (user_ok _) eqn:Hu.
  - pose proof Hsp as [Hok _ Hr Hk _ _]. pose proof Hu as [HV HU]%andb_true_iff.
    pose proof (trans_data _ _ _ _ _ _ Hok Hr Hk Hva HV (or_introl HU)) as Hd.
    destruct (vm_page _ _ _ _ _ _ Hok Hd) as (_ & _ & Hpos). rewrite (proj2 (Z.eqb_neq _ 0)) by lia.
    do 4 eexists. split; [reflexivity |]. split; [by apply resolved_refl |]. by rewrite (proj2 (Z.eqb_neq _ 0)) by lia.
  - cbn [Z.eqb]. by eapply vmfault_done.
Qed.
End resolve.

(** ** copyout *)

(** The view of [m] with the first [k] bytes of [src] written from [dstva] on. *)
Definition wrote (kpt : Z) (pages : gmap Z puse) (m m' : gmap Z Z) (pt sz dstva : Z) (src : list Z) (k : nat) : Prop :=
  ∀ root sz' va, is_root pages root → root ≠ kpt → (root = pt → sz' = sz) → 0 ≤ va < MAXVA →
    view sz' m' root va =
      if decide (root = pt ∧ dstva ≤ va < dstva + Z.of_nat k) then (λ b, (b, true)) <$> src !! Z.to_nat (va - dstva)
      else view sz' m root va.

(** The address can be written. *)
Definition writable (sz : Z) (m : gmap Z Z) (root va : Z) : Prop := ∃ b, view sz m root va = Some (b, true).

(** One round of the loop of [copyout], for the bytes [src] that are left. *)
Definition copyout_round {L : Layout} (pagetable dstva : Z) (src : list Z) : K (Z * list Z + Z) :=
  let va0 := PGROUNDDOWN dstva in
  if MAXVA <=? va0 then ret (inr (-1))
  else
    pa ← walkaddr pagetable va0;
    pa0 ← (if pa =? 0 then vmfault pagetable va0 0 else ret pa);
    if pa0 =? 0 then ret (inr (-1))
    else
      pte ← walk pagetable va0 0;
      pte ← nonnull pte;
      v ← kload64 pte;
      if negb (has_flag v PTE_W) then ret (inr (-1))
      else
        let n := Z.min (PGSIZE - (dstva - va0)) (Z.of_nat (length src)) in
        kstore (u64 (pa0 + (dstva - va0))) (take (Z.to_nat n) src);;
        ret (inl (u64 (va0 + PGSIZE), drop (Z.to_nat n) src)).

Section copyout.
Context {L : Layout} (kpt : Z).

(** Bytes written to one page of a process. *)
Lemma store_user pages l s pt sz va0 off bs : space kpt pages l s pt sz → 0 ≤ va0 < MAXVA → va0 mod PGSIZE = 0 →
  user_ok (trans (k_mem s) pt va0) = true → has_flag (trans (k_mem s) pt va0) PTE_W = true →
  0 ≤ off → off + Z.of_nat (length bs) ≤ PGSIZE →
  let m' := mstore (k_mem s) (PTE2PA (trans (k_mem s) pt va0) + off) bs in
  space kpt pages l (s <| k_mem := m' |>) pt sz ∧
  wrote kpt pages (k_mem s) m' pt sz (va0 + off) bs (length bs).
Proof.
  intros Hsp Hva0 Hal Hu HW Hoff Hlen m'. pose proof Hsp as [Hok _ Hr Hk _ _]. pose proof Hu as [HV HU]%andb_true_iff.
  pose proof (trans_data _ _ _ _ _ _ Hok Hr Hk Hva0 HV (or_introl HU)) as Hd.
  rewrite <-Z_div_exact_full_2 in Hd by done. set (pa := PTE2PA (trans (k_mem s) pt va0)) in *.
  assert (page_ok pa) as Hpg by (by eapply vm_page).
  assert (same_outside pa (k_mem s) m') as Ho by (intros a Ha; apply mread_mstore_out; lia).
  assert (∀ root va, is_root pages root → trans m' root va = trans (k_mem s) root va) as Ht.
  { intros root va Hr'. apply (trans_same kpt pages l); [done | done |]. intros p q Hp.
    apply (same_page_outside pa); [done | by eapply vm_page | congruence | done]. }
  split.
  { eapply space_only; [exact Hsp | | by destruct s | done].
    apply (vm_ok_page _ _ _ _ pa); [done | done | eapply table_not_free; [apply Hok | done] | congruence | done]. }
  intros root sz' va Hr' Hk' _ Hva. destruct (decide (root = pt ∧ va / PGSIZE = va0 / PGSIZE)) as [[-> Hpn] | Hne].
  - pose proof (proj2 (page_number va va0 Hal) Hpn) as Hin.
    assert (va mod PGSIZE = va - va0) as Emod by (symmetry; apply Z.mod_unique with (va0 / PGSIZE);
      [lia | rewrite <-Z_div_exact_full_2 by done; lia]).
    unfold view. rewrite Ht, (trans_page _ _ va va0), HV, HU, HW by done. fold pa. rewrite Emod.
    unfold m'. rewrite mread_mstore. case_decide as Hd1; case_decide as Hd2; [| lia | lia | done].
    rewrite (list_lookup_lookup_total_lt bs) by lia. simpl. do 2 f_equal. rewrite nth_lookup.
    replace (Z.to_nat (pa + (va - va0) - (pa + off))) with (Z.to_nat (va - (va0 + off))) by lia.
    by rewrite (list_lookup_lookup_total_lt bs) by lia.
  - rewrite decide_False by (intros [-> ?]; apply Hne; split; [done | apply page_number; [done | lia]]).
    unfold view. rewrite Ht by done. destruct (has_flag (trans _ root _) PTE_V) eqn:HV'; [| done].
    destruct (has_flag (trans _ root _) PTE_U) eqn:HU'; [| done]. do 2 f_equal.
    pose proof (trans_data _ _ _ _ _ _ Hok Hr' Hk' Hva HV' (or_introl HU')) as Hd'.
    assert (PTE2PA (trans (k_mem s) root va) ≠ pa) as Hd2.
    { intros E. rewrite E, Hd in Hd'. injection Hd' as <- E'. apply Hne. split; [done |].
      rewrite E', (Z.mul_comm PGSIZE), Z.div_mul by done. done. }
    pose proof (vm_page _ _ _ _ _ _ Hok Hd') as Hpg'. pose proof (Z.mod_pos_bound va PGSIZE ltac:(done)).
    apply (same_page_outside pa (PTE2PA (trans (k_mem s) root va)) (k_mem s)); [done | done | done | done | lia].
Qed.
(** A write continues a write. *)
Lemma wrote_app pages m m1 m' pt sz dstva src k n :
  wrote kpt pages m m1 pt sz dstva src k →
  wrote kpt pages m1 m' pt sz (dstva + Z.of_nat k) (take n (drop k src)) n → (k + n ≤ length src)%nat →
  wrote kpt pages m m' pt sz dstva src (k + n).
Proof.
  intros H1 H2 Hlen root sz' va Hr Hk Hsz Hva. rewrite H2, H1 by done.
  destruct (decide (root = pt)) as [-> | Hne]; [| by rewrite !decide_False by tauto].
  case_decide as D1; case_decide as D2; [| lia | | by rewrite decide_False by lia].
  - rewrite lookup_take_lt, lookup_drop by lia. do 2 f_equal. lia.
  - case_decide as D3; [done | lia].
Qed.

Lemma wrote_nil pages m m' pt sz dstva src : same_view kpt pages m m' pt sz → wrote kpt pages m m' pt sz dstva src 0.
Proof. intros H root sz' va Hr Hk Hsz Hva. rewrite decide_False by lia. by apply H. Qed.

Lemma view_page sz m root va va' : va / PGSIZE = va' / PGSIZE → view sz m root va = None → view sz m root va' = None.
Proof.
  intros E. unfold view. rewrite (trans_page _ _ va va'), E by done. destruct (has_flag _ PTE_V);
    [by destruct (has_flag _ PTE_U) | by destruct (_ <? _)].
Qed.

(** What [copyout] has done after [k] bytes. *)
Record copied_out pages s pt sz dstva src k pages' l' t : Prop := {
  co_space : space kpt pages' l' t pt sz;
  co_only : only_pages s t;
  co_roots : ∀ root, is_root pages root → is_root pages' root;
  co_wrote : wrote kpt pages (k_mem s) (k_mem t) pt sz dstva src k;
}.

Lemma copied_out_resolved pages s pt sz dstva src k pages1 l1 t pages2 l2 t2 :
  copied_out pages s pt sz dstva src k pages1 l1 t → resolved kpt pages1 t pt sz pages2 l2 t2 →
  copied_out pages s pt sz dstva src k pages2 l2 t2.
Proof.
  intros [Hsp Hon Hr Hw] [Hsp2 Hon2 Hr2 Hv]. split; [done | | auto |].
  - unfold only_pages in *. rewrite Hon2, Hon. by destruct s.
  - intros root sz' va Hroot Hk Hsz Hva. rewrite Hv by auto. by apply Hw.
Qed.
Lemma copied_out_store pages s pt sz dstva src k n pages1 l1 t va0 : copied_out pages s pt sz dstva src k pages1 l1 t →
  0 ≤ va0 < MAXVA → va0 mod PGSIZE = 0 → user_ok (trans (k_mem t) pt va0) = true →
  has_flag (trans (k_mem t) pt va0) PTE_W = true → (k + n ≤ length src)%nat →
  va0 ≤ dstva + Z.of_nat k → dstva + Z.of_nat (k + n) ≤ va0 + PGSIZE →
  copied_out pages s pt sz dstva src (k + n) pages1 l1
    (t <| k_mem := mstore (k_mem t) (PTE2PA (trans (k_mem t) pt va0) + (dstva + Z.of_nat k - va0)) (take n (drop k src)) |>).
Proof.
  intros [Hsp Hon Hr Hw] Hva0 Hal Hu HW Hlen Hlo Hhi.
  assert (length (take n (drop k src)) = n) as El by (rewrite length_take, length_drop; lia).
  destruct (store_user _ _ _ _ _ va0 (dstva + Z.of_nat k - va0) (take n (drop k src)) Hsp Hva0 Hal Hu HW) as [Hsp' Hw'];
    [lia | lia |].
  rewrite El in Hw'. replace (va0 + (dstva + Z.of_nat k - va0)) with (dstva + Z.of_nat k) in Hw' by lia.
  split; [exact Hsp' | | exact Hr |].
  - unfold only_pages in *. rewrite Hon. by destruct s.
  - eapply wrote_app; [exact Hw | | done]. intros root sz' va Hroot. apply Hw'. by apply Hr.
Qed.

Lemma user_ok_leaf m root va : user_ok (trans m root va) = true → ∃ p, leaf_page m root va = Some p.
Proof. rewrite leaf_page_trans. destruct (leaf_page m root va) as [p|]; [by exists p | done]. Qed.

(** The page of an address: where it starts and what is left of it. *)
Lemma page_start dst : 0 ≤ dst < 2 ^ 64 →
  let va0 := PGROUNDDOWN dst in
  va0 mod PGSIZE = 0 ∧ 0 ≤ va0 ∧ va0 ≤ dst < va0 + PGSIZE ∧ va0 / PGSIZE = dst / PGSIZE ∧
  (va0 < MAXVA → va0 + PGSIZE ≤ MAXVA).
Proof.
  intros Hd va0. pose proof (PGROUNDDOWN_off dst Hd) as Hoff. pose proof (Z.mod_pos_bound dst PGSIZE ltac:(done)).
  assert (va0 = dst / PGSIZE * PGSIZE) as E by (unfold va0; rewrite PGROUNDDOWN_spec by lia; lia).
  assert (0 ≤ dst / PGSIZE) by (apply Z.div_pos; [lia | done]). fold va0 in Hoff.
  assert (MAXVA = 2 ^ 26 * PGSIZE) as Em by done. assert (PGSIZE = 4096) as Ep by done.
  split; [rewrite E; by apply Z.mod_mul |]. split; [lia |]. split; [lia |].
  split; [rewrite E; by apply Z.div_mul |]. lia.
Qed.

(** Why a copy can stop early. *)
Definition stopped (sz : Z) (m : gmap Z Z) (pt va : Z) (l : list Z) : Prop :=
  MAXVA ≤ va ∨ ¬ writable sz m pt va ∨ (length l ≤ 1)%nat.

Lemma copyout_round_wp pages s pt sz dstva src k pages1 l1 t : (k < length src)%nat → 0 ≤ dstva →
  dstva + Z.of_nat k < 2 ^ 64 → is_root pages pt → copied_out pages s pt sz dstva src k pages1 l1 t →
  wp (copyout_round pt (dstva + Z.of_nat k) (drop k src))
    (λ r t', match r with
       | inl (dst, src') => ∃ n pages2 l2, (0 < n)%nat ∧ (k + n ≤ length src)%nat ∧ src' = drop (k + n) src ∧
           ((k + n < length src)%nat → dst = dstva + Z.of_nat (k + n)) ∧ 0 ≤ dst < 2 ^ 64 ∧
           (pages_left dst (Z.of_nat (length src')) < pages_left (dstva + Z.of_nat k) (Z.of_nat (length src - k)))%nat ∧
           copied_out pages s pt sz dstva src (k + n) pages2 l2 t'
       | inr r => r = -1 ∧ ∃ pages2 l2, copied_out pages s pt sz dstva src k pages2 l2 t' ∧
           stopped sz (k_mem s) pt (dstva + Z.of_nat k) l2
       end) t.
Proof.
  intros Hk Hd0 Hd64 Hroot Hco. set (dst := dstva + Z.of_nat k) in *. assert (MAXVA + PGSIZE < 2 ^ 64 ∧ 0 < PGSIZE) as [? ?] by done.
  destruct (page_start dst ltac:(lia)) as (Hal & Hva0 & Hin & Hpn & Hmax). set (va0 := PGROUNDDOWN dst) in *.
  assert (∀ m', same_view kpt pages (k_mem t) m' pt sz → dst < MAXVA → view sz m' pt dst = view sz (k_mem s) pt dst) as Hback.
  { intros m' Hv Hlt. rewrite Hv by (done || apply Hco || lia). rewrite (co_wrote _ _ _ _ _ _ _ _ _ _ Hco) by (done || apply Hco || lia).
    by rewrite decide_False by (unfold dst; lia). }
  unfold copyout_round. fold va0. cbv zeta. destruct (Z.leb_spec MAXVA va0) as [Hbig | Hsmall].
  { apply wp_ret. split; [done |]. exists pages1, l1. split; [done |]. left. lia. }
  apply Hmax in Hsmall. clear Hmax. apply wp_assoc. fold (resolve pt va0).
  destruct (resolve_done kpt pages1 l1 t pt sz va0) as (pa & t1 & pages2 & l2 & E & Hrs & Hpa); [apply Hco | lia | done |].
  pose proof (copied_out_resolved _ _ _ _ _ _ _ _ _ _ _ _ _ Hco Hrs) as Hco2.
  assert (same_view kpt pages (k_mem t) (k_mem t1) pt sz) as Hview.
  { intros root sz' va Hr Hkp Hsz Hva. apply (rs_view _ _ _ _ _ _ _ _ Hrs); [| done..]. by apply Hco. }
  eapply wp_bind_done; [exact E |]. destruct (pa =? 0).
  { apply wp_ret. split; [done |]. exists pages2, l2. split; [done |]. right. destruct Hpa as [Hnone | ?]; [left | by right].
    intros [b Hb]. rewrite <-(Hback (k_mem t)), (view_page _ _ _ va0 dst Hpn Hnone) in Hb; [done | by intros ??? | lia]. }
  destruct Hpa as [Hu <-]. eapply wp_bind_done; [apply walk_lookup; lia |]. rewrite leaf_page_pte.
  destruct (user_ok_leaf _ _ _ Hu) as [p Hp]. rewrite Hp. cbn [fmap option_fmap option_map].
  unfold nonnull. apply wp_bind. eapply wp_must; [done |]. unfold kload64. apply wp_bind, wp_gets.
  assert (load64 (k_mem t1) (p + 8 * PX 0 va0) = trans (k_mem t1) pt va0) as -> by (by rewrite leaf_page_trans, Hp).
  destruct (has_flag (trans (k_mem t1) pt va0) PTE_W) eqn:HW; cbn [negb].
  2: { apply wp_ret. split; [done |]. exists pages2, l2. split; [done |]. right. left. intros [b Hb].
       rewrite <-(Hback (k_mem t1)) in Hb by (done || lia). unfold view in Hb. pose proof Hu as [HV HU]%andb_true_iff.
       by rewrite (trans_page _ _ dst va0), HW, HV, HU in Hb by done. }
  pose proof (sp_ok _ _ _ _ _ _ (rs_space _ _ _ _ _ _ _ _ Hrs)) as Hok2. pose proof Hu as [HV HU]%andb_true_iff.
  destruct (vm_page _ _ _ _ _ _ Hok2 (trans_data _ _ _ _ _ va0 Hok2 (sp_root _ _ _ _ _ _ (rs_space _ _ _ _ _ _ _ _ Hrs))
    (sp_user _ _ _ _ _ _ (rs_space _ _ _ _ _ _ _ _ Hrs)) ltac:(lia) HV (or_introl HU))) as (_ & Hpa & Hpos).
  assert (PHYSTOP + PGSIZE < 2 ^ 64) by done. rewrite (u64_small (PTE2PA _ + _)), (u64_small (va0 + PGSIZE)) by lia.
  rewrite length_drop. set (n := Z.to_nat (Z.min (PGSIZE - (dst - va0)) (Z.of_nat (length src - k)))).
  unfold kstore, upd_mem. apply wp_bind, wp_modify, wp_ret. exists n, pages2, l2.
  split; [lia |]. split; [lia |]. split; [by rewrite drop_drop |]. split; [unfold dst in *; lia |]. split; [lia |]. split.
  { rewrite drop_drop, length_drop. pose proof (PGROUNDDOWN_off dst ltac:(lia)) as Hoff. fold va0 in Hoff.
    pose proof (pages_left_step dst (Z.of_nat (length src - k)) ltac:(lia)) as Hstep.
    replace (va0 + PGSIZE) with (dst + (PGSIZE - dst mod PGSIZE)) by lia.
    replace (Z.of_nat (length src - (k + n))) with
      (Z.of_nat (length src - k) - Z.min (PGSIZE - dst mod PGSIZE) (Z.of_nat (length src - k))) by lia. done. }
  apply copied_out_store; try done; unfold dst in *; lia.
Qed.
End copyout.

(** ** copyin *)

(** One round of the loop of [copyin]. *)
Definition copyin_round {L : Layout} (pagetable srcva len : Z) (acc : list Z) : K (Z * Z * list Z + (list Z * Z)) :=
  let va0 := PGROUNDDOWN srcva in
  pa ← walkaddr pagetable va0;
  pa0 ← (if pa =? 0 then vmfault pagetable va0 0 else ret pa);
  if pa0 =? 0 then ret (inr (acc, -1))
  else
    let n := Z.min (PGSIZE - (srcva - va0)) len in
    bs ← kload (u64 (pa0 + (srcva - va0))) (Z.to_nat n);
    ret (inl (u64 (va0 + PGSIZE), len - n, acc ++ bs)).

(** The bytes of the view from [va] on. *)
Definition reads (sz : Z) (m : gmap Z Z) (pt va : Z) (bs : list Z) : Prop :=
  ∀ i, (i < length bs)%nat → bs !! i = fst <$> view sz m pt (va + Z.of_nat i).

Section copyin.
Context {L : Layout} (kpt : Z).

(** Why a copy from user memory can stop early. *)
Definition unreadable (sz : Z) (m : gmap Z Z) (pt va : Z) (l : list Z) : Prop :=
  MAXVA ≤ va ∨ view sz m pt va = None ∨ (length l ≤ 1)%nat.

Lemma resolve_high pages l s pt sz va0 : space kpt pages l s pt sz → MAXVA ≤ va0 → resolve pt va0 s = Done 0 s.
Proof.
  intros [_ _ _ _ Hsz (p & pr & Hcur & Hpr & _ & Esz)] Hva. assert (TRAPFRAME < MAXVA) by done. unfold resolve.
  rewrite (bind_done _ _ _ _ _ (walkaddr_lookup _ _ _)). unfold user_page. rewrite (proj2 (Z.leb_le MAXVA va0) Hva).
  cbn [Z.eqb]. unfold vmfault. rewrite (bind_done _ _ _ _ _ (curproc_done _ _ Hcur)), (bind_done _ _ _ _ _ (get_proc_done _ _ _ Hpr)).
  by rewrite Esz, (proj2 (Z.leb_le sz va0)) by lia.
Qed.

Lemma resolved_trans pages s pt sz pages1 l1 t pages2 l2 t2 : resolved kpt pages s pt sz pages1 l1 t →
  resolved kpt pages1 t pt sz pages2 l2 t2 → resolved kpt pages s pt sz pages2 l2 t2.
Proof.
  intros [_ O1 R1 V1] [S2 O2 R2 V2]. split; [done | | auto |].
  - unfold only_pages in *. rewrite O2, O1. by destruct s.
  - intros root sz' va Hr Hk Hsz Hva. rewrite V2 by auto. by apply V1.
Qed.

Lemma reads_app sz m pt va bs bs' : reads sz m pt va bs → reads sz m pt (va + Z.of_nat (length bs)) bs' →
  reads sz m pt va (bs ++ bs').
Proof.
  intros H1 H2 i Hi. rewrite length_app in Hi. destruct (decide (i < length bs)%nat).
  - rewrite lookup_app_l by done. by apply H1.
  - rewrite lookup_app_r, H2 by lia. do 2 f_equal. lia.
Qed.

Lemma copyin_round_wp pages s pt sz srcva len acc pages1 l1 t : Z.of_nat (length acc) < len → 0 ≤ srcva →
  srcva + Z.of_nat (length acc) < 2 ^ 64 → is_root pages pt →
  resolved kpt pages s pt sz pages1 l1 t → reads sz (k_mem s) pt srcva acc →
  wp (copyin_round pt (srcva + Z.of_nat (length acc)) (len - Z.of_nat (length acc)) acc)
    (λ r t', match r with
       | inl (va, len', acc') => ∃ pages2 l2, len' = len - Z.of_nat (length acc') ∧ 0 ≤ len' ∧
           (0 < len' → va = srcva + Z.of_nat (length acc')) ∧ 0 ≤ va < 2 ^ 64 ∧
           (pages_left va len' < pages_left (srcva + Z.of_nat (length acc)) (len - Z.of_nat (length acc)))%nat ∧
           resolved kpt pages s pt sz pages2 l2 t' ∧ reads sz (k_mem s) pt srcva acc'
       | inr (acc', r) => acc' = acc ∧ r = -1 ∧ ∃ pages2 l2, resolved kpt pages s pt sz pages2 l2 t' ∧
           unreadable sz (k_mem s) pt (srcva + Z.of_nat (length acc)) l2
       end) t.
Proof.
  intros Hlen Hs0 Hs64 Hroot Hrs Hrd. set (src := srcva + Z.of_nat (length acc)) in *.
  assert (MAXVA + PGSIZE < 2 ^ 64 ∧ PHYSTOP + PGSIZE < 2 ^ 64 ∧ 0 < PGSIZE) as (? & ? & ?) by done.
  destruct (page_start src ltac:(lia)) as (Hal & Hva0 & Hin & Hpn & Hmax). pose proof (PGROUNDDOWN_off src ltac:(lia)) as Hoff.
  unfold copyin_round. set (va0 := PGROUNDDOWN src) in *. cbv zeta. apply wp_assoc. fold (resolve pt va0).
  destruct (decide (va0 < MAXVA)) as [Hlt | Hge].
  2: { eapply wp_bind_done; [eapply resolve_high; [apply Hrs | lia] |]. apply wp_ret. split; [done |]. split; [done |].
       exists pages1, l1. split; [done |]. left. lia. }
  pose proof (Hmax Hlt) as Hmax'.
  destruct (resolve_done kpt pages1 l1 t pt sz va0) as (pa & t1 & pages2 & l2 & E & Hrs2 & Hpa); [apply Hrs | lia | done |].
  pose proof (resolved_trans _ _ _ _ _ _ _ _ _ _ Hrs Hrs2) as Hrs'. eapply wp_bind_done; [exact E |].
  pose proof Hrs' as [Hsp' _ _ Hview]. destruct (pa =? 0).
  { apply wp_ret. split; [done |]. split; [done |]. exists pages2, l2. split; [done |]. right.
    destruct Hpa as [Hnone | ?]; [left | by right]. apply (view_page _ _ _ va0 src Hpn).
    rewrite <-Hnone. symmetry. apply (rs_view _ _ _ _ _ _ _ _ Hrs); [done | apply Hsp' | done | lia]. }
  destruct Hpa as [Hu <-]. pose proof Hu as [HV HU]%andb_true_iff. destruct Hsp' as [Hok2 _ Hr2 Hk2 _ _].
  destruct (vm_page _ _ _ _ _ _ Hok2 (trans_data _ _ _ _ _ va0 Hok2 Hr2 Hk2 ltac:(lia) HV (or_introl HU))) as (_ & Hpa & Hpos).
  rewrite (u64_small (PTE2PA _ + _)), (u64_small (va0 + PGSIZE)) by lia.
  set (n := Z.min (PGSIZE - (src - va0)) (len - Z.of_nat (length acc))).
  unfold kload. apply wp_bind, wp_gets, wp_ret. exists pages2, l2. rewrite length_app, length_mload.
  split; [lia |]. split; [lia |]. split; [unfold src in *; lia |]. split; [lia |]. split.
  { pose proof (pages_left_step src (len - Z.of_nat (length acc)) ltac:(lia)) as Hstep.
    replace (va0 + PGSIZE) with (src + (PGSIZE - src mod PGSIZE)) by lia.
    unfold n. replace (src - va0) with (src mod PGSIZE) by lia. done. }
  split; [done |]. apply reads_app; [done |]. fold src. intros i Hi. rewrite length_mload in Hi. rewrite lookup_mload by done.
  assert (va0 ≤ src + Z.of_nat i < va0 + PGSIZE) as Hini by lia.
  rewrite <-(Hview pt sz (src + Z.of_nat i)) by (done || lia). unfold view.
  pose proof (proj1 (page_number (src + Z.of_nat i) va0 Hal) Hini) as Hpi.
  rewrite (trans_page _ _ (src + Z.of_nat i) va0), HV, HU by done. simpl. do 2 f_equal.
  rewrite (Z.mod_eq (src + Z.of_nat i)), Hpi, <-Z_div_exact_full_2 by done. lia.
Qed.
End copyin.

(** ** The whole of copyout *)

Lemma copyout_wp {L : Layout} kpt pages l s pt sz dstva src : space kpt pages l s pt sz → 0 ≤ dstva < 2 ^ 64 →
  wp (copyout pt dstva src) (λ r s', ∃ k pages' l', copied_out kpt pages s pt sz dstva src k pages' l' s' ∧
    (r = 0 ∧ k = length src ∨ r = -1 ∧ (k < length src)%nat ∧ stopped sz (k_mem s) pt (dstva + Z.of_nat k) l')) s.
Proof.
  intros Hsp Hd. unfold copyout. eapply (wp_loop (λ '(dst, src') t, ∃ k pages' l', (k ≤ length src)%nat ∧ src' = drop k src ∧
      ((k < length src)%nat → dst = dstva + Z.of_nat k) ∧ 0 ≤ dst < 2 ^ 64 ∧ copied_out kpt pages s pt sz dstva src k pages' l' t)
    (λ '(dst, src'), pages_left dst (Z.of_nat (length src')))).
  3: { apply pages_left_bound. lia. }
  2: { exists 0%nat, pages, l. split; [lia |]. split; [done |]. split; [lia |]. split; [done |].
       split; [done | by destruct s | done | by apply wrote_nil; intros ???]. }
  intros [dst src'] t (k & pages1 & l1 & Hk & -> & Hdst & Hrg & Hco).
  destruct (decide (k = length src)) as [-> | Hne].
  { rewrite drop_all. apply wp_ret. exists (length src), pages1, l1. split; [done | by left]. }
  assert (k < length src)%nat as Hlt by lia. rewrite (Hdst Hlt) in *.
  destruct (drop k src) as [|b bs] eqn:Edrop; [apply (f_equal length) in Edrop; rewrite length_drop in Edrop; simpl in Edrop; lia |].
  rewrite <-Edrop. eapply wp_mono.
  { apply (copyout_round_wp kpt pages s pt sz dstva src k pages1 l1 t); [done | lia | lia | apply Hsp | done]. }
  intros [[dst' src''] | r] t'.
  - intros (n & pages2 & l2 & Hn & Hkn & -> & Hd' & Hrg' & Hmu & Hco'). rewrite (length_drop src k). split; [| done].
    exists (k + n)%nat, pages2, l2. done.
  - intros (-> & pages2 & l2 & Hco' & Hst). exists k, pages2, l2. split; [done |]. right. done.
Qed.

(** ** Theorems *)

(** C17: [copyout] writes the view of the process and nothing else.  When it
    returns 0 the process sees exactly the bytes of [src] at [dstva], all other
    bytes as before; when it returns -1 it has written a prefix, and stopped at
    an address that cannot be written or because memory ran out.  Pages the
    process had not touched yet count as zeros, and no other process sees any
    change. *)
Theorem copyout_writes_view {L : Layout} kpt pages l s pt sz dstva src : space kpt pages l s pt sz →
  0 ≤ dstva < 2 ^ 64 →
  ∃ r s' k pages' l', copyout pt dstva src s = Done r s' ∧ space kpt pages' l' s' pt sz ∧ only_pages s s' ∧
    wrote kpt pages (k_mem s) (k_mem s') pt sz dstva src k ∧
    (r = 0 ∧ k = length src ∨ r = -1 ∧ (k < length src)%nat ∧ stopped sz (k_mem s) pt (dstva + Z.of_nat k) l').
Proof.
  intros Hsp Hd. destruct (wp_elim _ _ _ (copyout_wp kpt pages l s pt sz dstva src Hsp Hd)) as (r & s' & E & k & pages' & l' & [H1 H2 _ H4] & H).
  exists r, s', k, pages', l'. auto.
Qed.

(** C18: [copyin] reads the view of the process.  It returns the bytes the process
    sees from [srcva] on: all [len] of them with 0, or with -1 those before the
    first address the process cannot read or for which there is no memory.  No
    process sees any change. *)
Theorem copyin_reads_view {L : Layout} kpt pages l s pt sz srcva len : space kpt pages l s pt sz →
  0 ≤ srcva < 2 ^ 64 → 0 ≤ len →
  ∃ bs r s' pages' l', copyin pt srcva len s = Done (bs, r) s' ∧ space kpt pages' l' s' pt sz ∧ only_pages s s' ∧
    same_view kpt pages (k_mem s) (k_mem s') pt sz ∧ reads sz (k_mem s) pt srcva bs ∧
    (r = 0 ∧ Z.of_nat (length bs) = len ∨
     r = -1 ∧ Z.of_nat (length bs) < len ∧ unreadable sz (k_mem s) pt (srcva + Z.of_nat (length bs)) l').
Proof.
  intros Hsp Hsrc Hlen. assert (wp (copyin pt srcva len) (λ '(bs, r) s', ∃ pages' l', resolved kpt pages s pt sz pages' l' s' ∧
    reads sz (k_mem s) pt srcva bs ∧ (r = 0 ∧ Z.of_nat (length bs) = len ∨
     r = -1 ∧ Z.of_nat (length bs) < len ∧ unreadable sz (k_mem s) pt (srcva + Z.of_nat (length bs)) l')) s) as H.
  2: { apply wp_elim in H as ([bs r] & s' & E & pages' & l' & [H1 H2 _ H4] & H5 & H6). exists bs, r, s', pages', l'. auto 10. }
  unfold copyin. eapply (wp_loop (λ '(va, len', acc) t, ∃ pages' l', len' = len - Z.of_nat (length acc) ∧ 0 ≤ len' ∧
      (0 < len' → va = srcva + Z.of_nat (length acc)) ∧ 0 ≤ va < 2 ^ 64 ∧
      resolved kpt pages s pt sz pages' l' t ∧ reads sz (k_mem s) pt srcva acc)
    (λ '(va, len', _), pages_left va len')).
  3: { by apply pages_left_bound. }
  2: { exists pages, l. simpl. split; [lia |]. split; [done |]. split; [lia |]. split; [done |].
       split; [by apply resolved_refl |]. intros i Hi. simpl in Hi. lia. }
  intros [[va len'] acc] t (pages1 & l1 & -> & Hlen' & Hva & Hrg & Hrs & Hrd).
  destruct (Z.ltb_spec 0 (len - Z.of_nat (length acc))) as [Hlt | Hge].
  2: { apply wp_ret. exists pages1, l1. split; [done |]. split; [done |]. left. split; [done | lia]. }
  rewrite (Hva Hlt) in *. eapply wp_mono.
  { apply (copyin_round_wp kpt pages s pt sz srcva len acc pages1 l1 t); [lia | lia | lia | apply Hsp | done | done]. }
  intros [[[va' len'] acc'] | [acc' r]] t'.
  - intros (pages2 & l2 & -> & H1 & H2 & H3 & H4 & H5 & H6). split; [| done]. exists pages2, l2. auto 10.
  - intros (-> & -> & pages2 & l2 & H1 & H2). exists pages2, l2. split; [done |]. split; [done |]. right. split; [done |]. split; [lia | done].
Qed.
