(* ===== verification/Printf.v ===== *)
(** * Console output (kernel/printf.c, consputc and uartputc_sync)

    Bytes sent to the UART are recorded in [k_uart_out], newest first. *)

From S2P Require Import Prelude Machine Kstate Logic Sched.

Definition BACKSPACE : Z := 0x100.

(** The code waits for the transmitter with interrupts off ([push_off] and
    [pop_off] around the wait); what remains is the byte sent. *)
Definition uartputc_sync (c : Z) : K unit :=
  panicked ← gets k_panicked;
  if negb (panicked =? 0) then kwaitforever
  else modify (fun s => s <| k_uart_out ::= cons (u8 c) |>).

Definition consputc (c : Z) : K unit :=
  if c =? BACKSPACE then uartputc_sync 8;; uartputc_sync 32;; uartputc_sync 8
  else uartputc_sync c.

Definition digits : list Z := bytes_of_string "0123456789abcdef".

(** The [do ... while((x /= base) != 0)] loop: the digits of [x], least
    significant first. *)
Fixpoint digits_of (fuel : nat) (x base : Z) : list Z :=
  match fuel with
  | O => []
  | S fuel =>
      nth (Z.to_nat (x mod base)) digits 0 ::
      (if x / base =? 0 then [] else digits_of fuel (x / base) base)
  end.

(** The contents of [buf] when [printint] starts to print it. *)
Definition printint_buf (xx base : Z) (sign : bool) : list Z :=
  let neg := sign && (xx <? 0) in
  let x := if neg then u64 (- xx) else u64 xx in
  digits_of 64 x base ++ (if neg then [chr "-"] else []).

Definition printint (xx base : Z) (sign : bool) : K unit :=
  for_each (rev (printint_buf xx base sign)) consputc.

Fixpoint printptr_digits (n : nat) (x : Z) : K unit :=
  match n with
  | O => ret tt
  | S n =>
      consputc (nth (Z.to_nat (Z.shiftr x 60)) digits 0);;
      printptr_digits n (u64 (Z.shiftl x 4))
  end.

Definition printptr (x : Z) : K unit :=
  consputc (chr "0");; consputc (chr "x");; printptr_digits 16 x.

(** Variable arguments: integers, and string pointers that may be null. *)
Inductive varg := VZ (z : Z) | VS (s : option (list Z)).

Definition va_int (ap : list varg) : K (Z * list varg) :=
  match ap with VZ z :: ap => ret (z, ap) | _ => undef "va_arg" end.
Definition va_str (ap : list varg) : K (list Z * list varg) :=
  match ap with
  | VS (Some s) :: ap => ret (s, ap)
  | VS None :: ap => ret (bytes_of_string "(null)", ap)
  | _ => undef "va_arg"
  end.

Definition i64 (x : Z) : Z := (x + 2 ^ 63) mod 2 ^ 64 - 2 ^ 63.

Fixpoint printf_loop (fmt : list Z) (ap : list varg) : K unit :=
  match fmt with
  | [] => ret tt
  | cx :: fmt =>
      if cx =? 0 then ret tt
      else if negb (cx =? chr "%") then consputc cx;; printf_loop fmt ap
      else
        match fmt with
        | [] => ret tt
        | c0 :: fmt1 =>
            let c1 := if c0 =? 0 then 0 else deref fmt1 in
            let c2 := if c1 =? 0 then 0 else deref (tail fmt1) in
            if c0 =? chr "d" then
              '(z, ap) ← va_int ap; printint (i32 z) 10 true;; printf_loop fmt1 ap
            else if (c0 =? chr "l") && (c1 =? chr "d") then
              '(z, ap) ← va_int ap; printint (i64 z) 10 true;;
              match fmt1 with _ :: fmt2 => printf_loop fmt2 ap | [] => ret tt end
            else if (c0 =? chr "l") && (c1 =? chr "l") && (c2 =? chr "d") then
              '(z, ap) ← va_int ap; printint (i64 z) 10 true;;
              match fmt1 with _ :: _ :: fmt3 => printf_loop fmt3 ap | _ => ret tt end
            else if c0 =? chr "u" then
              '(z, ap) ← va_int ap; printint (u32 z) 10 false;; printf_loop fmt1 ap
            else if (c0 =? chr "l") && (c1 =? chr "u") then
              '(z, ap) ← va_int ap; printint (i64 z) 10 false;;
              match fmt1 with _ :: fmt2 => printf_loop fmt2 ap | [] => ret tt end
            else if (c0 =? chr "l") && (c1 =? chr "l") && (c2 =? chr "u") then
              '(z, ap) ← va_int ap; printint (i64 z) 10 false;;
              match fmt1 with _ :: _ :: fmt3 => printf_loop fmt3 ap | _ => ret tt end
            else if c0 =? chr "x" then
              '(z, ap) ← va_int ap; printint (u32 z) 16 false;; printf_loop fmt1 ap
            else if (c0 =? chr "l") && (c1 =? chr "x") then
              '(z, ap) ← va_int ap; printint (i64 z) 16 false;;
              match fmt1 with _ :: fmt2 => printf_loop fmt2 ap | [] => ret tt end
            else if (c0 =? chr "l") && (c1 =? chr "l") && (c2 =? chr "x") then
              '(z, ap) ← va_int ap; printint (i64 z) 16 false;;
              match fmt1 with _ :: _ :: fmt3 => printf_loop fmt3 ap | _ => ret tt end
            else if c0 =? chr "p" then
              '(z, ap) ← va_int ap; printptr (u64 z);; printf_loop fmt1 ap
            else if c0 =? chr "c" then
              '(z, ap) ← va_int ap; consputc (u32 z);; printf_loop fmt1 ap
            else if c0 =? chr "s" then
              '(str, ap) ← va_str ap; for_each (cstr str) consputc;; printf_loop fmt1 ap
            else if c0 =? chr "%" then consputc (chr "%");; printf_loop fmt1 ap
            else if c0 =? 0 then ret tt
            else consputc (chr "%");; consputc c0;; printf_loop fmt1 ap
        end
  end.

Definition printf (fmt : string) (ap : list varg) : K unit :=
  panicking ← gets k_panicking;
  (if panicking =? 0 then acquire LkPr else ret tt);;
  printf_loop (bytes_of_string fmt) ap;;
  panicking ← gets k_panicking;
  if panicking =? 0 then release LkPr else ret tt.
Arguments printf _%_string _.

(** [panic]: prints the message and stops the machine.  The other functions of
    the model end in the outcome [Panic] where the code calls [panic]. *)
Definition panic (msg : string) : K unit :=
  modify (fun s => s <| k_panicking := 1 |>);;
  printf "panic: " [];;
  printf "%s
" [VS (Some (bytes_of_string msg))];;
  modify (fun s => s <| k_panicked := 1 |>);;
  kpanic msg.

(** ** Output that succeeds

    Unless the machine has panicked, printing returns and only appends to what
    the UART has sent. *)

Definition prints (m : K unit) : Prop :=
  ∀ s, k_panicked s = 0 → ∃ out, m s = Done tt (s <| k_uart_out := out |>).

Lemma prints_ret : prints (ret tt).
Proof. intros s _. exists (k_uart_out s). by destruct s. Qed.

Lemma prints_bind (m m' : K unit) : prints m → prints m' → prints (m;; m').
Proof.
  intros H H' s Hs. destruct (H s Hs) as [out E].
  destruct (H' (s <| k_uart_out := out |>)) as [out' E']; [done |].
  exists out'. rewrite bind_unfold, E, E'. done.
Qed.

Lemma prints_uartputc c : prints (uartputc_sync c).
Proof.
  intros s Hs. exists (u8 c :: k_uart_out s). unfold uartputc_sync.
  rewrite bind_unfold. cbn [gets]. by rewrite Hs.
Qed.

Lemma prints_consputc c : prints (consputc c).
Proof.
  unfold consputc. destruct (c =? BACKSPACE); repeat apply prints_bind; apply prints_uartputc.
Qed.

Lemma prints_for_each {X} (l : list X) body :
  (∀ x, prints (body x)) → prints (for_each l body).
Proof.
  intros H. induction l as [|x l IH]; [apply prints_ret |]. by apply prints_bind.
Qed.

Lemma prints_printint xx base sign : prints (printint xx base sign).
Proof. apply prints_for_each, prints_consputc. Qed.

Lemma prints_plain fmt ap :
  Forall (λ c, c ≠ chr "%") fmt → prints (printf_loop fmt ap).
Proof.
  induction 1 as [|c fmt Hc _ IH]; [apply prints_ret |]. cbn [printf_loop].
  destruct (c =? 0); [apply prints_ret |]. rewrite (proj2 (Z.eqb_neq _ _) Hc).
  apply prints_bind; [apply prints_consputc | done].
Qed.

Lemma prints_lit (pre fmt : list Z) ap :
  Forall (λ c, c ≠ 0 ∧ c ≠ chr "%") pre → prints (printf_loop fmt ap) →
  prints (printf_loop (pre ++ fmt) ap).
Proof.
  induction 1 as [|c pre [H0 Hc] _ IH]; intros H; [done |]. cbn [app printf_loop].
  rewrite (proj2 (Z.eqb_neq _ _) H0), (proj2 (Z.eqb_neq _ _) Hc).
  apply prints_bind; [apply prints_consputc | auto].
Qed.

Lemma prints_d (fmt : list Z) z ap :
  prints (printf_loop fmt ap) → prints (printf_loop (chr "%" :: chr "d" :: fmt) (VZ z :: ap)).
Proof.
  intros H. change (prints (printint (i32 z) 10 true;; printf_loop fmt ap)).
  apply prints_bind; [apply prints_printint | done].
Qed.

Lemma prints_s (fmt : list Z) bs ap :
  prints (printf_loop fmt ap) → prints (printf_loop (chr "%" :: chr "s" :: fmt) (VS (Some bs) :: ap)).
Proof.
  intros H. change (prints (for_each (cstr bs) consputc;; printf_loop fmt ap)).
  apply prints_bind; [apply prints_for_each, prints_consputc | done].
Qed.

(** [printf] takes and releases its lock. *)
Lemma printf_locked fmt ap s :
  prints (printf_loop (bytes_of_string fmt) ap) →
  LkPr ∉ k_held s → k_panicking s = 0 → k_panicked s = 0 →
  ∃ out, printf fmt ap s = Done tt (s <| k_uart_out := out |>).
Proof.
  intros H Hh Hp Hd. unfold printf. rewrite bind_unfold. cbn [gets]. rewrite Hp. cbn [Z.eqb].
  rewrite (bind_done _ _ _ _ _ (acquire_done LkPr s Hh)).
  destruct (H (s <| k_held ::= cons LkPr |>)) as [out E]; [done |].
  exists out. rewrite (bind_done _ _ _ _ _ E), bind_unfold. simpl. rewrite Hp. cbn [Z.eqb].
  erewrite release_done by (simpl; done || exact Hh).
  by destruct s.
Qed.

Lemma printf_done fmt ap s :
  prints (printf_loop (bytes_of_string fmt) ap) →
  k_held s = [] → k_panicking s = 0 → k_panicked s = 0 →
  ∃ out, printf fmt ap s = Done tt (s <| k_uart_out := out |>).
Proof. intros H Hh. apply printf_locked; [done |]. rewrite Hh. apply not_elem_of_nil. Qed.
