(* ===== verification/Bio.v ===== *)
(** * Buffer cache (kernel/bio.c)

    Buffers [0 .. NBUF-1] are [bcache.buf], buffer [NBUF] is [bcache.head], the
    sentinel of the doubly linked LRU list.  The disk itself is reached through
    [virtio_disk_rw], which here is what kernel/virtio_disk.c promises: the
    transfer of one block between the buffer and the disk. *)

From S2P Require Import Prelude Machine Kstate Strings Sched.

Definition bhead : nat := NBUF.

Definition zero_block : list Z := replicate (Z.to_nat BSIZE) 0.

Section bio.
Context {E : Env}.

Definition virtio_disk_rw (bi : nat) (write : Z) : K unit :=
  x ← get_buf bi;
  d ← gets k_disk;
  match d !! b_blockno x with
  | None => kpanic "virtio_disk_intr status"
  | Some blk =>
      if negb (write =? 0) then
        modify (fun s => s <| k_disk ::= <[b_blockno x := b_data x]> |>
                           <| k_dwrites ::= cons (b_blockno x, b_data x) |>)
      else upd_buf bi (fun x => x <| b_data := blk |>)
  end.

Definition binit : K unit :=
  upd_buf bhead (fun x => x <| b_prev := bhead |>);;
  upd_buf bhead (fun x => x <| b_next := bhead |>);;
  for_each (seq 0 NBUF) (fun bi =>
    head ← get_buf bhead;
    upd_buf bi (fun x => x <| b_next := b_next head |>);;
    upd_buf bi (fun x => x <| b_prev := bhead |>);;
    upd_buf bi (fun x => x <| b_lock := mkSleeplock 0 0 |>);;
    upd_buf (b_next head) (fun x => x <| b_prev := bi |>);;
    upd_buf bhead (fun x => x <| b_next := bi |>)).

(** The two scans of [bget].  A list of [NBUF] buffers and its head is walked
    in at most [NBUF + 1] steps. *)
Definition bget_cached (dev blockno : Z) : K (option nat) :=
  head ← get_buf bhead;
  loop (S (S NBUF)) (fun bi : nat =>
    if (bi =? bhead)%nat then ret (inr None)
    else
      x ← get_buf bi;
      if (b_dev x =? dev) && (b_blockno x =? blockno) then ret (inr (Some bi))
      else ret (inl (b_next x))) (b_next head).

Definition bget_lru : K (option nat) :=
  head ← get_buf bhead;
  loop (S (S NBUF)) (fun bi : nat =>
    if (bi =? bhead)%nat then ret (inr None)
    else
      x ← get_buf bi;
      if b_refcnt x =? 0 then ret (inr (Some bi))
      else ret (inl (b_prev x))) (b_prev head).

Definition bget (dev blockno : Z) : K nat :=
  acquire LkBcache;;
  r ← bget_cached dev blockno;
  match r with
  | Some bi =>
      upd_buf bi (fun x => x <| b_refcnt := u32 (b_refcnt x + 1) |>);;
      release LkBcache;;
      acquiresleep (SlBuf bi);;
      ret bi
  | None =>
      r ← bget_lru;
      match r with
      | Some bi =>
          upd_buf bi (fun x => x <| b_dev := dev |> <| b_blockno := blockno |>
                                 <| b_valid := 0 |> <| b_refcnt := 1 |>);;
          release LkBcache;;
          acquiresleep (SlBuf bi);;
          ret bi
      | None => kpanic "bget: no buffers"
      end
  end.

Definition bread (dev blockno : Z) : K nat :=
  bi ← bget dev blockno;
  x ← get_buf bi;
  (if b_valid x =? 0 then
     virtio_disk_rw bi 0;;
     upd_buf bi (fun x => x <| b_valid := 1 |>)
   else ret tt);;
  ret bi.

Definition bwrite (bi : nat) : K unit :=
  h ← holdingsleep (SlBuf bi);
  if negb h then kpanic "bwrite" else virtio_disk_rw bi 1.

Definition brelse (bi : nat) : K unit :=
  h ← holdingsleep (SlBuf bi);
  if negb h then kpanic "brelse"
  else
    releasesleep (SlBuf bi);;
    acquire LkBcache;;
    upd_buf bi (fun x => x <| b_refcnt := u32 (b_refcnt x - 1) |>);;
    x ← get_buf bi;
    (if b_refcnt x =? 0 then
       upd_buf (b_next x) (fun y => y <| b_prev := b_prev x |>);;
       upd_buf (b_prev x) (fun y => y <| b_next := b_next x |>);;
       head ← get_buf bhead;
       upd_buf bi (fun y => y <| b_next := b_next head |>);;
       upd_buf bi (fun y => y <| b_prev := bhead |>);;
       upd_buf (b_next head) (fun y => y <| b_prev := bi |>);;
       upd_buf bhead (fun y => y <| b_next := bi |>)
     else ret tt);;
    release LkBcache.

Definition bpin (bi : nat) : K unit :=
  acquire LkBcache;;
  upd_buf bi (fun x => x <| b_refcnt := u32 (b_refcnt x + 1) |>);;
  release LkBcache.

Definition bunpin (bi : nat) : K unit :=
  acquire LkBcache;;
  upd_buf bi (fun x => x <| b_refcnt := u32 (b_refcnt x - 1) |>);;
  release LkBcache.

End bio.
