(* ===== verification/BioSpec.v ===== *)
(** * What the buffer cache promises (kernel/bio.c)

    The cache keeps its buffers on a doubly linked list in order of recent use.
    This file shows that the list stays well formed, and that the operations
    implement a store of blocks: [bread] yields the current content of a block,
    whether it is cached or only on the disk, a held or pinned block is never
    evicted, and [bwrite] makes the disk catch up. *)

From S2P Require Import Prelude Machine Kstate Logic Strings Sched Bio.

(** ** The list of recent use *)

Definition next_of (bs : list buf) (i : nat) : option nat := b_next <$> bs !! i.
Definition prev_of (bs : list buf) (i : nat) : option nat := b_prev <$> bs !! i.

(** [linked bs a l b]: following [next] from [a] visits [l] and then [b], and
    [prev] leads back. *)
Fixpoint linked (bs : list buf) (a : nat) (l : list nat) (b : nat) : Prop :=
  match l with
  | [] => next_of bs a = Some b ∧ prev_of bs b = Some a
  | c :: l => next_of bs a = Some c ∧ prev_of bs c = Some a ∧ linked bs c l b
  end.

(** The cache's list: all buffers, each once, between the two ends of the head. *)
Record lru (bs : list buf) (l : list nat) : Prop := {
  lru_length : length bs = S NBUF;
  lru_linked : linked bs bhead l bhead;
  lru_perm : l ≡ₚ seq 0 NBUF;
}.

Lemma linked_app bs a l1 c l2 b :
  linked bs a (l1 ++ c :: l2) b ↔ linked bs a l1 c ∧ linked bs c l2 b.
Proof. revert a; induction l1 as [|d l1 IH]; intros a; simpl; [| rewrite IH]; tauto. Qed.

Lemma linked_agree bs bs' a l b :
  (∀ c, c ∈ a :: l → next_of bs' c = next_of bs c) →
  (∀ c, c ∈ b :: l → prev_of bs' c = prev_of bs c) →
  linked bs a l b → linked bs' a l b.
Proof.
  revert a; induction l as [|c l IH]; intros a Hn Hp; simpl.
  - rewrite Hn, Hp by set_solver. done.
  - rewrite Hn, Hp by set_solver. intros (? & ? & ?). split_and!; [done.. |].
    apply IH; [set_solver.. | done].
Qed.

(** The last link of a chain. *)
Lemma linked_last bs a l b :
  linked bs a l b → ∃ p l', a :: l = l' ++ [p] ∧ next_of bs p = Some b ∧ prev_of bs b = Some p.
Proof.
  revert a; induction l as [|c l IH]; intros a; simpl.
  - intros [? ?]. by exists a, [].
  - intros (_ & _ & (p & l' & E & H)%IH). exists p, (a :: l'). by rewrite E.
Qed.

Lemma linked_first bs a l b :
  linked bs a l b → ∃ n l', l ++ [b] = n :: l' ∧ next_of bs a = Some n ∧ prev_of bs n = Some a.
Proof. destruct l as [|c l]; simpl; [intros [? ?]; by exists b, [] | intros (? & ? & _); by exists c, (l ++ [b])]. Qed.

(** Setting one pointer field of a buffer. *)
Lemma next_of_insert bs i x y c :
  bs !! i = Some x →
  next_of (<[i := y]> bs) c = if decide (c = i) then Some (b_next y) else next_of bs c.
Proof.
  intros Hx. unfold next_of. destruct (decide (c = i)) as [->|].
  - by rewrite list_lookup_insert_eq by (by eapply lookup_lt_Some).
  - by rewrite list_lookup_insert_ne by done.
Qed.

Lemma prev_of_insert bs i x y c :
  bs !! i = Some x →
  prev_of (<[i := y]> bs) c = if decide (c = i) then Some (b_prev y) else prev_of bs c.
Proof.
  intros Hx. unfold prev_of. destruct (decide (c = i)) as [->|].
  - by rewrite list_lookup_insert_eq by (by eapply lookup_lt_Some).
  - by rewrite list_lookup_insert_ne by done.
Qed.

(** Taking [b] out of a ring, whatever its two neighbours are. *)
Lemma linked_unlink bs bs' a l1 b l2 p n :
  NoDup (a :: l1 ++ b :: l2) → linked bs a (l1 ++ b :: l2) a →
  next_of bs b = Some n → prev_of bs b = Some p →
  (∀ c, next_of bs' c = if decide (c = p) then Some n else next_of bs c) →
  (∀ c, prev_of bs' c = if decide (c = n) then Some p else prev_of bs c) →
  linked bs' a (l1 ++ l2) a.
Proof.
  intros Hnd [H1 H2]%linked_app Hn Hp Hn' Hp'.
  assert (Htail : linked bs' p l2 a).
  { assert (p ∈ a :: l1) as Hpin.
    { destruct (linked_last _ _ _ _ H1) as (p' & l' & E & _ & ?).
      rewrite E. set_solver. }
    destruct l2 as [|n' l2]; simpl in H2 |- *.
    - destruct H2 as [? ?]. assert (n = a) as -> by congruence.
      rewrite Hn', Hp', !decide_True by done. done.
    - destruct H2 as (? & ? & H2). assert (n' = n) as -> by congruence.
      rewrite Hn', Hp', !decide_True by done. split_and!; [done.. |].
      apply NoDup_cons in Hnd as [Ha Hnd]. apply NoDup_app in Hnd as (_ & Hd & Hnd).
      revert H2. apply linked_agree; intros c Hc.
      + rewrite Hn', decide_False; [done |]. intros ->.
        apply elem_of_cons in Hpin as [->|?]; set_solver.
      + rewrite Hp', decide_False; [done |]. intros ->.
        apply NoDup_cons in Hnd as [_ Hnd]. apply NoDup_cons in Hnd as [Hnd _]. set_solver. }
  destruct (linked_last _ _ _ _ H1) as (p' & l1' & E & _ & ?). assert (p' = p) as -> by congruence.
  destruct l1' as [|a' l1']; simplify_eq/=; [done |].
  rewrite <-app_assoc. simpl. apply linked_app. split; [| done].
  apply linked_app in H1 as [H1 _]. revert H1.
  apply NoDup_cons in Hnd as [Ha Hnd]. apply NoDup_app in Hnd as (Hnd1 & Hd & Hnd).
  apply NoDup_app in Hnd1 as (_ & Hd1 & _).
  apply linked_agree; intros c Hc.
  - rewrite Hn', decide_False; [done |]. intros ->. set_solver.
  - rewrite Hp', decide_False; [done |]. intros ->.
    destruct (linked_first _ _ _ _ H2) as (n' & l' & E' & ? & _).
    assert (n' = n) as -> by congruence. assert (n ∈ l2 ++ [a']) by (rewrite E'; set_solver).
    set_solver.
Qed.

(** Putting [b] right behind the head of a ring. *)
Lemma linked_push bs bs' a l b f :
  NoDup (a :: b :: l) → linked bs a l a → next_of bs a = Some f →
  (∀ c, next_of bs' c = if decide (c = a) then Some b else if decide (c = b) then Some f
                        else next_of bs c) →
  (∀ c, prev_of bs' c = if decide (c = f) then Some b else if decide (c = b) then Some a
                        else prev_of bs c) →
  linked bs' a (b :: l) a.
Proof.
  intros Hnd H Hf Hn' Hp'. apply NoDup_cons in Hnd as [Ha Hnd].
  apply NoDup_cons in Hnd as [Hb Hnd]. simpl.
  assert (f ∈ a :: l) as Hfin.
  { destruct l as [|c l]; simpl in H; destruct H; set_solver. }
  assert (b ≠ f) by set_solver. assert (b ≠ a) by set_solver.
  rewrite Hn', Hp', (decide_True (P := a = a)), (decide_False (P := b = f)), decide_True by done.
  split_and!; [done.. |].
  destruct l as [|c l]; simpl in H |- *.
  - destruct H as [? ?]. assert (f = a) as -> by congruence.
    rewrite Hn', Hp', (decide_False (P := b = a)), !decide_True by done. done.
  - destruct H as (? & ? & H). assert (c = f) as -> by congruence.
    rewrite Hn', Hp', (decide_False (P := b = a)), !decide_True by done.
    split_and!; [done.. |]. revert H. apply linked_agree; intros c Hc.
    + rewrite Hn', !decide_False; [done | |]; set_solver.
    + rewrite Hp', !decide_False; [done | |]; intros ->; [set_solver |].
      apply NoDup_cons in Hnd as [? _]. set_solver.
Qed.

(** ** Walking the list *)

(** From [c], the pointer [ptr] leads through [l] to the head. *)
Fixpoint walk_chain (ptr : buf → nat) (bs : list buf) (c : nat) (l : list nat) : Prop :=
  match l with
  | [] => c = bhead
  | d :: l => c = d ∧ d ≠ bhead ∧ ∃ x, bs !! d = Some x ∧ walk_chain ptr bs (ptr x) l
  end.

Lemma walk_next bs a l c :
  linked bs a l bhead → bhead ∉ l → next_of bs a = Some c → walk_chain b_next bs c l.
Proof.
  revert a c; induction l as [|d l IH]; intros a c; simpl.
  - intros [? ?] _ ?. congruence.
  - intros (? & ? & H) Hd ?. assert (c = d) as -> by congruence.
    split_and!; [done | set_solver |].
    assert (∃ y, next_of bs d = Some y) as [y Hy].
    { destruct l; simpl in H; destruct H; eauto. }
    unfold next_of in Hy. apply fmap_Some in Hy as (x & Hx & ->). exists x. split; [done |].
    eapply IH; [done | set_solver |]. unfold next_of. by rewrite Hx.
Qed.

Lemma walk_prev bs l b c :
  linked bs bhead l b → bhead ∉ l → prev_of bs b = Some c → walk_chain b_prev bs c (rev l).
Proof.
  revert b c; induction l as [|d l IH] using rev_ind; intros b c; simpl.
  - intros [? ?] _ ?. congruence.
  - intros [H [_ Hb]]%linked_app Hd ?. assert (c = d) as -> by congruence.
    rewrite rev_app_distr. simpl. split_and!; [done | set_solver |].
    assert (∃ y, prev_of bs d = Some y) as [y Hy].
    { destruct (linked_last _ _ _ _ H) as (p & _ & _ & _ & ?). eauto. }
    unfold prev_of in Hy. apply fmap_Some in Hy as (x & Hx & ->). exists x. split; [done |].
    eapply IH; [done | set_solver |]. unfold prev_of. by rewrite Hx.
Qed.

(** A scan for the first buffer satisfying [P], as both loops of [bget] do it. *)
Definition scan (P : buf → bool) (ptr : buf → nat) (bi : nat) : K (nat + option nat) :=
  if (bi =? bhead)%nat then ret (inr None)
  else
    x ← get_buf bi;
    if P x then ret (inr (Some bi)) else ret (inl (ptr x)).

Lemma scan_wp P ptr l n c s :
  walk_chain ptr (k_bufs s) c l → (length l < n)%nat →
  wp (loop n (scan P ptr) c) (λ r s', s' = s ∧
    match r with
    | Some bi => bi ∈ l ∧ ∃ x, k_bufs s !! bi = Some x ∧ P x = true
    | None => ∀ bi x, bi ∈ l → k_bufs s !! bi = Some x → P x = false
    end) s.
Proof.
  revert c n. induction l as [|d l IH]; intros c [|n]; simpl; [lia | | lia |].
  - intros -> _. apply wp_loop_S. unfold scan. rewrite Nat.eqb_refl. apply wp_ret.
    split; [done |]. set_solver.
  - intros (-> & Hd & x & Hx & Hw) Hn. apply wp_loop_S. unfold scan at 1.
    rewrite (proj2 (Nat.eqb_neq _ _) Hd). apply wp_bind. eapply wp_get_buf; [done |].
    destruct (P x) eqn:HP; apply wp_ret.
    + split; [done |]. split; [set_solver | eauto].
    + eapply wp_mono; [apply IH; [done | lia] |]. intros r s' [-> Hr]. split; [done |].
      destruct r as [bi|]; [set_solver |]. intros bi y [->|]%elem_of_cons ?; [congruence | eauto].
Qed.

(** ** The buffers without their links *)

Definition core (x : buf) : buf := x <| b_prev := 0%nat |> <| b_next := 0%nat |>.

(** The cache holds the buffers [C], on a well-formed list. *)
Record cache (bs : list buf) (C : list buf) : Prop := {
  cache_lru : ∃ l, lru bs l;
  cache_core : C = core <$> take NBUF bs;
}.

Lemma lru_elem bs l i : lru bs l → i ∈ l ↔ (i < NBUF)%nat.
Proof. intros H. rewrite (lru_perm _ _ H), elem_of_seq. unfold NBUF. lia. Qed.

Lemma lru_head bs l : lru bs l → NoDup (bhead :: l).
Proof.
  intros H. apply NoDup_cons. split.
  - rewrite (lru_elem _ _ _ H). unfold bhead. lia.
  - rewrite (lru_perm _ _ H). apply NoDup_seq.
Qed.

Lemma cache_length bs C : cache bs C → length bs = S NBUF ∧ length C = NBUF.
Proof.
  intros [[l Hl] ->]. split; [apply (lru_length _ _ Hl) |].
  rewrite length_fmap, length_take, (lru_length _ _ Hl). lia.
Qed.

Lemma cache_lookup bs C i y :
  cache bs C → C !! i = Some y ↔ ∃ x, (i < NBUF)%nat ∧ bs !! i = Some x ∧ y = core x.
Proof.
  intros [_ ->]. rewrite list_lookup_fmap. split.
  - intros (x & Hx & ->)%fmap_Some. apply lookup_take_Some in Hx as [? ?]. eauto.
  - intros (x & Hi & Hx & ->). by rewrite lookup_take_lt, Hx by done.
Qed.

Lemma cache_lookup_1 bs C i x :
  cache bs C → (i < NBUF)%nat → bs !! i = Some x → C !! i = Some (core x).
Proof. intros HC Hi Hx. apply (cache_lookup _ _ _ _ HC). eauto. Qed.

Lemma cache_bound bs C i x : cache bs C → C !! i = Some x → (i < NBUF)%nat.
Proof. intros [_ ?]%cache_length Hx%lookup_lt_Some. lia. Qed.

(** Changing anything but the links of a buffer. *)
Lemma cache_insert bs C i x y :
  cache bs C → bs !! i = Some x → (i < NBUF)%nat →
  b_next y = b_next x → b_prev y = b_prev x →
  cache (<[i := y]> bs) (<[i := core y]> C).
Proof.
  intros HC Hx Hi Hn Hp. destruct HC as [[l [Hlen Hlk Hperm]] ->]. split.
  - exists l. split; [by rewrite length_insert | | done]. revert Hlk.
    apply linked_agree; intros c _.
    + rewrite (next_of_insert _ _ _ _ _ Hx). case_decide; [| done]. subst.
      unfold next_of. by rewrite Hx, Hn.
    + rewrite (prev_of_insert _ _ _ _ _ Hx). case_decide; [| done]. subst.
      unfold prev_of. by rewrite Hx, Hp.
  - by rewrite take_insert_lt, list_fmap_insert.
Qed.

Definition holds_block (dev b : Z) (x : buf) : bool :=
  (b_dev x =? dev) && (b_blockno x =? b).

Lemma bget_cached_wp dev b C s :
  cache (k_bufs s) C →
  wp (bget_cached dev b) (λ r s', s' = s ∧
    match r with
    | Some bi => ∃ x, C !! bi = Some x ∧ holds_block dev b x = true
    | None => ∀ i x, C !! i = Some x → holds_block dev b x = false
    end) s.
Proof.
  intros HC. destruct (cache_length _ _ HC) as [Hlen _]. destruct (cache_lru _ _ HC) as [l Hl].
  destruct (lookup_lt_is_Some_2 (k_bufs s) bhead) as [h Hh]; [rewrite Hlen; unfold bhead; lia |].
  unfold bget_cached. apply wp_bind. eapply wp_get_buf; [done |].
  eapply wp_mono; [apply (scan_wp (holds_block dev b) b_next l) |].
  - eapply walk_next; [apply (lru_linked _ _ Hl) | | unfold next_of; by rewrite Hh].
    by pose proof (lru_head _ _ Hl) as [? _]%NoDup_cons.
  - rewrite (Permutation_length (lru_perm _ _ Hl)), length_seq. lia.
  - intros r s' [-> Hr]. split; [done |]. destruct r as [bi|].
    + destruct Hr as (Hin & x & Hx & HP). exists (core x). split; [| done].
      apply (cache_lookup_1 _ _ _ _ HC); [by apply (lru_elem _ _ _ Hl) | done].
    + intros i y (x & Hi & Hx & ->)%(cache_lookup _ _ _ _ HC).
      apply (Hr i x); [by apply (lru_elem _ _ _ Hl) | done].
Qed.

Lemma bget_lru_wp C s :
  cache (k_bufs s) C →
  wp bget_lru (λ r s', s' = s ∧
    match r with
    | Some bi => ∃ x, C !! bi = Some x ∧ b_refcnt x = 0
    | None => ∀ i x, C !! i = Some x → b_refcnt x ≠ 0
    end) s.
Proof.
  intros HC. destruct (cache_length _ _ HC) as [Hlen _]. destruct (cache_lru _ _ HC) as [l Hl].
  destruct (lookup_lt_is_Some_2 (k_bufs s) bhead) as [h Hh]; [rewrite Hlen; unfold bhead; lia |].
  unfold bget_lru. apply wp_bind. eapply wp_get_buf; [done |].
  eapply wp_mono; [apply (scan_wp (λ x, b_refcnt x =? 0) b_prev (rev l)) |].
  - eapply walk_prev; [apply (lru_linked _ _ Hl) | | unfold prev_of; by rewrite Hh].
    by pose proof (lru_head _ _ Hl) as [? _]%NoDup_cons.
  - rewrite length_rev, (Permutation_length (lru_perm _ _ Hl)), length_seq. lia.
  - intros r s' [-> Hr]. split; [done |]. destruct r as [bi|].
    + destruct Hr as (Hin & x & Hx & HP%Z.eqb_eq).
      rewrite <-Permutation_rev in Hin. exists (core x). split; [| done].
      apply (cache_lookup_1 _ _ _ _ HC); [by apply (lru_elem _ _ _ Hl) | done].
    + intros i y (x & Hi & Hx & ->)%(cache_lookup _ _ _ _ HC).
      apply Z.eqb_neq, (Hr i x); [| done].
      rewrite <-Permutation_rev. by apply (lru_elem _ _ _ Hl).
Qed.

(** ** Running without contention

    The CPU holds no spin lock and runs a process with pid [pid]. *)

Record quiet (pid : Z) (s : kstate) : Prop := {
  quiet_held : k_held s = [];
  quiet_procs : length (k_procs s) = NPROC;
  quiet_cur : ∃ p pr, k_cur s = Some p ∧ k_procs s !! p = Some pr ∧ p_pid pr = pid;
}.

(** Some sleeping processes have been made runnable. *)
Definition woken (ps ps' : list proc) : Prop :=
  Forall2 (λ p p', p' = p ∨ p_state p = SLEEPING ∧ p' = (p <| p_state := RUNNABLE |>)) ps ps'.

#[global] Instance woken_preorder : PreOrder woken.
Proof.
  split.
  - intros ps. apply Forall_Forall2_diag, Forall_forall. auto.
  - intros ps1 ps2 ps3 H1. revert ps3. induction H1 as [|p1 p2 ps1 ps2 H1 _ IH]; intros ps3 H2.
    + done.
    + inversion H2 as [|? p3 ? ps3' Hp Hps]; subst. constructor; [| by apply IH].
      destruct H1 as [->|[? ->]], Hp as [->|[? ->]]; auto.
Qed.

(** The cache and the sleepers are all that changed. *)
Definition bio_frame (s s' : kstate) : Prop :=
  s' = (s <| k_bufs := k_bufs s' |> <| k_procs := k_procs s' |>) ∧
  woken (k_procs s) (k_procs s').

#[global] Instance bio_frame_preorder : PreOrder bio_frame.
Proof.
  split.
  - intros s. split; [by destruct s | reflexivity].
  - intros s1 s2 s3 [E1 W1] [E2 W2]. split; [| by etransitivity].
    rewrite E2, E1. by destruct s1.
Qed.

Lemma quiet_frame pid s s' : bio_frame s s' → quiet pid s → quiet pid s'.
Proof.
  intros [E W] [Hh Hl (p & pr & Hc & Hp & Hpid)]. split.
  - by rewrite E.
  - by rewrite <-(Forall2_length _ _ _ W).
  - destruct (Forall2_lookup_l _ _ _ _ _ W Hp) as (pr' & Hp' & H). exists p, pr'.
    split_and!; [by rewrite E | done |]. destruct H as [->|[_ ->]]; done.
Qed.

Lemma acquire_first lk s :
  k_held s = [] → acquire lk s = Done tt (s <| k_held := [lk] |>).
Proof.
  intros Hh. rewrite acquire_done by (rewrite Hh; set_solver). destruct s; simpl in *. by subst.
Qed.

Lemma release_last lk s :
  k_held s = [lk] → release lk s = Done tt (s <| k_held := [] |>).
Proof. intros Hh. by apply release_done with (h := []); [| set_solver]. Qed.

(** *** Moving a buffer to the front *)

Lemma wp_set_prev i v (Q : unit → kstate → Prop) s :
  (i < length (k_bufs s))%nat →
  (∀ bs', (∀ c, next_of bs' c = next_of (k_bufs s) c) →
          (∀ c, prev_of bs' c = if decide (c = i) then Some v else prev_of (k_bufs s) c) →
          core <$> bs' = core <$> k_bufs s → Q tt (s <| k_bufs := bs' |>)) →
  wp (upd_buf i (fun y => y <| b_prev := v |>)) Q s.
Proof.
  intros [x Hx]%lookup_lt_is_Some_2 HQ. eapply wp_upd_buf; [done |].
  apply (HQ (<[i := _]> (k_bufs s))).
  - intros c. rewrite (next_of_insert _ _ _ _ _ Hx). case_decide; [| done]. subst.
    unfold next_of. by rewrite Hx.
  - intros c. by rewrite (prev_of_insert _ _ _ _ _ Hx).
  - rewrite list_fmap_insert. apply list_insert_id. by rewrite list_lookup_fmap, Hx.
Qed.

Lemma wp_set_next i v (Q : unit → kstate → Prop) s :
  (i < length (k_bufs s))%nat →
  (∀ bs', (∀ c, next_of bs' c = if decide (c = i) then Some v else next_of (k_bufs s) c) →
          (∀ c, prev_of bs' c = prev_of (k_bufs s) c) →
          core <$> bs' = core <$> k_bufs s → Q tt (s <| k_bufs := bs' |>)) →
  wp (upd_buf i (fun y => y <| b_next := v |>)) Q s.
Proof.
  intros [x Hx]%lookup_lt_is_Some_2 HQ. eapply wp_upd_buf; [done |].
  apply (HQ (<[i := _]> (k_bufs s))).
  - intros c. by rewrite (next_of_insert _ _ _ _ _ Hx).
  - intros c. rewrite (prev_of_insert _ _ _ _ _ Hx). case_decide; [| done]. subst.
    unfold prev_of. by rewrite Hx.
  - rewrite list_fmap_insert. apply list_insert_id. by rewrite list_lookup_fmap, Hx.
Qed.

(** The statements of [binit] and [brelse] that link a buffer behind the head;
    [binit] initialises the buffer's lock on the way. *)
Definition push_front_with (mid : K unit) (bi : nat) : K unit :=
  head ← get_buf bhead;
  upd_buf bi (fun y => y <| b_next := b_next head |>);;
  upd_buf bi (fun y => y <| b_prev := bhead |>);;
  mid;;
  upd_buf (b_next head) (fun y => y <| b_prev := bi |>);;
  upd_buf bhead (fun y => y <| b_next := bi |>).

Lemma core_length bs bs' : core <$> bs' = core <$> bs → length bs' = length bs.
Proof. intros H%(f_equal length). by rewrite !length_fmap in H. Qed.

Lemma linked_bound bs a l b : linked bs a l b → ∀ c, c ∈ l → (c < length bs)%nat.
Proof.
  revert a; induction l as [|d l IH]; intros a; simpl; [set_solver |].
  intros (_ & Hp & H) c [->|Hc]%elem_of_cons; [| by eapply IH].
  unfold prev_of in Hp. apply fmap_Some in Hp as (x & ? & _). by eapply lookup_lt_Some.
Qed.

Lemma push_front_wp mid l bi s :
  NoDup (bhead :: bi :: l) → linked (k_bufs s) bhead l bhead →
  (bhead < length (k_bufs s))%nat → (bi < length (k_bufs s))%nat →
  (∀ s', core <$> k_bufs s' = core <$> k_bufs s → mid s' = Done tt s') →
  wp (push_front_with mid bi) (λ _ s', ∃ bs', s' = (s <| k_bufs := bs' |>) ∧
    linked bs' bhead (bi :: l) bhead ∧ core <$> bs' = core <$> k_bufs s) s.
Proof.
  intros Hnd Hl Hh Hb Hmid. destruct (lookup_lt_is_Some_2 _ _ Hh) as [h Hx].
  assert (next_of (k_bufs s) bhead = Some (b_next h)) as Hn by (unfold next_of; by rewrite Hx).
  assert (b_next h < length (k_bufs s))%nat as Hf.
  { destruct l as [|c l]; simpl in Hl.
    - destruct Hl. congruence.
    - assert (b_next h = c) as -> by naive_solver.
      apply (linked_bound _ bhead (c :: l) bhead Hl). set_solver. }
  unfold push_front_with. apply wp_bind. eapply wp_get_buf; [done |].
  apply wp_bind, wp_set_next; [done |]. intros bs1 N1 P1 C1.
  apply wp_bind, wp_set_prev; [simpl; by rewrite (core_length _ _ C1) |]. intros bs2 N2 P2 C2.
  simpl in N2, P2, C2. rewrite C1 in C2.
  eapply wp_bind_done; [by apply Hmid |].
  apply wp_bind, wp_set_prev; [simpl; by rewrite (core_length _ _ C2) |]. intros bs3 N3 P3 C3.
  simpl in N3, P3, C3. rewrite C2 in C3.
  apply wp_set_next; [simpl; by rewrite (core_length _ _ C3) |]. intros bs4 N4 P4 C4.
  simpl in N4, P4, C4. rewrite C3 in C4. exists bs4. split; [by destruct s |]. split; [| done].
  eapply linked_push; [done | exact Hl | exact Hn | |]; intros c.
  - by rewrite N4, N3, N2, N1.
  - by rewrite P4, P3, P2, P1.
Qed.

(** The statements of [brelse] that take a buffer from its place to the front. *)
Definition move_front (bi : nat) (x : buf) : K unit :=
  upd_buf (b_next x) (fun y => y <| b_prev := b_prev x |>);;
  upd_buf (b_prev x) (fun y => y <| b_next := b_next x |>);;
  push_front_with (ret tt) bi.

Lemma ring_bound bs l c :
  lru bs l → c ∈ bhead :: l → (c < length bs)%nat.
Proof.
  intros H Hc. rewrite (lru_length _ _ H). apply elem_of_cons in Hc as [->|Hc].
  - unfold bhead. lia.
  - apply (lru_elem _ _ _ H) in Hc. lia.
Qed.

Lemma move_front_wp l bi x s :
  lru (k_bufs s) l → (bi < NBUF)%nat → k_bufs s !! bi = Some x →
  wp (move_front bi x) (λ _ s', ∃ bs' l', s' = (s <| k_bufs := bs' |>) ∧
    lru bs' l' ∧ core <$> bs' = core <$> k_bufs s) s.
Proof.
  intros Hl Hb Hx. pose proof (proj2 (lru_elem _ _ _ Hl) Hb) as Hin.
  apply list_elem_of_split in Hin as (l1 & l2 & ->).
  pose proof (lru_linked _ _ Hl) as Hlk. pose proof (lru_head _ _ Hl) as Hnd.
  apply linked_app in Hlk as [H1 H2].
  assert (b_prev x ∈ bhead :: l1) as Hp.
  { destruct (linked_last _ _ _ _ H1) as (p & l' & -> & _ & Hp).
    unfold prev_of in Hp. rewrite Hx in Hp. injection Hp as ->. set_solver. }
  assert (b_next x ∈ bhead :: l2) as Hn.
  { destruct (linked_first _ _ _ _ H2) as (n & l' & E & Hn & _).
    unfold next_of in Hn. rewrite Hx in Hn. injection Hn as ->.
    assert (n ∈ l2 ++ [bhead]) by (rewrite E; set_solver). set_solver. }
  assert (∀ c, c ∈ bhead :: l1 ∨ c ∈ bhead :: l2 → (c < length (k_bufs s))%nat) as Hbound
    by (intros c Hc; apply (ring_bound _ _ _ Hl); set_solver).
  unfold move_front. apply wp_bind, wp_set_prev; [auto |]. intros bs1 N1 P1 C1.
  apply wp_bind, wp_set_next; [simpl; rewrite (core_length _ _ C1); auto |].
  simpl. intros bs2 N2 P2 C2. rewrite C1 in C2.
  eapply wp_mono; [apply (push_front_wp (ret tt) (l1 ++ l2)) |].
  - rewrite (Permutation_middle l1 l2 bi). done.
  - eapply linked_unlink; [exact Hnd | apply (lru_linked _ _ Hl) | | | |].
    + unfold next_of. by rewrite Hx.
    + unfold prev_of. by rewrite Hx.
    + intros c. simpl. by rewrite N2, N1.
    + intros c. simpl. by rewrite P2, P1.
  - simpl. rewrite (core_length _ _ C2). apply (ring_bound _ _ _ Hl). set_solver.
  - simpl. rewrite (core_length _ _ C2). apply (ring_bound _ _ _ Hl). set_solver.
  - done.
  - simpl. intros _ s' (bs' & -> & Hlk & C3). rewrite C2 in C3.
    exists bs', (bi :: l1 ++ l2). split_and!; [by destruct s | | done].
    split; [by rewrite (core_length _ _ C3), (lru_length _ _ Hl) | done |].
    rewrite (Permutation_middle l1 l2 bi). apply (lru_perm _ _ Hl).
Qed.

Lemma cache_of_core bs bs' C l' :
  cache bs C → lru bs' l' → core <$> bs' = core <$> bs → cache bs' C.
Proof.
  intros [_ ->] Hl HC. split; [eauto |]. by rewrite !fmap_take, HC.
Qed.

Section spec.
Context {E : Env}.

(** *** Sleep locks of buffers *)

Lemma acquiresleep_buf pid bi x s :
  quiet pid s → k_bufs s !! bi = Some x → sl_locked (b_lock x) = 0 →
  acquiresleep (SlBuf bi) s =
    Done tt (s <| k_bufs ::= <[bi := x <| b_lock := mkSleeplock 1 pid |>]> |>).
Proof.
  intros [Hh _ (p & pr & Hc & Hp & <-)] Hx Hl. unfold acquiresleep.
  rewrite (bind_done _ _ _ _ _ (acquire_first _ _ Hh)).
  erewrite bind_done.
  2: { unfold wait_loop, wait_loop_plus. cbn [Nat.add iterate get_sleeplock].
       rewrite !bind_unfold. unfold get_buf. rewrite !bind_unfold. simpl.
       rewrite Hx. simpl. rewrite Hl. done. }
  erewrite bind_done by (apply curproc_done; exact Hc).
  erewrite bind_done by (apply get_proc_done; exact Hp).
  erewrite bind_done by (unfold set_sleeplock, upd_buf, get_buf; rewrite !bind_unfold; simpl;
                         rewrite Hx; done).
  rewrite release_last by done.
  destruct s; simpl in *. by subst.
Qed.

Lemma holdingsleep_buf pid bi x s :
  quiet pid s → k_bufs s !! bi = Some x → b_lock x = mkSleeplock 1 pid →
  holdingsleep (SlBuf bi) s = Done true s.
Proof.
  intros [Hh _ (p & pr & Hc & Hp & <-)] Hx Hl. unfold holdingsleep.
  rewrite (bind_done _ _ _ _ _ (acquire_first _ _ Hh)).
  erewrite bind_done by (unfold get_sleeplock, get_buf; rewrite !bind_unfold; simpl;
                         rewrite Hx; done).
  erewrite bind_done by (apply curproc_done; exact Hc).
  erewrite bind_done by (apply get_proc_done; exact Hp).
  erewrite bind_done by (by apply release_last).
  rewrite Hl. simpl. rewrite Z.eqb_refl. destruct s; simpl in *. by subst.
Qed.

Lemma releasesleep_buf pid bi x s :
  quiet pid s → k_bufs s !! bi = Some x →
  ∃ s', releasesleep (SlBuf bi) s = Done tt s' ∧ bio_frame s s' ∧
    k_bufs s' = <[bi := x <| b_lock := mkSleeplock 0 0 |>]> (k_bufs s).
Proof.
  intros [Hh Hlen _] Hx. unfold releasesleep. eexists. split.
  - rewrite (bind_done _ _ _ _ _ (acquire_first _ _ Hh)).
    erewrite bind_done by (unfold set_sleeplock, upd_buf, get_buf; rewrite !bind_unfold; simpl;
                           rewrite Hx; done).
    erewrite bind_done by (apply wakeup_done; [done | simpl; set_solver]).
    by apply release_last.
  - split; [split |]; simpl; [destruct s; simpl in *; by subst | | done].
    apply Forall2_lookup. intros i. simpl. rewrite list_lookup_imap.
    destruct (k_procs s !! i) as [p|]; simpl; constructor.
    unfold wake_entry. case_decide; naive_solver.
Qed.

(** *** The operations on the buffers *)

Lemma get_core bs C i y :
  cache bs C → C !! i = Some y → ∃ x, bs !! i = Some x ∧ y = core x ∧ (i < NBUF)%nat.
Proof. intros HC (x & ? & ? & ?)%(cache_lookup _ _ _ _ HC). eauto. Qed.

(** [bget] finds the buffer of a cached block, or takes over an unused buffer. *)
Lemma bget_wp pid dev b C s :
  quiet pid s → cache (k_bufs s) C →
  (∀ i x, C !! i = Some x → holds_block dev b x = true ∨ b_refcnt x = 0 →
     sl_locked (b_lock x) = 0) →
  (∃ i x, C !! i = Some x ∧ (holds_block dev b x = true ∨ b_refcnt x = 0)) →
  wp (bget dev b) (λ bi s', bio_frame s s' ∧ ∃ x x', C !! bi = Some x ∧
    cache (k_bufs s') (<[bi := x']> C) ∧
    (holds_block dev b x = true ∧
       x' = (x <| b_refcnt := u32 (b_refcnt x + 1) |> <| b_lock := mkSleeplock 1 pid |>) ∨
     (∀ i y, C !! i = Some y → holds_block dev b y = false) ∧ b_refcnt x = 0 ∧
       x' = (x <| b_dev := dev |> <| b_blockno := b |> <| b_valid := 0 |>
               <| b_refcnt := 1 |> <| b_lock := mkSleeplock 1 pid |>))) s.
Proof.
  intros Hq HC Hfree Hroom. unfold bget. pose proof (quiet_held _ _ Hq) as Hh.
  eapply wp_bind_done; [by apply acquire_first |].
  apply wp_bind. eapply wp_mono; [by apply (bget_cached_wp dev b C) |].
  intros r s' [-> Hr]. simpl.
  assert (Hfin : ∀ bi x0 f, C !! bi = Some (core x0) → k_bufs s !! bi = Some x0 → (bi < NBUF)%nat →
    b_next (f x0) = b_next x0 → b_prev (f x0) = b_prev x0 → sl_locked (b_lock (f x0)) = 0 →
    wp (upd_buf bi f;; release LkBcache;; acquiresleep (SlBuf bi);; ret bi)
       (λ r s', r = bi ∧ bio_frame s s' ∧
          cache (k_bufs s') (<[bi := core (f x0) <| b_lock := mkSleeplock 1 pid |>]> C))
       (s <| k_held := [LkBcache] |>)).
  { clear r Hr. intros bi x0 f HCx Hx Hb Hn Hp Hl. apply wp_bind.
    eapply wp_upd_buf; [exact Hx |].
    eapply wp_bind_done; [by apply release_last |].
    eapply wp_bind_done.
    { eapply (acquiresleep_buf pid bi (f x0)); [| | done].
      - destruct Hq as [? ? ?]. by split.
      - simpl. apply list_lookup_insert_eq. by eapply lookup_lt_Some. }
    apply wp_ret. split; [done |]. split.
    - split; [destruct s; simpl in *; by subst | done].
    - simpl. rewrite list_insert_insert_eq. by eapply (cache_insert _ _ _ x0). }
  destruct r as [bi|].
  - destruct Hr as (y & Hy & HP). destruct (get_core _ _ _ _ HC Hy) as (x0 & Hx & -> & Hb).
    eapply wp_mono; [apply (Hfin bi x0 _ Hy Hx Hb); [done.. |] |].
    + simpl. apply (Hfree _ _ Hy). by left.
    + intros r s' (-> & Hf & HC'). split; [done |]. eexists _, _. split; [done |].
      split; [exact HC' |]. left. done.
  - apply wp_bind. eapply wp_mono; [by apply (bget_lru_wp C) |].
    intros r s' [-> Hr2]. destruct r as [bi|].
    + destruct Hr2 as (y & Hy & HP). destruct (get_core _ _ _ _ HC Hy) as (x0 & Hx & -> & Hb).
      eapply wp_mono; [apply (Hfin bi x0 _ Hy Hx Hb); [done.. |] |].
      * simpl. apply (Hfree _ _ Hy). by right.
      * intros r s' (-> & Hf & HC'). split; [done |]. eexists _, _. split; [done |].
        split; [exact HC' |]. right. done.
    + destruct Hroom as (i & x & Hx & [HP|HP]).
      * by rewrite (Hr _ _ Hx) in HP.
      * by destruct (Hr2 _ _ Hx).
Qed.

(** Reading and changing a buffer, its links apart. *)
Lemma wp_get_core C i y (Q : buf → kstate → Prop) s :
  cache (k_bufs s) C → C !! i = Some y → (∀ x, k_bufs s !! i = Some x → y = core x → Q x s) →
  wp (get_buf i) Q s.
Proof.
  intros HC Hy HQ. destruct (get_core _ _ _ _ HC Hy) as (x & Hx & -> & _).
  eapply wp_get_buf; [done | auto].
Qed.

Lemma wp_upd_core C i y f (Q : unit → kstate → Prop) s :
  cache (k_bufs s) C → C !! i = Some y →
  (∀ x, core (f x) = f (core x) ∧ b_next (f x) = b_next x ∧ b_prev (f x) = b_prev x) →
  (∀ bs', cache bs' (<[i := f y]> C) → Q tt (s <| k_bufs := bs' |>)) →
  wp (upd_buf i f) Q s.
Proof.
  intros HC Hy Hf HQ. destruct (get_core _ _ _ _ HC Hy) as (x & Hx & -> & Hi).
  destruct (Hf x) as (Hc & Hn & Hp). eapply wp_upd_buf; [done |].
  apply (HQ (<[i := f x]> (k_bufs s))). rewrite <-Hc. by eapply cache_insert.
Qed.

Lemma bio_frame_bufs s bs' : bio_frame s (s <| k_bufs := bs' |>).
Proof. split; [by destruct s | reflexivity]. Qed.

(** [brelse] unlocks the buffer and drops a reference to it. *)
Lemma brelse_wp pid bi x C s :
  quiet pid s → cache (k_bufs s) C → C !! bi = Some x → b_lock x = mkSleeplock 1 pid →
  wp (brelse bi) (λ _ s', bio_frame s s' ∧
    cache (k_bufs s') (<[bi := x <| b_lock := mkSleeplock 0 0 |>
                                 <| b_refcnt := u32 (b_refcnt x - 1) |>]> C)) s.
Proof.
  intros Hq HC Hx Hl. destruct (get_core _ _ _ _ HC Hx) as (x0 & Hx0 & -> & Hb).
  unfold brelse. eapply wp_bind_done; [by eapply holdingsleep_buf |]. cbn [negb].
  destruct (releasesleep_buf pid bi x0 s Hq Hx0) as (s1 & E1 & Hf1 & Hb1).
  eapply wp_bind_done; [exact E1 |].
  assert (HC1 : cache (k_bufs s1) (<[bi := core (x0 <| b_lock := mkSleeplock 0 0 |>)]> C)).
  { rewrite Hb1. by eapply cache_insert. }
  pose proof (quiet_frame _ _ _ Hf1 Hq) as Hq1.
  eapply wp_bind_done; [apply acquire_first, (quiet_held _ _ Hq1) |].
  apply wp_bind. eapply wp_upd_core; [exact HC1 | | done |].
  { apply list_lookup_insert_eq. by eapply lookup_lt_Some. }
  rewrite list_insert_insert_eq. intros bs2 HC2.
  set (y := (core x0) <| b_lock := mkSleeplock 0 0 |> <| b_refcnt := u32 (b_refcnt (core x0) - 1) |>).
  change (cache bs2 (<[bi := y]> C)) in HC2.
  apply wp_bind. eapply (wp_get_core _ _ y); [exact HC2 | |].
  { apply list_lookup_insert_eq. by eapply lookup_lt_Some. }
  intros x2 Hx2 _. simpl in Hx2.
  assert (Hrel : ∀ bs', cache bs' (<[bi := y]> C) → wp (release LkBcache) (λ _ s', bio_frame s s' ∧
      cache (k_bufs s') (<[bi := y]> C)) (s1 <| k_held := [LkBcache] |> <| k_bufs := bs' |>)).
  { intros bs' HC'. eapply wp_done; [by apply release_last |]. split; [| done].
    transitivity s1; [done |]. split; [| done].
    pose proof (quiet_held _ _ Hq1). destruct s1; simpl in *; by subst. }
  apply wp_bind. destruct (b_refcnt x2 =? 0); [| apply wp_ret; by apply Hrel].
  destruct (cache_lru _ _ HC2) as [l Hlru].
  eapply (wp_mono (move_front bi x2)); [by apply (move_front_wp l) |].
  intros _ s' (bs' & l' & -> & Hl' & Hcore). apply (Hrel bs'). by eapply cache_of_core.
Qed.

(** Without the block and without an unused buffer there is nothing to do. *)
Lemma bget_panic dev b C s :
  k_held s = [] → cache (k_bufs s) C →
  (∀ i x, C !! i = Some x → holds_block dev b x = false ∧ b_refcnt x ≠ 0) →
  ∃ s', bget dev b s = Panic "bget: no buffers" s'.
Proof.
  intros Hh HC Hall. unfold bget. eexists. erewrite bind_done by (by apply acquire_first).
  set (s1 := s <| k_held := [LkBcache] |>).
  destruct (wp_elim _ _ _ (bget_cached_wp dev b C s1 HC)) as ([bi|] & s2 & E1 & -> & Hr).
  { destruct Hr as (x & Hx & HP). by rewrite (proj1 (Hall _ _ Hx)) in HP. }
  erewrite bind_done by exact E1.
  destruct (wp_elim _ _ _ (bget_lru_wp C s1 HC)) as ([bi|] & s2 & E2 & -> & Hr2).
  { destruct Hr2 as (x & Hx & HP). by destruct (Hall _ _ Hx). }
  erewrite bind_done by exact E2. done.
Qed.

End spec.

(** *** Initialisation *)

(** A buffer as it is in zeroed memory, its links apart. *)
Lemma init_lock_done i s s' :
  (i < length (k_bufs s))%nat → core <$> k_bufs s' = core <$> k_bufs s →
  (∀ x, k_bufs s !! i = Some x → b_lock x = mkSleeplock 0 0) →
  upd_buf i (fun x => x <| b_lock := mkSleeplock 0 0 |>) s' = Done tt s'.
Proof.
  intros Hi HC Hlock. destruct (lookup_lt_is_Some_2 (k_bufs s) i Hi) as [y Hy].
  assert (core <$> k_bufs s' !! i = Some (core y)) as (x & Hx & Hxy)%fmap_Some.
  { rewrite <-list_lookup_fmap, HC, list_lookup_fmap, Hy. done. }
  assert (b_lock x = mkSleeplock 0 0) as Hlx.
  { rewrite <-(Hlock y Hy). by apply (f_equal b_lock) in Hxy. }
  unfold upd_buf, get_buf. rewrite !bind_unfold. simpl. rewrite Hx. simpl. unfold modify.
  f_equal. destruct s' as [? ? ? ? ? ? ? ? ? ? bs]; simpl in *. f_equal.
  apply list_insert_id. rewrite Hx. f_equal. destruct x; simpl in *. by subst.
Qed.

(** [binit] links zeroed buffers into the list; their contents do not matter. *)
Lemma binit_wp s :
  length (k_bufs s) = S NBUF →
  (∀ i x, k_bufs s !! i = Some x → b_lock x = mkSleeplock 0 0) →
  wp binit (λ _ s', ∃ bs', s' = (s <| k_bufs := bs' |>) ∧
    cache bs' (core <$> take NBUF (k_bufs s))) s.
Proof.
  intros Hlen Hlock.
  assert (Hh : (bhead < length (k_bufs s))%nat) by (rewrite Hlen; unfold bhead; lia).
  unfold binit. apply wp_bind, wp_set_prev; [done |]. intros bs1 N1 P1 C1.
  apply wp_bind, wp_set_next; [simpl; by rewrite (core_length _ _ C1) |]. intros bs2 N2 P2 C2.
  simpl in N2, P2, C2. rewrite C1 in C2.
  apply (wp_for_seq (λ i s', ∃ bs', s' = (s <| k_bufs := bs' |>) ∧
    core <$> bs' = core <$> k_bufs s ∧ linked bs' bhead (rev (seq 0 i)) bhead)).
  - exists bs2. split; [by destruct s |]. split; [done |]. simpl.
    by rewrite N2, P2, P1, !decide_True by done.
  - intros i s' (bs' & -> & HC & Hl) Hi.
    eapply (wp_mono (push_front_with (upd_buf i (fun x => x <| b_lock := mkSleeplock 0 0 |>)) i));
      [apply (push_front_wp _ (rev (seq 0 i))) |].
    + rewrite <-Permutation_rev, NoDup_cons, NoDup_cons. rewrite elem_of_cons, !elem_of_seq.
      unfold bhead. split_and!; [lia.. | apply NoDup_seq].
    + done.
    + simpl. by rewrite (core_length _ _ HC).
    + simpl. rewrite (core_length _ _ HC). lia.
    + simpl. intros s'' HC'. apply (init_lock_done i s); [lia | by rewrite HC', HC | apply Hlock].
    + intros _ s'' (bs'' & -> & Hl' & HC'). simpl in HC'. exists bs''. split; [by destruct s |].
      split; [by rewrite HC', HC |].
      by rewrite seq_S, rev_app_distr.
  - rewrite Nat.add_0_l. intros s' (bs' & -> & HC & Hl). exists bs'. split; [done |]. split.
    + exists (rev (seq 0 NBUF)). split; [by rewrite (core_length _ _ HC) | done |].
      by rewrite <-Permutation_rev.
    + by rewrite !fmap_take, HC.
Qed.
