(* ===== verification/BlockStore.v ===== *)
(** * The buffer cache as a store of blocks

    [store] is what a client of the cache may know: the current content of every
    block of a device, the blocks whose content the disk does not have yet, the
    references held by others (pins), the blocks this process has locked, and
    how many buffers are free.  [stored] relates it to the kernel state, and the
    lemmas give each operation of kernel/bio.c its meaning on the store. *)

From S2P Require Import Prelude Machine Kstate Logic Sched Bio BioSpec.

Record store := mkStore {
  st_view : gmap Z (list Z);         (* current content of each block *)
  st_dirty : gset Z;                 (* blocks changed but not written *)
  st_refs : Z → Z;                   (* references other than our locks *)
  st_held : gmap Z nat;              (* blocks we have locked, with their buffers *)
  st_free : nat;                     (* buffers without a reference *)
}.
#[global] Instance eta_store : Settable store := fun t =>
  mkStore (st_view t) (st_dirty t) (st_refs t) (st_held t) (st_free t).

Definition holds (t : store) (b : Z) : Z := match st_held t !! b with Some _ => 1 | None => 0 end.

(** What the buffer [x] at index [i] says about its block. *)
Record entry_ok (pid : Z) (t : store) (i : nat) (x : buf) : Prop := {
  entry_data : b_valid x ≠ 0 → st_view t !! b_blockno x = Some (b_data x);
  entry_refs : b_refcnt x = st_refs t (b_blockno x) + holds t (b_blockno x);
  entry_lock :
    match st_held t !! b_blockno x with
    | Some j => j = i ∧ b_lock x = mkSleeplock 1 pid ∧ b_valid x ≠ 0
    | None => sl_locked (b_lock x) = 0
    end;
  entry_dirty : b_blockno x ∈ st_dirty t → b_valid x ≠ 0;
}.

Definition unreferenced (C : list buf) : nat := length (filter (λ x, b_refcnt x = 0) C).

Record bufs_store (dev pid : Z) (C : list buf) (t : store) : Prop := {
  bs_unique : ∀ i j x y, C !! i = Some x → C !! j = Some y →
    b_dev x = dev → b_dev y = dev → b_blockno x = b_blockno y → i = j;
  bs_entry : ∀ i x, C !! i = Some x → b_dev x = dev → entry_ok pid t i x;
  bs_cached : ∀ b, 0 < st_refs t b ∨ is_Some (st_held t !! b) →
    ∃ i x, C !! i = Some x ∧ b_dev x = dev ∧ b_blockno x = b;
  bs_refs : ∀ b, 0 ≤ st_refs t b < 2 ^ 31;
  bs_idle : ∀ i x, C !! i = Some x → b_refcnt x = 0 → sl_locked (b_lock x) = 0;
  bs_dirty : ∀ b, b ∈ st_dirty t → 0 < st_refs t b ∨ is_Some (st_held t !! b);
  bs_free : st_free t = unreferenced C;
}.

(** The kernel state holds the store [t] of device [dev], as seen by the process
    [pid]; blocks that are not dirty are on the disk. *)
Record stored (dev pid : Z) (t : store) (s : kstate) : Prop := {
  sd_quiet : quiet pid s;
  sd_bufs : ∃ C, cache (k_bufs s) C ∧ bufs_store dev pid C t;
  sd_clean : ∀ b, b ∉ st_dirty t → k_disk s !! b = st_view t !! b;
  sd_disk : ∀ b, b ∈ st_dirty t → is_Some (k_disk s !! b);
}.

(** ** Counting free buffers *)

Definition is_zero (r : Z) : nat := if decide (r = 0) then 1%nat else 0%nat.

Lemma unreferenced_insert C i x y :
  C !! i = Some x →
  (unreferenced (<[i := y]> C) + is_zero (b_refcnt x) =
   unreferenced C + is_zero (b_refcnt y))%nat.
Proof.
  unfold unreferenced, is_zero. revert i; induction C as [|z C IH]; intros [|i] Hx; simplify_eq/=.
  - rewrite !filter_cons. repeat case_decide; simpl; lia.
  - rewrite !filter_cons. specialize (IH _ Hx). repeat case_decide; simpl; lia.
Qed.

Lemma unreferenced_pos C :
  (0 < unreferenced C)%nat → ∃ i x, C !! i = Some x ∧ b_refcnt x = 0.
Proof.
  unfold unreferenced. destruct (filter _ C) as [|x l] eqn:E; simpl; [lia |]. intros _.
  assert (x ∈ filter (λ x, b_refcnt x = 0) C) as [Hx [i Hi]%list_elem_of_lookup]%list_elem_of_filter
    by (rewrite E; set_solver).
  eauto.
Qed.

Lemma unreferenced_zero C i x :
  C !! i = Some x → b_refcnt x = 0 → (0 < unreferenced C)%nat.
Proof.
  intros Hx H. unfold unreferenced.
  assert (x ∈ filter (λ x, b_refcnt x = 0) C) as Hin
    by (apply list_elem_of_filter; split; [done | by eapply list_elem_of_lookup_2]).
  destruct (filter _ C); [by apply elem_of_nil in Hin | simpl; lia].
Qed.

(** ** Effect of one buffer on the store *)

Definition with_lock (t : store) (b : Z) (bi : nat) : store :=
  t <| st_held ::= <[b := bi]> |> <| st_free := (st_free t - is_zero (st_refs t b))%nat |>.

Definition without_lock (t : store) (b : Z) : store :=
  t <| st_held ::= delete b |> <| st_free := (st_free t + is_zero (st_refs t b))%nat |>.

Lemma holds_block_spec dev b x : holds_block dev b x = true ↔ b_dev x = dev ∧ b_blockno x = b.
Proof. unfold holds_block. rewrite andb_true_iff, !Z.eqb_eq. done. Qed.

Lemma lookup_insert_cases (C : list buf) i j x y z :
  C !! i = Some x → <[i := y]> C !! j = Some z → j = i ∧ z = y ∨ j ≠ i ∧ C !! j = Some z.
Proof.
  intros Hx. destruct (decide (j = i)) as [->|Hne].
  - rewrite list_lookup_insert_eq by (by eapply lookup_lt_Some). intros [= ->]. by left.
  - rewrite list_lookup_insert_ne by done. by right.
Qed.

(** The block of a buffer without references is neither pinned nor locked. *)
Lemma entry_idle dev pid C t i x :
  bufs_store dev pid C t → C !! i = Some x → b_dev x = dev → b_refcnt x = 0 →
  st_refs t (b_blockno x) = 0 ∧ st_held t !! b_blockno x = None.
Proof.
  intros H Hx Hd H0. pose proof (entry_refs _ _ _ _ (bs_entry _ _ _ _ H _ _ Hx Hd)) as E.
  pose proof (bs_refs _ _ _ _ H (b_blockno x)). unfold holds in E.
  destruct (st_held t !! b_blockno x); [lia | split; [lia | done]].
Qed.

(** A buffer that is to be locked for [b] counts as free exactly if [b] has no
    references. *)
Lemma entry_zero dev pid C t b i x :
  bufs_store dev pid C t → st_held t !! b = None → C !! i = Some x →
  (b_dev x = dev ∧ b_blockno x = b ∨
   b_refcnt x = 0 ∧ ∀ i z, C !! i = Some z → b_dev z = dev → b_blockno z ≠ b) →
  is_zero (b_refcnt x) = is_zero (st_refs t b).
Proof.
  intros H Hb Hx [[Hxd <-]|[Hx0 Hno]].
  - rewrite (entry_refs _ _ _ _ (bs_entry _ _ _ _ H _ _ Hx Hxd)). unfold holds. rewrite Hb.
    f_equal. lia.
  - rewrite Hx0. pose proof (bs_refs _ _ _ _ H b).
    destruct (decide (0 < st_refs t b)) as [Hpos|Hnp]; [| f_equal; lia].
    destruct (bs_cached _ _ _ _ H b) as (j & z & ? & ? & ?); [by left |]. by destruct (Hno j z).
Qed.

(** Buffer [bi] becomes the locked buffer of block [b]: it either had the block
    already, or had no reference and no other buffer has the block. *)
Lemma bufs_store_lock dev pid C t b bi x y :
  bufs_store dev pid C t → st_held t !! b = None → C !! bi = Some x →
  (b_dev x = dev ∧ b_blockno x = b ∨
   b_refcnt x = 0 ∧ ∀ i z, C !! i = Some z → b_dev z = dev → b_blockno z ≠ b) →
  b_dev y = dev → b_blockno y = b → b_valid y ≠ 0 → st_view t !! b = Some (b_data y) →
  b_refcnt y = st_refs t b + 1 → b_lock y = mkSleeplock 1 pid →
  bufs_store dev pid (<[bi := y]> C) (with_lock t b bi).
Proof.
  intros Hst Hb Hx Hcase Hdev Hblk Hval Hdata Href Hlock.
  pose proof Hst as [Hu He Hc Hr Hi Hd Hf].
  assert (Hother : ∀ i z, C !! i = Some z → i ≠ bi → b_dev z = dev → b_blockno z ≠ b).
  { intros i z Hz Hne Hzd E. destruct Hcase as [[? ?]|[_ Hno]]; [| by eapply Hno].
    apply Hne. by eapply (Hu i bi z x); [..| congruence]. }
  assert (Hzero : is_zero (b_refcnt x) = is_zero (st_refs t b)) by (by eapply entry_zero).
  assert (Hold : b_refcnt x = 0 ∨ b_dev x = dev ∧ b_blockno x = b) by naive_solver.
  split; simpl.
  - intros i j u v Hu' Hv Hud Hvd Huv.
    destruct (lookup_insert_cases _ _ _ _ _ _ Hx Hu') as [[-> ->]|[Hi' Hu2]],
      (lookup_insert_cases _ _ _ _ _ _ Hx Hv) as [[-> ->]|[Hj' Hv2]]; [done | | |].
    + by destruct (Hother _ _ Hv2 Hj' Hvd); congruence.
    + by destruct (Hother _ _ Hu2 Hi' Hud); congruence.
    + by eapply Hu.
  - intros i z Hz Hzd. destruct (lookup_insert_cases _ _ _ _ _ _ Hx Hz) as [[-> ->]|[Hi' Hz2]].
    + split; simpl; rewrite ?Hblk; [done | | by rewrite lookup_insert_eq | done].
      unfold holds. simpl. by rewrite lookup_insert_eq.
    + pose proof (Hother _ _ Hz2 Hi' Hzd) as Hne. destruct (He _ _ Hz2 Hzd) as [? Hrf ? ?].
      split; simpl; [done | | by rewrite lookup_insert_ne | done].
      rewrite Hrf. unfold holds. simpl. by rewrite lookup_insert_ne.
  - intros b' Hb'. destruct (decide (b' = b)) as [->|Hne].
    + exists bi, y. split; [| done]. apply list_lookup_insert_eq. by eapply lookup_lt_Some.
    + destruct (Hc b') as (i & z & Hz & Hzd & <-).
      { rewrite lookup_insert_ne in Hb' by done. done. }
      destruct (decide (i = bi)) as [->|Hibi]; [| exists i, z; by rewrite list_lookup_insert_ne].
      assert (z = x) as -> by congruence. destruct Hold as [H0|[_ ?]]; [| done].
      destruct (entry_idle _ _ _ _ _ _ Hst Hz Hzd H0) as [Hr0 Hn0].
      rewrite lookup_insert_ne, Hr0, Hn0 in Hb' by done. destruct Hb' as [?|[? ?]]; [lia | done].
  - done.
  - intros i z Hz Hz0. destruct (lookup_insert_cases _ _ _ _ _ _ Hx Hz) as [[-> ->]|[? ?]].
    + specialize (Hr b). lia.
    + by eapply Hi.
  - intros b' Hb'. destruct (decide (b' = b)) as [->|Hne].
    + right. rewrite lookup_insert_eq. eauto.
    + rewrite lookup_insert_ne by done. auto.
  - pose proof (unreferenced_insert C bi x y Hx) as Hcount.
    rewrite Hf. rewrite Hzero in Hcount. specialize (Hr b).
    assert (is_zero (b_refcnt y) = 0%nat) as Hy0 by (unfold is_zero; rewrite decide_False by lia; done).
    lia.
Qed.

(** Two stores that differ at block [b] only. *)
Definition agree_off (b : Z) (t t' : store) : Prop :=
  ∀ b', b' ≠ b → st_view t' !! b' = st_view t !! b' ∧ (b' ∈ st_dirty t' ↔ b' ∈ st_dirty t) ∧
    st_refs t' b' = st_refs t b' ∧ st_held t' !! b' = st_held t !! b'.

(** A buffer changes what the store says of its own block. *)
Lemma bufs_store_change dev pid C t t' b bi x y :
  bufs_store dev pid C t → C !! bi = Some x → b_dev x = dev → b_blockno x = b →
  b_dev y = dev → b_blockno y = b → agree_off b t t' → entry_ok pid t' bi y →
  0 ≤ st_refs t' b < 2 ^ 31 → (b_refcnt y = 0 → sl_locked (b_lock y) = 0) →
  (b ∈ st_dirty t' → 0 < st_refs t' b ∨ is_Some (st_held t' !! b)) →
  (st_free t' + is_zero (b_refcnt x) = st_free t + is_zero (b_refcnt y))%nat →
  bufs_store dev pid (<[bi := y]> C) t'.
Proof.
  intros [Hu He Hc Hr Hi Hd Hf] Hx Hxd Hxb Hyd Hyb Hoff Hy Hrb Hyi Hyd' Hfree.
  assert (Hother : ∀ i z, C !! i = Some z → i ≠ bi → b_dev z = dev → b_blockno z ≠ b).
  { intros i z Hz Hne Hzd E. apply Hne. by eapply (Hu i bi z x); [..| congruence]. }
  split.
  - intros i j u v Hu' Hv Hud Hvd Huv.
    destruct (lookup_insert_cases _ _ _ _ _ _ Hx Hu') as [[-> ->]|[Hi' Hu2]],
      (lookup_insert_cases _ _ _ _ _ _ Hx Hv) as [[-> ->]|[Hj' Hv2]]; [done | | |].
    + by destruct (Hother _ _ Hv2 Hj' Hvd); congruence.
    + by destruct (Hother _ _ Hu2 Hi' Hud); congruence.
    + by eapply Hu.
  - intros i z Hz Hzd. destruct (lookup_insert_cases _ _ _ _ _ _ Hx Hz) as [[-> ->]|[Hi' Hz2]];
      [done |].
    destruct (Hoff (b_blockno z)) as (Hv & Hdd & Hrr & Hhh); [by apply (Hother i) |].
    destruct (He _ _ Hz2 Hzd) as [? Hrf ? ?].
    split; rewrite ?Hv, ?Hdd, ?Hhh; [done | | done | done].
    rewrite Hrf, Hrr. unfold holds. by rewrite Hhh.
  - intros b' Hb'. destruct (decide (b' = b)) as [->|Hne].
    + exists bi, y. split; [| done]. apply list_lookup_insert_eq. by eapply lookup_lt_Some.
    + destruct (Hoff _ Hne) as (_ & _ & Hrr & Hhh). rewrite Hrr, Hhh in Hb'.
      destruct (Hc b' Hb') as (i & z & Hz & Hzd & <-). exists i, z.
      rewrite list_lookup_insert_ne by congruence. done.
  - intros b'. destruct (decide (b' = b)) as [->|Hne]; [done |].
    destruct (Hoff _ Hne) as (_ & _ & -> & _). apply Hr.
  - intros i z Hz Hz0. destruct (lookup_insert_cases _ _ _ _ _ _ Hx Hz) as [[-> ->]|[? ?]]; eauto.
  - intros b' Hb'. destruct (decide (b' = b)) as [->|Hne]; [auto |].
    destruct (Hoff _ Hne) as (_ & Hdd & -> & ->). apply Hd. by apply Hdd.
  - pose proof (unreferenced_insert C bi x y Hx). lia.
Qed.

(** The buffer of a locked block. *)
Lemma held_entry dev pid C t b bi :
  bufs_store dev pid C t → st_held t !! b = Some bi →
  ∃ x, C !! bi = Some x ∧ b_dev x = dev ∧ b_blockno x = b ∧ entry_ok pid t bi x ∧
    b_refcnt x = st_refs t b + 1 ∧ b_lock x = mkSleeplock 1 pid ∧ b_valid x ≠ 0 ∧
    st_view t !! b = Some (b_data x).
Proof.
  intros H Hb. destruct (bs_cached _ _ _ _ H b) as (i & x & Hx & Hd & Hbb); [by eauto |].
  pose proof (bs_entry _ _ _ _ H _ _ Hx Hd) as He. pose proof He as [H1 H2 H3 _].
  rewrite Hbb in H1, H2, H3. rewrite Hb in H3. destruct H3 as (-> & Hl & Hv).
  exists x. unfold holds in H2. rewrite Hb in H2. split_and!; auto.
Qed.

(** ** The operations *)

Section ops.
Context {E : Env} (dev pid : Z).
Implicit Types (t : store) (s : kstate).

Lemma stored_frame t t' s s' C' :
  stored dev pid t s → bio_frame s s' → cache (k_bufs s') C' → bufs_store dev pid C' t' →
  st_view t' = st_view t → st_dirty t' = st_dirty t → stored dev pid t' s'.
Proof.
  intros [Hq _ Hcl Hdk] Hf HC HB Hv Hd. assert (k_disk s' = k_disk s) as Hdisk.
  { destruct Hf as [-> _]. done. }
  split; [by eapply quiet_frame | eauto | |]; by rewrite Hdisk, ?Hv, Hd.
Qed.

Lemma get_buf_store t b bi d (Q : buf → kstate → Prop) s :
  stored dev pid t s → st_held t !! b = Some bi → st_view t !! b = Some d →
  (∀ x, b_data x = d → b_blockno x = b → Q x s) → wp (get_buf bi) Q s.
Proof.
  intros [_ (C & HC & HB) _ _] Hb Hd HQ.
  destruct (held_entry _ _ _ _ _ _ HB Hb) as (x & Hx & _ & Hxb & _ & _ & _ & _ & Hv).
  eapply wp_get_core; [done.. |]. intros x0 _ ->. apply HQ; [| done].
  rewrite Hd in Hv. by injection Hv.
Qed.

(** What [bget] leaves for block [b], once its data is in place. *)
Lemma bget_entry C t b bi x x' d :
  bufs_store dev pid C t → st_held t !! b = None → C !! bi = Some x →
  (holds_block dev b x = true ∧
     x' = (x <| b_refcnt := u32 (b_refcnt x + 1) |> <| b_lock := mkSleeplock 1 pid |>) ∨
   (∀ i y, C !! i = Some y → holds_block dev b y = false) ∧ b_refcnt x = 0 ∧
     x' = (x <| b_dev := dev |> <| b_blockno := b |> <| b_valid := 0 |>
             <| b_refcnt := 1 |> <| b_lock := mkSleeplock 1 pid |>)) →
  st_view t !! b = Some d →
  (b_valid x' ≠ 0 → b_data x' = d) ∧ (b_valid x' = 0 → b ∉ st_dirty t) ∧ b_blockno x' = b ∧
  ∀ v, v ≠ 0 → bufs_store dev pid (<[bi := x' <| b_data := d |> <| b_valid := v |>]> C)
                 (with_lock t b bi).
Proof.
  intros HB Hb Hx Hcase Hd. pose proof (bs_refs _ _ _ _ HB b) as Hr.
  destruct Hcase as [[[Hxd Hxb]%holds_block_spec ->]|(Hno & H0 & ->)]; simpl.
  - destruct (bs_entry _ _ _ _ HB _ _ Hx Hxd) as [Hdata Href _ Hdirty].
    rewrite Hxb in *. split_and!; [| naive_solver | done |].
    { intros Hv. specialize (Hdata Hv). congruence. }
    intros v Hv. eapply bufs_store_lock; [done.. | by left | done | done | done | done | | done].
    simpl. rewrite Href. unfold holds. rewrite Hb, u32_small; lia.
  - assert (Hnb : ∀ i z, C !! i = Some z → b_dev z = dev → b_blockno z ≠ b).
    { intros i z Hz Hzd Hzb. pose proof (Hno _ _ Hz) as Hn.
      by rewrite (proj2 (holds_block_spec dev b z)) in Hn. }
    assert (Hnc : ¬ (0 < st_refs t b ∨ is_Some (st_held t !! b))).
    { intros (i & z & ? & ? & ?)%(bs_cached _ _ _ _ HB). by eapply Hnb. }
    split_and!; [done | | done |].
    { intros _ Hdirty%(bs_dirty _ _ _ _ HB). done. }
    intros v Hv. eapply bufs_store_lock; [done.. | by right | done | done | done | done | | done].
    simpl. lia.
Qed.

(** Reading a block locks it and yields its current content. *)
Lemma bread_store t b s :
  stored dev pid t s → st_held t !! b = None → is_Some (st_view t !! b) →
  (st_refs t b = 0 → (0 < st_free t)%nat) →
  wp (bread dev b) (λ bi s', stored dev pid (with_lock t b bi) s' ∧ bio_frame s s') s.
Proof.
  intros Hst Hb [d Hd] Hroom. pose proof Hst as [Hq (C & HC & HB) Hcl Hdk].
  unfold bread. apply wp_bind. eapply wp_mono; [apply (bget_wp pid dev b C s Hq HC) |].
  - intros i x Hx [[Hxd Hxb]%holds_block_spec|H0]; [| by eapply (bs_idle _ _ _ _ HB)].
    pose proof (entry_lock _ _ _ _ (bs_entry _ _ _ _ HB _ _ Hx Hxd)) as Hl.
    by rewrite Hxb, Hb in Hl.
  - pose proof (bs_refs _ _ _ _ HB b). destruct (decide (st_refs t b = 0)) as [H0|H0].
    + destruct (unreferenced_pos C) as (i & x & ? & ?); [| by eauto].
      rewrite <-(bs_free _ _ _ _ HB). auto.
    + destruct (bs_cached _ _ _ _ HB b) as (i & x & ? & ? & ?); [left; lia |].
      exists i, x. split; [done |]. left. by apply holds_block_spec.
  - intros bi s1 (Hf & x & x' & Hx & HC1 & Hcase).
    destruct (bget_entry _ _ _ _ _ _ _ HB Hb Hx Hcase Hd) as (Hdata & Hclean & Hxb & Hfin).
    assert (Hx' : <[bi := x']> C !! bi = Some x')
      by (apply list_lookup_insert_eq; by eapply lookup_lt_Some).
    apply wp_bind. eapply wp_get_core; [done.. |]. intros x1 Hx1 ->. apply wp_bind.
    destruct (Z.eqb_spec (b_valid x1) 0) as [Hv|Hv].
    + apply wp_bind. unfold virtio_disk_rw. apply wp_bind. eapply wp_get_buf; [done |].
      apply wp_bind, wp_gets. assert (k_disk s1 = k_disk s) as -> by (by destruct Hf as [-> _]).
      simpl in Hxb. rewrite Hxb, Hcl, Hd by auto. cbn [Z.eqb negb].
      eapply wp_upd_core; [done.. |]. rewrite list_insert_insert_eq. intros bs2 HC2.
      eapply wp_upd_core; [exact HC2 | apply list_lookup_insert_eq; by eapply lookup_lt_Some | done |].
      rewrite list_insert_insert_eq. intros bs3 HC3. apply wp_ret.
      assert (Hf3 : bio_frame s (s1 <| k_bufs := bs2 |> <| k_bufs := bs3 |>))
        by (do 2 (etransitivity; [| apply bio_frame_bufs]); done).
      split; [| done]. by eapply stored_frame; [| | exact HC3 | apply (Hfin 1) | |].
    + apply wp_ret, wp_ret. split; [| done]. eapply stored_frame; [done.. | | | done | done].
      * exact HC1.
      * specialize (Hfin _ Hv). simpl in Hdata. rewrite <-Hdata in Hfin by done.
        by destruct x1.
Qed.

(** Changing the data of a locked block. *)
Definition with_data (t : store) (b : Z) (d : list Z) : store :=
  t <| st_view ::= <[b := d]> |> <| st_dirty ::= union {[b]} |>.

Lemma change_store t b bi d f s :
  stored dev pid t s → st_held t !! b = Some bi → st_view t !! b = Some d →
  (∀ x, f x = (x <| b_data := b_data (f x) |>)) →
  (∀ x y, b_data x = b_data y → b_data (f x) = b_data (f y)) →
  wp (upd_buf bi f) (λ _ s', bio_frame s s' ∧
    ∃ x, b_data x = d ∧ stored dev pid (with_data t b (b_data (f x))) s') s.
Proof.
  intros [Hq (C & HC & HB) Hcl Hdk] Hb Hd Hf Hfd.
  destruct (held_entry _ _ _ _ _ _ HB Hb) as (x & Hx & Hxd & Hxb & He & Hr & Hl & Hv & Hdx).
  assert (b_data x = d) as Hxdata by congruence.
  eapply (wp_upd_core C bi x); [done.. | |].
  { intros y. rewrite (Hf y), (Hf (core y)). simpl. rewrite (Hfd (core y) y) by done. done. }
  intros bs' HC'. pose proof (bio_frame_bufs s bs') as Hfr. split; [done |]. exists x. split; [done |].
  split; simpl.
  - by eapply quiet_frame.
  - exists (<[bi := f x]> C). split; [done |].
    pose proof (bs_refs _ _ _ _ HB b). destruct He as [H1 H2 H3 H4]. rewrite (Hf x).
    eapply (bufs_store_change _ _ _ t _ b); [done.. | | | done | | | done]; simpl.
    + intros b' Hne. simpl. rewrite lookup_insert_ne by done. set_solver.
    + split; simpl; [| done | done |]; rewrite Hxb; [by rewrite lookup_insert_eq | done].
    + lia.
    + rewrite Hb. eauto.
  - intros b' Hb'. rewrite lookup_insert_ne by set_solver. apply Hcl. set_solver.
  - intros b' [->%elem_of_singleton|Hb']%elem_of_union; [| auto].
    destruct (decide (b ∈ st_dirty t)); [auto |]. rewrite Hcl by done. eauto.
Qed.

(** Writing a locked block: the disk has its content. *)
Lemma bwrite_store t b bi d s :
  stored dev pid t s → st_held t !! b = Some bi → st_view t !! b = Some d →
  wp (bwrite bi) (λ _ s', stored dev pid (t <| st_dirty ::= (.∖ {[b]}) |>) s' ∧
    s' = (s <| k_disk ::= <[b := d]> |> <| k_dwrites ::= cons (b, d) |>)) s.
Proof.
  intros [Hq (C & HC & HB) Hcl Hdk] Hb Hd.
  destruct (held_entry _ _ _ _ _ _ HB Hb) as (x & Hx & Hxd & Hxb & He & Hr & Hl & Hv & Hdx).
  destruct (get_core _ _ _ _ HC Hx) as (x0 & Hx0 & -> & _). simpl in *.
  assert (b_data x0 = d) as Hdata by congruence.
  assert (is_Some (k_disk s !! b)) as [old Hold].
  { destruct (decide (b ∈ st_dirty t)); [auto |]. rewrite Hcl by done. eauto. }
  unfold bwrite. eapply wp_bind_done; [by eapply holdingsleep_buf |]. cbn [negb].
  unfold virtio_disk_rw. apply wp_bind. eapply wp_get_buf; [done |].
  apply wp_bind, wp_gets. rewrite Hxb, Hold. cbn [Z.eqb negb].
  apply wp_modify. rewrite Hdata. split; [| done].
  split; simpl.
  - destruct Hq as [? ? ?]. by split.
  - exists C. split; [done |]. destruct HB as [Hu Hen Hc Hrf Hi Hdi Hfr].
    split; simpl; try done.
    + intros i z Hz Hzd. destruct (Hen _ _ Hz Hzd) as [? ? ? ?]. split; simpl; try done. set_solver.
    + intros b' Hb'. apply Hdi. set_solver.
  - intros b' Hb'. destruct (decide (b' = b)) as [->|Hne].
    + by rewrite lookup_insert_eq.
    + rewrite lookup_insert_ne by done. apply Hcl. set_solver.
  - intros b' Hb'. destruct (decide (b' = b)) as [->|Hne]; [set_solver |].
    rewrite lookup_insert_ne by done. apply Hdk. set_solver.
Qed.

(** Releasing a block; if it is dirty somebody must still have it pinned. *)
Lemma brelse_store t b bi s :
  stored dev pid t s → st_held t !! b = Some bi → (b ∈ st_dirty t → 0 < st_refs t b) →
  wp (brelse bi) (λ _ s', stored dev pid (without_lock t b) s' ∧ bio_frame s s') s.
Proof.
  intros Hst Hb Hpin. pose proof Hst as [Hq (C & HC & HB) Hcl Hdk].
  destruct (held_entry _ _ _ _ _ _ HB Hb) as (x & Hx & Hxd & Hxb & He & Hr & Hl & Hv & Hdx).
  pose proof (bs_refs _ _ _ _ HB b) as Hrb.
  eapply wp_mono; [by apply (brelse_wp pid bi x C) |]. intros _ s' [Hf HC'].
  split; [| done]. eapply stored_frame; [done | done | exact HC' | | done | done].
  assert (u32 (b_refcnt x - 1) = st_refs t b) as Hr' by (rewrite Hr, u32_small; lia).
  eapply (bufs_store_change _ _ _ t _ b); [done.. | | | | done | |]; simpl.
  - intros b' Hne. simpl. by rewrite lookup_delete_ne.
  - destruct He as [H1 H2 H3 H4].
    split; simpl; [done | | by rewrite Hxb, lookup_delete_eq | done].
    rewrite Hr', Hxb. unfold holds. simpl. rewrite lookup_delete_eq. lia.
  - lia.
  - intros Hd. left. auto.
  - rewrite Hr', Hr. unfold is_zero. rewrite (decide_False (P := _ + 1 = 0)) by lia. lia.
Qed.

(** Pinning and unpinning a locked block. *)
Definition with_refs (t : store) (b r : Z) : store :=
  t <| st_refs ::= fun f b' => if decide (b' = b) then r else f b' |>.

Lemma repin_store t b bi f r h s :
  stored dev pid t s → st_held t !! b = Some bi → 0 ≤ r < 2 ^ 31 → LkBcache ∉ h →
  (∀ x, f x = (x <| b_refcnt := b_refcnt (f x) |>)) →
  (∀ x, b_refcnt x = st_refs t b + 1 → b_refcnt (f x) = r + 1) →
  (∀ x y, b_refcnt x = b_refcnt y → b_refcnt (f x) = b_refcnt (f y)) →
  wp (acquire LkBcache;; upd_buf bi f;; release LkBcache)
    (λ _ s', ∃ s1, s' = (s1 <| k_held := h |>) ∧ stored dev pid (with_refs t b r) s1 ∧
       bio_frame s s1) (s <| k_held := h |>).
Proof.
  intros Hst Hb Hrr Hnh Hf Hfr Hfx. pose proof Hst as [Hq (C & HC & HB) Hcl Hdk].
  destruct (held_entry _ _ _ _ _ _ HB Hb) as (x & Hx & Hxd & Hxb & He & Hr & Hl & Hv & Hdx).
  pose proof (quiet_held _ _ Hq) as Hh. pose proof (bs_refs _ _ _ _ HB b) as Hrb.
  eapply wp_bind_done; [by apply acquire_done |]. apply wp_bind.
  eapply (wp_upd_core C bi x); [done.. | |].
  { intros y. rewrite (Hf y), (Hf (core y)). simpl. rewrite (Hfx (core y) y) by done. done. }
  intros bs' HC'. eapply wp_done; [by eapply (release_done _ h) |].
  exists (s <| k_bufs := bs' |>). split; [done |].
  pose proof (bio_frame_bufs s bs') as Hfrm.
  split; [| done]. eapply stored_frame; [done | done | exact HC' | | done | done].
  rewrite (Hf x), (Hfr x Hr).
  eapply (bufs_store_change _ _ _ t _ b); [done.. | | | | | |]; simpl.
  - intros b' Hne. simpl. by rewrite decide_False.
  - destruct He as [H1 H2 H3 H4]. split; simpl; [done | | done | done].
    rewrite Hxb, decide_True by done. unfold holds. simpl. rewrite Hb. lia.
  - by rewrite decide_True.
  - lia.
  - rewrite Hb. eauto.
  - rewrite Hr. unfold is_zero. rewrite !decide_False by lia. lia.
Qed.

(** [bpin] is also called with the lock of the log held. *)
Lemma bpin_held t b bi h s :
  stored dev pid t s → st_held t !! b = Some bi → st_refs t b + 1 < 2 ^ 31 → LkBcache ∉ h →
  wp (bpin bi) (λ _ s', ∃ s1, s' = (s1 <| k_held := h |>) ∧
    stored dev pid (with_refs t b (st_refs t b + 1)) s1 ∧ bio_frame s s1) (s <| k_held := h |>).
Proof.
  intros Hst Hb Hr Hh. pose proof Hst as [_ (C & _ & HB) _ _].
  pose proof (bs_refs _ _ _ _ HB b). unfold bpin.
  apply (repin_store t b bi); [done | done | lia | done | done | | by intros x y ->].
  intros x Hx. simpl. rewrite Hx, u32_small; lia.
Qed.

Lemma stored_held t s : stored dev pid t s → (s <| k_held := [] |>) = s.
Proof. intros [[Hh _ _] _ _ _]. destruct s; simpl in *. by subst. Qed.

Lemma bpin_store t b bi s :
  stored dev pid t s → st_held t !! b = Some bi → st_refs t b + 1 < 2 ^ 31 →
  wp (bpin bi) (λ _ s', stored dev pid (with_refs t b (st_refs t b + 1)) s' ∧ bio_frame s s') s.
Proof.
  intros Hst Hb Hr. rewrite <-(stored_held _ _ Hst) at 1.
  eapply wp_mono; [apply (bpin_held t b); [done.. | set_solver] |].
  intros _ s' (s1 & -> & Hst1 & Hf). by rewrite (stored_held _ _ Hst1).
Qed.

Lemma bunpin_store t b bi s :
  stored dev pid t s → st_held t !! b = Some bi → 0 < st_refs t b →
  wp (bunpin bi) (λ _ s', stored dev pid (with_refs t b (st_refs t b - 1)) s' ∧ bio_frame s s') s.
Proof.
  intros Hst Hb Hr. pose proof Hst as [_ (C & _ & HB) _ _].
  pose proof (bs_refs _ _ _ _ HB b). rewrite <-(stored_held _ _ Hst) at 1. unfold bunpin.
  eapply wp_mono; [apply (repin_store t b bi _ (st_refs t b - 1) []) |].
  - done.
  - done.
  - lia.
  - set_solver.
  - done.
  - intros x Hx. simpl. rewrite Hx, u32_small; lia.
  - by intros x y ->.
  - intros _ s' (s1 & -> & Hst1 & Hf). by rewrite (stored_held _ _ Hst1).
Qed.

End ops.

(** ** Initialisation *)

(** The store of a machine that has cached nothing. *)
Definition fresh_store (s : kstate) : store := mkStore (k_disk s) ∅ (λ _, 0) ∅ NBUF.

(** Buffers in zeroed memory. *)
Definition zeroed (x : buf) : Prop :=
  b_dev x = 0 ∧ b_refcnt x = 0 ∧ b_lock x = mkSleeplock 0 0.

Lemma fresh_stored dev pid C s :
  dev ≠ 0 → quiet pid s → cache (k_bufs s) C → (∀ i x, C !! i = Some x → zeroed x) →
  stored dev pid (fresh_store s) s.
Proof.
  intros Hdev Hq HC Hz. split; simpl; [done | | done | set_solver].
  exists C. split; [done |].
  assert (Hno : ∀ i x, C !! i = Some x → b_dev x ≠ dev).
  { intros i x Hx. destruct (Hz _ _ Hx) as [-> _]. done. }
  split; simpl.
  - intros i j x y Hx Hy Hd. by destruct (Hno _ _ Hx).
  - intros i x Hx Hd. by destruct (Hno _ _ Hx).
  - intros b [?|[? ?]]; [lia | done].
  - lia.
  - intros i x Hx _. destruct (Hz _ _ Hx) as (_ & _ & ->). done.
  - set_solver.
  - unfold unreferenced. rewrite list_filter_all.
    + by destruct (cache_length _ _ HC).
    + apply Forall_lookup. intros i x Hx. by destruct (Hz _ _ Hx) as (_ & ? & _).
Qed.

(** ** The contract

    What a client of the cache relies on.  [rep t s]: the kernel state [s] holds
    the store [t]. *)

Record BlockStore (dev : Z) (rep : Z → store → kstate → Prop) (init : K unit)
    (read : Z → K nat) (write release pin unpin : nat → K unit) : Prop := {
  store_init : ∀ s, length (k_bufs s) = S NBUF → (∀ i x, k_bufs s !! i = Some x → zeroed x) →
    wp init (λ _ s', ∀ pid, quiet pid s' → rep pid (fresh_store s) s') s;
  store_read : ∀ pid t b s, rep pid t s → st_held t !! b = None → is_Some (st_view t !! b) →
    (st_refs t b = 0 → (0 < st_free t)%nat) →
    wp (read b) (λ bi s', rep pid (with_lock t b bi) s') s;
  store_data : ∀ pid t b bi s, rep pid t s → st_held t !! b = Some bi →
    ∃ x, k_bufs s !! bi = Some x ∧ b_blockno x = b ∧ st_view t !! b = Some (b_data x);
  store_change : ∀ pid t b bi d s, rep pid t s → st_held t !! b = Some bi →
    wp (upd_buf bi (fun x => x <| b_data := d |>)) (λ _ s', rep pid (with_data t b d) s') s;
  store_write : ∀ pid t b bi d s, rep pid t s → st_held t !! b = Some bi →
    st_view t !! b = Some d →
    wp (write bi) (λ _ s', rep pid (t <| st_dirty ::= (.∖ {[b]}) |>) s' ∧
      k_disk s' = <[b := d]> (k_disk s)) s;
  store_release : ∀ pid t b bi s, rep pid t s → st_held t !! b = Some bi →
    (b ∈ st_dirty t → 0 < st_refs t b) →
    wp (release bi) (λ _ s', rep pid (without_lock t b) s') s;
  store_pin : ∀ pid t b bi s, rep pid t s → st_held t !! b = Some bi →
    st_refs t b + 1 < 2 ^ 31 →
    wp (pin bi) (λ _ s', rep pid (with_refs t b (st_refs t b + 1)) s') s;
  store_unpin : ∀ pid t b bi s, rep pid t s → st_held t !! b = Some bi → 0 < st_refs t b →
    wp (unpin bi) (λ _ s', rep pid (with_refs t b (st_refs t b - 1)) s') s;
  store_clean : ∀ pid t b s, rep pid t s → b ∉ st_dirty t → k_disk s !! b = st_view t !! b;
}.

(** ** Theorems *)

(** C20: the buffer cache implements a store of blocks.  After [binit] on zeroed
    buffers the store shows the disk; [bread] locks a block and gives a buffer
    with its current content, as long as a buffer is free or the block is in
    use; changing a locked buffer changes the content of that block only;
    [bwrite] puts it on the disk; [brelse], [bpin] and [bunpin] change the locks
    and pins only, and every block that is not marked as changed is on the disk
    as the store shows it. *)
Theorem bcache_implements_store {E : Env} dev :
  dev ≠ 0 → BlockStore dev (stored dev) binit (bread dev) bwrite brelse bpin bunpin.
Proof.
  intros Hdev. split.
  - intros s Hlen Hz. eapply wp_mono; [apply binit_wp; [done |] |].
    { intros i x Hx. by destruct (Hz _ _ Hx) as (_ & _ & ?). }
    intros _ s' (bs' & -> & HC) pid Hq.
    change (fresh_store s) with (fresh_store (s <| k_bufs := bs' |>)).
    eapply fresh_stored; [done.. |].
    intros i x. rewrite list_lookup_fmap. intros (y & Hy & ->)%fmap_Some.
    apply lookup_take_Some in Hy as [Hy _]. apply (Hz _ _ Hy).
  - intros pid t b s Hst Hb Hv Hr. eapply wp_mono; [by apply bread_store |]. by intros bi s' [? _].
  - intros pid t b bi s [_ (C & HC & HB) _ _] Hb.
    destruct (held_entry _ _ _ _ _ _ HB Hb) as (x & Hx & _ & Hxb & _ & _ & _ & _ & Hv).
    destruct (get_core _ _ _ _ HC Hx) as (x0 & Hx0 & -> & _). eauto.
  - intros pid t b bi d s Hst Hb. pose proof Hst as [_ (C & _ & HB) _ _].
    destruct (held_entry _ _ _ _ _ _ HB Hb) as (x & _ & _ & _ & _ & _ & _ & _ & Hv).
    eapply wp_mono; [by apply (change_store dev pid t b bi (b_data x)) |].
    by intros _ s' (_ & y & _ & ?).
  - intros pid t b bi d s Hst Hb Hd. eapply wp_mono; [by apply bwrite_store |].
    intros _ s' [? ->]. done.
  - intros pid t b bi s Hst Hb Hd. eapply wp_mono; [by apply brelse_store |]. by intros _ s' [? _].
  - intros pid t b bi s Hst Hb Hd. eapply wp_mono; [by apply bpin_store |]. by intros _ s' [? _].
  - intros pid t b bi s Hst Hb Hd. eapply wp_mono; [by apply bunpin_store |]. by intros _ s' [? _].
  - intros pid t b s [_ _ Hcl _] Hb. auto.
Qed.
