(* ===== verification/Log.v ===== *)
(** * Write-ahead log (kernel/log.c)

    The on-disk log header is block [log_start]: a count [n] and [n] block
    numbers; the logged blocks follow it. *)

From S2P Require Import Prelude Machine Kstate Strings Sched Printf Bio.

(** [struct logheader] in a block: [int n; int block[LOGBLOCKS];]. *)
Definition hdr_n (data : list Z) : Z := i32 (le_val (slice data 0 4)).
Definition hdr_block (data : list Z) (i : nat) : Z := i32 (le_val (slice data (4 + 4 * i) 4)).
Definition set_hdr_n (data : list Z) (n : Z) : list Z := splice data 0 (le_bytes 4 (u32 n)).
Definition set_hdr_block (data : list Z) (i : nat) (v : Z) : list Z :=
  splice data (4 + 4 * i) (le_bytes 4 (u32 v)).

(** [log.lh.block[i]], an array of [LOGBLOCKS] ints. *)
Definition get_lh_block (i : nat) : K Z :=
  l ← gets k_log; must (lh_block (log_lh l) !! i) "log.lh.block index".
Definition set_lh_block (i : nat) (v : Z) : K unit :=
  get_lh_block i;;
  upd_log (fun l => l <| log_lh ::= fun h => h <| lh_block ::= <[i := v]> |> |>).
Definition get_lh_n : K Z := gets (fun s => lh_n (log_lh (k_log s))).
Definition set_lh_n (n : Z) : K unit :=
  upd_log (fun l => l <| log_lh ::= fun h => h <| lh_n := n |> |>).

(** [for (i = 0; i < log.lh.n; i++)]: the bound is read again on every round;
    an index past the array is undefined behaviour, so LOGBLOCKS + 1 rounds
    suffice. *)
Definition for_lh (body : nat → K unit) : K unit :=
  loop (S (S LOGBLOCKS)) (fun i : nat =>
    n ← get_lh_n;
    if Z.of_nat i <? n then body i;; ret (inl (S i)) else ret (inr tt)) O.

Section log.
Context {E : Env}.

Definition install_trans (recovering : Z) : K unit :=
  for_lh (fun tail =>
    blk ← get_lh_block tail;
    (if negb (recovering =? 0) then
       printf "recovering tail %d dst %d
" [VZ (Z.of_nat tail); VZ blk]
     else ret tt);;
    l ← gets k_log;
    lbuf ← bread (u32 (log_dev l)) (u32 (log_start l + Z.of_nat tail + 1));
    blk ← get_lh_block tail;
    dbuf ← bread (u32 (log_dev l)) (u32 blk);
    lx ← get_buf lbuf;
    upd_buf dbuf (fun x => x <| b_data := b_data lx |>);;
    bwrite dbuf;;
    (if recovering =? 0 then bunpin dbuf else ret tt);;
    brelse lbuf;;
    brelse dbuf).

Definition read_head : K unit :=
  l ← gets k_log;
  bi ← bread (u32 (log_dev l)) (u32 (log_start l));
  x ← get_buf bi;
  set_lh_n (hdr_n (b_data x));;
  for_lh (fun i => set_lh_block i (hdr_block (b_data x) i));;
  brelse bi.

Definition write_head : K unit :=
  l ← gets k_log;
  bi ← bread (u32 (log_dev l)) (u32 (log_start l));
  n ← get_lh_n;
  upd_buf bi (fun x => x <| b_data ::= fun d => set_hdr_n d n |>);;
  for_lh (fun i =>
    v ← get_lh_block i;
    upd_buf bi (fun x => x <| b_data ::= fun d => set_hdr_block d i v |>));;
  bwrite bi;;
  brelse bi.

Definition recover_from_log : K unit :=
  read_head;;
  install_trans 1;;
  set_lh_n 0;;
  write_head.

Definition initlog (dev : Z) (sb : superblock) : K unit :=
  upd_log (fun l => l <| log_start := i32 (sb_logstart sb) |>);;
  upd_log (fun l => l <| log_dev := dev |>);;
  recover_from_log.

Definition begin_op : K unit :=
  acquire LkLog;;
  wait_loop (fun _ : unit =>
    l ← gets k_log;
    if negb (log_committing l =? 0) then
      sleep ChLog LkLog;; ret (inl tt)
    else if Z.of_nat LOGBLOCKS <?
              lh_n (log_lh l) + (log_outstanding l + 1) * Z.of_nat MAXOPBLOCKS then
      sleep ChLog LkLog;; ret (inl tt)
    else
      upd_log (fun l => l <| log_outstanding := log_outstanding l + 1 |>);;
      release LkLog;;
      ret (inr tt)) tt.

Definition write_log : K unit :=
  for_lh (fun tail =>
    l ← gets k_log;
    to ← bread (u32 (log_dev l)) (u32 (log_start l + Z.of_nat tail + 1));
    blk ← get_lh_block tail;
    from ← bread (u32 (log_dev l)) (u32 blk);
    fx ← get_buf from;
    upd_buf to (fun x => x <| b_data := b_data fx |>);;
    bwrite to;;
    brelse from;;
    brelse to).

Definition commit : K unit :=
  n ← get_lh_n;
  if 0 <? n then
    write_log;;
    write_head;;
    install_trans 0;;
    set_lh_n 0;;
    write_head
  else ret tt.

Definition end_op : K unit :=
  acquire LkLog;;
  upd_log (fun l => l <| log_outstanding := log_outstanding l - 1 |>);;
  l ← gets k_log;
  if negb (log_committing l =? 0) then kpanic "log.committing"
  else if log_outstanding l =? 0 then
    upd_log (fun l => l <| log_committing := 1 |>);;
    release LkLog;;
    commit;;
    acquire LkLog;;
    upd_log (fun l => l <| log_committing := 0 |>);;
    wakeup (Some ChLog);;
    release LkLog
  else
    wakeup (Some ChLog);;
    release LkLog.

(** The index of the first logged block equal to [blockno], or [lh.n]. *)
Definition log_find (blockno : Z) : K nat :=
  loop (S (S LOGBLOCKS)) (fun i : nat =>
    n ← get_lh_n;
    if Z.of_nat i <? n then
      v ← get_lh_block i;
      if u32 v =? blockno then ret (inr i) else ret (inl (S i))
    else ret (inr i)) O.

Definition log_write (bi : nat) : K unit :=
  acquire LkLog;;
  l ← gets k_log;
  if Z.of_nat LOGBLOCKS <=? lh_n (log_lh l) then kpanic "too big a transaction"
  else if log_outstanding l <? 1 then kpanic "log_write outside of trans"
  else
    x ← get_buf bi;
    i ← log_find (b_blockno x);
    set_lh_block i (i32 (b_blockno x));;
    n ← get_lh_n;
    (if Z.of_nat i =? n then
       bpin bi;;
       set_lh_n (n + 1)
     else ret tt);;
    release LkLog.

End log.
