(* ===== verification/LogData.v ===== *)
(** * Disk histories and the log header (kernel/log.c)

    A disk together with the writes done to it, and the encoding of the block
    that says which blocks the log holds. *)

From S2P Require Import Prelude Machine Kstate Logic Sched Bio BioSpec Log.

(** ** Disks and histories of writes *)

Definition apply_writes (ws : list (Z * list Z)) (d : gmap Z (list Z)) : gmap Z (list Z) :=
  foldl (λ d w, <[w.1 := w.2]> d) d ws.

Lemma apply_writes_app ws1 ws2 d :
  apply_writes (ws1 ++ ws2) d = apply_writes ws2 (apply_writes ws1 d).
Proof. apply foldl_app. Qed.

Lemma apply_writes_one b x d : apply_writes [(b, x)] d = <[b := x]> d.
Proof. done. Qed.

Lemma apply_writes_ne ws d b :
  b ∉ ws.*1 → apply_writes ws d !! b = d !! b.
Proof.
  revert d; induction ws as [|[b' x] ws IH]; intros d Hb; [done |]. simpl in *.
  unfold apply_writes in *. simpl. rewrite IH by set_solver.
  apply lookup_insert_ne. set_solver.
Qed.

Lemma apply_writes_eq ws d i b x :
  NoDup ws.*1 → ws !! i = Some (b, x) → apply_writes ws d !! b = Some x.
Proof.
  revert d i; induction ws as [|[b' x'] ws IH]; intros d i Hnd Hi; [done |].
  simpl in Hnd. apply NoDup_cons in Hnd as [Hb' Hnd].
  destruct i as [|i]; simplify_eq/=.
  - change (apply_writes ws (<[b := x]> d) !! b = Some x).
    rewrite apply_writes_ne by done. by rewrite lookup_insert_eq.
  - by eapply IH.
Qed.

Lemma apply_writes_is_Some ws d b : is_Some (d !! b) → is_Some (apply_writes ws d !! b).
Proof.
  revert d; induction ws as [|[b' x] ws IH]; intros d Hb; [done |].
  apply (IH (<[b' := x]> d)). destruct (decide (b' = b)) as [->|?]; by simplify_map_eq.
Qed.

(** [s'] is reached from [s] by the disk writes [ws], oldest first. *)
(** All that block I/O and the log may change. *)
Definition disk_frame (s s' : kstate) : Prop :=
  s' = (s <| k_bufs := k_bufs s' |> <| k_procs := k_procs s' |> <| k_log := k_log s' |> <| k_disk := k_disk s' |>
          <| k_dwrites := k_dwrites s' |> <| k_uart_out := k_uart_out s' |>) ∧
  woken (k_procs s) (k_procs s').

#[global] Instance disk_frame_preorder : PreOrder disk_frame.
Proof.
  split.
  - intros s. split; [by destruct s | reflexivity].
  - intros s1 s2 s3 [E1 W1] [E2 W2]. split; [| by etransitivity]. rewrite E2, E1. by destruct s1.
Qed.

Lemma bio_disk_frame s s' : bio_frame s s' → disk_frame s s'.
Proof. intros [H W]. split; [rewrite H; by destruct s | done]. Qed.

Lemma log_disk_frame s l : disk_frame s (s <| k_log := l |>).
Proof. split; [by destruct s | reflexivity]. Qed.

Record wrote (ws : list (Z * list Z)) (s s' : kstate) : Prop := {
  wrote_disk : k_disk s' = apply_writes ws (k_disk s);
  wrote_history : k_dwrites s' = rev ws ++ k_dwrites s;
  wrote_panic : k_panicking s' = k_panicking s ∧ k_panicked s' = k_panicked s;
  wrote_rest : disk_frame s s';
}.

Lemma wrote_trans ws1 ws2 s1 s2 s3 :
  wrote ws1 s1 s2 → wrote ws2 s2 s3 → wrote (ws1 ++ ws2) s1 s3.
Proof.
  intros [D1 H1 P1 R1] [D2 H2 P2 R2]. split; [| | | by etransitivity].
  - by rewrite apply_writes_app, D2, D1.
  - by rewrite rev_app_distr, H2, H1, app_assoc.
  - destruct P1, P2. split; congruence.
Qed.

Lemma wrote_refl s : wrote [] s s.
Proof. split; [done.. | reflexivity]. Qed.

Lemma wrote_print out s : wrote [] s (s <| k_uart_out := out |>).
Proof. split; [done.. |]. split; [by destruct s | reflexivity]. Qed.

Lemma wrote_frame_l ws s1 s2 s3 : bio_frame s1 s2 → wrote ws s2 s3 → wrote ws s1 s3.
Proof.
  intros F [D H P R]. assert (disk_frame s1 s3) by (etransitivity; [by apply bio_disk_frame | done]).
  destruct F as [E _]. rewrite E in D, H, P. by split.
Qed.

Lemma wrote_frame_r ws s1 s2 s3 : bio_frame s2 s3 → wrote ws s1 s2 → wrote ws s1 s3.
Proof.
  intros F [D H P R]. assert (disk_frame s1 s3) by (etransitivity; [done | by apply bio_disk_frame]).
  destruct F as [E _]. split; [by rewrite E.. | done].
Qed.

Lemma wrote_log_l ws f s s' : wrote ws (s <| k_log ::= f |>) s' → wrote ws s s'.
Proof. intros [D H P R]. split; [done.. |]. etransitivity; [apply (log_disk_frame s (f (k_log s))) | done]. Qed.

Lemma wrote_log_r ws l s s' : wrote ws s s' → wrote ws s (s' <| k_log := l |>).
Proof. intros [D H P R]. split; [done.. |]. etransitivity; [done | apply log_disk_frame]. Qed.

Lemma wrote_unlock ws s s' : k_held s' = [] → wrote ws s s' → wrote ws s (s' <| k_held := [] |>).
Proof. intros Hh H. destruct s'; simpl in *. by subst. Qed.

Lemma frame_log s s' : bio_frame s s' → k_log s' = k_log s.
Proof. by intros [-> _]. Qed.

(** Chains of steps without a disk write around the one that writes. *)
Ltac solve_wrote :=
  repeat (eapply wrote_frame_l; [eassumption |]);
  repeat (eapply wrote_frame_r; [eassumption |]); eassumption.

Lemma wrote_write b d s s' :
  s' = (s <| k_disk ::= <[b := d]> |> <| k_dwrites ::= cons (b, d) |>) →
  wrote [(b, d)] s s' ∧ k_log s' = k_log s.
Proof. by intros ->. Qed.

(** ** The header block *)

Definition write_hdr (d : list Z) (bl : list Z) : list Z :=
  foldl (λ d iv, set_hdr_block d iv.1 iv.2) (set_hdr_n d (Z.of_nat (length bl))) (imap pair bl).

Lemma i32_u32 v : 0 ≤ v < 2 ^ 31 → i32 (u32 v mod 256 ^ Z.of_nat 4) = v.
Proof.
  intros Hv. rewrite u32_small by lia. change (256 ^ Z.of_nat 4) with (2 ^ 32).
  rewrite Z.mod_small by lia. apply i32_small. lia.
Qed.

(** The header after [write_head] has stored the count and the first [i] blocks. *)
Definition hdr_upto (d : list Z) (bl : list Z) (i : nat) : list Z :=
  foldl (λ d iv, set_hdr_block d iv.1 iv.2) (set_hdr_n d (Z.of_nat (length bl)))
    (take i (imap pair bl)).

#[global] Arguments hdr_upto : simpl never.
#[global] Arguments write_hdr : simpl never.
#[global] Arguments set_hdr_n : simpl never.
#[global] Arguments set_hdr_block : simpl never.

Lemma hdr_upto_S d bl i v :
  bl !! i = Some v → hdr_upto d bl (S i) = set_hdr_block (hdr_upto d bl i) i v.
Proof.
  intros Hv. unfold hdr_upto. rewrite (take_S_r _ _ (i, v)), foldl_app; [done |].
  by rewrite list_lookup_imap, Hv.
Qed.

Lemma hdr_upto_all d bl : hdr_upto d bl (length bl) = write_hdr d bl.
Proof. unfold hdr_upto, write_hdr. by rewrite take_ge by (rewrite length_imap; lia). Qed.

Lemma hdr_upto_spec d bl i :
  length d = Z.to_nat BSIZE → (i ≤ length bl ≤ LOGBLOCKS)%nat → Forall (λ v, 0 ≤ v < 2 ^ 31) bl →
  length (hdr_upto d bl i) = Z.to_nat BSIZE ∧
  hdr_n (hdr_upto d bl i) = Z.of_nat (length bl) ∧
  ∀ j v, (j < i)%nat → bl !! j = Some v → hdr_block (hdr_upto d bl i) j = v.
Proof.
  intros Hd Hi Hv. assert (Z.to_nat BSIZE = 1024%nat) as HB by reflexivity.
  unfold LOGBLOCKS, MAXOPBLOCKS in Hi. unfold hdr_n, hdr_block. induction i as [|i IH].
  - assert (length (le_bytes 4 (u32 (Z.of_nat (length bl)))) = 4%nat) as Hlen
      by apply length_le_bytes.
    change (hdr_upto d bl 0) with (splice d 0 (le_bytes 4 (u32 (Z.of_nat (length bl))))).
    rewrite length_splice by lia.
    split_and!; [done | | lia].
    rewrite <-Hlen at 2. rewrite slice_splice, le_val_bytes by lia. apply i32_u32. lia.
  - destruct (lookup_lt_is_Some_2 bl i) as [v Hiv]; [lia |].
    rewrite (hdr_upto_S _ _ _ v Hiv). destruct IH as (IH1 & IH2 & IH3); [lia |].
    assert (length (le_bytes 4 (u32 v)) = 4%nat) as Hlen by apply length_le_bytes.
    unfold set_hdr_block. rewrite length_splice by lia. split_and!; [done | |].
    + rewrite slice_splice_other by lia. done.
    + intros j w Hj Hw. destruct (decide (j = i)) as [->|Hne].
      * rewrite <-Hlen at 2. rewrite slice_splice, le_val_bytes by lia.
        assert (v = w) as <- by congruence. apply i32_u32. by eapply Forall_lookup_1 in Hv.
      * rewrite slice_splice_other by lia. apply IH3; [lia | done].
Qed.

(** Erasing the header only changes the count. *)
Lemma write_hdr_nil d :
  length d = Z.to_nat BSIZE →
  length (write_hdr d []) = Z.to_nat BSIZE ∧ hdr_n (write_hdr d []) = 0.
Proof.
  intros Hd. destruct (hdr_upto_spec d [] 0 Hd) as (H1 & H2 & _); [simpl; lia | done |].
  rewrite <-hdr_upto_all. done.
Qed.

Lemma write_hdr_spec d bl :
  length d = Z.to_nat BSIZE → (length bl ≤ LOGBLOCKS)%nat → Forall (λ v, 0 ≤ v < 2 ^ 31) bl →
  length (write_hdr d bl) = Z.to_nat BSIZE ∧
  hdr_n (write_hdr d bl) = Z.of_nat (length bl) ∧
  ∀ j v, bl !! j = Some v → hdr_block (write_hdr d bl) j = v.
Proof.
  intros Hd Hl Hv. destruct (hdr_upto_spec d bl (length bl) Hd) as (H1 & H2 & H3); [lia | done |].
  rewrite hdr_upto_all in *. split_and!; [done.. |].
  intros j v Hj. apply H3; [by eapply lookup_lt_Some | done].
Qed.
