(* ===== verification/LogSpec.v ===== *)
(** * Crash safety of the write-ahead log (kernel/log.c)

    A commit copies the changed blocks into the log, writes the header (the
    commit point), installs the blocks at their home locations and erases the
    header; recovery after a crash installs whatever the header names.  The
    theorems say that the transaction is atomic: a crash after any number of the
    disk writes of a commit, followed by any number of interrupted recoveries
    and a complete one, leaves all the blocks of the transaction or none. *)

From S2P Require Import Prelude Machine Kstate Logic Sched Printf Bio BioSpec BlockStore Log LogData.

(** ** The log in memory *)

(** [l] is the log of device [dev] at block [start], holding the blocks [bl]. *)
Record log_holds (dev start : Z) (bl : list Z) (l : log_t) : Prop := {
  lg_start : log_start l = start;
  lg_dev : u32 (log_dev l) = dev;
  lg_n : lh_n (log_lh l) = Z.of_nat (length bl);
  lg_blocks : take (length bl) (lh_block (log_lh l)) = bl;
  lg_size : length (lh_block (log_lh l)) = LOGBLOCKS;
}.

Lemma log_holds_length dev start bl l : log_holds dev start bl l → (length bl ≤ LOGBLOCKS)%nat.
Proof.
  intros H. rewrite <-(lg_blocks _ _ _ _ H), <-(lg_size _ _ _ _ H), length_take. lia.
Qed.

Lemma get_lh_block_done dev start bl i v s :
  log_holds dev start bl (k_log s) → bl !! i = Some v → get_lh_block i s = Done v s.
Proof.
  intros H Hv. unfold get_lh_block. rewrite bind_unfold. simpl.
  rewrite <-(lg_blocks _ _ _ _ H) in Hv. apply lookup_take_Some in Hv as [Hv _]. by rewrite Hv.
Qed.

(** A loop over the logged blocks whose body leaves their number alone. *)
Lemma wp_for_lh (I : nat → kstate → Prop) n body (Q : unit → kstate → Prop) s :
  (n ≤ LOGBLOCKS)%nat → I O s →
  (∀ i s, I i s → (i ≤ n)%nat → lh_n (log_lh (k_log s)) = Z.of_nat n) →
  (∀ i s, I i s → (i < n)%nat → wp (body i) (λ _ s', I (S i) s') s) →
  (∀ s, I n s → Q tt s) → wp (for_lh body) Q s.
Proof.
  intros Hn H0 Hlh Hbody HQ. unfold for_lh.
  apply (wp_loop (λ i s, I i s ∧ (i ≤ n)%nat) (λ i, n - i)%nat); [| split; [done | lia] | lia].
  clear s H0. intros i s [Hi Hin]. unfold get_lh_n. apply wp_bind, wp_gets.
  rewrite (Hlh _ _ Hi Hin). destruct (Z.ltb_spec (Z.of_nat i) (Z.of_nat n)).
  - apply wp_bind. eapply wp_mono; [apply Hbody; [done | lia] |]. intros [] s' Hs'.
    apply wp_ret. split; [split; [done | lia] | lia].
  - apply wp_ret. apply HQ. by replace n with i by lia.
Qed.

(** ** One block copied within the store *)

(** The store as given by its fields. *)
Lemma stored_eq dev pid t t' s :
  stored dev pid t s → st_view t = st_view t' → st_dirty t = st_dirty t' →
  (∀ b, st_refs t b = st_refs t' b) → st_held t = st_held t' → st_free t = st_free t' →
  stored dev pid t' s.
Proof.
  destruct t as [V D f H n], t' as [V' D' f' H' n']. simpl.
  intros [Hq (C & HC & [Hu He Hc Hr Hi Hd Hf]) Hcl Hdk] -> -> Hrefs -> ->. simpl in *.
  split; [done | | done | done]. exists C. split; [done |].
  split; simpl; try done.
  - intros i x Hx Hxd. destruct (He i x Hx Hxd) as [? Hr' ? ?]. split; simpl in *; try done.
    by rewrite <-Hrefs.
  - intros b. rewrite <-Hrefs. apply Hc.
  - intros b. rewrite <-Hrefs. apply Hr.
  - intros b. rewrite <-Hrefs. apply Hd.
Qed.

Section log.
Context {E : Env} (dev pid start : Z).
Hypothesis Hstart : 0 ≤ start ∧ start + Z.of_nat LOGBLOCKS < 2 ^ 31.

Definition in_log (b : Z) : Prop := start ≤ b ≤ start + Z.of_nat LOGBLOCKS.
#[local] Instance in_log_dec b : Decision (in_log b) := _.

(** The block of the log that holds the [i]-th logged block. *)
Definition log_block (i : nat) : Z := start + Z.of_nat i + 1.

Lemma log_block_u32 i : (i < LOGBLOCKS)%nat → u32 (start + Z.of_nat i + 1) = log_block i.
Proof. intros Hi. unfold log_block. apply u32_small. lia. Qed.

Lemma log_block_in i : (i < LOGBLOCKS)%nat → in_log (log_block i).
Proof. unfold in_log, log_block. lia. Qed.

(** A store in which nothing is locked and a buffer is free. *)
Record at_rest (t : store) : Prop := {
  rest_held : st_held t = ∅;
  rest_free : (0 < st_free t)%nat;
}.

(** Side conditions of the laws of the store, and one call under a law. *)
Ltac store_side :=
  simpl; first [ done | eassumption | lia | by (intros ? ? ->)
               | by simplify_map_eq | by eauto | set_solver ].
Tactic Notation "store_call" uconstr(lem) :=
  lazymatch goal with |- wp (_ ≫= _) _ _ => apply wp_bind | _ => idtac end;
  eapply wp_mono; [eapply lem; [eassumption | store_side..] |]; cbv beta; simpl.

(** Locks taken and released leave the store as it was. *)
Lemma unlock_free t b : (is_zero (st_refs t b) ≤ st_free t)%nat →
  (st_free t - is_zero (st_refs t b) + is_zero (st_refs t b))%nat = st_free t.
Proof. lia. Qed.

Lemma is_zero_le r : (is_zero r ≤ 1)%nat.
Proof. unfold is_zero. case_decide; lia. Qed.

Lemma is_zero_pos r : 0 < r → is_zero r = 0%nat.
Proof. intros. unfold is_zero. by rewrite decide_False by lia. Qed.

Lemma write_log_step t bl i b d s :
  stored dev pid t s → at_rest t → log_holds dev start bl (k_log s) →
  bl !! i = Some b → ¬ in_log b → 0 ≤ b < 2 ^ 31 → st_view t !! b = Some d → 0 < st_refs t b →
  is_Some (st_view t !! log_block i) → log_block i ∉ st_dirty t →
  wp (l ← gets k_log;
      to ← bread (u32 (log_dev l)) (u32 (log_start l + Z.of_nat i + 1));
      blk ← get_lh_block i;
      from ← bread (u32 (log_dev l)) (u32 blk);
      fx ← get_buf from;
      upd_buf to (fun x => x <| b_data := b_data fx |>);;
      bwrite to;;
      brelse from;;
      brelse to)
    (λ _ s', stored dev pid (t <| st_view ::= <[log_block i := d]> |>) s' ∧
       wrote [(log_block i, d)] s s' ∧ k_log s' = k_log s) s.
Proof.
  intros St [Hheld Hfree] Hlog Hb Hout Hrange Hd Hpin [old Hold] Hclean.
  pose proof (log_holds_length _ _ _ _ Hlog) as Hlen.
  assert (i < LOGBLOCKS)%nat as Hi by (apply lookup_lt_Some in Hb; lia).
  assert (log_block i ≠ b) as Hne by (intros <-; by apply Hout, log_block_in).
  destruct t as [V D refs H n]; simpl in *; subst H.
  apply wp_bind, wp_gets. rewrite (lg_dev _ _ _ _ Hlog), (lg_start _ _ _ _ Hlog), log_block_u32 by done.
  store_call (bread_store dev pid _ (log_block i)). intros to s1 [St1 F1].
  pose proof (frame_log _ _ F1) as L1. rewrite <-L1 in Hlog.
  eapply wp_bind_done; [by eapply get_lh_block_done |]. rewrite u32_small by lia.
  store_call (bread_store dev pid _ b). intros from s2 [St2 F2].
  pose proof (frame_log _ _ F2) as L2.
  apply wp_bind. eapply (get_buf_store dev pid _ b); [eassumption | store_side.. |]. intros fx <- _.
  store_call (change_store dev pid _ (log_block i)). intros _ s3 (F3 & _ & _ & St3).
  pose proof (frame_log _ _ F3) as L3.
  store_call (bwrite_store dev pid _ (log_block i)). intros _ s4 [St4 [W4 L4]%wrote_write].
  store_call (brelse_store dev pid _ b). intros _ s5 [St5 F5].
  pose proof (frame_log _ _ F5) as L5.
  store_call (brelse_store dev pid _ (log_block i)). intros _ s6 [St6 F6].
  pose proof (frame_log _ _ F6) as L6.
  split_and!; [| | congruence].
  - eapply stored_eq; [exact St6 | done | set_solver | done | |]; simpl.
    + by rewrite !delete_insert_id by by simplify_map_eq.
    + rewrite (is_zero_pos (refs b)) by done. pose proof (is_zero_le (refs (log_block i))). lia.
  - solve_wrote.
Qed.

(** Block [b] has been installed with content [d] and is left with [r] pins. *)
Definition installed (t : store) (b : Z) (d : list Z) (r : Z) : store :=
  (with_refs t b r) <| st_view ::= <[b := d]> |> <| st_dirty ::= (.∖ {[b]}) |>
    <| st_free := (st_free t - is_zero (st_refs t b) + is_zero r)%nat |>.

Lemma install_step (recovering : Z) t bl i b d r s :
  stored dev pid t s → st_held t = ∅ → (is_zero (st_refs t b) < st_free t)%nat →
  log_holds dev start bl (k_log s) → bl !! i = Some b → ¬ in_log b → 0 ≤ b < 2 ^ 31 →
  st_view t !! log_block i = Some d → log_block i ∉ st_dirty t → is_Some (st_view t !! b) →
  (if recovering =? 0 then 0 < st_refs t b ∧ r = st_refs t b - 1 else r = st_refs t b) →
  wp (l ← gets k_log;
      lbuf ← bread (u32 (log_dev l)) (u32 (log_start l + Z.of_nat i + 1));
      blk ← get_lh_block i;
      dbuf ← bread (u32 (log_dev l)) (u32 blk);
      lx ← get_buf lbuf;
      upd_buf dbuf (fun x => x <| b_data := b_data lx |>);;
      bwrite dbuf;;
      (if recovering =? 0 then bunpin dbuf else ret tt);;
      brelse lbuf;;
      brelse dbuf)
    (λ _ s', stored dev pid (installed t b d r) s' ∧ wrote [(b, d)] s s' ∧
       k_log s' = k_log s) s.
Proof.
  intros St Hheld Hfree Hlog Hb Hout Hrange Hd Hclean [old Hold] Hrec.
  pose proof (log_holds_length _ _ _ _ Hlog) as Hlen.
  assert (i < LOGBLOCKS)%nat as Hi by (apply lookup_lt_Some in Hb; lia).
  assert (log_block i ≠ b) as Hne by (intros <-; by apply Hout, log_block_in).
  assert (0 ≤ st_refs t b) as Hr0.
  { destruct St as [_ (C & _ & HB) _ _]. apply (bs_refs _ _ _ _ HB). }
  destruct t as [V D refs H n]; simpl in *; subst H.
  pose proof (is_zero_le (refs (log_block i))) as Hz.
  apply wp_bind, wp_gets. rewrite (lg_dev _ _ _ _ Hlog), (lg_start _ _ _ _ Hlog), log_block_u32 by done.
  store_call (bread_store dev pid _ (log_block i)). intros lbuf s1 [St1 F1].
  pose proof (frame_log _ _ F1) as L1. rewrite <-L1 in Hlog.
  eapply wp_bind_done; [by eapply get_lh_block_done |]. rewrite u32_small by lia.
  assert (refs b = 0 → (0 < n - is_zero (refs (log_block i)))%nat) as Hroom.
  { intros E0. rewrite E0 in Hfree. change (is_zero 0) with 1%nat in Hfree. lia. }
  store_call (bread_store dev pid _ b). intros dbuf s2 [St2 F2].
  pose proof (frame_log _ _ F2) as L2.
  apply wp_bind. eapply (get_buf_store dev pid _ (log_block i)); [eassumption | store_side.. |].
  intros lx <- _.
  store_call (change_store dev pid _ b). intros _ s3 (F3 & _ & _ & St3).
  pose proof (frame_log _ _ F3) as L3.
  store_call (bwrite_store dev pid _ b). intros _ s4 [St4 [W4 L4]%wrote_write].
  set (t4 := mkStore _ _ _ _ _) in St4.
  apply wp_bind. eapply (wp_mono _ _ (λ _ s', stored dev pid (with_refs t4 b r) s' ∧ bio_frame s4 s')).
  { destruct (recovering =? 0).
    - destruct Hrec as [Hpos ->]. eapply (bunpin_store dev pid t4 b); [done | store_side | done].
    - subst r. apply wp_ret. split; [| reflexivity].
      eapply stored_eq; [exact St4 | done | done | | done | done].
      intros b'. simpl. by case_decide; subst. }
  subst t4. simpl. intros _ s5 [St5 F5]. pose proof (frame_log _ _ F5) as L5.
  store_call (brelse_store dev pid _ (log_block i)). intros _ s6 [St6 F6].
  pose proof (frame_log _ _ F6) as L6.
  store_call (brelse_store dev pid _ b). intros _ s7 [St7 F7].
  pose proof (frame_log _ _ F7) as L7.
  split_and!; [| solve_wrote | congruence].
  eapply stored_eq; [exact St7 | done | set_solver | done | |]; simpl.
  - by rewrite delete_insert_ne, !delete_insert_id by by simplify_map_eq.
  - rewrite (decide_True (P := b = b)), decide_False by done. lia.
Qed.

(** ** Recording a block *)

(** The parts of the state a store depends on. *)
Lemma stored_ext t s s' :
  stored dev pid t s → k_held s' = k_held s → k_procs s' = k_procs s → k_cur s' = k_cur s →
  k_bufs s' = k_bufs s → k_disk s' = k_disk s → stored dev pid t s'.
Proof.
  intros [[Hh Hp Hc] HB Hcl Hdk] E1 E2 E3 E4 E5.
  split; [split; [by rewrite E1 | by rewrite E2 | by rewrite E2, E3] | by rewrite E4 | |];
    by rewrite E5.
Qed.

Lemma stored_log t l s : stored dev pid t s → stored dev pid t (s <| k_log := l |>).
Proof. intros H. by eapply stored_ext. Qed.

Lemma log_find_wp bl b s :
  log_holds dev start bl (k_log s) → Forall (λ v, 0 ≤ v < 2 ^ 31) bl →
  wp (log_find b) (λ i s', s' = s ∧ (i ≤ length bl)%nat ∧
    if decide (b ∈ bl) then bl !! i = Some b else i = length bl) s.
Proof.
  intros Hlog Hr. pose proof (log_holds_length _ _ _ _ Hlog) as Hlen. unfold log_find.
  apply (wp_loop (λ i s', s' = s ∧ (i ≤ length bl)%nat ∧ b ∉ take i bl)
           (λ i, LOGBLOCKS - i)%nat); [| split_and!; [done | lia | set_solver] | lia].
  intros i s' (-> & Hi & Hno). apply wp_bind, wp_gets. rewrite (lg_n _ _ _ _ Hlog).
  destruct (Z.ltb_spec (Z.of_nat i) (Z.of_nat (length bl))) as [Hlt|Hge].
  - destruct (lookup_lt_is_Some_2 bl i) as [v Hv]; [lia |].
    eapply wp_bind_done; [by eapply get_lh_block_done |].
    pose proof (proj1 (Forall_lookup _ _) Hr _ _ Hv) as Hvr. simpl in Hvr.
    rewrite u32_small by lia. destruct (Z.eqb_spec v b) as [->|Hne]; apply wp_ret.
    + split_and!; [done | lia |]. rewrite decide_True; [done | by eapply list_elem_of_lookup_2].
    + split_and!; [done | lia | | lia]. rewrite (take_S_r _ _ _ Hv). set_solver.
  - apply wp_ret. split_and!; [done | lia |]. rewrite take_ge in Hno by lia.
    rewrite decide_False by done. lia.
Qed.

Lemma held_buf t b bi s :
  stored dev pid t s → st_held t !! b = Some bi →
  ∃ x, k_bufs s !! bi = Some x ∧ b_blockno x = b.
Proof.
  intros [_ (C & HC & HB) _ _] Hb.
  destruct (held_entry _ _ _ _ _ _ HB Hb) as (x & Hx & _ & Hxb & _).
  destruct (get_core _ _ _ _ HC Hx) as (x0 & Hx0 & -> & _). eauto.
Qed.

(** What [log_write] does to the list of logged blocks. *)
Definition logged (bl : list Z) (b : Z) : list Z := if decide (b ∈ bl) then bl else bl ++ [b].

Lemma log_holds_set bl l i b :
  log_holds dev start bl l → (i < LOGBLOCKS)%nat → bl !! i = Some b ∨ i = length bl →
  log_holds dev start bl (l <| log_lh ::= fun h => h <| lh_block ::= <[i := b]> |> |>) ∧
  (i = length bl → log_holds dev start (bl ++ [b])
    (l <| log_lh ::= fun h => h <| lh_block ::= <[i := b]> |> |>
       <| log_lh ::= fun h => h <| lh_n := Z.of_nat (length bl) + 1 |> |>)).
Proof.
  intros [? ? Hn Hb Hs] Hi Hcase. split.
  - split; simpl; [done | done | done | | by rewrite length_insert].
    destruct Hcase as [Hib| ->]; [| by rewrite take_insert_ge].
    rewrite take_insert_lt by (by eapply lookup_lt_Some). rewrite Hb. by apply list_insert_id.
  - intros ->. split; simpl; [done | done | | | by rewrite length_insert].
    + rewrite length_app. simpl. lia.
    + rewrite length_app, Nat.add_1_r. simpl.
      rewrite (take_S_r _ _ b) by (apply list_lookup_insert_eq; lia).
      by rewrite take_insert_ge, Hb.
Qed.

Lemma log_write_end t (bl : list Z) b bi i s :
  stored dev pid t s → st_held t !! b = Some bi → st_refs t b + 1 < 2 ^ 31 →
  lh_n (log_lh (k_log s)) = Z.of_nat (length bl) →
  wp (n ← get_lh_n;
      (if Z.of_nat i =? n then bpin bi;; set_lh_n (n + 1) else ret tt);;
      release LkLog)
    (λ _ s', wrote [] s s' ∧
       if decide (i = length bl)
       then k_log s' = ((k_log s) <| log_lh ::= fun h => h <| lh_n := Z.of_nat (length bl) + 1 |> |>) ∧
            stored dev pid (with_refs t b (st_refs t b + 1)) s'
       else k_log s' = k_log s ∧ stored dev pid t s') (s <| k_held := [LkLog] |>).
Proof.
  intros St Hb Hr Hn. apply wp_bind, wp_gets. simpl. rewrite Hn. apply wp_bind.
  destruct (decide (i = length bl)) as [->|Hne].
  - rewrite Z.eqb_refl. apply wp_bind.
    eapply wp_mono; [apply (bpin_held dev pid t b bi [LkLog] s); [done.. | set_solver] |].
    intros _ s' (s1 & -> & St1 & F1). apply wp_modify.
    eapply wp_done; [by apply release_last |]. simpl. pose proof (wrote_frame_r [] s s s1 F1 (wrote_refl s)) as W1. pose proof F1 as [E1 _]. split_and!.
    + pose proof (wrote_log_r [] ((k_log s1) <| log_lh ::= fun h => h <| lh_n := Z.of_nat (length bl) + 1 |> |>) s s1 W1) as W2.
      apply wrote_unlock in W2; [exact W2 | apply (sd_quiet _ _ _ _ St1)].
    + by rewrite E1.
    + eapply stored_ext; [exact St1 | by rewrite (quiet_held _ _ (sd_quiet _ _ _ _ St1)) | done..].
  - rewrite (proj2 (Z.eqb_neq _ _)) by lia. apply wp_ret.
    eapply wp_done; [by apply release_last |].
    split; [apply (wrote_unlock [] s s (quiet_held _ _ (sd_quiet _ _ _ _ St))), wrote_refl |]. split; [done |].
    eapply stored_ext; [exact St | by rewrite (quiet_held _ _ (sd_quiet _ _ _ _ St)) | done..].
Qed.

Lemma log_write_wp t bl b bi s :
  stored dev pid t s → st_held t !! b = Some bi →
  log_holds dev start bl (k_log s) → (length bl < LOGBLOCKS)%nat →
  Forall (λ v, 0 ≤ v < 2 ^ 31) bl → 0 ≤ b < 2 ^ 31 → st_refs t b + 1 < 2 ^ 31 →
  1 ≤ log_outstanding (k_log s) →
  wp (log_write bi) (λ _ s', wrote [] s s' ∧ log_holds dev start (logged bl b) (k_log s') ∧
    stored dev pid (if decide (b ∈ bl) then t else with_refs t b (st_refs t b + 1)) s') s.
Proof.
  intros St Hb Hlog Hlen Hr Hbr Hrefs Hout. unfold log_write.
  pose proof (quiet_held _ _ (sd_quiet _ _ _ _ St)) as Hh.
  eapply wp_bind_done; [by apply acquire_first |]. apply wp_bind, wp_gets. simpl.
  rewrite (lg_n _ _ _ _ Hlog).
  rewrite (proj2 (Z.leb_gt _ _)), (proj2 (Z.ltb_ge _ _)) by lia.
  apply wp_bind. destruct (held_buf _ _ _ _ St Hb) as (x & Hx & Hxb).
  eapply wp_get_buf; [exact Hx |]. rewrite Hxb. apply wp_bind.
  eapply wp_mono; [apply (log_find_wp bl); [exact Hlog | done] |].
  intros i s1 (-> & Hi & Hfound).
  assert (Hcase : bl !! i = Some b ∨ i = length bl) by (case_decide; auto).
  destruct (log_holds_set bl (k_log s) i b Hlog) as [Hset Hadd]; [lia | done |].
  unfold set_lh_block, get_lh_block. apply wp_bind, wp_bind, wp_bind, wp_gets.
  destruct (lookup_lt_is_Some_2 (lh_block (log_lh (k_log s))) i) as [w Hw];
    [rewrite (lg_size _ _ _ _ Hlog); lia |].
  eapply wp_must; [exact Hw |]. apply wp_modify. rewrite i32_small by lia.
  set (L1 := (k_log s) <| log_lh ::= fun h => h <| lh_block ::= <[i := b]> |> |>) in *.
  lazymatch goal with
  | |- wp ?m ?Q _ => change (wp m Q (s <| k_log := L1 |> <| k_held := [LkLog] |>))
  end.
  eapply wp_mono.
  { apply (log_write_end t bl b bi i (s <| k_log := L1 |>)); try done.
    - by apply stored_log.
    - apply (lg_n _ _ _ _ Hset). }
  intros _ s2 [W Hs2]. split; [by eapply wrote_log_l |]. unfold logged.
  destruct (decide (b ∈ bl)) as [Hin|Hnin].
  - apply lookup_lt_Some in Hfound. rewrite decide_False in Hs2 by lia. by destruct Hs2 as [-> ?].
  - rewrite decide_True in Hs2 by done. destruct Hs2 as [-> ?]. split; [by apply Hadd | done].
Qed.

(** ** The header read and written *)

Lemma stored_out t out s : stored dev pid t s → stored dev pid t (s <| k_uart_out := out |>).
Proof. intros [[? ? ?] ? ? ?]. by split. Qed.

Lemma start_u32 : u32 start = start.
Proof. apply u32_small. lia. Qed.

Lemma write_head_wp t bl h s :
  stored dev pid t s → at_rest t → log_holds dev start bl (k_log s) →
  st_view t !! start = Some h → start ∉ st_dirty t →
  wp write_head (λ _ s', stored dev pid (t <| st_view ::= <[start := write_hdr h bl]> |>) s' ∧
    wrote [(start, write_hdr h bl)] s s' ∧ k_log s' = k_log s) s.
Proof.
  intros St [Hheld Hfree] Hlog Hh Hclean.
  pose proof (log_holds_length _ _ _ _ Hlog) as Hlen.
  destruct t as [V D refs H n]; simpl in *; subst H.
  pose proof (is_zero_le (refs start)) as Hz.
  unfold write_head. apply wp_bind, wp_gets.
  rewrite (lg_dev _ _ _ _ Hlog), (lg_start _ _ _ _ Hlog), start_u32.
  store_call (bread_store dev pid _ start). intros bi s1 [St1 F1].
  pose proof (frame_log _ _ F1) as L1. rewrite <-L1 in Hlog.
  apply wp_bind, wp_gets. rewrite (lg_n _ _ _ _ Hlog).
  store_call (change_store dev pid _ start). intros _ s2 (F2 & x & <- & St2).
  apply wp_bind.
  apply (wp_for_lh (λ i s', bio_frame s1 s' ∧ stored dev pid
    (with_data (with_lock (mkStore V D refs ∅ n) start bi) start (hdr_upto (b_data x) bl i)) s')
    (length bl)).
  - done.
  - done.
  - intros i s' [Hf _] _. rewrite (frame_log _ _ Hf). apply (lg_n _ _ _ _ Hlog).
  - intros i s' [Hf St'] Hi. destruct (lookup_lt_is_Some_2 bl i) as [v Hv]; [lia |].
    eapply wp_bind_done.
    { eapply get_lh_block_done; [| exact Hv]. by rewrite (frame_log _ _ Hf). }
    store_call (change_store dev pid _ start). intros _ s'' (F & y & Hy & St'').
    split; [by etransitivity |]. simpl in St''. rewrite Hy, <-(hdr_upto_S _ _ _ _ Hv) in St''.
    eapply stored_eq; [exact St'' | | set_solver | done | done | done].
    simpl. by rewrite insert_insert_eq.
  - clear F2. intros s3 [F3 St3]. pose proof (frame_log _ _ F3) as L3. rewrite hdr_upto_all in St3.
    store_call (bwrite_store dev pid _ start). intros _ s4 [St4 [W4 L4]%wrote_write].
    store_call (brelse_store dev pid _ start). intros _ s5 [St5 F5].
    pose proof (frame_log _ _ F5) as L5. split_and!; [| solve_wrote | congruence].
    eapply stored_eq; [exact St5 | done | set_solver | done | |]; simpl.
    + by rewrite delete_insert_id by by simplify_map_eq.
    + lia.
Qed.

(** ** The phases of a commit *)

(** The blocks [bl] form a transaction: distinct home blocks outside the log,
    pinned in the cache; the log area exists and has no unwritten changes. *)
Record txn (t : store) (bl : list Z) : Prop := {
  txn_nodup : NoDup bl;
  txn_home : ∀ b, b ∈ bl → ¬ in_log b ∧ 0 ≤ b < 2 ^ 31;
  txn_pinned : ∀ b, b ∈ bl → is_Some (st_view t !! b) ∧ 0 < st_refs t b;
  txn_area : ∀ b, in_log b → is_Some (st_view t !! b) ∧ b ∉ st_dirty t;
}.

Definition content (V : gmap Z (list Z)) (b : Z) : list Z := default [] (V !! b).

(** The disk writes of the phases: the blocks into the log, the blocks home. *)
Definition log_copies (V : gmap Z (list Z)) (bl : list Z) : list (Z * list Z) :=
  imap (λ i b, (log_block i, content V b)) bl.
Definition home_copies (V : gmap Z (list Z)) (bl : list Z) : list (Z * list Z) :=
  (λ b, (b, content V b)) <$> bl.

Lemma content_lookup V b d : V !! b = Some d → content V b = d.
Proof. unfold content. by intros ->. Qed.

Lemma log_copies_in V bl b :
  (length bl ≤ LOGBLOCKS)%nat → b ∈ (log_copies V bl).*1 → in_log b ∧ b ≠ start.
Proof.
  intros Hl ([b' d] & -> & (i & Hi)%list_elem_of_lookup)%list_elem_of_fmap.
  unfold log_copies in Hi. rewrite list_lookup_imap in Hi.
  apply fmap_Some in Hi as (x & Hx%lookup_lt_Some & [= -> ->]). simpl.
  unfold in_log, log_block. lia.
Qed.

Lemma home_copies_fst V bl : (home_copies V bl).*1 = bl.
Proof. unfold home_copies. rewrite <-list_fmap_compose. apply list_fmap_id. Qed.

Lemma write_log_wp t bl s :
  stored dev pid t s → at_rest t → log_holds dev start bl (k_log s) → txn t bl →
  wp write_log (λ _ s',
    stored dev pid (t <| st_view ::= apply_writes (log_copies (st_view t) bl) |>) s' ∧
    wrote (log_copies (st_view t) bl) s s' ∧ k_log s' = k_log s) s.
Proof.
  intros St Hrest Hlog Htxn. pose proof (log_holds_length _ _ _ _ Hlog) as Hlen.
  set (ws := log_copies (st_view t) bl).
  assert (Hws : length ws = length bl) by apply length_imap.
  unfold write_log. apply (wp_for_lh (λ i s',
    stored dev pid (t <| st_view ::= apply_writes (take i ws) |>) s' ∧
    wrote (take i ws) s s' ∧ k_log s' = k_log s) (length bl)); [done | | | |].
  - split_and!; [by destruct t | apply wrote_refl | done].
  - intros i s' (_ & _ & ->) _. apply (lg_n _ _ _ _ Hlog).
  - intros i s' (St' & W' & L') Hi. destruct (lookup_lt_is_Some_2 bl i Hi) as [b Hb].
    assert (b ∈ bl) as Hin by (by eapply list_elem_of_lookup_2).
    destruct (txn_home _ _ Htxn b Hin) as [Hout Hrange].
    destruct (txn_pinned _ _ Htxn b Hin) as [[d Hd] Hpin].
    assert (ws !! i = Some (log_block i, d)) as Hwi.
    { unfold ws, log_copies. rewrite list_lookup_imap, Hb. simpl. by rewrite (content_lookup _ _ _ Hd). }
    assert (Hsub : ∀ c, c ∈ (take i ws).*1 → in_log c).
    { intros c Hc. apply (log_copies_in (st_view t) bl c Hlen).
      rewrite fmap_take in Hc. apply list_elem_of_lookup in Hc as [j Hj].
      apply lookup_take_Some in Hj as [Hj _]. by eapply list_elem_of_lookup_2. }
    assert (in_log (log_block i)) as Hlbi by (apply log_block_in; lia).
    eapply wp_mono; [eapply (write_log_step _ bl i b d); [exact St' | try done..] |]; simpl.
    + destruct Hrest. by split.
    + by rewrite L'.
    + rewrite apply_writes_ne; [done | naive_solver].
    + by apply apply_writes_is_Some, (txn_area _ _ Htxn).
    + apply (txn_area _ _ Htxn). done.
    + intros _ s'' (St'' & W'' & L''). rewrite (take_S_r _ _ _ Hwi). split_and!.
      * eapply stored_eq; [exact St'' | | done..]. simpl. by rewrite apply_writes_app.
      * by eapply wrote_trans.
      * congruence.
  - intros s'. rewrite take_ge by lia. done.
Qed.

(** The writes of an installation: each logged block to its home. *)
Definition installs (V : gmap Z (list Z)) (bl : list Z) : list (Z * list Z) :=
  imap (λ i b, (b, content V (log_block i))) bl.

Lemma installs_fst V bl : (installs V bl).*1 = bl.
Proof.
  unfold installs. rewrite fmap_imap. apply list_eq. intros i. rewrite list_lookup_imap.
  by destruct (bl !! i).
Qed.

Lemma installs_take_fst V bl i : (take i (installs V bl)).*1 = take i bl.
Proof. by rewrite fmap_take, installs_fst. Qed.

(** The store while the first [i] blocks have been installed. *)
Record installing (recovering : Z) (t : store) (bl : list Z) (i : nat) (t' : store) : Prop := {
  ing_view : st_view t' = apply_writes (take i (installs (st_view t) bl)) (st_view t);
  ing_dirty : st_dirty t' = st_dirty t ∖ list_to_set (take i bl);
  ing_held : st_held t' = ∅;
  ing_free : (st_free t ≤ st_free t')%nat;
  ing_refs : ∀ b, st_refs t' b =
    if decide (recovering = 0 ∧ b ∈ take i bl) then st_refs t b - 1 else st_refs t b;
}.

Lemma installing_0 recovering t bl :
  st_held t = ∅ → installing recovering t bl 0 t.
Proof.
  intros H. split; simpl; [done | set_solver | done | done |].
  intros b. rewrite decide_False by set_solver. done.
Qed.

(** Until its turn comes a block is pinned as it was. *)
Lemma installing_refs recovering t bl i b t' :
  NoDup bl → bl !! i = Some b → installing recovering t bl i t' → st_refs t' b = st_refs t b.
Proof.
  intros Hnd Hb H. rewrite (ing_refs _ _ _ _ _ H), decide_False; [done |].
  intros [_ (j & Hj)%list_elem_of_lookup]. apply lookup_take_Some in Hj as [Hj Hlt].
  assert (i = j) by (by eapply NoDup_lookup). lia.
Qed.

Lemma installing_S recovering t bl i b d r t' :
  NoDup bl → bl !! i = Some b → content (st_view t) (log_block i) = d →
  (is_zero (st_refs t b) ≤ st_free t)%nat →
  (if recovering =? 0 then 0 < st_refs t b ∧ r = st_refs t b - 1 else r = st_refs t b) →
  installing recovering t bl i t' → installing recovering t bl (S i) (installed t' b d r).
Proof.
  intros Hnd Hb Hd Hz Hr Hing. pose proof (installing_refs _ _ _ _ _ _ Hnd Hb Hing) as Hrb.
  destruct Hing as [Hv Hdd Hh Hf Hrefs].
  split; simpl; rewrite ?(take_S_r _ _ _ Hb).
  - rewrite (take_S_r _ _ (b, d)), apply_writes_app, Hv; [done |].
    unfold installs. rewrite list_lookup_imap, Hb. simpl. by rewrite Hd.
  - rewrite Hdd. set_solver.
  - done.
  - rewrite Hrb. assert (is_zero (st_refs t b) ≤ is_zero r)%nat; [| lia].
    destruct (recovering =? 0); [| by subst]. destruct Hr as [Hpos ->].
    rewrite is_zero_pos by done. lia.
  - intros b'. destruct (decide (b' = b)) as [->|Hne].
    + destruct (Z.eqb_spec recovering 0) as [->|Hnr].
      * rewrite decide_True by set_solver. tauto.
      * rewrite decide_False by tauto. done.
    + rewrite Hrefs. assert (b' ∈ take i bl ++ [b] ↔ b' ∈ take i bl) as Hiff by set_solver.
      by destruct (decide (recovering = 0 ∧ b' ∈ take i bl)) as [?|?];
        [rewrite decide_True by tauto | rewrite decide_False by tauto].
Qed.

Record installable (recovering : Z) (t : store) (bl : list Z) : Prop := {
  inst_nodup : NoDup bl;
  inst_home : ∀ b, b ∈ bl → ¬ in_log b ∧ 0 ≤ b < 2 ^ 31 ∧ is_Some (st_view t !! b);
  inst_pinned : recovering = 0 → ∀ b, b ∈ bl → 0 < st_refs t b;
  inst_area : ∀ b, in_log b → is_Some (st_view t !! b) ∧ b ∉ st_dirty t;
  inst_held : st_held t = ∅;
  inst_free : ∀ b, b ∈ bl → (is_zero (st_refs t b) < st_free t)%nat;
}.

Lemma announce_wp (recovering : Z) tail blk s :
  k_held s = [] → (recovering ≠ 0 → k_panicking s = 0 ∧ k_panicked s = 0) →
  wp (if negb (recovering =? 0) then printf "recovering tail %d dst %d
" [VZ tail; VZ blk] else ret tt) (λ _ s', ∃ out, s' = (s <| k_uart_out := out |>)) s.
Proof.
  intros Hh Hp. destruct (Z.eqb_spec recovering 0) as [->|Hr]; cbn [negb].
  { apply wp_ret. exists (k_uart_out s). by destruct s. }
  destruct (Hp Hr) as [Hp1 Hp2]. destruct (printf_done "recovering tail %d dst %d
" [VZ tail; VZ blk] s) as [out Eo]; [| done.. | eapply wp_done; eauto].
  apply (prints_lit (bytes_of_string "recovering tail ")); [by repeat constructor |]. apply prints_d.
  apply (prints_lit (bytes_of_string " dst ")); [by repeat constructor |]. apply prints_d.
  apply prints_plain. by repeat constructor.
Qed.

(** Installing does not touch the log. *)
Lemma installing_log recovering t bl i t' c :
  (∀ b, b ∈ bl → ¬ in_log b ∧ 0 ≤ b < 2 ^ 31 ∧ is_Some (st_view t !! b)) →
  installing recovering t bl i t' → in_log c → st_view t' !! c = st_view t !! c.
Proof.
  intros Hhome Ht' Hc. rewrite (ing_view _ _ _ _ _ Ht'). apply apply_writes_ne.
  rewrite installs_take_fst. intros (j & Hj)%list_elem_of_lookup.
  apply lookup_take_Some in Hj as [Hj%list_elem_of_lookup_2 _].
  by destruct (Hhome c Hj).
Qed.

Lemma install_trans_wp recovering t bl s :
  stored dev pid t s → log_holds dev start bl (k_log s) → installable recovering t bl →
  (recovering ≠ 0 → k_panicking s = 0 ∧ k_panicked s = 0) →
  wp (install_trans recovering) (λ _ s', ∃ t', stored dev pid t' s' ∧
    installing recovering t bl (length bl) t' ∧
    wrote (installs (st_view t) bl) s s' ∧ k_log s' = k_log s) s.
Proof.
  intros St Hlog [Hnd Hhome Hpin Harea Hheld Hfree] Hquiet.
  pose proof (log_holds_length _ _ _ _ Hlog) as Hlen. set (ws := installs (st_view t) bl).
  assert (Hws : length ws = length bl) by apply length_imap.
  unfold install_trans. apply (wp_for_lh (λ i s', ∃ t', stored dev pid t' s' ∧
    installing recovering t bl i t' ∧ wrote (take i ws) s s' ∧ k_log s' = k_log s) (length bl));
    [done | | | |].
  - exists t. split_and!; [done | by apply installing_0 | apply wrote_refl | done].
  - intros i s' (_ & _ & _ & _ & ->) _. apply (lg_n _ _ _ _ Hlog).
  - intros i s' (t' & St' & Ht' & W' & L') Hi. destruct (lookup_lt_is_Some_2 bl i Hi) as [b Hb].
    assert (b ∈ bl) as Hin by (by eapply list_elem_of_lookup_2).
    destruct (Hhome b Hin) as (Hout & Hrange & Hsome).
    destruct (Harea (log_block i)) as [[d Hd] Hcl]; [apply log_block_in; lia |].
    pose proof Hlog as Hlog'. rewrite <-L' in Hlog'.
    eapply wp_bind_done; [by eapply get_lh_block_done |].
    apply wp_bind. eapply wp_mono; [apply announce_wp |].
    { apply (quiet_held _ _ (sd_quiet _ _ _ _ St')). }
    { destruct (wrote_panic _ _ _ W') as [-> ->]. done. }
    intros _ s2 [out ->]. pose proof (installing_refs _ _ _ _ _ _ Hnd Hb Ht') as Hrb.
    set (r := if recovering =? 0 then st_refs t b - 1 else st_refs t b).
    assert (Hr : if recovering =? 0 then 0 < st_refs t b ∧ r = st_refs t b - 1
                 else r = st_refs t b).
    { unfold r. destruct (Z.eqb_spec recovering 0); [auto | done]. }
    eapply wp_mono; [apply (install_step recovering t' bl i b d r) |];
      try done; rewrite ?Hrb, ?(ing_view _ _ _ _ _ Ht').
    + by apply stored_out.
    + apply (ing_held _ _ _ _ _ Ht').
    + specialize (Hfree b Hin). pose proof (ing_free _ _ _ _ _ Ht'). lia.
    + rewrite <-(ing_view _ _ _ _ _ Ht'), (installing_log _ _ _ _ _ _ Hhome Ht'); [done |].
      apply log_block_in. lia.
    + rewrite (ing_dirty _ _ _ _ _ Ht'). set_solver.
    + by apply apply_writes_is_Some.
    + exact Hr.
    + intros _ s3 (St3 & W3 & L3). simpl in L3. exists (installed t' b d r). split_and!; [done | | | congruence].
      * apply installing_S; try done; [by apply content_lookup |].
        specialize (Hfree b Hin). lia.
      * rewrite (take_S_r _ _ (b, d)).
        -- eapply wrote_trans; [exact W' |]. exact (wrote_trans _ _ _ _ _ (wrote_print out s') W3).
        -- unfold ws, installs. rewrite list_lookup_imap, Hb. simpl. by rewrite (content_lookup _ _ _ Hd).
  - intros s' (t' & St' & Ht' & W' & L'). rewrite take_ge in W' by lia. eauto 6.
Qed.

(** ** Commit *)

(** The disk writes of a commit, in order. *)
Definition commit_writes (V : gmap Z (list Z)) (bl : list Z) (h : list Z) : list (Z * list Z) :=
  log_copies V bl ++ [(start, write_hdr h bl)] ++
  home_copies V bl ++ [(start, write_hdr (write_hdr h bl) [])].

Lemma log_copies_nodup V bl : NoDup (log_copies V bl).*1.
Proof.
  unfold log_copies. rewrite fmap_imap. apply NoDup_alt. intros i j b.
  rewrite !list_lookup_imap. destruct (bl !! i), (bl !! j); simpl; try done.
  unfold log_block. intros [= <-] [= ?]. lia.
Qed.

(** What the log holds once the copies are written is what goes home. *)
Lemma installs_copies V D bl h :
  (length bl ≤ LOGBLOCKS)%nat →
  installs (<[start := h]> (apply_writes (log_copies V bl) D)) bl = home_copies V bl.
Proof.
  intros Hlen. unfold installs, home_copies. apply list_eq. intros i.
  rewrite list_lookup_imap, list_lookup_fmap. destruct (bl !! i) as [b|] eqn:Hb; [| done]. simpl.
  do 2 f_equal. apply content_lookup. rewrite lookup_insert_ne by (unfold log_block; lia).
  eapply (apply_writes_eq _ _ i); [apply log_copies_nodup |].
  unfold log_copies. by rewrite list_lookup_imap, Hb.
Qed.

Lemma log_holds_clear bl l :
  log_holds dev start bl l → log_holds dev start [] (l <| log_lh ::= fun h => h <| lh_n := 0 |> |>).
Proof. intros [? ? ? ? ?]. by split. Qed.

Lemma start_in_log : in_log start.
Proof. unfold in_log. lia. Qed.

Lemma txn_installable t V bl :
  at_rest t → txn t bl → (∀ b, is_Some (st_view t !! b) → is_Some (V !! b)) →
  installable 0 (t <| st_view := V |>) bl.
Proof.
  intros [Hh Hf] [Hnd Hhome Hpin Harea] HV. split; simpl.
  - done.
  - intros b Hb. destruct (Hhome b Hb), (Hpin b Hb). auto.
  - intros _ b Hb. by apply Hpin.
  - intros b Hb. destruct (Harea b Hb). auto.
  - done.
  - intros b Hb. rewrite is_zero_pos by (by apply Hpin). done.
Qed.

Lemma installing_rest recovering t bl i t' :
  (0 < st_free t)%nat → installing recovering t bl i t' → at_rest t'.
Proof. intros Hf [_ _ Hh Hf' _]. split; [done | lia]. Qed.

Lemma commit_wp t bl h s :
  stored dev pid t s → at_rest t → log_holds dev start bl (k_log s) → txn t bl →
  st_view t !! start = Some h → bl ≠ [] →
  wp commit (λ _ s', wrote (commit_writes (st_view t) bl h) s s' ∧
    log_holds dev start [] (k_log s') ∧
    ∃ t', stored dev pid t' s' ∧ at_rest t' ∧ st_dirty t' = st_dirty t ∖ list_to_set bl) s.
Proof.
  intros St Hrest Hlog Htxn Hh Hne. pose proof (log_holds_length _ _ _ _ Hlog) as Hlen.
  unfold commit, get_lh_n. apply wp_bind, wp_gets. rewrite (lg_n _ _ _ _ Hlog).
  destruct bl as [|b0 bl0] eqn:Ebl; [done |]. rewrite <-Ebl in *. clear Hne.
  rewrite (proj2 (Z.ltb_lt _ _)) by (rewrite Ebl; simpl; lia). clear b0 bl0 Ebl.
  set (V1 := apply_writes (log_copies (st_view t) bl) (st_view t)).
  assert (HV1 : V1 !! start = Some h).
  { unfold V1. rewrite apply_writes_ne; [done |]. intros [_ ?]%(log_copies_in _ _ _ Hlen). done. }
  apply wp_bind. eapply wp_mono; [by apply (write_log_wp t bl) |]. intros _ s1 (St1 & W1 & L1).
  apply wp_bind. eapply wp_mono; [eapply (write_head_wp _ bl h); [exact St1 | | | |] |].
  { destruct Hrest. by split. } { by rewrite L1. } { done. }
  { apply (txn_area _ _ Htxn), start_in_log. }
  simpl. intros _ s2 (St2 & W2 & L2). rewrite <-L2 in L1.
  set (t2 := mkStore _ _ _ _ _) in St2.
  assert (Hinst : installable 0 t2 bl).
  { apply (txn_installable t _ bl Hrest Htxn). intros b Hb.
    by apply (apply_writes_is_Some [(start, write_hdr h bl)]), apply_writes_is_Some. }
  apply wp_bind. eapply wp_mono; [eapply (install_trans_wp 0 t2 bl); [exact St2 | | done | done] |].
  { by rewrite L1. }
  intros _ s3 (t3 & St3 & I3 & W3 & L3). rewrite L1 in L3.
  assert (Hview : st_view t3 !! start = Some (write_hdr h bl)).
  { rewrite (installing_log _ _ _ _ _ _ (inst_home _ _ _ Hinst) I3 start_in_log).
    apply lookup_insert_eq. }
  apply wp_bind. apply wp_modify.
  eapply wp_mono; [eapply (write_head_wp t3 []); [by apply stored_log | | | exact Hview |] |].
  { by apply (installing_rest _ t2 _ _ _ (rest_free _ Hrest) I3). }
  { simpl. rewrite L3. by eapply log_holds_clear. }
  { rewrite (ing_dirty _ _ _ _ _ I3). pose proof (txn_area _ _ Htxn _ start_in_log). set_solver. }
  intros _ s4 (St4 & W4 & L4). split_and!.
  - unfold commit_writes. eapply wrote_trans; [exact W1 |]. eapply wrote_trans; [exact W2 |].
    rewrite <-(installs_copies _ (st_view t) _ (write_hdr h bl) Hlen). eapply wrote_trans; [exact W3 |].
    by eapply wrote_log_l.
  - rewrite L4. simpl. rewrite L3. by eapply log_holds_clear.
  - eexists. split; [exact St4 |]. split.
    + destruct (installing_rest _ t2 _ _ _ (rest_free _ Hrest) I3). by split.
    + simpl. rewrite (ing_dirty _ _ _ _ _ I3). by rewrite take_ge by lia.
Qed.

(** ** Recovery *)

(** The blocks a header names. *)
Definition hdr_blocks (h : list Z) : list Z := hdr_block h <$> seq 0 (Z.to_nat (hdr_n h)).

(** The log knows its place; what it holds is not yet read. *)
Record log_located (l : log_t) : Prop := {
  ll_start : log_start l = start;
  ll_dev : u32 (log_dev l) = dev;
  ll_size : length (lh_block (log_lh l)) = LOGBLOCKS;
}.

Lemma take_insert_next {A} (bl old : list A) i v :
  length bl = i → (i < length old)%nat → <[i := v]> (bl ++ drop i old) = (bl ++ [v]) ++ drop (S i) old.
Proof.
  intros Hl Hi. destruct (lookup_lt_is_Some_2 old i Hi) as [w Hw]. rewrite (drop_S _ _ _ Hw).
  rewrite insert_app_r_alt, Hl, Nat.sub_diag by lia. simpl. by rewrite <-app_assoc.
Qed.

(** [read_head] after [i] of the block numbers. *)
Definition reading (l : log_t) (h : list Z) (i : nat) : log_t :=
  l <| log_lh := mkLogheader (hdr_n h)
         ((hdr_block h <$> seq 0 i) ++ drop i (lh_block (log_lh l))) |>.

Lemma reading_S l h i :
  (i < length (lh_block (log_lh l)))%nat →
  reading l h (S i) =
    (reading l h i) <| log_lh ::= fun x => x <| lh_block ::= <[i := hdr_block h i]> |> |>.
Proof.
  intros Hi. unfold reading. rewrite seq_S, fmap_app. simpl.
  rewrite take_insert_next; [done | by rewrite length_fmap, length_seq | lia].
Qed.

Lemma read_head_wp t h s :
  stored dev pid t s → at_rest t → log_located (k_log s) → st_view t !! start = Some h →
  start ∉ st_dirty t → 0 ≤ hdr_n h ≤ Z.of_nat LOGBLOCKS →
  wp read_head (λ _ s', stored dev pid t s' ∧ wrote [] s s' ∧
    log_holds dev start (hdr_blocks h) (k_log s')) s.
Proof.
  intros St [Hheld Hfree] [Hls Hld Hsz] Hh Hclean Hn.
  destruct t as [V D refs H n]; simpl in *; subst H. pose proof (is_zero_le (refs start)) as Hz.
  unfold read_head. apply wp_bind, wp_gets. rewrite Hld, Hls, start_u32.
  store_call (bread_store dev pid _ start). intros bi s1 [St1 F1].
  pose proof (frame_log _ _ F1) as L1. set (l := k_log s) in *.
  apply wp_bind. eapply (get_buf_store dev pid _ start); [eassumption | store_side.. |].
  intros x <- _. apply wp_bind, wp_modify, wp_bind.
  apply (wp_for_lh (λ i s', s' = (s1 <| k_log := reading l (b_data x) i |>))
           (Z.to_nat (hdr_n (b_data x)))).
  - lia.
  - unfold reading. simpl. rewrite drop_0. destruct s1; simpl in *; subst. by destruct l as [? ? ? ? []].
  - intros i s' -> _. simpl. lia.
  - intros i s' -> Hi. unfold set_lh_block, get_lh_block.
    apply wp_bind, wp_bind, wp_gets. simpl.
    destruct (lookup_lt_is_Some_2 (lh_block (log_lh l)) i) as [w Hw]; [lia |].
    eapply wp_must.
    { rewrite lookup_app_r by (rewrite length_fmap, length_seq; lia).
      rewrite length_fmap, length_seq, Nat.sub_diag, lookup_drop, Nat.add_0_r. exact Hw. }
    apply wp_modify. by rewrite reading_S by lia.
  - intros s' ->. pose proof (stored_log _ (reading l (b_data x) (Z.to_nat (hdr_n (b_data x)))) _ St1) as St2.
    store_call (brelse_store dev pid _ start). intros _ s3 [St3 F3]. split_and!.
    + eapply stored_eq; [exact St3 | done | done | done | |]; simpl.
      * by rewrite delete_insert_id by by simplify_map_eq.
      * lia.
    + eapply wrote_frame_l; [exact F1 |]. eapply wrote_frame_r; [exact F3 |]. done.
    + rewrite (frame_log _ _ F3). unfold reading. split; simpl; [done | done | | |].
      * unfold hdr_blocks. rewrite length_fmap, length_seq. lia.
      * unfold hdr_blocks. by rewrite take_app_length.
      * rewrite length_app, length_fmap, length_seq, length_drop, Hsz. lia.
Qed.

(** A disk whose log can be replayed: the header names distinct blocks outside
    the log, at most as many as the log holds. *)
Record log_valid (d : gmap Z (list Z)) (h : list Z) : Prop := {
  lv_header : d !! start = Some h;
  lv_length : length h = Z.to_nat BSIZE;
  lv_n : 0 ≤ hdr_n h ≤ Z.of_nat LOGBLOCKS;
  lv_nodup : NoDup (hdr_blocks h);
  lv_home : ∀ b, b ∈ hdr_blocks h → ¬ in_log b ∧ 0 ≤ b < 2 ^ 31 ∧ is_Some (d !! b);
  lv_area : ∀ b, in_log b → is_Some (d !! b);
}.

Definition recovery_writes (d : gmap Z (list Z)) (h : list Z) : list (Z * list Z) :=
  installs d (hdr_blocks h) ++ [(start, write_hdr h [])].

(** A machine that has just booted with disk [d]: nothing is cached, the log's
    place is known and output works. *)
Record booted (d : gmap Z (list Z)) (s : kstate) : Prop := {
  bt_store : ∃ t, stored dev pid t s ∧ st_view t = d ∧ st_dirty t = ∅ ∧ st_held t = ∅ ∧
    (2 ≤ st_free t)%nat;
  bt_log : log_located (k_log s);
  bt_panic : k_panicking s = 0 ∧ k_panicked s = 0;
}.

Lemma booted_disk d s : booted d s → k_disk s = d.
Proof.
  intros [(t & [_ _ Hcl _] & <- & Hd & _) _ _]. apply map_eq. intros b. apply Hcl.
  rewrite Hd. set_solver.
Qed.

Lemma recover_wp d h s :
  booted d s → log_valid d h →
  wp recover_from_log (λ _ s', wrote (recovery_writes d h) s s' ∧
    log_holds dev start [] (k_log s') ∧ booted (k_disk s') s') s.
Proof.
  intros [(t & St & Hv & Hd & Hh & Hf) Hloc Hp] [Hhdr Hlen Hn Hnd Hhome Harea].
  assert (at_rest t) as Hrest by (split; [done | lia]).
  unfold recover_from_log. apply wp_bind.
  eapply wp_mono; [apply (read_head_wp t h); try done |].
  { by rewrite Hv. } { rewrite Hd. set_solver. }
  intros _ s1 (St1 & W1 & L1). apply wp_bind.
  assert (Hinst : installable 1 t (hdr_blocks h)).
  { split; rewrite ?Hv, ?Hd; try done.
    - intros b Hb. split; [auto | set_solver].
    - intros b _. pose proof (is_zero_le (st_refs t b)). lia. }
  eapply wp_mono; [apply (install_trans_wp 1 t (hdr_blocks h)); try done |].
  { intros _. destruct (wrote_panic _ _ _ W1) as [-> ->]. done. }
  intros _ s2 (t2 & St2 & I2 & W2 & L2). apply wp_bind, wp_modify.
  assert (Hstart2 : st_view t2 !! start = Some h).
  { rewrite (installing_log _ _ _ _ _ _ (inst_home _ _ _ Hinst) I2 start_in_log). by rewrite Hv. }
  eapply wp_mono; [eapply (write_head_wp t2 []); [by apply stored_log | | | exact Hstart2 |] |].
  { apply (installing_rest _ t _ _ _ (rest_free _ Hrest) I2). }
  { simpl. rewrite L2. by eapply log_holds_clear. }
  { rewrite (ing_dirty _ _ _ _ _ I2), Hd. set_solver. }
  intros _ s3 (St3 & W3 & L3).
  assert (log_holds dev start [] (k_log s3)) as Hl3 by (rewrite L3; simpl; rewrite L2; by eapply log_holds_clear).
  split; [| split; [done |]].
  - unfold recovery_writes. rewrite <-Hv. eapply (wrote_trans [] _); [exact W1 |].
    eapply wrote_trans; [exact W2 |]. by eapply wrote_log_l.
  - split; [| by destruct Hl3 | ].
    + eexists. split; [exact St3 |]. simpl. rewrite (ing_dirty _ _ _ _ _ I2), (ing_held _ _ _ _ _ I2), Hd.
      pose proof (ing_free _ _ _ _ _ I2). split; [| split; [set_solver | split; [done | lia]]].
      apply map_eq. intros b. symmetry. apply (sd_clean _ _ _ _ St3). simpl. rewrite (ing_dirty _ _ _ _ _ I2), Hd. set_solver.
    + destruct (wrote_panic _ _ _ W3) as [-> ->]. destruct (wrote_panic _ _ _ W2) as [E1 E2]. destruct (wrote_panic _ _ _ W1) as [E3 E4].
      simpl. rewrite E1, E2, E3, E4. done.
Qed.

(** ** Crashes *)

(** The disk recovery aims at. *)
Definition replay (d : gmap Z (list Z)) : gmap Z (list Z) :=
  match d !! start with
  | Some h => apply_writes (installs d (hdr_blocks h)) d
  | None => d
  end.

(** Equality outside the log area. *)
Definition same_data (d d' : gmap Z (list Z)) : Prop := ∀ b, ¬ in_log b → d !! b = d' !! b.

#[global] Instance same_data_equiv : Equivalence same_data.
Proof.
  split.
  - by intros d b.
  - intros d d' H b Hb. symmetry. auto.
  - intros d d' d'' H H' b Hb. rewrite H by done. auto.
Qed.

(** The same writes on disks with the same data. *)
Lemma apply_writes_data ws d d' :
  same_data d d' → same_data (apply_writes ws d) (apply_writes ws d').
Proof.
  revert d d'; induction ws as [|[b x] ws IH]; intros d d' H; [done |].
  apply (IH (<[b := x]> d) (<[b := x]> d')). intros c Hc.
  destruct (decide (b = c)) as [->|?]; simplify_map_eq; [done | auto].
Qed.

Lemma apply_writes_log ws d : (∀ b, b ∈ ws.*1 → in_log b) → same_data (apply_writes ws d) d.
Proof. intros H b Hb. apply apply_writes_ne. naive_solver. Qed.

Lemma hdr_blocks_lookup h i b :
  hdr_blocks h !! i = Some b → (i < Z.to_nat (hdr_n h))%nat ∧ b = hdr_block h i.
Proof.
  unfold hdr_blocks. rewrite list_lookup_fmap. intros (j & Hj & ->)%fmap_Some.
  apply lookup_seq in Hj as [-> ?]. done.
Qed.

Lemma replay_empty d h : d !! start = Some h → hdr_n h = 0 → replay d = d.
Proof. intros Hd Hn. unfold replay, hdr_blocks. by rewrite Hd, Hn. Qed.

(** Writes to the home locations do not change what replaying gives. *)
Lemma replay_partial d h ws :
  log_valid d h → (∀ b, b ∈ ws.*1 → b ∈ hdr_blocks h) →
  log_valid (apply_writes ws d) h ∧ same_data (replay (apply_writes ws d)) (replay d).
Proof.
  intros [Hh Hlen Hn Hnd Hhome Harea] Hws. set (d' := apply_writes ws d).
  assert (Hlog : ∀ b, in_log b → d' !! b = d !! b).
  { intros b Hb. apply apply_writes_ne. intros Hin%Hws. by destruct (Hhome b). }
  assert (Hh' : d' !! start = Some h) by (by rewrite Hlog by apply start_in_log).
  split.
  - split; try done.
    + intros b Hb. destruct (Hhome b Hb) as (? & ? & ?).
      split; [done |]. split; [done |]. by apply apply_writes_is_Some.
    + intros b Hb. by apply apply_writes_is_Some, Harea.
  - intros b Hb. unfold replay. rewrite Hh, Hh'.
    assert (installs d' (hdr_blocks h) = installs d (hdr_blocks h)) as ->.
    { unfold installs. apply imap_ext. intros i c [Hi _]%hdr_blocks_lookup.
      unfold content. rewrite Hlog; [done | apply log_block_in; lia]. }
    destruct (decide (b ∈ hdr_blocks h)) as [(i & Hi)%list_elem_of_lookup|Hno].
    + assert (installs d (hdr_blocks h) !! i = Some (b, content d (log_block i))) as Hw.
      { unfold installs. by rewrite list_lookup_imap, Hi. }
      by rewrite !(apply_writes_eq _ _ i b _ ltac:(by rewrite installs_fst) Hw).
    + rewrite !apply_writes_ne by (by rewrite installs_fst). apply apply_writes_ne. naive_solver.
Qed.

(** The header has been erased. *)
Lemma erased_valid d h h' :
  log_valid d h → length h' = Z.to_nat BSIZE → hdr_n h' = 0 →
  log_valid (<[start := h']> d) h' ∧ replay (<[start := h']> d) = <[start := h']> d.
Proof.
  intros [Hh Hlen Hn Hnd Hhome Harea] Hl Hn0. split.
  - assert (hdr_blocks h' = []) as Enil by (unfold hdr_blocks; by rewrite Hn0).
    split; rewrite ?Enil; try done.
    + apply lookup_insert_eq.
    + rewrite Hn0. lia.
    + constructor.
    + set_solver.
    + intros b Hb. destruct (decide (start = b)) as [->|?]; simplify_map_eq; eauto.
  - eapply replay_empty; [apply lookup_insert_eq | done].
Qed.

Lemma erase_data d h : same_data (<[start := h]> d) d.
Proof. intros b Hb. apply lookup_insert_ne. intros <-. by apply Hb, start_in_log. Qed.

Lemma take_fst_in (ws : list (Z * list Z)) k b : b ∈ (take k ws).*1 → b ∈ ws.*1.
Proof.
  rewrite fmap_take. intros (i & Hi)%list_elem_of_lookup.
  apply lookup_take_Some in Hi as [? _]. by eapply list_elem_of_lookup_2.
Qed.

(** Interrupted after any number of its writes, recovery can start over. *)
Lemma recovery_prefix d h k :
  log_valid d h →
  let d' := apply_writes (take k (recovery_writes d h)) d in
  ∃ h', log_valid d' h' ∧ same_data (replay d') (replay d).
Proof.
  intros Hv d'. unfold d', recovery_writes. rewrite take_app.
  set (ws := installs d (hdr_blocks h)).
  destruct (k - length ws)%nat as [|j] eqn:Ek.
  - rewrite app_nil_r. exists h. apply replay_partial; [done |]. intros b Hb%take_fst_in.
    unfold ws in Hb. by rewrite installs_fst in Hb.
  - rewrite take_ge, apply_writes_app by lia. rewrite take_ge by (simpl; lia). simpl.
    destruct (replay_partial d h ws Hv) as [Hv' _].
    { intros b. unfold ws. by rewrite installs_fst. }
    destruct (write_hdr_nil h) as [Hl Hn]; [apply (lv_length _ _ Hv) |].
    destruct (erased_valid _ _ _ Hv' Hl Hn) as [Hv'' Hr].
    exists (write_hdr h []). split; [exact Hv'' |]. unfold apply_writes at 1. simpl.
    fold (apply_writes ws d). rewrite Hr, erase_data. unfold replay. by rewrite (lv_header _ _ Hv).
Qed.

(** The new header names the transaction. *)
Lemma write_hdr_blocks h bl :
  length h = Z.to_nat BSIZE → (length bl ≤ LOGBLOCKS)%nat → Forall (λ v, 0 ≤ v < 2 ^ 31) bl →
  hdr_blocks (write_hdr h bl) = bl.
Proof.
  intros Hh Hl Hr. destruct (write_hdr_spec h bl Hh Hl Hr) as (_ & Hn & Hb).
  unfold hdr_blocks. rewrite Hn, Nat2Z.id. apply list_eq. intros i. rewrite list_lookup_fmap.
  destruct (bl !! i) as [b|] eqn:Hi.
  - rewrite lookup_seq_lt by (by eapply lookup_lt_Some). simpl. by rewrite (Hb _ _ Hi).
  - rewrite lookup_seq_ge by (by apply lookup_ge_None). done.
Qed.

(** The disk and the blocks a commit starts from: an empty log, and distinct
    blocks with a home on the disk. *)
Record commit_ready (d : gmap Z (list Z)) (h : list Z) (bl : list Z) : Prop := {
  cr_valid : log_valid d h;
  cr_empty : hdr_n h = 0;
  cr_length : (length bl ≤ LOGBLOCKS)%nat;
  cr_nodup : NoDup bl;
  cr_home : ∀ b, b ∈ bl → ¬ in_log b ∧ 0 ≤ b < 2 ^ 31 ∧ is_Some (d !! b);
}.

(** At the commit point the whole transaction is in the log. *)
Lemma committed_valid d h bl V :
  commit_ready d h bl →
  let d1 := <[start := write_hdr h bl]> (apply_writes (log_copies V bl) d) in
  log_valid d1 (write_hdr h bl) ∧ hdr_blocks (write_hdr h bl) = bl ∧
  same_data (replay d1) (apply_writes (home_copies V bl) d).
Proof.
  intros [[Hh Hlen Hn Hnd Hhome Harea] Hn0 Hbl Hnd' Hhome'] d1.
  assert (Hr : Forall (λ v, 0 ≤ v < 2 ^ 31) bl) by (apply Forall_forall; naive_solver).
  pose proof (write_hdr_blocks h bl Hlen Hbl Hr) as Eb.
  destruct (write_hdr_spec h bl Hlen Hbl Hr) as (Hl1 & Hn1 & _).
  assert (Hsome : ∀ b, is_Some (d !! b) → is_Some (d1 !! b)).
  { intros b Hb. by apply (apply_writes_is_Some [(start, write_hdr h bl)]), apply_writes_is_Some. }
  split_and!; [| done |].
  - split; rewrite ?Eb; try done.
    + apply lookup_insert_eq.
    + rewrite Hn1. lia.
    + intros b Hb. destruct (Hhome' b Hb) as (? & ? & ?). auto.
    + auto.
  - unfold replay, d1. rewrite lookup_insert_eq, Eb, installs_copies by done.
    apply apply_writes_data. rewrite erase_data. apply apply_writes_log.
    intros b Hb. by apply (log_copies_in V bl).
Qed.

(** While the blocks are copied into the log, the header is still empty. *)
Lemma copying_valid d h bl V k :
  commit_ready d h bl →
  let d' := apply_writes (take k (log_copies V bl)) d in
  log_valid d' h ∧ same_data (replay d') d.
Proof.
  intros Hcr d'. pose proof (cr_valid _ _ _ Hcr) as Hv.
  assert (HA : ∀ b, b ∈ (take k (log_copies V bl)).*1 → in_log b ∧ b ≠ start).
  { intros b Hb%take_fst_in. by apply (log_copies_in V bl); [apply (cr_length _ _ _ Hcr) |]. }
  assert (Hs : d' !! start = Some h).
  { unfold d'. rewrite apply_writes_ne; [apply (lv_header _ _ Hv) | naive_solver]. }
  split.
  - destruct Hv as [_ Hlen Hn Hnd Hhome Harea]. split; try done.
    + intros b Hb. destruct (Hhome b Hb) as (? & ? & ?).
      split; [done |]. split; [done |]. by apply apply_writes_is_Some.
    + intros b Hb. by apply apply_writes_is_Some, Harea.
  - rewrite (replay_empty _ _ Hs (cr_empty _ _ _ Hcr)). apply apply_writes_log.
    intros b Hb. by apply HA.
Qed.

Lemma commit_result V bl h d :
  (length bl ≤ LOGBLOCKS)%nat →
  same_data (apply_writes (commit_writes V bl h) d) (apply_writes (home_copies V bl) d).
Proof.
  intros Hl. unfold commit_writes. rewrite !apply_writes_app.
  rewrite ?apply_writes_one, erase_data.
  apply apply_writes_data. rewrite erase_data. apply apply_writes_log.
  intros b Hb. by apply (log_copies_in V bl).
Qed.

(** All the writes done, the log is empty again. *)
Lemma commit_end d h bl V :
  commit_ready d h bl →
  let d' := apply_writes (commit_writes V bl h) d in
  ∃ h', log_valid d' h' ∧ hdr_n h' = 0 ∧
    same_data (replay d') (apply_writes (home_copies V bl) d).
Proof.
  intros Hcr d'. destruct (committed_valid d h bl V Hcr) as (Hv1 & Eb & _).
  destruct (replay_partial _ _ (home_copies V bl) Hv1) as [Hv2 _].
  { intros b. by rewrite home_copies_fst, Eb. }
  destruct (write_hdr_nil (write_hdr h bl)) as [Hl Hn]; [apply (lv_length _ _ Hv1) |].
  destruct (erased_valid _ _ _ Hv2 Hl Hn) as [Hv3 Hr].
  assert (Ed : d' = <[start := write_hdr (write_hdr h bl) []]> (apply_writes (home_copies V bl)
    (<[start := write_hdr h bl]> (apply_writes (log_copies V bl) d)))).
  { unfold d', commit_writes. by rewrite !apply_writes_app. }
  exists (write_hdr (write_hdr h bl) []). rewrite Ed at 1. split; [done |]. split; [done |].
  rewrite Ed, Hr, <-Ed. apply commit_result, (cr_length _ _ _ Hcr).
Qed.

(** After any number of the writes of a commit, replaying the log gives the data
    from before the transaction or the data with all of it. *)
Lemma commit_prefix d h bl V k :
  commit_ready d h bl →
  let d' := apply_writes (take k (commit_writes V bl h)) d in
  ∃ h', log_valid d' h' ∧
    (same_data (replay d') d ∨ same_data (replay d') (apply_writes (home_copies V bl) d)).
Proof.
  intros Hcr d'. destruct (decide (length (commit_writes V bl h) ≤ k)%nat) as [Hk|Hk].
  { unfold d'. rewrite take_ge by done.
    destruct (commit_end d h bl V Hcr) as (h' & Hv & _ & Hs). eauto. }
  unfold d', commit_writes in *. rewrite !length_app in Hk. simpl in Hk.
  set (A := log_copies V bl) in *. set (B := home_copies V bl) in *.
  rewrite take_app. destruct (k - length A)%nat as [|j] eqn:Ek.
  { simpl. rewrite app_nil_r. destruct (copying_valid d h bl V k Hcr) as [Hv Hs]. eauto. }
  rewrite (take_ge A), apply_writes_app by lia.
  destruct (committed_valid d h bl V Hcr) as (Hv1 & Eb & Hs1).
  set (d1 := <[start := write_hdr h bl]> (apply_writes A d)) in *.
  change (apply_writes (take (S j) _) (apply_writes A d))
    with (apply_writes (take j (B ++ [(start, write_hdr (write_hdr h bl) [])])) d1).
  assert (HB : ∀ i b, b ∈ (take i B).*1 → b ∈ hdr_blocks (write_hdr h bl)).
  { intros i b Hb%take_fst_in. unfold B in Hb. by rewrite Eb, home_copies_fst in *. }
  rewrite take_app, (proj2 (Nat.sub_0_le j (length B))), app_nil_r by lia.
  destruct (replay_partial d1 _ (take j B) Hv1 (HB j)) as [Hv2 Hs2].
  exists (write_hdr h bl). split; [done |]. right. by rewrite Hs2.
Qed.

(** ** The theorem's vocabulary *)

(** The kernel is about to commit the blocks [bl]: they are the dirty blocks of
    the store [t], and the log on the disk is empty. *)
Record committing (s : kstate) (t : store) (bl : list Z) (h : list Z) : Prop := {
  cg_stored : stored dev pid t s;
  cg_rest : at_rest t;
  cg_log : log_holds dev start bl (k_log s);
  cg_txn : txn t bl;
  cg_dirty : st_dirty t = list_to_set bl;
  cg_some : bl ≠ [];
  cg_header : st_view t !! start = Some h;
  cg_length : length h = Z.to_nat BSIZE;
  cg_empty : hdr_n h = 0;
}.

(** The disks a crash can leave: some of the writes [ws] of the commit were
    done, or a recovery from such a disk was itself interrupted. *)
Inductive crash_disk (ws : list (Z * list Z)) (d0 : gmap Z (list Z)) : gmap Z (list Z) → Prop :=
  | crash_in_commit k : crash_disk ws d0 (apply_writes (take k ws) d0)
  | crash_in_recovery d r r' vs k :
      crash_disk ws d0 d → booted d r → outcome_state (recover_from_log r) = Some r' →
      k_dwrites r' = rev vs ++ k_dwrites r →
      crash_disk ws d0 (apply_writes (take k vs) d).

Lemma committing_ready s t bl h : committing s t bl h → commit_ready (k_disk s) h bl.
Proof.
  intros [[_ _ Hcl Hdk] _ Hlog [Hnd Hhome Hpin Harea] Hd _ Hh Hlen Hn].
  assert (Hdisk : ∀ b, in_log b → k_disk s !! b = st_view t !! b).
  { intros b Hb. apply Hcl. by apply Harea. }
  split; [| done | by eapply log_holds_length | done |].
  - assert (hdr_blocks h = []) as Enil by (unfold hdr_blocks; by rewrite Hn).
    split; rewrite ?Enil; [| done | lia | constructor | set_solver |].
    + by rewrite Hdisk by apply start_in_log.
    + intros b Hb. rewrite Hdisk by done. by apply Harea.
  - intros b Hb. destruct (Hhome b Hb) as [? ?]. split; [done |]. split; [done |].
    apply Hdk. rewrite Hd. set_solver.
Qed.

(** With the transaction's blocks at home, the disk is what the store shows. *)
Lemma committing_view s t bl h :
  committing s t bl h → apply_writes (home_copies (st_view t) bl) (k_disk s) = st_view t.
Proof.
  intros [[_ _ Hcl _] _ _ [Hnd Hhome Hpin Harea] Hd _ _ _ _]. apply map_eq. intros b.
  destruct (decide (b ∈ bl)) as [Hb|Hb].
  - destruct (Hpin b Hb) as [[x Hx] _]. apply list_elem_of_lookup in Hb as [i Hi].
    rewrite (apply_writes_eq _ _ i b (content (st_view t) b)).
    + by rewrite (content_lookup _ _ _ Hx).
    + by rewrite home_copies_fst.
    + unfold home_copies. by rewrite list_lookup_fmap, Hi.
  - rewrite apply_writes_ne by (by rewrite home_copies_fst). apply Hcl. rewrite Hd. set_solver.
Qed.

(** Every disk a crash leaves can be replayed, to the old data or the new. *)
Lemma crash_disk_valid s t bl h d :
  committing s t bl h → crash_disk (commit_writes (st_view t) bl h) (k_disk s) d →
  ∃ h', log_valid d h' ∧ (same_data (replay d) (k_disk s) ∨ same_data (replay d) (st_view t)).
Proof.
  intros Hcg. induction 1 as [k|d r r' vs k _ (h' & Hv & IH) Hboot Hrun Hvs].
  - destruct (commit_prefix (k_disk s) h bl (st_view t) k) as (h' & Hv & Hs);
      [by eapply committing_ready |].
    rewrite (committing_view _ _ _ _ Hcg) in Hs. eauto.
  - destruct (wp_elim _ _ _ (recover_wp d h' r Hboot Hv)) as ([] & r1 & E1 & W & _).
    rewrite E1 in Hrun. injection Hrun as <-. rewrite (wrote_history _ _ _ W) in Hvs.
    apply app_inv_tail in Hvs. apply (f_equal (@rev _)) in Hvs. rewrite !rev_involutive in Hvs. subst vs.
    destruct (recovery_prefix d h' k Hv) as (h'' & Hv' & Hs). exists h''. split; [done |].
    by rewrite Hs.
Qed.

(** A complete recovery. *)
Lemma recovery_result d h : log_valid d h → let d' := apply_writes (recovery_writes d h) d in
  same_data d' (replay d) ∧ ∃ h', log_valid d' h' ∧ hdr_n h' = 0.
Proof.
  intros Hv d'. unfold d', recovery_writes. rewrite apply_writes_app.
  destruct (replay_partial d h (installs d (hdr_blocks h)) Hv) as [Hv' _].
  { intros b. by rewrite installs_fst. }
  destruct (write_hdr_nil h) as [Hl Hn]; [apply (lv_length _ _ Hv) |].
  destruct (erased_valid _ _ _ Hv' Hl Hn) as [Hv'' Hr]. split; [| by eauto].
  rewrite ?apply_writes_one, erase_data.
  unfold replay. by rewrite (lv_header _ _ Hv).
Qed.

Lemma recovery_replays d h r :
  booted d r → log_valid d h →
  ∃ r', recover_from_log r = Done tt r' ∧ same_data (k_disk r') (replay d) ∧
    ∃ h', log_valid (k_disk r') h' ∧ hdr_n h' = 0.
Proof.
  intros Hb Hv. destruct (wp_elim _ _ _ (recover_wp d h r Hb Hv)) as ([] & r' & Er & W & _ & _).
  exists r'. split; [done |]. rewrite (wrote_disk _ _ _ W), (booted_disk _ _ Hb). by apply recovery_result.
Qed.

(** ** A full log *)

(** As many distinct pinned blocks as there are buffers occupy every buffer. *)
Lemma all_pinned t bl C :
  bufs_store dev pid C t → length C = NBUF → NoDup bl → length bl = NBUF →
  (∀ b, b ∈ bl → 0 < st_refs t b) →
  ∀ i x, C !! i = Some x → b_dev x = dev ∧ b_blockno x ∈ bl ∧ b_refcnt x ≠ 0.
Proof.
  intros HB HC Hnd Hlen Hpin.
  assert (∃ js, length js = length bl ∧ Forall2 (λ i b, ∃ x, C !! i = Some x ∧
    b_dev x = dev ∧ b_blockno x = b) js bl) as (js & Hil & His).
  { assert (Forall (λ b, ∃ i, ∃ x, C !! i = Some x ∧ b_dev x = dev ∧ b_blockno x = b) bl) as H.
    { apply Forall_forall. intros b Hb. apply (bs_cached _ _ _ _ HB). auto. }
    clear Hlen Hnd Hpin. induction H as [|b bl (i & Hi) _ (js & Hl & IH)]; [by exists [] |].
    exists (i :: js). split; [simpl; lia | by constructor]. }
  assert (NoDup js) as Hndi.
  { apply NoDup_alt. intros j k i Hj Hk.
    destruct (Forall2_lookup_l _ _ _ _ _ His Hj) as (b & Hb & x & Hx & _ & Hxb).
    destruct (Forall2_lookup_l _ _ _ _ _ His Hk) as (b' & Hb' & x' & Hx' & _ & Hxb').
    assert (b = b') as <- by congruence. by eapply NoDup_lookup. }
  assert (js ≡ₚ seq 0 NBUF) as Hperm.
  { apply submseteq_length_Permutation; [| rewrite length_seq; lia].
    apply NoDup_submseteq; [done |]. intros i (j & Hj)%list_elem_of_lookup.
    destruct (Forall2_lookup_l _ _ _ _ _ His Hj) as (b & Hb & x & Hx & _).
    apply elem_of_seq. apply lookup_lt_Some in Hx. lia. }
  intros i x Hx. assert (i ∈ js) as (j & Hj)%list_elem_of_lookup.
  { rewrite Hperm, elem_of_seq. apply lookup_lt_Some in Hx. lia. }
  destruct (Forall2_lookup_l _ _ _ _ _ His Hj) as (b & Hb & x' & Hx' & Hd & Hxb).
  assert (x' = x) as -> by congruence. apply list_elem_of_lookup_2 in Hb.
  rewrite Hxb. split_and!; [done.. |].
  rewrite (entry_refs _ _ _ _ (bs_entry _ _ _ _ HB _ _ Hx Hd)), Hxb.
  specialize (Hpin b Hb). unfold holds. destruct (st_held t !! b); lia.
Qed.

End log.

(** ** Theorems *)

(** C8: a commit is atomic with respect to crashes.  From a state in which a
    transaction is ready, [commit] returns, and afterwards the disk shows the
    whole transaction outside the log area and the log on it is empty again.  If
    the machine crashes instead, after any number of the disk writes, and then
    any number of recoveries are interrupted in the same way, the next run of
    [recover_from_log] on a freshly booted machine returns and leaves, outside
    the log area, the data from before the transaction or the data with all of
    it. *)
Theorem commit_is_atomic {E : Env} dev pid start s t bl h :
  0 ≤ start ∧ start + Z.of_nat LOGBLOCKS < 2 ^ 31 → committing dev pid start s t bl h →
  ∃ s' ws, commit s = Done tt s' ∧ k_dwrites s' = rev ws ++ k_dwrites s ∧
    same_data start (k_disk s') (st_view t) ∧
    (∃ h', log_valid start (k_disk s') h' ∧ hdr_n h' = 0) ∧
    ∀ d r, crash_disk dev pid start ws (k_disk s) d → booted dev pid start d r →
      ∃ r', recover_from_log r = Done tt r' ∧
        (same_data start (k_disk r') (k_disk s) ∨ same_data start (k_disk r') (st_view t)).
Proof.
  intros Hstart Hcg. pose proof Hcg as [Hst Hrest Hlog Htxn Hd Hne Hh Hlen Hn].
  destruct (wp_elim _ _ _ (commit_wp dev pid start Hstart t bl h s Hst Hrest Hlog Htxn Hh Hne))
    as ([] & s' & Ec & W & _). exists s', (commit_writes start (st_view t) bl h).
  split_and!; [done | apply (wrote_history _ _ _ W) | | |].
  - rewrite (wrote_disk _ _ _ W), commit_result by (done || by eapply log_holds_length).
    by erewrite committing_view by done.
  - rewrite (wrote_disk _ _ _ W).
    destruct (commit_end start Hstart (k_disk s) h bl (st_view t)) as (h' & Hv & Hn' & _); [| eauto].
    by eapply committing_ready.
  - intros d r Hd' Hb. destruct (crash_disk_valid dev pid start Hstart s t bl h d Hcg Hd')
      as (h' & Hv & Hs).
    destruct (recovery_replays dev pid start Hstart d h' r Hb Hv) as (r' & Er & Hr & _).
    exists r'. split; [done |]. destruct Hs as [Hs|Hs]; [left | right]; etransitivity; eauto.
Qed.

(** [log_write] keeps a transaction well formed.  Called inside a transaction
    with a locked buffer, it adds the block to the log if it is not there yet and
    pins the buffer exactly then; a block written twice takes one place
    (absorption).  Nothing goes to the disk. *)
Theorem log_write_records {E : Env} dev pid start t bl b bi s :
  0 ≤ start ∧ start + Z.of_nat LOGBLOCKS < 2 ^ 31 →
  stored dev pid t s → log_holds dev start bl (k_log s) → st_held t !! b = Some bi →
  (length bl < LOGBLOCKS)%nat → 1 ≤ log_outstanding (k_log s) → NoDup bl →
  (∀ v, v ∈ b :: bl → 0 ≤ v < 2 ^ 31) → st_refs t b + 1 < 2 ^ 31 →
  ∃ s' bl', log_write bi s = Done tt s' ∧ log_holds dev start bl' (k_log s') ∧ NoDup bl' ∧
    (∀ v, v ∈ bl' ↔ v = b ∨ v ∈ bl) ∧
    k_disk s' = k_disk s ∧ k_dwrites s' = k_dwrites s ∧
    stored dev pid (if decide (b ∈ bl) then t else with_refs t b (st_refs t b + 1)) s'.
Proof.
  intros Hstart St Hlog Hb Hlen Hout Hnd Hrange Hrefs.
  destruct (wp_elim _ _ _ (log_write_wp dev pid start Hstart t bl b bi s St Hb Hlog Hlen
    ltac:(apply Forall_forall; set_solver) (Hrange b ltac:(set_solver)) Hrefs Hout))
    as ([] & s' & Er & [Wd Wh _] & Hl & St').
  exists s', (logged bl b). unfold logged in *.
  split; [done |]. split; [done |]. split_and!; [| | done | done | done].
  - case_decide; [done |]. apply NoDup_app. split_and!; [done | set_solver | apply NoDup_singleton].
  - intros v. case_decide; set_solver.
Qed.

(** C36: a log filled to its limit cannot be committed.  [begin_op] admits
    operations until they may write [LOGBLOCKS] blocks and [log_write] accepts
    that many, but each pins a buffer and there are only [NBUF = LOGBLOCKS]
    buffers: with that many distinct blocks logged, reading the first block of
    the log finds no buffer and the kernel panics. *)
Theorem full_log_panics {E : Env} dev pid start t bl s :
  0 ≤ start ∧ start + Z.of_nat LOGBLOCKS < 2 ^ 31 →
  stored dev pid t s → log_holds dev start bl (k_log s) → txn start t bl →
  length bl = LOGBLOCKS → ∃ s', commit s = Panic "bget: no buffers" s'.
Proof.
  intros Hstart [Hq (C & HC & HB) _ _] Hlog Htxn Hlen.
  destruct (cache_length _ _ HC) as [_ HCl].
  assert (Hall : ∀ i x, C !! i = Some x → holds_block dev (log_block start 0) x = false ∧ b_refcnt x ≠ 0).
  { intros i x Hx. destruct (all_pinned dev pid t bl C HB HCl (txn_nodup _ _ _ Htxn) Hlen
      (λ b Hb, proj2 (txn_pinned _ _ _ Htxn b Hb)) i x Hx) as (Hd & Hin & Hr). split; [| done].
    apply not_true_iff_false. intros [_ Hb]%holds_block_spec. rewrite Hb in Hin.
    apply (txn_home _ _ _ Htxn) in Hin as [Hno _]. apply Hno, log_block_in. unfold LOGBLOCKS, MAXOPBLOCKS. lia. }
  destruct (bget_panic dev (log_block start 0) C s (quiet_held _ _ Hq) HC Hall) as [s' Hp].
  exists s'. unfold commit, get_lh_n. erewrite bind_done by reflexivity.
  rewrite (lg_n _ _ _ _ Hlog), Hlen. change (0 <? Z.of_nat LOGBLOCKS) with true. cbv iota.
  apply bind_panic. unfold write_log, for_lh, loop. apply bind_panic. cbn [iterate].
  apply bind_panic. unfold get_lh_n. erewrite bind_done by reflexivity.
  rewrite (lg_n _ _ _ _ Hlog), Hlen. change (Z.of_nat 0 <? Z.of_nat LOGBLOCKS) with true. cbv iota.
  apply bind_panic. erewrite bind_done by reflexivity. apply bind_panic. unfold bread.
  apply bind_panic.
  rewrite (lg_dev _ _ _ _ Hlog), (lg_start _ _ _ _ Hlog), (log_block_u32 start Hstart)
    by (unfold LOGBLOCKS, MAXOPBLOCKS; lia).
  exact Hp.
Qed.
