(* ===== verification/Fs.v ===== *)
(** * File system: blocks, inodes, directories, path names (kernel/fs.c) *)

From S2P Require Import Prelude Machine Kstate Strings Sched Kalloc Vm Printf Bio Log.

(** ** On-disk structures (kernel/fs.h) *)

Record dinode := mkDinode {
  d_type : Z;
  d_major : Z;
  d_minor : Z;
  d_nlink : Z;
  d_size : Z;
  d_addrs : list Z;
}.

Fixpoint words_of_bytes (n : nat) (bs : list Z) : list Z :=
  match n with
  | O => []
  | S n => le_val (take 4 bs) :: words_of_bytes n (drop 4 bs)
  end.
Definition bytes_of_words (ws : list Z) : list Z := concat (le_bytes 4 <$> ws).

Definition decode_dinode (bs : list Z) : dinode :=
  mkDinode (i16 (le_val (slice bs 0 2))) (i16 (le_val (slice bs 2 2)))
    (i16 (le_val (slice bs 4 2))) (i16 (le_val (slice bs 6 2)))
    (le_val (slice bs 8 4)) (words_of_bytes (S NDIRECT) (drop 12 bs)).

Definition encode_dinode (d : dinode) : list Z :=
  le_bytes 2 (u16 (d_type d)) ++ le_bytes 2 (u16 (d_major d)) ++
  le_bytes 2 (u16 (d_minor d)) ++ le_bytes 2 (u16 (d_nlink d)) ++
  le_bytes 4 (d_size d) ++ bytes_of_words (d_addrs d).

Record dirent := mkDirent { de_inum : Z; de_name : list Z }.

Definition decode_dirent (bs : list Z) : dirent :=
  mkDirent (le_val (slice bs 0 2)) (slice bs 2 DIRSIZ).
Definition encode_dirent (d : dirent) : list Z :=
  le_bytes 2 (u16 (de_inum d)) ++ de_name d.

Definition decode_superblock (bs : list Z) : superblock :=
  mkSuperblock (le_val (slice bs 0 4)) (le_val (slice bs 4 4)) (le_val (slice bs 8 4))
    (le_val (slice bs 12 4)) (le_val (slice bs 16 4)) (le_val (slice bs 20 4))
    (le_val (slice bs 24 4)) (le_val (slice bs 28 4)).

Definition IBLOCK (i : Z) (sb : superblock) : Z := u32 (i / IPB + sb_inodestart sb).
Definition BBLOCK (b : Z) (sb : superblock) : Z := u32 (b / BPB + sb_bmapstart sb).

(** The byte offset of inode [inum] in its block. *)
Definition dinode_off (inum : Z) : nat := Z.to_nat (inum mod IPB * DINODE_SIZE).

(** ** The bitmap *)

Definition bit_clear (data : list Z) (bi : nat) : bool :=
  Z.land (nth (bi / 8) data 0) (Z.shiftl 1 (Z.of_nat (bi mod 8))) =? 0.
Definition set_bit (data : list Z) (bi : nat) : list Z :=
  <[(bi / 8)%nat := Z.lor (nth (bi / 8) data 0) (Z.shiftl 1 (Z.of_nat (bi mod 8)))]> data.
Definition clear_bit (data : list Z) (bi : nat) : list Z :=
  <[(bi / 8)%nat := Z.land (nth (bi / 8) data 0) (u8 (Z.lnot (Z.shiftl 1 (Z.of_nat (bi mod 8)))))]> data.

(** The inner loop of [balloc]: the first clear bit among [bi .. bi + n - 1]. *)
Fixpoint first_clear (data : list Z) (bi n : nat) : option nat :=
  match n with
  | O => None
  | S n => if bit_clear data bi then Some bi else first_clear data (S bi) n
  end.

(** ** Path elements *)

Definition SLASH : Z := chr "/".

Fixpoint skip_slashes (path : list Z) : list Z :=
  match path with
  | c :: rest => if c =? SLASH then skip_slashes rest else path
  | [] => []
  end.

(** The bytes up to the next '/' or NUL, and what follows them. *)
Fixpoint take_elem (path : list Z) : list Z * list Z :=
  match path with
  | c :: rest =>
      if (c =? SLASH) || (c =? 0) then ([], path)
      else let '(e, r) := take_elem rest in (c :: e, r)
  | [] => ([], [])
  end.

(** [skipelem]: the rest of the path and the element, as left in [name]. *)
Definition skipelem (path : list Z) : option (list Z * list Z) :=
  let path := skip_slashes path in
  if deref path =? 0 then None
  else
    let '(s, path) := take_elem path in
    let len := length s in
    let name := if (DIRSIZ <=? len)%nat then take DIRSIZ s else s in
    Some (skip_slashes path, name).

Definition namecmp (s t : list Z) : Z := strncmp s t DIRSIZ.

Section fs.
Context {L : Layout} {E : Env}.

(** ** Super block and block allocator *)

Definition readsb (dev : Z) : K unit :=
  bp ← bread dev 1;
  x ← get_buf bp;
  modify (fun s => s <| k_sb := decode_superblock (b_data x) |>);;
  brelse bp.

Definition bzero (dev bno : Z) : K unit :=
  bp ← bread dev (u32 bno);
  upd_buf bp (fun x => x <| b_data := zero_block |>);;
  log_write bp;;
  brelse bp.

Definition balloc (dev : Z) : K Z :=
  sb ← gets k_sb;
  r ← loop (Z.to_nat (sb_size sb / BPB + 2)) (fun b =>
    if b <? sb_size sb then
      bp ← bread dev (BBLOCK b sb);
      x ← get_buf bp;
      match first_clear (b_data x) 0 (Z.to_nat (Z.min BPB (sb_size sb - b))) with
      | Some bi =>
          upd_buf bp (fun x => x <| b_data ::= fun d => set_bit d bi |>);;
          log_write bp;;
          brelse bp;;
          bzero dev (b + Z.of_nat bi);;
          ret (inr (Some (b + Z.of_nat bi)))
      | None =>
          brelse bp;;
          ret (inl (b + BPB))
      end
    else ret (inr None)) 0;
  match r with
  | Some b => ret b
  | None => printf "balloc: out of blocks
" [];; ret 0
  end.

Definition bfree (dev b : Z) : K unit :=
  sb ← gets k_sb;
  bp ← bread dev (BBLOCK b sb);
  let bi := Z.to_nat (b mod BPB) in
  x ← get_buf bp;
  if bit_clear (b_data x) bi then kpanic "freeing free block"
  else
    upd_buf bp (fun x => x <| b_data ::= fun d => clear_bit d bi |>);;
    log_write bp;;
    brelse bp.

(** ** Inodes *)

Definition iinit : K unit :=
  for_each (seq 0 NINODE) (fun i => upd_inode i (fun x => x <| i_lock := mkSleeplock 0 0 |>)).

(** The scan of [iget]: the entry that holds the inode, or the first free one. *)
Definition iget_scan (dev inum : Z) : K (option nat + option nat) :=
  loop (S NINODE) (fun '(i, empty) =>
    if (i <? NINODE)%nat then
      x ← get_inode i;
      if (0 <? i_ref x) && (i_dev x =? dev) && (i_inum x =? inum) then ret (inr (inl (Some i)))
      else if bool_decide (empty = None) && (i_ref x =? 0) then ret (inl (S i, Some i))
      else ret (inl (S i, empty))
    else ret (inr (inr empty))) (O, None).

Definition iget (dev inum : Z) : K nat :=
  acquire LkItable;;
  r ← iget_scan dev inum;
  match r with
  | inl ip =>
      ip ← nonnull ip;
      upd_inode ip (fun x => x <| i_ref := i_ref x + 1 |>);;
      release LkItable;;
      ret ip
  | inr None => kpanic "iget: no inodes"
  | inr (Some ip) =>
      upd_inode ip (fun x => x <| i_dev := dev |> <| i_inum := inum |>
                               <| i_ref := 1 |> <| i_valid := 0 |>);;
      release LkItable;;
      ret ip
  end.

Definition ialloc (dev type : Z) : K (option nat) :=
  sb ← gets k_sb;
  r ← for_until (seq 1 (Z.to_nat (sb_ninodes sb) - 1)) (fun inum =>
    let inum := Z.of_nat inum in
    bp ← bread dev (IBLOCK inum sb);
    x ← get_buf bp;
    let dip := decode_dinode (slice (b_data x) (dinode_off inum) (Z.to_nat DINODE_SIZE)) in
    if d_type dip =? 0 then
      upd_buf bp (fun x => x <| b_data ::= fun d =>
        splice d (dinode_off inum)
          (encode_dinode (mkDinode type 0 0 0 0 (replicate (S NDIRECT) 0))) |>);;
      log_write bp;;
      brelse bp;;
      ip ← iget dev inum;
      ret (Some ip)
    else
      brelse bp;;
      ret None);
  match r with
  | Some ip => ret (Some ip)
  | None => printf "ialloc: no inodes
" [];; ret None
  end.

Definition iupdate (ip : nat) : K unit :=
  sb ← gets k_sb;
  x ← get_inode ip;
  bp ← bread (i_dev x) (IBLOCK (i_inum x) sb);
  x ← get_inode ip;
  upd_buf bp (fun y => y <| b_data ::= fun d =>
    splice d (dinode_off (i_inum x))
      (encode_dinode (mkDinode (i_type x) (i_major x) (i_minor x) (i_nlink x)
                        (i_size x) (i_addrs x))) |>);;
  log_write bp;;
  brelse bp.

Definition idup (ip : nat) : K nat :=
  acquire LkItable;;
  upd_inode ip (fun x => x <| i_ref := i_ref x + 1 |>);;
  release LkItable;;
  ret ip.

Definition ilock (ip : option nat) : K unit :=
  match ip with
  | None => kpanic "ilock"
  | Some ip =>
      x ← get_inode ip;
      if i_ref x <? 1 then kpanic "ilock"
      else
        acquiresleep (SlInode ip);;
        x ← get_inode ip;
        if i_valid x =? 0 then
          sb ← gets k_sb;
          bp ← bread (i_dev x) (IBLOCK (i_inum x) sb);
          y ← get_buf bp;
          let dip := decode_dinode
            (slice (b_data y) (dinode_off (i_inum x)) (Z.to_nat DINODE_SIZE)) in
          upd_inode ip (fun x => x <| i_type := d_type dip |> <| i_major := d_major dip |>
            <| i_minor := d_minor dip |> <| i_nlink := d_nlink dip |>
            <| i_size := d_size dip |> <| i_addrs := d_addrs dip |>);;
          brelse bp;;
          upd_inode ip (fun x => x <| i_valid := 1 |>);;
          x ← get_inode ip;
          if i_type x =? 0 then kpanic "ilock: no type" else ret tt
        else ret tt
  end.

Definition iunlock (ip : option nat) : K unit :=
  match ip with
  | None => kpanic "iunlock"
  | Some ip =>
      h ← holdingsleep (SlInode ip);
      x ← get_inode ip;
      if negb h || (i_ref x <? 1) then kpanic "iunlock" else releasesleep (SlInode ip)
  end.

(** ** Inode contents *)

Definition get_addr (ip n : nat) : K Z :=
  x ← get_inode ip; must (i_addrs x !! n) "ip->addrs index".
Definition set_addr (ip n : nat) (v : Z) : K unit :=
  upd_inode ip (fun x => x <| i_addrs ::= <[n := v]> |>).

(** The [n]th word of an indirect block. *)
Definition ind_word (data : list Z) (n : nat) : Z := le_val (slice data (4 * n) 4).
Definition set_ind_word (data : list Z) (n : nat) (v : Z) : list Z :=
  splice data (4 * n) (le_bytes 4 (u32 v)).

Definition bmap (ip : nat) (bn : Z) : K Z :=
  x ← get_inode ip;
  if bn <? Z.of_nat NDIRECT then
    addr ← get_addr ip (Z.to_nat bn);
    if addr =? 0 then
      addr ← balloc (i_dev x);
      if addr =? 0 then ret 0
      else set_addr ip (Z.to_nat bn) addr;; ret addr
    else ret addr
  else
    let bn := bn - Z.of_nat NDIRECT in
    if bn <? Z.of_nat NINDIRECT then
      addr ← get_addr ip NDIRECT;
      addr ← (if addr =? 0 then
                addr ← balloc (i_dev x);
                (if addr =? 0 then ret tt else set_addr ip NDIRECT addr);;
                ret addr
              else ret addr);
      if addr =? 0 then ret 0
      else
        bp ← bread (i_dev x) addr;
        y ← get_buf bp;
        let addr := ind_word (b_data y) (Z.to_nat bn) in
        addr ← (if addr =? 0 then
                  addr ← balloc (i_dev x);
                  (if negb (addr =? 0) then
                     upd_buf bp (fun y => y <| b_data ::= fun d => set_ind_word d (Z.to_nat bn) addr |>);;
                     log_write bp
                   else ret tt);;
                  ret addr
                else ret addr);
        brelse bp;;
        ret addr
    else kpanic "bmap: out of range".

Definition itrunc (ip : nat) : K unit :=
  for_each (seq 0 NDIRECT) (fun i =>
    x ← get_inode ip;
    addr ← get_addr ip i;
    if negb (addr =? 0) then bfree (i_dev x) addr;; set_addr ip i 0 else ret tt);;
  x ← get_inode ip;
  addr ← get_addr ip NDIRECT;
  (if negb (addr =? 0) then
     bp ← bread (i_dev x) addr;
     y ← get_buf bp;
     for_each (seq 0 NINDIRECT) (fun j =>
       let a := ind_word (b_data y) j in
       if negb (a =? 0) then bfree (i_dev x) a else ret tt);;
     brelse bp;;
     bfree (i_dev x) addr;;
     set_addr ip NDIRECT 0
   else ret tt);;
  upd_inode ip (fun x => x <| i_size := 0 |>);;
  iupdate ip.

Definition iput (ip : nat) : K unit :=
  acquire LkItable;;
  x ← get_inode ip;
  (if (i_ref x =? 1) && negb (i_valid x =? 0) && (i_nlink x =? 0) then
     acquiresleep (SlInode ip);;
     release LkItable;;
     itrunc ip;;
     upd_inode ip (fun x => x <| i_type := 0 |>);;
     iupdate ip;;
     upd_inode ip (fun x => x <| i_valid := 0 |>);;
     releasesleep (SlInode ip);;
     acquire LkItable
   else ret tt);;
  upd_inode ip (fun x => x <| i_ref := i_ref x - 1 |>);;
  release LkItable.

Definition iunlockput (ip : nat) : K unit :=
  iunlock (Some ip);;
  iput ip.

Definition ireclaim (dev : Z) : K unit :=
  sb ← gets k_sb;
  for_each (seq 1 (Z.to_nat (sb_ninodes sb) - 1)) (fun inum =>
    let inum := Z.of_nat inum in
    bp ← bread dev (IBLOCK inum sb);
    x ← get_buf bp;
    let dip := decode_dinode (slice (b_data x) (dinode_off inum) (Z.to_nat DINODE_SIZE)) in
    ip ← (if negb (d_type dip =? 0) && (d_nlink dip =? 0) then
            printf "ireclaim: orphaned inode %d
" [VZ inum];;
            ip ← iget dev inum;
            ret (Some ip)
          else ret None);
    brelse bp;;
    match ip with
    | Some ip =>
        begin_op;;
        ilock (Some ip);;
        iunlock (Some ip);;
        iput ip;;
        end_op
    | None => ret tt
    end).

Definition fsinit (dev : Z) : K unit :=
  readsb dev;;
  sb ← gets k_sb;
  if negb (sb_magic sb =? FSMAGIC) then kpanic "invalid file system"
  else
    initlog dev sb;;
    ireclaim dev.

(** [struct stat]: dev, ino, type, nlink, padding, size. *)
Definition stati (ip : nat) : K (list Z) :=
  x ← get_inode ip;
  ret (le_bytes 4 (i_dev x) ++ le_bytes 4 (i_inum x) ++ le_bytes 2 (u16 (i_type x)) ++
       le_bytes 2 (u16 (i_nlink x)) ++ le_bytes 4 0 ++ le_bytes 8 (i_size x)).

(** Advance a destination or a source by [m] bytes. *)
Definition dest_add (d : mdest) (m : Z) : mdest :=
  match d with DUser va => DUser (u64 (va + m)) | DKernel pa => DKernel (u64 (pa + m)) | DLocal => DLocal end.
Definition src_add (d : msrc) (m : Z) : msrc :=
  match d with SUser va => SUser (u64 (va + m)) | SLocal bs => SLocal (drop (Z.to_nat m) bs) end.

(** The return value, and the bytes handed to the destination. *)
Definition readi (ip : nat) (dst : mdest) (off n : Z) : K (Z * list Z) :=
  x ← get_inode ip;
  if (i_size x <? off) || (u32 (off + n) <? off) then ret (0, [])
  else
    let n := if i_size x <? u32 (off + n) then i_size x - off else n in
    loop (Z.to_nat (n / BSIZE + 3)) (fun '(tot, off, dst, acc) =>
      if tot <? n then
        addr ← bmap ip (off / BSIZE);
        if addr =? 0 then ret (inr (i32 tot, acc))
        else
          bp ← bread (i_dev x) addr;
          let m := Z.min (n - tot) (BSIZE - off mod BSIZE) in
          y ← get_buf bp;
          let bs := slice (b_data y) (Z.to_nat (off mod BSIZE)) (Z.to_nat m) in
          r ← either_copyout dst bs;
          if r =? -1 then
            brelse bp;;
            ret (inr (-1, acc))
          else
            brelse bp;;
            ret (inl (tot + m, u32 (off + m), dest_add dst m, acc ++ bs))
      else ret (inr (i32 tot, acc))) (0, off, dst, []).

Definition writei (ip : nat) (src : msrc) (off n : Z) : K Z :=
  x ← get_inode ip;
  if (i_size x <? off) || (u32 (off + n) <? off) then ret (-1)
  else if Z.of_nat MAXFILE * BSIZE <? u32 (off + n) then ret (-1)
  else
    '(tot, off) ← loop (Z.to_nat (n / BSIZE + 3)) (fun '(tot, off, src) =>
      if tot <? n then
        addr ← bmap ip (off / BSIZE);
        if addr =? 0 then ret (inr (tot, off))
        else
          bp ← bread (i_dev x) addr;
          let m := Z.min (n - tot) (BSIZE - off mod BSIZE) in
          '(bs, r) ← either_copyin src m;
          upd_buf bp (fun y => y <| b_data ::= fun d => splice d (Z.to_nat (off mod BSIZE)) bs |>);;
          if r =? -1 then
            brelse bp;;
            ret (inr (tot, off))
          else
            log_write bp;;
            brelse bp;;
            ret (inl (tot + m, u32 (off + m), src_add src m))
      else ret (inr (tot, off))) (0, off, src);
    x ← get_inode ip;
    (if i_size x <? off then upd_inode ip (fun x => x <| i_size := off |>) else ret tt);;
    iupdate ip;;
    ret (i32 tot).

(** ** Directories *)

(** The entry's inode and its byte offset. *)
Definition dirlookup (dp : nat) (name : list Z) : K (option (nat * Z)) :=
  x ← get_inode dp;
  if negb (i_type x =? T_DIR) then kpanic "dirlookup not DIR"
  else
    loop (Z.to_nat (i_size x / DIRENT_SIZE + 2)) (fun off =>
      x ← get_inode dp;
      if off <? i_size x then
        '(r, bs) ← readi dp DLocal off DIRENT_SIZE;
        if negb (r =? DIRENT_SIZE) then kpanic "dirlookup read"
        else
          let de := decode_dirent bs in
          if de_inum de =? 0 then ret (inl (u32 (off + DIRENT_SIZE)))
          else if namecmp name (de_name de) =? 0 then
            ip ← iget (i_dev x) (de_inum de);
            ret (inr (Some (ip, off)))
          else ret (inl (u32 (off + DIRENT_SIZE)))
      else ret (inr None)) 0.

(** The offset of the first free entry, or the size of the directory. *)
Definition dirlink_slot (dp : nat) : K Z :=
  x ← get_inode dp;
  loop (Z.to_nat (i_size x / DIRENT_SIZE + 2)) (fun off =>
    x ← get_inode dp;
    if off <? i_size x then
      '(r, bs) ← readi dp DLocal off DIRENT_SIZE;
      if negb (r =? DIRENT_SIZE) then kpanic "dirlink read"
      else if de_inum (decode_dirent bs) =? 0 then ret (inr off)
      else ret (inl (off + DIRENT_SIZE))
    else ret (inr off)) 0.

Definition dirlink (dp : nat) (name : list Z) (inum : Z) : K Z :=
  r ← dirlookup dp name;
  match r with
  | Some (ip, _) =>
      iput ip;;
      ret (-1)
  | None =>
      off ← dirlink_slot dp;
      let de := mkDirent (u16 inum) (strncpy name DIRSIZ) in
      r ← writei dp (SLocal (encode_dirent de)) off DIRENT_SIZE;
      if negb (r =? DIRENT_SIZE) then ret (-1) else ret 0
  end.

(** ** Path names *)

(** The inode, and the last path element when [nameiparent] is set. *)
Definition namex (path : list Z) (nameiparent : bool) : K (option (nat * list Z)) :=
  ip ← (if deref path =? SLASH then iget ROOTDEV ROOTINO
        else p ← curproc; pr ← get_proc p; cwd ← nonnull (p_cwd pr); idup cwd);
  loop (S (length path)) (fun '(ip, path, name) =>
    match skipelem path with
    | None =>
        if (nameiparent : bool) then iput ip;; ret (inr None)
        else ret (inr (Some (ip, name)))
    | Some (path, name) =>
        ilock (Some ip);;
        x ← get_inode ip;
        if negb (i_type x =? T_DIR) then
          iunlockput ip;;
          ret (inr None)
        else if nameiparent && (deref path =? 0) then
          iunlock (Some ip);;
          ret (inr (Some (ip, name)))
        else
          next ← dirlookup ip name;
          match next with
          | None =>
              iunlockput ip;;
              ret (inr None)
          | Some (next, _) =>
              iunlockput ip;;
              ret (inl (next, path, name))
          end
    end) (ip, path, []).

Definition namei (path : list Z) : K (option nat) :=
  r ← namex path false;
  ret (fst <$> r).

Definition nameiparent (path : list Z) : K (option (nat * list Z)) := namex path true.

End fs.
