(* ===== verification/FsData.v ===== *)
(** * On-disk data and path names of kernel/fs.c

    Pure facts about the structures of kernel/fs.h (inodes and directory entries
    as bytes), the block bitmap and the splitting of path names. *)

From S2P Require Import Prelude Machine Kstate Strings Sched Kalloc Vm Printf Bio Log Fs.

(** ** Encoding and decoding *)

Lemma slice_here a b n : length a = n → slice (a ++ b) 0 n = a.
Proof. intros <-. unfold slice. by rewrite drop_0, take_app_length. Qed.

Lemma slice_there a b off n :
  (length a ≤ off)%nat → slice (a ++ b) off n = slice b (off - length a) n.
Proof. intros H. unfold slice. by rewrite drop_app_ge. Qed.

Lemma drop_there (a b : list Z) off :
  (length a ≤ off)%nat → drop off (a ++ b) = drop (off - length a) b.
Proof. apply drop_app_ge. Qed.

Lemma i16_u16 z : - 2 ^ 15 ≤ z < 2 ^ 15 → i16 (u16 z) = z.
Proof.
  intros Hz. unfold i16, u16. rewrite Zplus_mod_idemp_l, Z.mod_small by lia. lia.
Qed.

Lemma le_val_le_bytes n z : 0 ≤ z < 256 ^ Z.of_nat n → le_val (le_bytes n z) = z.
Proof. intros H. rewrite le_val_bytes. by apply Z.mod_small. Qed.

Lemma le_val_u16 z : le_val (le_bytes 2 (u16 z)) = u16 z.
Proof. apply le_val_le_bytes. apply Z.mod_pos_bound. done. Qed.

Definition is_u32 (w : Z) : Prop := 0 ≤ w < 2 ^ 32.

Lemma length_bytes_of_words ws : length (bytes_of_words ws) = (4 * length ws)%nat.
Proof.
  unfold bytes_of_words. induction ws as [|w ws IH]; [done |]. cbn [fmap list_fmap concat length].
  rewrite length_app, length_le_bytes, IH. lia.
Qed.

Lemma words_of_bytes_of_words ws :
  Forall is_u32 ws → words_of_bytes (length ws) (bytes_of_words ws) = ws.
Proof.
  unfold bytes_of_words. induction 1 as [|w ws Hw _ IH]; [done |].
  cbn [fmap list_fmap concat length words_of_bytes].
  rewrite take_app_length', drop_app_length' by (by rewrite length_le_bytes).
  rewrite le_val_le_bytes by apply Hw. by rewrite IH.
Qed.

Lemma length_words_of_bytes n bs : length (words_of_bytes n bs) = n.
Proof. revert bs. induction n as [|n IH]; intros bs; simpl; [done | by rewrite IH]. Qed.

Lemma bytes_of_words_of_bytes n bs :
  Forall is_byte bs → length bs = (4 * n)%nat → bytes_of_words (words_of_bytes n bs) = bs.
Proof.
  unfold bytes_of_words. revert bs. induction n as [|n IH]; intros bs Hb Hl.
  { by apply length_zero_iff_nil in Hl as ->. }
  cbn [words_of_bytes fmap list_fmap concat]. rewrite IH.
  - rewrite <-(take_drop 4 bs) at 3. f_equal.
    replace 4%nat with (length (take 4 bs)) at 1 by (rewrite length_take; lia).
    by apply le_bytes_val, Forall_take.
  - by apply Forall_drop.
  - rewrite length_drop. lia.
Qed.

(** An inode whose fields have the ranges of their C types. *)
Record dinode_ok (d : dinode) : Prop := {
  dok_type : - 2 ^ 15 ≤ d_type d < 2 ^ 15;
  dok_major : - 2 ^ 15 ≤ d_major d < 2 ^ 15;
  dok_minor : - 2 ^ 15 ≤ d_minor d < 2 ^ 15;
  dok_nlink : - 2 ^ 15 ≤ d_nlink d < 2 ^ 15;
  dok_size : is_u32 (d_size d);
  dok_addrs : length (d_addrs d) = S NDIRECT ∧ Forall is_u32 (d_addrs d);
}.

Ltac solve_slice :=
  repeat (rewrite slice_there by (rewrite ?length_le_bytes; lia); rewrite length_le_bytes; cbn [Nat.sub]);
  rewrite slice_here by (apply length_le_bytes).

Lemma decode_encode_dinode d : dinode_ok d → decode_dinode (encode_dinode d) = d.
Proof.
  intros [H1 H2 H3 H4 H5 [H6 H7]]. destruct d as [ty ma mi nl sz ad]; simpl in *.
  unfold decode_dinode, encode_dinode. cbn [d_type d_major d_minor d_nlink d_size d_addrs].
  f_equal.
  - solve_slice. rewrite le_val_u16. by apply i16_u16.
  - solve_slice. rewrite le_val_u16. by apply i16_u16.
  - solve_slice. rewrite le_val_u16. by apply i16_u16.
  - solve_slice. rewrite le_val_u16. by apply i16_u16.
  - solve_slice. by apply le_val_le_bytes.
  - do 5 (rewrite drop_there by (rewrite length_le_bytes; lia); rewrite length_le_bytes; cbn [Nat.sub]).
    rewrite drop_0, <-H6. by apply words_of_bytes_of_words.
Qed.

Lemma u16_i16 z : 0 ≤ z < 2 ^ 16 → u16 (i16 z) = z.
Proof.
  intros Hz. unfold i16, u16. destruct (decide (z < 2 ^ 15)).
  - rewrite (Z.mod_small (z + _)) by lia. rewrite Z.mod_small; lia.
  - replace ((z + 2 ^ 15) mod 2 ^ 16) with (z - 2 ^ 15) by (apply Z.mod_unique with 1; lia).
    rewrite <-(Z.mod_add _ 1), Z.mod_small; lia.
Qed.

Lemma le_bytes_slice bs off n :
  Forall is_byte bs → (off + n ≤ length bs)%nat → le_bytes n (le_val (slice bs off n)) = slice bs off n.
Proof.
  intros Hb Hl. assert (Hlen : length (slice bs off n) = n)
    by (unfold slice; rewrite length_take, length_drop; lia).
  rewrite <-Hlen at 1. apply le_bytes_val. by apply Forall_take, Forall_drop.
Qed.

Lemma slice_range bs off n :
  Forall is_byte bs → (off + n ≤ length bs)%nat → 0 ≤ le_val (slice bs off n) < 256 ^ Z.of_nat n.
Proof.
  intros Hb Hl. assert (Hlen : length (slice bs off n) = n)
    by (unfold slice; rewrite length_take, length_drop; lia).
  rewrite <-Hlen at 3. apply le_val_range. by apply Forall_take, Forall_drop.
Qed.

Lemma le_bytes_u16_slice bs off :
  Forall is_byte bs → (off + 2 ≤ length bs)%nat →
  le_bytes 2 (u16 (i16 (le_val (slice bs off 2)))) = slice bs off 2.
Proof.
  intros Hb Hl. rewrite u16_i16 by (by apply (slice_range bs off 2)). by apply le_bytes_slice.
Qed.

Lemma slice_app_split bs off n m :
  slice bs off (n + m) = slice bs off n ++ slice bs (off + n) m.
Proof. unfold slice. rewrite <-drop_drop. symmetry. apply take_take_drop. Qed.

Lemma encode_decode_dinode bs :
  Forall is_byte bs → length bs = Z.to_nat DINODE_SIZE → encode_dinode (decode_dinode bs) = bs.
Proof.
  intros Hb Hl. unfold DINODE_SIZE in Hl. unfold encode_dinode, decode_dinode.
  cbn [d_type d_major d_minor d_nlink d_size d_addrs].
  rewrite !le_bytes_u16_slice, le_bytes_slice by (done || lia).
  rewrite bytes_of_words_of_bytes;
    [| by apply Forall_drop | rewrite length_drop, Hl; done].
  rewrite <-(take_drop 12 bs) at 7. change (take 12 bs) with (slice bs 0 12).
  change 12%nat with (2 + (2 + (2 + (2 + 4))))%nat at 2. rewrite !slice_app_split, <-!app_assoc. done.
Qed.

Lemma decode_encode_dirent d :
  0 ≤ de_inum d < 2 ^ 16 → length (de_name d) = DIRSIZ → decode_dirent (encode_dirent d) = d.
Proof.
  intros Hi Hn. destruct d as [inum name]; simpl in *. unfold decode_dirent, encode_dirent.
  cbn [de_inum de_name]. f_equal.
  - solve_slice. rewrite le_val_u16. by apply Z.mod_small.
  - rewrite slice_there by (rewrite length_le_bytes; lia). rewrite length_le_bytes. cbn [Nat.sub].
    unfold slice. rewrite drop_0. apply take_ge. lia.
Qed.

Lemma encode_decode_dirent bs :
  Forall is_byte bs → length bs = Z.to_nat DIRENT_SIZE → encode_dirent (decode_dirent bs) = bs.
Proof.
  intros Hb Hl. unfold DIRENT_SIZE in Hl. unfold encode_dirent, decode_dirent. cbn [de_inum de_name].
  assert (Hr : 0 ≤ le_val (slice bs 0 2) < 2 ^ 16) by (apply (slice_range bs 0 2); [done | lia]).
  unfold u16. rewrite Z.mod_small, le_bytes_slice by (done || lia).
  transitivity (slice bs 0 (2 + DIRSIZ)); [symmetry; apply slice_app_split |].
  unfold slice, DIRSIZ. rewrite drop_0. apply take_ge. lia.
Qed.

(** ** Sizes *)

(** The blocks that [size] bytes take. *)
Definition nblk (size : nat) : nat := (size + (Z.to_nat BSIZE - 1)) / Z.to_nat BSIZE.

Lemma nblk_spec m : let B := Z.to_nat BSIZE in (m ≤ nblk m * B ∧ nblk m * B < m + B ∧ m / B ≤ nblk m ≤ S (m / B))%nat.
Proof.
  intros B. assert (B = 1024%nat) as E by done. unfold nblk. fold B. rewrite E. clear B E.
  pose proof (Nat.div_mod_eq (m + (1024 - 1)) 1024). pose proof (Nat.mod_upper_bound (m + (1024 - 1)) 1024 ltac:(lia)).
  pose proof (Nat.div_mod_eq m 1024). pose proof (Nat.mod_upper_bound m 1024 ltac:(lia)). lia.
Qed.

Lemma maxfile_bytes : Z.of_nat (MAXFILE * Z.to_nat BSIZE) = 274432.
Proof. by rewrite Nat2Z.inj_mul. Qed.

(** ** The bitmap *)

Lemma testbit_byte_update (f : Z → Z) data bi bj :
  (bi / 8 < length data)%nat →
  bit_clear (<[(bi / 8)%nat := f (nth (bi / 8) data 0)]> data) bj =
    if decide (bj / 8 = bi / 8)%nat
    then Z.land (f (nth (bi / 8) data 0)) (Z.shiftl 1 (Z.of_nat (bj mod 8))) =? 0
    else bit_clear data bj.
Proof.
  intros Hl. unfold bit_clear. rewrite !nth_lookup. case_decide as Hd.
  - rewrite Hd, list_lookup_insert_eq by done. done.
  - rewrite list_lookup_insert_ne by done. done.
Qed.

Lemma land_bit_zero (x : Z) (k : nat) : (Z.land x (Z.shiftl 1 (Z.of_nat k)) =? 0) = negb (Z.testbit x (Z.of_nat k)).
Proof.
  pose proof (land_bit_testbit x (Z.of_nat k) ltac:(lia)) as [H1 H2].
  destruct (Z.eqb_spec (Z.land x (Z.shiftl 1 (Z.of_nat k))) 0) as [He|He],
    (Z.testbit x (Z.of_nat k)); cbn [negb]; try done.
  - by apply H2 in He.
  - by apply H1 in He.
Qed.

(** Setting a bit changes that bit and no other. *)
Lemma bit_clear_set_bit data bi bj :
  (bi / 8 < length data)%nat →
  bit_clear (set_bit data bi) bj = if decide (bj = bi) then false else bit_clear data bj.
Proof.
  intros Hl. unfold set_bit.
  rewrite (testbit_byte_update (λ b, Z.lor b (Z.shiftl 1 (Z.of_nat (bi mod 8))))) by done.
  pose proof (Nat.div_mod_eq bi 8). pose proof (Nat.div_mod_eq bj 8).
  case_decide as Hd; [| rewrite decide_False by congruence; done].
  rewrite land_bit_zero, Z.lor_spec, Z.shiftl_1_l, Z.pow2_bits_eqb by lia.
  unfold bit_clear. rewrite land_bit_zero, Hd.
  destruct (Z.eqb_spec (Z.of_nat (bi mod 8)) (Z.of_nat (bj mod 8))).
  - rewrite orb_true_r, decide_True by lia. done.
  - rewrite orb_false_r, decide_False by (intros ->; lia). done.
Qed.

Lemma bit_clear_clear_bit data bi bj :
  (bi / 8 < length data)%nat →
  bit_clear (clear_bit data bi) bj = if decide (bj = bi) then true else bit_clear data bj.
Proof.
  intros Hl. unfold clear_bit.
  rewrite (testbit_byte_update (λ b, Z.land b (u8 (Z.lnot (Z.shiftl 1 (Z.of_nat (bi mod 8))))))) by done.
  pose proof (Nat.div_mod_eq bi 8). pose proof (Nat.div_mod_eq bj 8).
  pose proof (Nat.mod_upper_bound bj 8 ltac:(done)).
  case_decide as Hd; [| rewrite decide_False by congruence; done].
  rewrite land_bit_zero, Z.land_spec. unfold u8.
  rewrite Z.mod_pow2_bits_low, Z.lnot_spec, Z.shiftl_1_l, Z.pow2_bits_eqb by lia.
  unfold bit_clear. rewrite land_bit_zero, Hd.
  destruct (Z.eqb_spec (Z.of_nat (bi mod 8)) (Z.of_nat (bj mod 8))).
  - rewrite andb_false_r, decide_True by lia. done.
  - rewrite andb_true_r, decide_False by (intros ->; lia). done.
Qed.

Lemma first_clear_spec data bi n :
  match first_clear data bi n with
  | Some b => (bi ≤ b < bi + n)%nat ∧ bit_clear data b = true ∧
      ∀ b', (bi ≤ b' < b)%nat → bit_clear data b' = false
  | None => ∀ b', (bi ≤ b' < bi + n)%nat → bit_clear data b' = false
  end.
Proof.
  revert bi. induction n as [|n IH]; intros bi; cbn [first_clear]; [lia |].
  destruct (bit_clear data bi) eqn:Hb; [split; [lia |]; split; [done | lia] |].
  specialize (IH (S bi)). destruct (first_clear data (S bi) n) as [b|].
  - destruct IH as (? & ? & Hlt). split; [lia |]. split; [done |]. intros b' Hb'.
    destruct (decide (b' = bi)) as [->|]; [done | apply Hlt; lia].
  - intros b' Hb'. destruct (decide (b' = bi)) as [->|]; [done | apply IH; lia].
Qed.

(** ** Path names

    The elements of a path by splitting it at the slashes and dropping empty
    pieces. *)

Fixpoint split_slash (p : list Z) : list (list Z) :=
  match p with
  | [] => [[]]
  | c :: p =>
      if c =? SLASH then [] :: split_slash p
      else match split_slash p with
           | w :: ws => (c :: w) :: ws
           | [] => [[c]]
           end
  end.

Definition path_elems (p : list Z) : list (list Z) := filter (λ w, w ≠ []) (split_slash p).

Lemma split_slash_ne p : split_slash p ≠ [].
Proof. destruct p as [|c p]; simpl; [done |]. destruct (c =? SLASH); [done |]. by destruct (split_slash p). Qed.

Lemma path_elems_skip p : path_elems (skip_slashes p) = path_elems p.
Proof.
  induction p as [|c p IH]; [done |]. cbn [skip_slashes].
  destruct (c =? SLASH) eqn:Hc; [| done]. rewrite IH. unfold path_elems. cbn [split_slash].
  rewrite Hc. by rewrite filter_cons_False by (by intros []).
Qed.

Lemma skip_slashes_head p :
  match skip_slashes p with [] => True | c :: _ => c ≠ SLASH end.
Proof. induction p as [|c p IH]; simpl; [done |]. destruct (Z.eqb_spec c SLASH); done. Qed.

Lemma skip_slashes_nonzero p : Forall (λ c, c ≠ 0) p → Forall (λ c, c ≠ 0) (skip_slashes p).
Proof. induction 1 as [|c p Hc Hp IH]; simpl; [constructor |]. destruct (c =? SLASH); [done | by constructor]. Qed.

Lemma take_elem_spec p :
  Forall (λ c, c ≠ 0) p →
  let '(e, r) := take_elem p in
  p = e ++ r ∧ Forall (λ c, c ≠ SLASH) e ∧ Forall (λ c, c ≠ 0) r ∧
  match r with [] => split_slash p = [e] | c :: r' => c = SLASH ∧ split_slash p = e :: split_slash r' end.
Proof.
  induction 1 as [|c p Hc Hp IH]; [simpl; repeat constructor |]. cbn [take_elem split_slash].
  destruct (Z.eqb_spec c SLASH) as [->|Hs]; cbn [orb].
  { split; [done |]. split; [constructor |]. split; [by constructor | done]. }
  rewrite (proj2 (Z.eqb_neq c 0) Hc). destruct (take_elem p) as [e r].
  destruct IH as (-> & He & Hr & Hsplit). split; [done |]. split; [by constructor |]. split; [done |].
  destruct r as [|c' r'].
  - by rewrite Hsplit.
  - destruct Hsplit as [-> Hsplit]. by rewrite Hsplit.
Qed.

Lemma path_elems_cons p e r :
  Forall (λ c, c ≠ 0) p → take_elem p = (e, r) →
  path_elems p = filter (λ w, w ≠ []) [e] ++ path_elems r.
Proof.
  intros Hp E. pose proof (take_elem_spec p Hp) as H. rewrite E in H.
  destruct H as (_ & _ & _ & H). unfold path_elems. destruct r as [|c r].
  - rewrite H. by destruct e.
  - destruct H as [-> H]. rewrite H. cbn [split_slash]. rewrite Z.eqb_refl.
    rewrite (filter_cons_False _ [] (split_slash r)) by (by intros []).
    rewrite <-filter_app. done.
Qed.

(** ** Theorems *)

(** Inodes and directory entries survive the disk.  Encoding a well-formed
    inode or entry and decoding the bytes gives it back, and decoding any bytes
    of the right length and encoding the result gives the same bytes. *)
Theorem disk_structures_roundtrip :
  (∀ d, dinode_ok d → decode_dinode (encode_dinode d) = d) ∧
  (∀ bs, Forall is_byte bs → length bs = Z.to_nat DINODE_SIZE →
     encode_dinode (decode_dinode bs) = bs) ∧
  (∀ d, 0 ≤ de_inum d < 2 ^ 16 → length (de_name d) = DIRSIZ →
     decode_dirent (encode_dirent d) = d) ∧
  (∀ bs, Forall is_byte bs → length bs = Z.to_nat DIRENT_SIZE →
     encode_dirent (decode_dirent bs) = bs).
Proof.
  split; [apply decode_encode_dinode |]. split; [apply encode_decode_dinode |].
  split; [apply decode_encode_dirent | apply encode_decode_dirent].
Qed.

(** The bitmap operations.  The scan of [balloc] finds the first clear bit of
    its range or none if there is none; setting a bit and clearing a bit change
    that bit and no other. *)
Theorem bitmap_operations data bi n bj :
  (bi / 8 < length data)%nat →
  bit_clear (set_bit data bi) bj = (if decide (bj = bi) then false else bit_clear data bj) ∧
  bit_clear (clear_bit data bi) bj = (if decide (bj = bi) then true else bit_clear data bj) ∧
  match first_clear data 0 n with
  | Some b => (b < n)%nat ∧ bit_clear data b = true ∧ ∀ b', (b' < b)%nat → bit_clear data b' = false
  | None => ∀ b', (b' < n)%nat → bit_clear data b' = false
  end.
Proof.
  intros Hl. split; [by apply bit_clear_set_bit |]. split; [by apply bit_clear_clear_bit |].
  pose proof (first_clear_spec data 0 n) as H. destruct (first_clear data 0 n) as [b|].
  - destruct H as (? & ? & H). split; [lia |]. split; [done |]. intros b' Hb'. apply H. lia.
  - intros b' Hb'. apply H. lia.
Qed.

(** [skipelem] walks a path element by element.  On every path it returns the
    first of the elements obtained by splitting the path at slashes, cut to
    [DIRSIZ] bytes, and a rest that has exactly the remaining elements and no
    leading slash; it fails exactly on paths without elements. *)
Theorem skipelem_walks_path path :
  Forall (λ c, c ≠ 0) path →
  match path_elems path with
  | [] => skipelem path = None
  | e :: es => ∃ rest, skipelem path = Some (rest, take DIRSIZ e) ∧
      path_elems rest = es ∧ Forall (λ c, c ≠ 0) rest ∧
      match rest with [] => es = [] | c :: _ => c ≠ SLASH ∧ es ≠ [] end
  end.
Proof.
  intros Hp. rewrite <-(path_elems_skip path). unfold skipelem.
  pose proof (skip_slashes_head path) as Hhead. apply skip_slashes_nonzero in Hp.
  destruct (skip_slashes path) as [|c q]; [done |]. clear path.
  inversion Hp as [|?? Hc Hq]; subst. cbn [deref]. rewrite (proj2 (Z.eqb_neq c 0) Hc).
  destruct (take_elem (c :: q)) as [e r] eqn:E.
  rewrite (path_elems_cons _ _ _ Hp E). pose proof (take_elem_spec _ Hp) as Hspec. rewrite E in Hspec.
  destruct Hspec as (Happ & _ & Hr & Hsplit).
  assert (He : e ≠ []).
  { intros ->. destruct r as [|c' r']; [done |]. destruct Hsplit as [-> _]. by injection Happ as ->. }
  rewrite filter_cons_True by done. cbn [app filter list_filter].
  exists (skip_slashes r). split; [| split; [apply path_elems_skip | split; [by apply skip_slashes_nonzero |]]].
  - do 2 f_equal. destruct (Nat.leb_spec DIRSIZ (length e)); [done |]. by rewrite take_ge by lia.
  - rewrite <-(path_elems_skip r). pose proof (skip_slashes_head r) as Hh.
    destruct (skip_slashes r) as [|c' r']; [done |]. split; [done |]. unfold path_elems.
    cbn [split_slash]. rewrite (proj2 (Z.eqb_neq c' SLASH) Hh).
    destruct (split_slash r') eqn:Es; [by apply split_slash_ne in Es |]. by rewrite filter_cons_True.
Qed.
