(* ===== verification/FsRead.v ===== *)
(** * Reading files (kernel/fs.c)

    Where the bytes of an inode are in the store of blocks, and what [bmap],
    [readi] and [ilock] do with them.  Reading leaves the store as it is. *)

From S2P Require Import Prelude Machine Kstate Logic Strings Sched Kalloc Vm Printf Bio BioSpec BlockStore Log LogData LogSpec Fs FsData.

#[local] Abbreviation B := (Z.to_nat BSIZE).

(** ** Files in a store of blocks *)

(** Block [f] of the file with the addresses [a]. *)
Definition fblk (V : gmap Z (list Z)) (a : list Z) (f : nat) : Z :=
  if (f <? NDIRECT)%nat then nth f a 0 else ind_word (content V (nth NDIRECT a 0)) (f - NDIRECT).

(** The addresses [a] and the blocks [V] hold the bytes [c]. *)
Record file_in (V : gmap Z (list Z)) (a c : list Z) : Prop := {
  fi_addrs : length a = S NDIRECT;
  fi_max : (length c ≤ MAXFILE * B)%nat;
  fi_ind : (NDIRECT < nblk (length c))%nat → nth NDIRECT a 0 ≠ 0 ∧ is_Some (V !! nth NDIRECT a 0);
  fi_blk : ∀ f, (f < nblk (length c))%nat → fblk V a f ≠ 0 ∧ ∃ d, V !! fblk V a f = Some d ∧ length d = B;
  fi_byte : ∀ i, (i < length c)%nat → nth (i mod B) (content V (fblk V a (i / B))) 0 = nth i c 0;
}.

(** A part of a file that lies in one block. *)
Lemma file_slice V a c off m : file_in V a c → (off + m ≤ length c)%nat → (off mod B + m ≤ B)%nat → (0 < m)%nat →
  slice (content V (fblk V a (off / B))) (off mod B) m = slice c off m.
Proof.
  intros H Hl Hm H0. assert (B = 1024%nat) as EB by done.
  pose proof (Nat.div_mod_eq off B) as Hdm. destruct (nblk_spec (length c)) as (N1 & _ & _).
  assert (off / B < nblk (length c))%nat as Hf by (apply Nat.Div0.div_lt_upper_bound; lia).
  destruct (fi_blk _ _ _ H _ Hf) as (_ & d & Hd & Hld). unfold content. rewrite Hd. simpl default.
  apply list_eq. intros i. unfold slice. destruct (decide (i < m)%nat) as [Hi | Hi].
  2: by rewrite !lookup_take_ge by lia.
  rewrite !lookup_take_lt, !lookup_drop by done.
  pose proof (fi_byte _ _ _ H (off + i) ltac:(lia)) as Hb.
  assert ((off + i) / B = off / B ∧ (off + i) mod B = off mod B + i)%nat as [E1 E2].
  { rewrite EB in *. split; [symmetry; apply (Nat.div_unique _ _ _ (off mod 1024 + i)); lia |].
    symmetry. apply (Nat.mod_unique _ _ (off / 1024)); lia. }
  rewrite E1, E2 in Hb. unfold content in Hb. rewrite Hd in Hb. simpl default in Hb.
  rewrite !nth_lookup in Hb. destruct (lookup_lt_is_Some_2 d (off mod B + i)) as [x Hx]; [lia |].
  destruct (lookup_lt_is_Some_2 c (off + i)) as [y Hy]; [lia |]. rewrite Hx, Hy in Hb. rewrite Hx, Hy. by f_equal.
Qed.

(** ** Reading a block *)

Section read.
Context {L : Layout} {E : Env} (dev pid : Z).

(** A store whose blocks this process does not hold, with a buffer to spare. *)
Record readable (t : store) : Prop := {
  rd_held : st_held t = ∅;
  rd_free : (0 < st_free t)%nat;
  rd_dirty : ∀ b, b ∈ st_dirty t → 0 < st_refs t b;
}.

Lemma lock_unlock t b bi : readable t → without_lock (with_lock t b bi) b = t.
Proof.
  intros [Hh Hf _]. unfold without_lock, with_lock. destruct t as [v d r h f]; simpl in *. subst h.
  rewrite delete_insert_id by apply lookup_empty. f_equal. unfold is_zero. case_decide; lia.
Qed.

Lemma bread_wp t b d s (Q : nat → kstate → Prop) : readable t → stored dev pid t s → st_view t !! b = Some d →
  (∀ bi s', stored dev pid (with_lock t b bi) s' → bio_frame s s' → Q bi s') → wp (bread dev b) Q s.
Proof.
  intros Hr Hs Hd HQ. eapply wp_mono; [apply (bread_store dev pid t b); [done | by rewrite (rd_held _ Hr) | eauto |] |].
  - intros _. apply Hr.
  - intros bi s' [H1 H2]. by apply HQ.
Qed.

Lemma fs_brelse_wp t b bi s (Q : unit → kstate → Prop) : readable t → stored dev pid (with_lock t b bi) s →
  (∀ s', stored dev pid t s' → bio_frame s s' → Q tt s') → wp (brelse bi) Q s.
Proof.
  intros Hr Hs HQ. eapply wp_mono; [eapply (brelse_store dev pid _ b); [done | by apply lookup_insert_eq | apply Hr] |].
  intros [] s' [H1 H2]. rewrite (lock_unlock t b bi Hr) in H1. by apply HQ.
Qed.

Lemma get_data_wp t b bi d s (Q : buf → kstate → Prop) : stored dev pid (with_lock t b bi) s → st_view t !! b = Some d →
  (∀ x, b_data x = d → Q x s) → wp (get_buf bi) Q s.
Proof.
  intros Hs Hd HQ. apply (get_buf_store dev pid (with_lock t b bi) b bi d); [done | by apply lookup_insert_eq | done |].
  intros x Hx _. by apply HQ.
Qed.

Lemma frame_itable s s' ip x : bio_frame s s' → k_itable s !! ip = Some x → k_itable s' !! ip = Some x.
Proof. intros [-> _]. done. Qed.

Lemma get_inode_wp ip x s (Q : inode → kstate → Prop) : k_itable s !! ip = Some x → Q x s → wp (get_inode ip) Q s.
Proof. intros Hx HQ. apply wp_bind, wp_gets. by apply (wp_must _ _ x). Qed.

(** ** bmap *)

Lemma bmap_wp t ip x a c f s (Q : Z → kstate → Prop) : readable t → stored dev pid t s →
  k_itable s !! ip = Some x → i_dev x = dev → i_addrs x = a → file_in (st_view t) a c → (f < nblk (length c))%nat →
  (∀ s', stored dev pid t s' → bio_frame s s' → Q (fblk (st_view t) a f) s') → wp (bmap ip (Z.of_nat f)) Q s.
Proof.
  intros Hr Hs Hx Hdev Ha Hf Hlt HQ. destruct (nblk_spec (length c)) as (_ & N2 & _). pose proof (fi_max _ _ _ Hf) as Hmax.
  assert (B = 1024%nat ∧ MAXFILE = 268%nat ∧ NDIRECT = 12%nat ∧ NINDIRECT = 256%nat) as (EB & EM & ED & EI) by done.
  destruct (fi_blk _ _ _ Hf f Hlt) as [Hne _]. pose proof (fi_addrs _ _ _ Hf) as Hla.
  assert (∀ n s1 (P : Z → kstate → Prop), k_itable s1 !! ip = Some x → (n ≤ NDIRECT)%nat → P (nth n a 0) s1 → wp (get_addr ip n) P s1) as Hget.
  { intros n s1 P Hx1 Hn HP. apply wp_bind. eapply get_inode_wp; [done |]. rewrite Ha. destruct (lookup_lt_is_Some_2 a n) as [v Hv]; [lia |].
    apply (wp_must _ _ v); [done |]. rewrite nth_lookup, Hv in HP. done. }
  unfold bmap. apply wp_bind. eapply get_inode_wp; [done |]. unfold fblk in *. destruct (Nat.ltb_spec f NDIRECT) as [Hd | Hd].
  - rewrite (proj2 (Z.ltb_lt _ _)), Nat2Z.id by lia. apply wp_bind. apply Hget; [done | lia |].
    rewrite (proj2 (Z.eqb_neq _ _)) by done. apply wp_ret. apply HQ; [done | reflexivity].
  - rewrite (proj2 (Z.ltb_ge _ _)) by lia. cbv zeta. rewrite <-Nat2Z.inj_sub by lia.
    rewrite (proj2 (Z.ltb_lt _ _)), Nat2Z.id by nia. destruct (fi_ind _ _ _ Hf ltac:(lia)) as [Hn0 [d Hd']].
    apply wp_bind, Hget; [done | lia |]. rewrite (proj2 (Z.eqb_neq _ _)) by done. apply wp_bind, wp_ret.
    rewrite (proj2 (Z.eqb_neq _ _)) by done. apply wp_bind. rewrite Hdev. eapply (bread_wp t); [done.. |].
    intros bi s1 Hs1 Hf1. apply wp_bind. eapply get_data_wp; [done.. |]. intros y Hy. unfold content in HQ, Hne. rewrite Hd' in HQ, Hne. simpl in HQ, Hne.
    rewrite Hy, (proj2 (Z.eqb_neq _ _)) by done. apply wp_bind, wp_ret, wp_bind. eapply (fs_brelse_wp t); [done.. |].
    intros s2 Hs2 Hf2. apply wp_ret. apply HQ; [done | by etransitivity].
Qed.

(** ** readi *)

(** A place for the bytes [data]: [D k] is the state in which [k] of them have
    been delivered, [F k] the one in which a delivery failed after [k] or more
    of them.  Reading blocks disturbs neither. *)
Record sink (dst : mdest) (data : list Z) (D F : nat → kstate → Prop) : Prop := {
  sk_dst : dest_add dst 0 = dst;
  sk_frame : ∀ k s s', D k s → bio_frame s s' → D k s';
  sk_fail : ∀ k s s', F k s → bio_frame s s' → F k s';
  sk_put : ∀ k m s, (0 < m)%nat → (k + m ≤ length data)%nat → D k s →
    wp (either_copyout (dest_add dst (Z.of_nat k)) (slice data k m)) (λ r s', only_pages s s' ∧
      (r = 0 ∧ D (k + m)%nat s' ∨ r = -1 ∧ F k s')) s;
}.

Lemma stored_pages t s s' : stored dev pid t s → only_pages s s' → stored dev pid t s'.
Proof.
  intros [[H1 H2 H3] H4 H5 H6] Ho. unfold only_pages in Ho. rewrite Ho. split; [split |..]; done.
Qed.

Lemma dest_add_add d k m : dest_add (dest_add d k) m = dest_add d (k + m).
Proof.
  destruct d; simpl; [.. | done]; unfold u64; rewrite Zplus_mod_idemp_l; do 2 f_equal; lia.
Qed.

(** One block of the file. *)
Lemma readi_block t b d bi s dst data D F k m o (Q : Z * Z * mdest * list Z + Z * list Z → kstate → Prop)
    (next : Z * Z * mdest * list Z) (acc : list Z) :
  readable t → stored dev pid (with_lock t b bi) s → st_view t !! b = Some d → sink dst data D F → D k s →
  (0 < m)%nat → (k + m ≤ length data)%nat → slice d o m = slice data k m →
  (∀ s', stored dev pid t s' → k_itable s' = k_itable s → D (k + m)%nat s' → Q (inl next) s') →
  (∀ s', stored dev pid t s' → k_itable s' = k_itable s → F k s' → Q (inr (-1, acc)) s') →
  wp (r ← either_copyout (dest_add dst (Z.of_nat k)) (slice d o m);
      if r =? -1 then brelse bi;; ret (inr (-1, acc)) else brelse bi;; ret (inl next)) Q s.
Proof.
  intros Hr Hs Hd Hsk HD Hm Hk Esl Hok Hbad. rewrite Esl. apply wp_bind. eapply wp_mono; [by eapply (sk_put _ _ _ _ Hsk) |].
  intros r s1 [Ho Hc]. pose proof (stored_pages _ _ _ Hs Ho) as Hs1.
  assert (k_itable s1 = k_itable s) as Hi1 by (unfold only_pages in Ho; by rewrite Ho).
  destruct Hc as [[-> HD1] | [-> HF]]; simpl; apply wp_bind; (eapply (fs_brelse_wp t); [done.. |]); intros s2 Hs2 Hf2; apply wp_ret;
    (assert (k_itable s2 = k_itable s) as Hi2 by (rewrite <-Hi1; by destruct Hf2 as [-> _])).
  - apply Hok; [done.. |]. by eapply sk_frame.
  - apply Hbad; [done.. |]. by eapply sk_fail.
Qed.

(** The bytes that a read of [n] bytes at [off] returns. *)
Definition read_data (c : list Z) (off n : Z) : list Z :=
  if (Z.of_nat (length c) <? off) || (2 ^ 32 <=? off + n) then [] else slice c (Z.to_nat off) (Z.to_nat n).

Lemma read_data_length c off n : 0 ≤ off → 0 ≤ n → off ≤ Z.of_nat (length c) → off + n < 2 ^ 32 →
  Z.of_nat (length (read_data c off n)) = Z.min n (Z.of_nat (length c) - off).
Proof.
  intros ????. unfold read_data. rewrite (proj2 (Z.ltb_ge _ _)), (proj2 (Z.leb_gt _ _)) by lia. simpl.
  unfold slice. rewrite length_take, length_drop. lia.
Qed.

(** The rounds that are left: one for each block the bytes touch. *)
Definition rounds_left (off n tot : Z) : nat :=
  Z.to_nat ((off + n) / BSIZE - (off + tot) / BSIZE + (if tot <? n then 1 else 0)).

Lemma rounds_left_step off n tot m : 0 ≤ off → 0 ≤ tot < n → m = Z.min (n - tot) (BSIZE - (off + tot) mod BSIZE) →
  0 < m ∧ tot + m ≤ n ∧ (rounds_left off n (tot + m) < rounds_left off n tot)%nat.
Proof.
  intros ? ? ->. unfold rounds_left. assert (BSIZE = 1024) as -> by done.
  destruct (Z.ltb_spec tot n); [| lia]. destruct (Z.ltb_spec (tot + Z.min (n - tot) (1024 - (off + tot) mod 1024)) n);
    Z.to_euclidean_division_equations; lia.
Qed.

Lemma rounds_left_fuel off n : 0 ≤ off → 0 ≤ n → (rounds_left off n 0 < Z.to_nat (n / BSIZE + 3))%nat.
Proof.
  intros ??. unfold rounds_left. assert (BSIZE = 1024) as -> by done. destruct (Z.ltb_spec 0 n); Z.to_euclidean_division_equations; lia.
Qed.

Lemma readi_wp t ip x c dst off n D F s : readable t → stored dev pid t s → k_itable s !! ip = Some x → i_dev x = dev →
  i_size x = Z.of_nat (length c) → file_in (st_view t) (i_addrs x) c → 0 ≤ off < 2 ^ 32 → 0 ≤ n < 2 ^ 32 →
  sink dst (read_data c off n) D F → D 0%nat s →
  wp (readi ip dst off n) (λ '(r, bs) s', stored dev pid t s' ∧ k_itable s' = k_itable s ∧
    (r = Z.of_nat (length (read_data c off n)) ∧ bs = read_data c off n ∧ D (length (read_data c off n)) s' ∨
     r = -1 ∧ ∃ k, (k < length (read_data c off n))%nat ∧ F k s')) s.
Proof.
  intros Hr Hs Hx Hdev Hsz Hf Hoff Hn Hsk HD. unfold readi. apply wp_bind. eapply get_inode_wp; [done |]. rewrite Hsz.
  set (data := read_data c off n) in *. pose proof (fi_max _ _ _ Hf) as Hmax. pose proof maxfile_bytes as Hmf.
  destruct (Z.ltb_spec (Z.of_nat (length c)) off) as [Hgt | Hle].
  { apply wp_ret. assert (data = []) as -> by (unfold data, read_data; by rewrite (proj2 (Z.ltb_lt _ _))). auto 10. }
  destruct (decide (2 ^ 32 ≤ off + n)) as [Hov | Hov].
  { assert (u32 (off + n) = off + n - 2 ^ 32) as -> by (symmetry; apply (Z.mod_unique_pos _ _ 1); lia).
    rewrite (proj2 (Z.ltb_lt _ _)) by lia. apply wp_ret.
    assert (data = []) as -> by (unfold data, read_data; rewrite (proj2 (Z.leb_le _ _)), orb_true_r; done). auto 10. }
  rewrite u32_small, (proj2 (Z.ltb_ge (off + n) off)) by lia. cbn [orb]. cbv zeta.
  pose proof (read_data_length c off n ltac:(lia) ltac:(lia) Hle ltac:(lia)) as Hlen. fold data in Hlen.
  assert ((if Z.of_nat (length c) <? off + n then Z.of_nat (length c) - off else n) = Z.of_nat (length data)) as ->
    by (destruct (Z.ltb_spec (Z.of_nat (length c)) (off + n)); lia).
  set (N := length data) in *. assert (data = slice c (Z.to_nat off) N) as Hdata.
  { unfold N, data, read_data. rewrite (proj2 (Z.ltb_ge _ _)), (proj2 (Z.leb_gt _ _)) by lia. apply slice_clip. }
  eapply (wp_loop (λ '(tot, o, d, acc) s', ∃ k, (k ≤ N)%nat ∧ tot = Z.of_nat k ∧ o = off + Z.of_nat k ∧ d = dest_add dst (Z.of_nat k) ∧
     acc = take k data ∧ stored dev pid t s' ∧ k_itable s' = k_itable s ∧ D k s')
    (λ '(tot, o, d, acc), rounds_left off (Z.of_nat N) tot)).
  3: { apply rounds_left_fuel; lia. }
  2: { exists 0%nat. split; [lia |]. split; [done |]. split; [lia |]. split; [symmetry; apply (sk_dst _ _ _ _ Hsk) | auto]. }
  intros [[[tot o] d] acc] s1 (k & Hk & -> & -> & -> & -> & Hs1 & Hi1 & HD1).
  destruct (Z.ltb_spec (Z.of_nat k) (Z.of_nat N)) as [Hlt | Hge].
  2: { apply wp_ret. assert (k = N) as -> by lia. split; [done |]. split; [done |]. left. rewrite take_ge by done.
       split; [apply i32_small; lia | done]. }
  destruct (rounds_left_step off (Z.of_nat N) (Z.of_nat k) _ ltac:(lia) ltac:(lia) eq_refl) as (Hm0 & Hmn & Hmu).
  set (m := Z.min (Z.of_nat N - Z.of_nat k) (BSIZE - (off + Z.of_nat k) mod BSIZE)) in *. assert (m ≤ BSIZE - (off + Z.of_nat k) mod BSIZE) as Hmb by lia. assert (B = 1024%nat ∧ BSIZE = 1024) as [EB EB'] by done.
  set (O := (Z.to_nat off + k)%nat). assert (off + Z.of_nat k = Z.of_nat O) as EO by lia. rewrite EO in *.
  assert (Z.of_nat O / BSIZE = Z.of_nat (O / B)) as -> by (rewrite EB, EB', Nat2Z.inj_div; done).
  assert (Z.of_nat O mod BSIZE = Z.of_nat (O mod B)) as Emod by (rewrite EB, EB', Nat2Z.inj_mod; done).
  destruct (nblk_spec (length c)) as (N1 & _ & _).
  assert (O / B < nblk (length c))%nat as Hbl by (apply Nat.Div0.div_lt_upper_bound; lia).
  destruct (fi_blk _ _ _ Hf _ Hbl) as (Hne & db & Hdb & Hldb).
  apply wp_bind. rewrite <-Hi1 in Hx. eapply (bmap_wp t); [done.. |]. intros s2 Hs2 Hf2.
  rewrite (proj2 (Z.eqb_neq _ _)) by done. apply wp_bind. rewrite Hdev. eapply (bread_wp t); [done.. |]. intros bi s3 Hs3 Hf3.
  apply wp_bind. eapply get_data_wp; [done.. |]. intros y ->. assert (bio_frame s1 s3) as Hf13 by (by etransitivity).
  assert (k_itable s3 = k_itable s) as Hi3 by (rewrite <-Hi1; by destruct Hf13 as [-> _]).
  assert (slice db (Z.to_nat (Z.of_nat O mod BSIZE)) (Z.to_nat m) = slice data k (Z.to_nat m)) as Hsl.
  { pose proof (file_slice _ _ _ O (Z.to_nat m) Hf) as Hsl. unfold content in Hsl. rewrite Hdb in Hsl. simpl default in Hsl.
    rewrite Emod in Hmb |- *. rewrite Nat2Z.id, Hsl by lia. rewrite Hdata, slice_slice by lia. done. }
  eapply (readi_block t _ _ _ _ dst data D F k (Z.to_nat m)); [done | done | done | done | by eapply sk_frame | lia | lia | ..].
  - done.
  - intros s4 Hs4 Hi4 HD4. split; [| done]. exists (k + Z.to_nat m)%nat. split; [lia |]. split; [lia |].
    split; [rewrite u32_small; lia |]. split; [rewrite dest_add_add; f_equal; lia |]. split; [| split; [done | by rewrite Hi4]].
    by rewrite Hsl, take_slice.
  - intros s4 Hs4 Hi4 HF4. split; [done |]. split; [by rewrite Hi4 |]. right. split; [done |]. exists k. split; [lia | done].
Qed.
End read.
