(* ===== verification/FsInode.v ===== *)
(** * The inode table (kernel/fs.c)

    The table of in-memory inodes as a cache of the inodes on the disk: [ilock]
    loads an inode, [iget] finds or makes an entry, [iput] drops one. *)

From S2P Require Import Prelude Machine Kstate Logic Strings Sched Kalloc Vm Printf Bio BioSpec BlockStore Log LogData LogSpec Fs FsData FsRead.

(** ** Inodes of the disk *)

Definition disk_inode (V : gmap Z (list Z)) (sb : superblock) (inum : Z) : dinode :=
  decode_dinode (slice (content V (IBLOCK inum sb)) (dinode_off inum) (Z.to_nat DINODE_SIZE)).

(** Inode [inum] is in use on the disk and holds the bytes [c]. *)
Record disk_file (V : gmap Z (list Z)) (sb : superblock) (inum : Z) (c : list Z) : Prop := {
  df_block : is_Some (V !! IBLOCK inum sb);
  df_type : d_type (disk_inode V sb inum) ≠ 0;
  df_size : d_size (disk_inode V sb inum) = Z.of_nat (length c);
  df_data : file_in V (d_addrs (disk_inode V sb inum)) c;
}.

(** The entry after [ilock] has loaded it. *)
Definition load (d : dinode) (x : inode) : inode :=
  x <| i_type := d_type d |> <| i_major := d_major d |> <| i_minor := d_minor d |> <| i_nlink := d_nlink d |>
    <| i_size := d_size d |> <| i_addrs := d_addrs d |> <| i_valid := 1 |>.

(** The entry holds the inode [d]. *)
Definition loaded (x : inode) (d : dinode) : Prop := i_valid x ≠ 0 ∧ load d x = x <| i_valid := 1 |>.

Lemma loaded_load d x : loaded (load d x) d.
Proof. done. Qed.

(** An inode's name. *)
Definition key (x : inode) : Z * Z := (i_dev x, i_inum x).

Definition free_entries (tbl : list inode) : nat := length (filter (λ x, i_ref x = 0) tbl).

(** The table as a cache of the inodes of the disk: [R] counts the references to
    each inode, [fr] the free entries, and [lk] is the entry this process has
    locked.  What an entry in use has loaded is what the disk holds. *)
Record itable (dev pid : Z) (sb : superblock) (V : gmap Z (list Z)) (R : Z * Z → Z) (fr : nat) (lk : option nat) (tbl : list inode) : Prop := {
  it_len : length tbl = NINODE;
  it_pos : ∀ i x, tbl !! i = Some x → 0 ≤ i_ref x;
  it_refs : ∀ i x, tbl !! i = Some x → 0 < i_ref x → R (key x) = i_ref x;
  it_has : ∀ k, R k ≠ 0 → ∃ i x, tbl !! i = Some x ∧ 0 < i_ref x ∧ key x = k;
  it_unique : ∀ i j x y, tbl !! i = Some x → tbl !! j = Some y → 0 < i_ref x → 0 < i_ref y → key x = key y → i = j;
  it_lock : ∀ i x, tbl !! i = Some x → if decide (lk = Some i) then i_lock x = mkSleeplock 1 pid else sl_locked (i_lock x) = 0;
  it_load : ∀ i x, tbl !! i = Some x → 0 < i_ref x → i_dev x = dev → i_valid x ≠ 0 → loaded x (disk_inode V sb (i_inum x));
  it_free : fr = free_entries tbl;
}.

(** The count for [k] becomes [v]. *)
Definition upd (R : Z * Z → Z) (k : Z * Z) (v : Z) : Z * Z → Z := λ k', if decide (k' = k) then v else R k'.

Lemma itable_ext dev pid sb V R R' fr lk tbl : (∀ k, R' k = R k) → itable dev pid sb V R fr lk tbl → itable dev pid sb V R' fr lk tbl.
Proof.
  intros HR [H1 H2 H3 H4 H5 H6 H7 H8]. split; try done; [intros i x ??; rewrite HR; eauto |]. intros k. rewrite HR. apply H4.
Qed.

Lemma is_zero_ne r : r ≠ 0 → is_zero r = 0%nat.
Proof. intros H. unfold is_zero. by rewrite decide_False. Qed.

Lemma free_insert (tbl : list inode) i x y : tbl !! i = Some x →
  (free_entries (<[i := y]> tbl) + is_zero (i_ref x) = free_entries tbl + is_zero (i_ref y))%nat.
Proof.
  unfold free_entries, is_zero. revert i; induction tbl as [|z tbl IH]; intros [|i] Hx; simplify_eq/=.
  - rewrite !filter_cons. repeat case_decide; simpl; lia.
  - rewrite !filter_cons. specialize (IH _ Hx). repeat case_decide; simpl; lia.
Qed.

(** One entry changes: it keeps its inode, or it was free and no other entry has
    the inode it gets. *)
Lemma itable_change dev pid sb V R fr lk tbl ip x y lk' : itable dev pid sb V R fr lk tbl → tbl !! ip = Some x →
  0 < i_ref x ∧ key x = key y ∨ i_ref x = 0 ∧ R (key y) = 0 → 0 ≤ i_ref y →
  (if decide (lk' = Some ip) then i_lock y = mkSleeplock 1 pid else sl_locked (i_lock y) = 0) →
  (∀ j, j ≠ ip → (lk' = Some j ↔ lk = Some j)) →
  (0 < i_ref y → i_dev y = dev → i_valid y ≠ 0 → loaded y (disk_inode V sb (i_inum y))) →
  itable dev pid sb V (upd R (key y) (i_ref y)) (fr + is_zero (i_ref y) - is_zero (i_ref x)) lk' (<[ip := y]> tbl).
Proof.
  intros [H1 H2 H3 H4 H5 H6 H7 H8] Hx Hcase Hy Hlk Hlk' Hld. pose proof (lookup_lt_Some _ _ _ Hx) as Hlt.
  assert (∀ j z, <[ip := y]> tbl !! j = Some z → j = ip ∧ z = y ∨ j ≠ ip ∧ tbl !! j = Some z) as Hins.
  { intros j z. destruct (decide (j = ip)) as [-> | Hne]; [rewrite list_lookup_insert_eq by done; intros [= ->]; by left |].
    rewrite list_lookup_insert_ne by done. by right. }
  assert (∀ j z, j ≠ ip → tbl !! j = Some z → 0 < i_ref z → key z ≠ key y) as Hoth.
  { intros j z Hj Hz Hpos Hk. destruct Hcase as [[Hp Hkx] | [_ HR]].
    - apply Hj, (H5 j ip z x Hz Hx Hpos Hp). congruence.
    - specialize (H3 _ _ Hz Hpos). rewrite Hk in H3. lia. }
  split.
  - by rewrite length_insert.
  - intros j z [[-> ->] | [_ Hz]]%Hins; eauto.
  - intros j z [[-> ->] | [Hj Hz]]%Hins Hpos; unfold upd; [by rewrite decide_True |]. rewrite decide_False by eauto. eauto.
  - intros k. unfold upd. destruct (decide (k = key y)) as [Hk | Hk].
    + intros Hne. exists ip, y. rewrite list_lookup_insert_eq by done. split; [done |]. split; [lia | done].
    + intros (j & z & Hz & Hpos & Hkz)%H4. exists j, z. rewrite list_lookup_insert_ne; [done |]. intros ->.
      assert (z = x) as -> by congruence. destruct Hcase as [[_ Hkx] | [Hx0 _]]; [congruence | lia].
  - intros i j u v [[-> ->] | [Hi Hu]]%Hins [[-> ->] | [Hj Hv]]%Hins Hpu Hpv Hk; [done | | | eauto].
    + by destruct (Hoth j v Hj Hv Hpv).
    + by destruct (Hoth i u Hi Hu Hpu).
  - intros j z [[-> ->] | [Hj Hz]]%Hins; [done |]. specialize (H6 _ _ Hz). specialize (Hlk' j Hj). repeat case_decide; naive_solver.
  - intros j z [[-> ->] | [Hj Hz]]%Hins; eauto.
  - pose proof (free_insert tbl ip x y Hx). lia.
Qed.

(** The cache, the sleepers and the inode table are all that changed. *)
Definition ino_frame (s s' : kstate) : Prop :=
  s' = (s <| k_bufs := k_bufs s' |> <| k_procs := k_procs s' |> <| k_itable := k_itable s' |>) ∧
  woken (k_procs s) (k_procs s').

#[global] Instance ino_frame_preorder : PreOrder ino_frame.
Proof.
  split.
  - intros s. split; [by destruct s | reflexivity].
  - intros s1 s2 s3 [E1 W1] [E2 W2]. split; [| by etransitivity].
    rewrite E2, E1. by destruct s1.
Qed.

Lemma bio_ino_frame s s' : bio_frame s s' → ino_frame s s' ∧ k_itable s' = k_itable s.
Proof. intros [H W]. split; [split; [rewrite H; by destruct s | done] | by rewrite H]. Qed.

Lemma ino_frame_table s tbl : ino_frame s (s <| k_itable := tbl |>).
Proof. split; [by destruct s | reflexivity]. Qed.

Section inodes.
Context {L : Layout} {E : Env} (dev pid : Z).

Lemma stored_table t s tbl : stored dev pid t s → stored dev pid t (s <| k_itable := tbl |>).
Proof. intros [[H1 H2 H3] H4 H5 H6]. split; [split |..]; done. Qed.

Lemma wp_upd_inode ip f x (Q : unit → kstate → Prop) s : k_itable s !! ip = Some x →
  Q tt (s <| k_itable ::= <[ip := f x]> |>) → wp (upd_inode ip f) Q s.
Proof. intros Hx HQ. apply wp_bind. eapply get_inode_wp; [done |]. by apply wp_modify. Qed.

(** ** Sleep locks of inodes *)

Lemma acquiresleep_inode ip x s : quiet pid s → k_itable s !! ip = Some x → sl_locked (i_lock x) = 0 →
  acquiresleep (SlInode ip) s = Done tt (s <| k_itable ::= <[ip := x <| i_lock := mkSleeplock 1 pid |>]> |>).
Proof.
  intros [Hh _ (p & pr & Hc & Hp & <-)] Hx Hl. unfold acquiresleep.
  rewrite (bind_done _ _ _ _ _ (acquire_first _ _ Hh)).
  erewrite bind_done.
  2: { unfold wait_loop, wait_loop_plus. cbn [Nat.add iterate get_sleeplock].
       rewrite !bind_unfold. unfold get_inode. rewrite !bind_unfold. simpl. rewrite Hx. simpl. rewrite Hl. done. }
  erewrite bind_done by (apply curproc_done; exact Hc).
  erewrite bind_done by (apply get_proc_done; exact Hp).
  erewrite bind_done by (unfold set_sleeplock, upd_inode, get_inode; rewrite !bind_unfold; simpl; rewrite Hx; done).
  rewrite release_last by done. destruct s; simpl in *. by subst.
Qed.

Lemma holdingsleep_inode ip x s : quiet pid s → k_itable s !! ip = Some x → i_lock x = mkSleeplock 1 pid →
  holdingsleep (SlInode ip) s = Done true s.
Proof.
  intros [Hh _ (p & pr & Hc & Hp & <-)] Hx Hl. unfold holdingsleep.
  rewrite (bind_done _ _ _ _ _ (acquire_first _ _ Hh)).
  erewrite bind_done by (unfold get_sleeplock, get_inode; rewrite !bind_unfold; simpl; rewrite Hx; done).
  erewrite bind_done by (apply curproc_done; exact Hc).
  erewrite bind_done by (apply get_proc_done; exact Hp).
  erewrite bind_done by (by apply release_last).
  rewrite Hl. simpl. rewrite Z.eqb_refl. destruct s; simpl in *. by subst.
Qed.

Lemma releasesleep_inode ip x s : quiet pid s → k_itable s !! ip = Some x →
  ∃ ps, releasesleep (SlInode ip) s = Done tt (s <| k_procs := ps |> <| k_itable ::= <[ip := x <| i_lock := mkSleeplock 0 0 |>]> |>) ∧
    woken (k_procs s) ps.
Proof.
  intros [Hh Hlen _] Hx. unfold releasesleep.
  exists (imap (wake_entry (Some (ChSleep (SlInode ip))) (k_cur s)) (k_procs s)). split.
  - rewrite (bind_done _ _ _ _ _ (acquire_first _ _ Hh)).
    erewrite bind_done by (unfold set_sleeplock, upd_inode, get_inode; rewrite !bind_unfold; simpl; rewrite Hx; done).
    erewrite bind_done by (apply wakeup_done; [done | simpl; set_solver]).
    rewrite release_last by done. destruct s; simpl in *. by subst.
  - apply Forall2_lookup. intros i. simpl. rewrite list_lookup_imap.
    destruct (k_procs s !! i) as [p|]; simpl; constructor. unfold wake_entry. case_decide; naive_solver.
Qed.

(** ** ilock and iunlock *)

Definition locked (x : inode) : inode := x <| i_lock := mkSleeplock 1 pid |>.
Definition unlocked (x : inode) : inode := x <| i_lock := mkSleeplock 0 0 |>.

(** What [ilock] makes of the entry. *)
Definition fetch (d : dinode) (x : inode) : inode := locked (if i_valid x =? 0 then load d x else x).

Lemma ilock_wp t ip x d s (Q : unit → kstate → Prop) : readable t → stored dev pid t s →
  k_itable s !! ip = Some x → 1 ≤ i_ref x → i_dev x = dev → sl_locked (i_lock x) = 0 →
  d = disk_inode (st_view t) (k_sb s) (i_inum x) → is_Some (st_view t !! IBLOCK (i_inum x) (k_sb s)) → d_type d ≠ 0 →
  (∀ s', stored dev pid t s' → ino_frame s s' → k_itable s' = <[ip := fetch d x]> (k_itable s) → Q tt s') →
  wp (ilock (Some ip)) Q s.
Proof.
  intros Hr Hs Hx Href Hdev Hl Hd [blk Hblk] Hty HQ. pose proof (lookup_lt_Some _ _ _ Hx) as Hlt.
  unfold ilock. apply wp_bind. eapply get_inode_wp; [done |]. rewrite (proj2 (Z.ltb_ge _ _)) by lia.
  apply wp_bind. eapply wp_done; [eapply acquiresleep_inode; [apply Hs | done | done] |]. fold (locked x).
  set (s1 := s <| k_itable ::= _ |>). assert (stored dev pid t s1) as Hs1 by (by apply (stored_table t s)).
  assert (k_itable s1 !! ip = Some (locked x)) as Hx1 by (by apply list_lookup_insert_eq).
  apply wp_bind. eapply get_inode_wp; [done |]. change (i_valid (locked x)) with (i_valid x).
  assert (ino_frame s s1) as Hf1 by apply ino_frame_table.
  unfold fetch in HQ. destruct (Z.eqb_spec (i_valid x) 0) as [Hv | Hv]; [| by apply wp_ret, HQ].
  apply wp_bind, wp_gets, wp_bind. change (i_dev (locked x)) with (i_dev x). rewrite Hdev.
  eapply (bread_wp dev pid t); [done | done | exact Hblk |]. intros bi s2 Hs2 F2. apply wp_bind.
  eapply (get_data_wp dev pid t); [done | exact Hblk |]. intros y Hy. change (i_inum (locked x)) with (i_inum x). rewrite Hy.
  replace (slice blk _ _) with (slice (content (st_view t) (IBLOCK (i_inum x) (k_sb s))) (dinode_off (i_inum x)) (Z.to_nat DINODE_SIZE))
    by (unfold content; by rewrite Hblk). cbv zeta. fold (disk_inode (st_view t) (k_sb s) (i_inum x)). rewrite <-Hd.
  destruct (bio_ino_frame _ _ F2) as [F2' I2]. apply wp_bind. eapply wp_upd_inode; [by rewrite I2 |].
  apply wp_bind. eapply (fs_brelse_wp dev pid t); [done | by apply stored_table |]. intros s3 Hs3 F3.
  destruct (bio_ino_frame _ _ F3) as [F3' I3]. set (z := (locked x) <| i_type := d_type d |> <| i_major := d_major d |> <| i_minor := d_minor d |> <| i_nlink := d_nlink d |>
    <| i_size := d_size d |> <| i_addrs := d_addrs d |>) in *.
  assert (k_itable s3 = <[ip := z]> (k_itable s)) as I3'.
  { rewrite I3. simpl. rewrite I2. simpl. apply list_insert_insert_eq. }
  apply wp_bind. eapply (wp_upd_inode _ _ z); [rewrite I3'; by apply list_lookup_insert_eq |].
  apply wp_bind. eapply (get_inode_wp ip (z <| i_valid := 1 |>)).
  { simpl. rewrite I3', list_insert_insert_eq. by apply list_lookup_insert_eq. }
  change (i_type (z <| i_valid := 1 |>)) with (d_type d). rewrite (proj2 (Z.eqb_neq _ _)) by done. apply wp_ret, HQ.
  - by apply stored_table.
  - etransitivity; [exact Hf1 |]. etransitivity; [exact F2' |]. etransitivity; [apply ino_frame_table |].
    etransitivity; [exact F3' | apply ino_frame_table].
  - simpl. by rewrite I3', list_insert_insert_eq.
Qed.

Lemma iunlock_wp t ip x s (Q : unit → kstate → Prop) : stored dev pid t s → k_itable s !! ip = Some x →
  i_lock x = mkSleeplock 1 pid → 1 ≤ i_ref x →
  (∀ s', stored dev pid t s' → ino_frame s s' → k_itable s' = <[ip := unlocked x]> (k_itable s) → Q tt s') →
  wp (iunlock (Some ip)) Q s.
Proof.
  intros Hs Hx Hl Href HQ. unfold iunlock. apply wp_bind. eapply wp_done; [eapply holdingsleep_inode; [apply Hs | done | done] |].
  apply wp_bind. eapply get_inode_wp; [done |]. rewrite (proj2 (Z.ltb_ge _ _)) by lia. simpl.
  destruct (releasesleep_inode ip x s (sd_quiet _ _ _ _ Hs) Hx) as (ps & Hrun & Hw). eapply wp_done; [exact Hrun |]. apply HQ; [| | done].
  - destruct Hs as [Hq H4 H5 H6]. split; [| done..]. eapply (quiet_frame pid s (s <| k_procs := ps |>)) in Hq; [| split; [by destruct s | done]].
    destruct Hq. by split.
  - split; [by destruct s | done].
Qed.

(** An entry for an inode of the disk that can be locked. *)
Record entry_of (V : gmap Z (list Z)) (sb : superblock) (x : inode) : Prop := {
  eo_ref : 1 ≤ i_ref x;
  eo_dev : i_dev x = dev;
  eo_lock : sl_locked (i_lock x) = 0;
  eo_load : i_valid x ≠ 0 → loaded x (disk_inode V sb (i_inum x));
}.

Lemma fetch_loaded d x : (i_valid x ≠ 0 → loaded x d) → loaded (fetch d x) d.
Proof.
  intros H. unfold fetch. destruct (Z.eqb_spec (i_valid x) 0) as [Hv | Hv]; [done |].
  destruct (H Hv) as [_ Hl]. split; [done |]. exact (f_equal locked Hl).
Qed.

Lemma loaded_fields x d : loaded x d → i_type x = d_type d ∧ i_nlink x = d_nlink d ∧ i_size x = d_size d ∧ i_addrs x = d_addrs d.
Proof.
  intros [_ H]. split_and!; symmetry; [exact (f_equal i_type H) | exact (f_equal i_nlink H) | exact (f_equal i_size H) | exact (f_equal i_addrs H)].
Qed.

Lemma fetch_same d x : i_dev (fetch d x) = i_dev x ∧ i_inum (fetch d x) = i_inum x ∧ i_ref (fetch d x) = i_ref x ∧
  i_lock (fetch d x) = mkSleeplock 1 pid.
Proof. unfold fetch. by destruct (i_valid x =? 0). Qed.

(** Locking an inode and reading its bytes. *)
Lemma ilock_file_wp t ip x c s (Q : unit → kstate → Prop) : readable t → stored dev pid t s → k_itable s !! ip = Some x →
  entry_of (st_view t) (k_sb s) x → disk_file (st_view t) (k_sb s) (i_inum x) c →
  (∀ s' x', stored dev pid t s' → ino_frame s s' → k_itable s' = <[ip := x']> (k_itable s) →
     x' = fetch (disk_inode (st_view t) (k_sb s) (i_inum x)) x → loaded x' (disk_inode (st_view t) (k_sb s) (i_inum x)) →
     i_size x' = Z.of_nat (length c) → file_in (st_view t) (i_addrs x') c → Q tt s') → wp (ilock (Some ip)) Q s.
Proof.
  intros Hr Hs Hx He [Hb Hty Hsz Hfi] HQ. eapply (ilock_wp t); [done | done | done | apply He | apply He | apply He | done | done | done |].
  intros s' Hs' Hf Hi. pose proof (fetch_loaded _ _ (eo_load _ _ _ He)) as Hl. destruct (loaded_fields _ _ Hl) as (_ & _ & E1 & E2).
  eapply HQ; [done | done | done | done | done | by rewrite E1 | by rewrite E2].
Qed.

(** ** iget *)

Lemma iget_scan_wp inum s (Q : option nat + option nat → kstate → Prop) : length (k_itable s) = NINODE →
  (∀ ip x, k_itable s !! ip = Some x → 0 < i_ref x → key x = (dev, inum) → Q (inl (Some ip)) s) →
  (∀ e, (∀ ip x, k_itable s !! ip = Some x → 0 < i_ref x → key x ≠ (dev, inum)) →
     match e with Some e => ∃ x, k_itable s !! e = Some x ∧ i_ref x = 0 | None => ∀ ip x, k_itable s !! ip = Some x → i_ref x ≠ 0 end →
     Q (inr e) s) → wp (iget_scan dev inum) Q s.
Proof.
  intros Hlen Hhit Hmiss. unfold iget_scan.
  eapply (wp_loop (λ '(i, e) s', s' = s ∧ (i ≤ NINODE)%nat ∧ (∀ ip x, (ip < i)%nat → k_itable s !! ip = Some x → 0 < i_ref x → key x ≠ (dev, inum)) ∧
    match e with Some e => ∃ x, k_itable s !! e = Some x ∧ i_ref x = 0 | None => ∀ ip x, (ip < i)%nat → k_itable s !! ip = Some x → i_ref x ≠ 0 end)
    (λ '(i, e), NINODE - i)%nat).
  2: { split; [done |]. split; [lia |]. split; intros; lia. }
  2: { lia. }
  intros [i e] s' (-> & Hi & Hno & He). destruct (Nat.ltb_spec i NINODE) as [Hlt | Hge].
  - destruct (lookup_lt_is_Some_2 (k_itable s) i) as [x Hx]; [lia |]. apply wp_bind. eapply get_inode_wp; [done |].
    assert (∀ ip y, (ip < S i)%nat → k_itable s !! ip = Some y → (ip < i)%nat ∨ ip = i ∧ y = x) as Hcase.
    { intros ip y Hip Hy. destruct (decide (ip = i)) as [-> | ?]; [right; split; congruence | left; lia]. }
    destruct ((0 <? i_ref x) && (i_dev x =? dev) && (i_inum x =? inum)) eqn:Em.
    { apply andb_prop in Em as [[H1%Z.ltb_lt H2%Z.eqb_eq]%andb_prop H3%Z.eqb_eq]. apply wp_ret, (Hhit _ x); [done | done |]. unfold key. congruence. }
    assert (∀ ip y, (ip < S i)%nat → k_itable s !! ip = Some y → 0 < i_ref y → key y ≠ (dev, inum)) as Hno'.
    { intros ip y Hip Hy Hp. destruct (Hcase _ _ Hip Hy) as [? | [-> ->]]; [eauto |]. intros [= <- <-].
      rewrite (proj2 (Z.ltb_lt _ _)), !Z.eqb_refl in Em by done. done. }
    destruct (bool_decide (e = None) && (i_ref x =? 0)) eqn:Ef; apply wp_ret; (split; [split; [done |]; split; [lia |]; split; [done |] | lia]).
    + apply andb_prop in Ef as [_ H0%Z.eqb_eq]. eauto.
    + destruct e as [e |]; [done |]. intros ip y Hip Hy. destruct (Hcase _ _ Hip Hy) as [? | [-> ->]]; [eauto |].
      rewrite bool_decide_true in Ef by done. by apply Z.eqb_neq in Ef.
  - apply wp_ret. apply Hmiss.
    + intros ip x Hx. eapply Hno; [| done]. apply lookup_lt_Some in Hx. lia.
    + destruct e as [e |]; [done |]. intros ip x Hx. eapply He; [| done]. apply lookup_lt_Some in Hx. lia.
Qed.

(** *** The file system as one process sees it: the blocks and the inode table. *)
Record fs_is (t : store) (R : Z * Z → Z) (fr : nat) (lk : option nat) (s : kstate) : Prop := {
  fi_stored : stored dev pid t s;
  fi_table : itable dev pid (k_sb s) (st_view t) R fr lk (k_itable s);
}.

(** Entry [j] is still the same inode; only its count of references may differ. *)
Definition kept (tbl tbl' : list inode) (j : nat) : Prop :=
  ∀ z, tbl !! j = Some z → ∃ z', tbl' !! j = Some z' ∧ 0 < i_ref z' ∧ z' = z <| i_ref := i_ref z' |>.

Lemma kept_insert tbl j ip x (y : inode) z : tbl !! j = Some z → tbl !! ip = Some x → 0 < i_ref z → y = x <| i_ref := i_ref y |> →
  (j = ip → 0 < i_ref y) → kept tbl (<[ip := y]> tbl) j.
Proof.
  intros Hz Hx Hp Hy Hj z' Hz'. assert (z' = z) as -> by congruence. destruct (decide (j = ip)) as [-> | Hne].
  - exists y. rewrite list_lookup_insert_eq by (by eapply lookup_lt_Some). assert (z = x) as -> by congruence. auto.
  - exists z. rewrite list_lookup_insert_ne by done. split; [done |]. split; [done |]. by destruct z.
Qed.

(** Under the lock of the table one entry changes. *)
Lemma fs_is_change t R fr lk ip x y s lk' : fs_is t R fr lk s → k_itable s !! ip = Some x →
  0 < i_ref x ∧ key x = key y ∨ i_ref x = 0 ∧ R (key y) = 0 → 0 ≤ i_ref y →
  (if decide (lk' = Some ip) then i_lock y = mkSleeplock 1 pid else sl_locked (i_lock y) = 0) →
  (∀ j, j ≠ ip → (lk' = Some j ↔ lk = Some j)) →
  (0 < i_ref y → i_dev y = dev → i_valid y ≠ 0 → loaded y (disk_inode (st_view t) (k_sb s) (i_inum y))) →
  fs_is t (upd R (key y) (i_ref y)) (fr + is_zero (i_ref y) - is_zero (i_ref x)) lk' (s <| k_itable ::= <[ip := y]> |>).
Proof. intros [Hs Ht] Hx H1 H2 H3 H4 H5. split; [by apply (stored_table t s) | by eapply itable_change]. Qed.

(** Entries keep their locks when the number of references changes. *)
Lemma fs_is_ref t R fr lk ip x r s : fs_is t R fr lk s → k_itable s !! ip = Some x → 0 < i_ref x → 0 ≤ r →
  fs_is t (upd R (key x) r) (fr + is_zero r) lk (s <| k_itable ::= <[ip := x <| i_ref := r |>]> |>).
Proof.
  intros H Hx Hp Hr. pose proof (fi_table _ _ _ _ _ H) as Ht.
  replace (fr + is_zero r)%nat with (fr + is_zero r - is_zero (i_ref x))%nat by (rewrite (is_zero_ne (i_ref x)) by lia; lia).
  pose proof (fs_is_change t R fr lk ip x (x <| i_ref := r |>) s lk H Hx) as Hc.
  change (i_ref (x <| i_ref := r |>)) with r in Hc. change (key (x <| i_ref := r |>)) with (key x) in Hc.
  apply Hc; [by left | done | | done |].
  - exact (it_lock _ _ _ _ _ _ _ _ Ht _ _ Hx).
  - intros _ Hd Hv. destruct (it_load _ _ _ _ _ _ _ _ Ht _ _ Hx Hp Hd Hv) as [Hv' Hl]. split; [done |].
    exact (f_equal (λ x, x <| i_ref := r |>) Hl).
Qed.

Lemma release_table s tbl : k_held s = [] →
  release LkItable (s <| k_held := [LkItable] |> <| k_itable := tbl |>) = Done tt (s <| k_itable := tbl |>).
Proof. intros Hh. rewrite release_last by done. f_equal. destruct s; simpl in *. by subst. Qed.

Lemma iget_wp t R fr lk inum s (Q : nat → kstate → Prop) : fs_is t R fr lk s → (R (dev, inum) = 0 → (0 < fr)%nat) →
  (∀ ip x s', fs_is t (upd R (dev, inum) (R (dev, inum) + 1)) (fr - is_zero (R (dev, inum))) lk s' → ino_frame s s' →
     k_itable s' !! ip = Some x → key x = (dev, inum) → 0 < i_ref x →
     (∀ j z, k_itable s !! j = Some z → 0 < i_ref z → kept (k_itable s) (k_itable s') j) → Q ip s') → wp (iget dev inum) Q s.
Proof.
  intros H Hfr HQ. pose proof (fi_table _ _ _ _ _ H) as Ht. pose proof (sd_quiet _ _ _ _ (fi_stored _ _ _ _ _ H)) as [Hh _ _].
  assert (∀ tbl ip, wp (release LkItable;; ret ip) Q (s <| k_held := [LkItable] |> <| k_itable := tbl |>) ↔ Q ip (s <| k_itable := tbl |>)) as Hrel.
  { intros tbl ip. unfold wp. by rewrite bind_unfold, release_table. }
  unfold iget. apply wp_bind. eapply wp_done; [by apply acquire_first |]. apply wp_bind. apply iget_scan_wp; [apply Ht | |].
  - intros ip x Hx Hp Hk. simpl in Hx. apply wp_bind. apply (wp_must _ _ ip); [done |]. apply wp_bind. eapply wp_upd_inode; [exact Hx |].
    apply (Hrel (<[ip := _]> (k_itable s))). assert (i_ref x = R (dev, inum)) as E1 by (rewrite <-Hk; symmetry; by eapply it_refs).
    apply (HQ _ (x <| i_ref := i_ref x + 1 |>)).
    + pose proof (fs_is_ref t R fr lk ip x (i_ref x + 1) s H Hx Hp ltac:(lia)) as H'. rewrite Hk in H'.
      rewrite is_zero_ne, Nat.add_0_r in H' by lia. by rewrite <-E1, is_zero_ne, Nat.sub_0_r by lia.
    + apply ino_frame_table.
    + simpl. apply list_lookup_insert_eq. by eapply lookup_lt_Some.
    + done.
    + simpl. lia.
    + intros j z Hz Hpz. eapply kept_insert; [done | done | done | done |]. simpl. lia.
  - intros e Hno He. assert (R (dev, inum) = 0) as HR0.
    { destruct (decide (R (dev, inum) = 0)); [done |]. destruct (it_has _ _ _ _ _ _ _ _ Ht (dev, inum)) as (i & x & Hx & Hp & Hk); [done |]. by destruct (Hno i x). }
    destruct e as [e |].
    2: { specialize (Hfr HR0). rewrite (it_free _ _ _ _ _ _ _ _ Ht) in Hfr. exfalso. unfold free_entries in Hfr.
         destruct (filter _ (k_itable s)) as [|z l] eqn:Ez; [simpl in Hfr; lia |].
         assert (z ∈ filter (λ x, i_ref x = 0) (k_itable s)) as [Hz0 [j Hz]%list_elem_of_lookup]%list_elem_of_filter by (rewrite Ez; set_solver).
         by destruct (He j z). }
    destruct He as (x & Hx & Hx0). simpl in Hx. apply wp_bind. eapply wp_upd_inode; [exact Hx |].
    apply (Hrel (<[e := _]> (k_itable s))). set (y := x <| i_dev := dev |> <| i_inum := inum |> <| i_ref := 1 |> <| i_valid := 0 |>).
    apply (HQ _ y).
    + pose proof (fs_is_change t R fr lk e x y s lk H Hx) as H'. rewrite HR0. rewrite Hx0 in H'. change (i_ref y) with 1 in H'. change (key y) with (dev, inum) in H'.
      change (is_zero 1) with 0%nat in H'. rewrite Nat.add_0_r in H'. apply H'; [by right | lia | | done | done].
      exact (it_lock _ _ _ _ _ _ _ _ Ht _ _ Hx).
    + apply ino_frame_table.
    + simpl. apply list_lookup_insert_eq. by eapply lookup_lt_Some.
    + done.
    + done.
    + intros j z Hz Hpz z' Hz'. assert (z' = z) as -> by congruence. exists z.
      assert (j ≠ e) as Hje by (intros ->; assert (z = x) as -> by congruence; lia).
      simpl. rewrite list_lookup_insert_ne by done. split; [done |]. split; [done |]. by destruct z.
Qed.

(** [iput] on an inode with links, or with other references. *)
Lemma iput_wp t R fr lk ip x s (Q : unit → kstate → Prop) : fs_is t R fr lk s → k_itable s !! ip = Some x → 0 < i_ref x →
  (i_ref x = 1 → i_valid x ≠ 0 → i_nlink x ≠ 0) →
  (∀ s', fs_is t (upd R (key x) (R (key x) - 1)) (fr + is_zero (R (key x) - 1)) lk s' → ino_frame s s' →
     (∀ j z, k_itable s !! j = Some z → 0 < i_ref z → (j = ip → 1 < i_ref z) → kept (k_itable s) (k_itable s') j) → Q tt s') →
  wp (iput ip) Q s.
Proof.
  intros H Hx Hp Hnl HQ. pose proof (fi_table _ _ _ _ _ H) as Ht. pose proof (sd_quiet _ _ _ _ (fi_stored _ _ _ _ _ H)) as [Hh _ _].
  unfold iput. apply wp_bind. eapply wp_done; [by apply acquire_first |]. apply wp_bind. eapply get_inode_wp; [exact Hx |].
  assert ((i_ref x =? 1) && negb (i_valid x =? 0) && (i_nlink x =? 0) = false) as ->.
  { destruct (Z.eqb_spec (i_ref x) 1), (Z.eqb_spec (i_valid x) 0), (Z.eqb_spec (i_nlink x) 0); simpl; try done. exfalso. by apply Hnl. }
  apply wp_bind, wp_ret, wp_bind. eapply wp_upd_inode; [exact Hx |]. eapply wp_done; [by apply (release_table s (<[ip := _]> (k_itable s))) |].
  assert (i_ref x = R (key x)) as E1 by (symmetry; by eapply it_refs).
  apply HQ.
  - rewrite <-E1. eapply fs_is_ref; [done | done | done | lia].
  - apply ino_frame_table.
  - intros j z Hz Hpz Hj. eapply kept_insert; [done | done | done | done |]. intros ->. specialize (Hj eq_refl).
    assert (z = x) as -> by congruence. simpl. lia.
Qed.

(** Reading blocks does not concern the table. *)
Lemma fs_is_bio t R fr lk s s' : fs_is t R fr lk s → stored dev pid t s' → ino_frame s s' → k_itable s' = k_itable s → fs_is t R fr lk s'.
Proof. intros [_ Ht] Hs [Hf _] Hi. split; [done |]. rewrite Hi. by rewrite Hf. Qed.

Lemma entry_in_use t R fr lk ip x s : fs_is t R fr lk s → k_itable s !! ip = Some x → 0 < i_ref x → i_dev x = dev → lk ≠ Some ip →
  entry_of (st_view t) (k_sb s) x.
Proof.
  intros [_ Ht] Hx Hp Hd Hlk. split; [lia | done | | by eapply it_load].
  pose proof (it_lock _ _ _ _ _ _ _ _ Ht _ _ Hx) as Hl. by rewrite decide_False in Hl.
Qed.

(** Locking an inode of the table and unlocking it again. *)
Lemma ilock_table_wp t R fr ip x c s (Q : unit → kstate → Prop) : readable t → fs_is t R fr None s → k_itable s !! ip = Some x →
  0 < i_ref x → i_dev x = dev → disk_file (st_view t) (k_sb s) (i_inum x) c →
  (∀ s' x', fs_is t R fr (Some ip) s' → ino_frame s s' → k_itable s' !! ip = Some x' → key x' = key x → i_ref x' = i_ref x →
     loaded x' (disk_inode (st_view t) (k_sb s) (i_inum x)) → i_size x' = Z.of_nat (length c) → file_in (st_view t) (i_addrs x') c → Q tt s') →
  wp (ilock (Some ip)) Q s.
Proof.
  intros Hr H Hx Hp Hd Hdf HQ. pose proof (lookup_lt_Some _ _ _ Hx) as Hlt. pose proof (fi_table _ _ _ _ _ H) as Ht.
  eapply (ilock_file_wp t); [done | apply H | done | by eapply entry_in_use | done |].
  intros s' x' Hs' Hf Hi Hx' Hl Hsz Hfi. destruct (fetch_same (disk_inode (st_view t) (k_sb s) (i_inum x)) x) as (E1 & E2 & E3 & E4).
  rewrite <-Hx' in *. assert (key x' = key x) as Ek by (unfold key; congruence).
  apply (HQ s' x'); [| done | rewrite Hi; by apply list_lookup_insert_eq | done | done | done | done | done].
  pose proof (fs_is_change t R fr None ip x x' s (Some ip) H Hx) as Hc. rewrite E3, Ek in Hc.
  replace (fr + is_zero (i_ref x) - is_zero (i_ref x))%nat with fr in Hc by lia.
  split; [done |]. rewrite Hi. destruct Hf as [Hf _]. rewrite Hf. simpl. eapply itable_ext; [| apply Hc].
  - intros k. unfold upd. destruct (decide (k = key x)) as [-> |]; [by eapply it_refs | done].
  - by left.
  - lia.
  - by rewrite decide_True.
  - intros j Hj. split; [intros [= <-]; done | done].
  - intros _ _ _. rewrite E2. done.
Qed.

Lemma iunlock_table_wp t R fr ip x s (Q : unit → kstate → Prop) : fs_is t R fr (Some ip) s → k_itable s !! ip = Some x → 0 < i_ref x →
  (∀ s', fs_is t R fr None s' → ino_frame s s' → k_itable s' = <[ip := unlocked x]> (k_itable s) → Q tt s') → wp (iunlock (Some ip)) Q s.
Proof.
  intros H Hx Hp HQ. pose proof (fi_table _ _ _ _ _ H) as Ht. pose proof (it_lock _ _ _ _ _ _ _ _ Ht _ _ Hx) as Hl. rewrite decide_True in Hl by done.
  eapply (iunlock_wp t); [apply H | done | done | lia |]. intros s' Hs' Hf Hi. apply HQ; [| done | done].
  pose proof (fs_is_change t R fr (Some ip) ip x (unlocked x) s None H Hx) as Hc.
  change (i_ref (unlocked x)) with (i_ref x) in Hc. change (key (unlocked x)) with (key x) in Hc.
  replace (fr + is_zero (i_ref x) - is_zero (i_ref x))%nat with fr in Hc by lia.
  split; [done |]. rewrite Hi. destruct Hf as [Hf _]. rewrite Hf. simpl. eapply itable_ext; [| apply Hc].
  - intros k. unfold upd. destruct (decide (k = key x)) as [-> |]; [by eapply it_refs | done].
  - by left.
  - lia.
  - done.
  - intros j Hj. split; [done | intros [= <-]; done].
  - intros _ Hd Hv. destruct (it_load _ _ _ _ _ _ _ _ Ht _ _ Hx Hp Hd Hv) as [Hv' Hl']. split; [done |]. exact (f_equal unlocked Hl').
Qed.

Lemma idup_wp t R fr lk ip x s (Q : nat → kstate → Prop) : fs_is t R fr lk s → k_itable s !! ip = Some x → 0 < i_ref x →
  (∀ s', fs_is t (upd R (key x) (R (key x) + 1)) fr lk s' → ino_frame s s' →
     k_itable s' = <[ip := x <| i_ref := i_ref x + 1 |>]> (k_itable s) → Q ip s') → wp (idup ip) Q s.
Proof.
  intros H Hx Hp HQ. pose proof (sd_quiet _ _ _ _ (fi_stored _ _ _ _ _ H)) as [Hh _ _].
  unfold idup. apply wp_bind. eapply wp_done; [by apply acquire_first |]. apply wp_bind. eapply wp_upd_inode; [exact Hx |].
  apply wp_bind. eapply wp_done; [by apply (release_table s (<[ip := _]> (k_itable s))) |]. apply wp_ret.
  pose proof (fs_is_ref t R fr lk ip x (i_ref x + 1) s H Hx Hp ltac:(lia)) as H'. rewrite is_zero_ne, Nat.add_0_r in H' by lia.
  apply HQ; [| apply ino_frame_table | done]. replace (R (key x)) with (i_ref x); [done |]. symmetry. eapply it_refs; [apply H | done | done].
Qed.
End inodes.
