(* ===== verification/FsPath.v ===== *)
(** * Directories and path names (kernel/fs.c)

    A tree of files as the disk holds it, what a path names in it, and that
    [dirlookup], [namei] and [nameiparent] find exactly that. *)

From S2P Require Import Prelude Machine Kstate Logic Strings Sched Kalloc Vm VmSpec Printf Bio BioSpec BlockStore Log LogData LogSpec Fs FsData FsRead FsInode.

(** ** Directories *)

Abbreviation DE := (Z.to_nat DIRENT_SIZE).

Definition entry_at (c : list Z) (k : nat) : dirent := decode_dirent (slice c (DE * k) DE).

(** The entry is in use and has the name. *)
Definition matches (name : list Z) (d : dirent) : bool := negb (de_inum d =? 0) && (namecmp name (de_name d) =? 0).

(** The first match among the entries [k .. k + n - 1]. *)
Fixpoint find_entry (c name : list Z) (k n : nat) : option nat :=
  match n with
  | O => None
  | S n => if matches name (entry_at c k) then Some k else find_entry c name (S k) n
  end.

(** The inode a directory with the bytes [c] has under the name. *)
Definition dir_lookup (c name : list Z) : option Z :=
  k ← find_entry c name 0 (length c / DE); Some (de_inum (entry_at c k)).

(** ** Trees *)

(** The files of the disk: type and bytes of each inode.  Every inode in the tree
    is linked, and what a directory of the tree names is in the tree. *)
Record disk_tree (V : gmap Z (list Z)) (sb : superblock) (F : gmap Z (Z * list Z)) : Prop := {
  dt_file : ∀ k ty c, F !! k = Some (ty, c) → disk_file V sb k c;
  dt_type : ∀ k ty c, F !! k = Some (ty, c) → d_type (disk_inode V sb k) = ty ∧ d_nlink (disk_inode V sb k) ≠ 0;
  dt_dir : ∀ k c, F !! k = Some (T_DIR, c) → (length c mod DE = 0)%nat;
  dt_closed : ∀ k c name j, F !! k = Some (T_DIR, c) → dir_lookup c name = Some j → is_Some (F !! j);
}.

(** The inode that the elements [es] lead to from inode [k]. *)
Fixpoint resolve (F : gmap Z (Z * list Z)) (k : Z) (es : list (list Z)) : option Z :=
  match es with
  | [] => Some k
  | e :: es =>
      match F !! k with
      | Some (ty, c) => if ty =? T_DIR then j ← dir_lookup c (take DIRSIZ e); resolve F j es else None
      | None => None
      end
  end.

(** The directory of the last element, and that element. *)
Fixpoint resolve_parent (F : gmap Z (Z * list Z)) (k : Z) (es : list (list Z)) : option (Z * list Z) :=
  match es with
  | [] => None
  | e :: es =>
      match F !! k with
      | Some (ty, c) =>
          if ty =? T_DIR then
            match es with
            | [] => Some (k, take DIRSIZ e)
            | _ => j ← dir_lookup c (take DIRSIZ e); resolve_parent F j es
            end
          else None
      | None => None
      end
  end.

Lemma find_entry_skip c name k n m : (∀ j, (k ≤ j < k + n)%nat → matches name (entry_at c j) = false) →
  find_entry c name k (n + m) = find_entry c name (k + n) m.
Proof.
  revert k. induction n as [|n IH]; intros k H; simpl; [by rewrite Nat.add_0_r |].
  rewrite H by lia. rewrite IH by (intros; apply H; lia). f_equal. lia.
Qed.

Lemma path_elems_length p : (length (path_elems p) ≤ length p)%nat.
Proof.
  unfold path_elems. induction p as [|c p IH]; [done |]. cbn [split_slash]. destruct (c =? SLASH).
  - rewrite filter_cons_False by naive_solver. simpl. lia.
  - destruct (split_slash p) as [|w ws] eqn:Es; [by apply split_slash_ne in Es |].
    rewrite filter_cons_True by done. rewrite filter_cons in IH. simpl. case_decide; simpl in IH; lia.
Qed.

Section paths.
Context {L : Layout} {E : Env} (dev pid : Z).

Lemma local_sink data s : sink DLocal data (λ _ s', bio_frame s s') (λ _ _, False).
Proof.
  split; [done | | done |].
  - intros k s1 s2 H1 H2. by etransitivity.
  - intros k m s1 _ _ H. apply wp_ret. split; [by destruct s1 | by left].
Qed.

(** [readi] into a variable of the kernel. *)
Lemma readi_local_wp t ip x c off n s (Q : Z * list Z → kstate → Prop) : readable t → stored dev pid t s → k_itable s !! ip = Some x →
  i_dev x = dev → i_size x = Z.of_nat (length c) → file_in (st_view t) (i_addrs x) c → 0 ≤ off < 2 ^ 32 → 0 ≤ n < 2 ^ 32 →
  (∀ s', stored dev pid t s' → bio_frame s s' → Q (Z.of_nat (length (read_data c off n)), read_data c off n) s') →
  wp (readi ip DLocal off n) Q s.
Proof.
  intros Hr Hs Hx Hd Hsz Hf Hoff Hn HQ. eapply wp_mono.
  - eapply (readi_wp dev pid t ip x c DLocal off n (λ _ s', bio_frame s s') (λ _ _, False)); try done. apply local_sink.
  - intros [r bs] s' (Hs' & _ & [(-> & -> & Hf') | (_ & k & _ & [])]). by apply HQ.
Qed.

Lemma read_entry c k : (length c mod DE = 0)%nat → (k < length c / DE)%nat → Z.of_nat (length c) < 2 ^ 31 →
  read_data c (Z.of_nat (DE * k)) DIRENT_SIZE = slice c (DE * k) DE ∧ length (slice c (DE * k) DE) = DE.
Proof.
  intros Hm Hk Hc. assert (DE = 16%nat ∧ DIRENT_SIZE = 16) as [ED ED'] by done. pose proof (Nat.div_mod_eq (length c) DE) as Hdm.
  split; [| unfold slice; rewrite length_take, length_drop; lia].
  unfold read_data. rewrite (proj2 (Z.ltb_ge _ _)), (proj2 (Z.leb_gt _ _)) by lia. simpl. by rewrite Nat2Z.id.
Qed.

Lemma dirlookup_wp t R fr lk dp x c name s (Q : option (nat * Z) → kstate → Prop) : readable t → fs_is dev pid t R fr lk s →
  k_itable s !! dp = Some x → i_type x = T_DIR → 0 < i_ref x → i_dev x = dev → i_size x = Z.of_nat (length c) → file_in (st_view t) (i_addrs x) c →
  (length c mod DE = 0)%nat → (∀ j, dir_lookup c name = Some j → R (dev, j) = 0 → (0 < fr)%nat) →
  match find_entry c name 0 (length c / DE) with
  | None => ∀ s', fs_is dev pid t R fr lk s' → ino_frame s s' → k_itable s' = k_itable s → Q None s'
  | Some k => let j := de_inum (entry_at c k) in
      ∀ ip y s', fs_is dev pid t (upd R (dev, j) (R (dev, j) + 1)) (fr - is_zero (R (dev, j))) lk s' → ino_frame s s' →
        k_itable s' !! ip = Some y → key y = (dev, j) → 0 < i_ref y →
        (∀ i z, k_itable s !! i = Some z → 0 < i_ref z → kept (k_itable s) (k_itable s') i) → Q (Some (ip, Z.of_nat (DE * k))) s'
  end → wp (dirlookup dp name) Q s.
Proof.
  intros Hr H Hx Hty Hp Hdev Hsz Hf Hm Hfree HQ. assert (DE = 16%nat ∧ DIRENT_SIZE = 16) as [ED ED'] by done.
  assert (Z.of_nat (length c) < 2 ^ 31) as Hmax by (pose proof (fi_max _ _ _ Hf); pose proof maxfile_bytes; lia).
  pose proof (Nat.div_mod_eq (length c) DE) as Hdm. set (N := (length c / DE)%nat) in *.
  unfold dirlookup. apply wp_bind. eapply get_inode_wp; [done |]. rewrite Hty. cbn [negb Z.eqb T_DIR Pos.eqb].
  eapply (wp_loop (λ off s', ∃ k, off = Z.of_nat (DE * k) ∧ (k ≤ N)%nat ∧ (∀ j, (j < k)%nat → matches name (entry_at c j) = false) ∧
    stored dev pid t s' ∧ ino_frame s s' ∧ k_itable s' = k_itable s) (λ off, (N - Z.to_nat off / DE)%nat)).
  2: { exists 0%nat. split; [lia |]. split; [lia |]. split; [lia |]. split; [apply H | done]. }
  2: { rewrite Hsz. change (Z.to_nat 0 / DE)%nat with 0%nat. replace (Z.of_nat (length c) / DIRENT_SIZE) with (Z.of_nat N) by (unfold N; by rewrite Nat2Z.inj_div). lia. }
  intros off s1 (k & -> & Hk & Hno & Hs1 & F1 & I1). apply wp_bind. eapply get_inode_wp; [by rewrite I1 |]. rewrite Hsz.
  destruct (Z.ltb_spec (Z.of_nat (DE * k)) (Z.of_nat (length c))) as [Hlt | Hge].
  - assert (k < N)%nat as HkN by lia. destruct (read_entry c k Hm HkN Hmax) as [Erd Hlen].
    apply wp_bind. eapply (readi_local_wp t dp x c); [done | done | by rewrite I1 | done | done | done | lia | lia |].
    intros s2 Hs2 F2. destruct (bio_ino_frame _ _ F2) as [F2' I2]. rewrite Erd, Hlen. cbn [negb Z.eqb]. rewrite Z2Nat.id, Z.eqb_refl by lia. cbn [negb].
    fold (entry_at c k). assert (ino_frame s s2) as F12 by (by etransitivity). rewrite I1 in I2.
    assert (matches name (entry_at c k) = false → ∀ off', off' = u32 (Z.of_nat (DE * k) + DIRENT_SIZE) →
      (∃ k', off' = Z.of_nat (DE * k') ∧ (k' ≤ N)%nat ∧ (∀ j, (j < k')%nat → matches name (entry_at c j) = false) ∧
        stored dev pid t s2 ∧ ino_frame s s2 ∧ k_itable s2 = k_itable s) ∧
      (N - Z.to_nat off' / DE < N - Z.to_nat (Z.of_nat (DE * k)) / DE)%nat) as Hnext.
    { intros Hnm off' ->. rewrite u32_small by lia. replace (Z.of_nat (DE * k) + DIRENT_SIZE) with (Z.of_nat (DE * S k)) by lia. split.
      - exists (S k). split; [done |]. split; [lia |]. split; [| done]. intros j Hj. destruct (decide (j = k)) as [-> |]; [done | apply Hno; lia].
      - rewrite !Nat2Z.id, !(Nat.mul_comm DE), !Nat.div_mul by lia. lia. }
    unfold matches in Hnext at 1. destruct (de_inum (entry_at c k) =? 0) eqn:E0; [apply wp_ret; by apply Hnext |].
    destruct (namecmp name (de_name (entry_at c k)) =? 0) eqn:En; [| apply wp_ret; by apply Hnext].
    assert (find_entry c name 0 N = Some k) as Hfd.
    { replace N with (k + S (N - S k))%nat by lia. rewrite find_entry_skip by (intros; apply Hno; lia). simpl. unfold matches. by rewrite E0, En. }
    rewrite Hfd in HQ. cbv zeta in HQ. rewrite Hdev. apply wp_bind. eapply (iget_wp dev pid t R fr lk); [by eapply fs_is_bio | |].
    + apply Hfree. unfold dir_lookup. fold N. by rewrite Hfd.
    + intros ip y s3 H3 F3 Hy Hky Hry Hkept. apply wp_ret. apply (HQ ip y s3); [done | by etransitivity | done | done | done |].
      intros i z Hz Hpz. rewrite <-I2. eapply Hkept; [rewrite I2; exact Hz | done].
  - apply wp_ret. assert (k = N) as -> by lia. assert (find_entry c name 0 N = None) as Hfd.
    { rewrite <-(Nat.add_0_r N). rewrite find_entry_skip by (intros; apply Hno; lia). done. }
    rewrite Hfd in HQ. apply HQ; [by eapply fs_is_bio | done | done].
Qed.

(** Unlocking and dropping an inode with links. *)
Lemma iunlockput_wp t R fr ip x s (Q : unit → kstate → Prop) : fs_is dev pid t R fr (Some ip) s → k_itable s !! ip = Some x → 0 < i_ref x →
  i_nlink x ≠ 0 →
  (∀ s', fs_is dev pid t (upd R (key x) (R (key x) - 1)) (fr + is_zero (R (key x) - 1)) None s' → ino_frame s s' →
     (∀ j z, k_itable s !! j = Some z → 0 < i_ref z → (j = ip → 1 < i_ref z) →
        ∃ z', k_itable s' !! j = Some z' ∧ key z' = key z ∧ 0 < i_ref z') → Q tt s') →
  wp (iunlockput ip) Q s.
Proof.
  intros H Hx Hp Hn HQ. pose proof (lookup_lt_Some _ _ _ Hx) as Hlt. unfold iunlockput. apply wp_bind.
  eapply (iunlock_table_wp dev pid t); [done | done | done |]. intros s1 H1 F1 I1.
  assert (k_itable s1 !! ip = Some (unlocked x)) as Hx1 by (rewrite I1; by apply list_lookup_insert_eq).
  eapply (iput_wp dev pid t); [done | done | done | done |]. intros s2 H2 F2 Hk2. apply HQ; [done | by etransitivity |].
  intros j z Hz Hpz Hj. destruct (decide (j = ip)) as [-> | Hne].
  - assert (z = x) as -> by congruence. destruct (Hk2 ip _ Hx1 Hpz Hj _ Hx1) as (z' & Hz' & Hp' & Ez'). exists z'. split; [done |]. split; [by rewrite Ez' | done].
  - assert (k_itable s1 !! j = Some z) as Hz1 by (rewrite I1; by rewrite list_lookup_insert_ne).
    destruct (Hk2 j _ Hz1 Hpz ltac:(done) _ Hz1) as (z' & Hz' & Hp' & Ez'). exists z'. split; [done |]. split; [by rewrite Ez' | done].
Qed.

(** The references after walking from [k] to [j]. *)
Lemma hop_refs (R : Z * Z → Z) fr k j : (∀ k, 0 ≤ R k) → (2 ≤ fr)%nat →
  let R1 := upd R k (R k + 1) in let R2 := upd R1 j (R1 j + 1) in
  (∀ k', upd R j (R j + 1) k' = upd R2 k (R2 k - 1) k') ∧
  (fr - is_zero (R k) - is_zero (R1 j) + is_zero (R2 k - 1) = fr - is_zero (R j))%nat.
Proof.
  intros HR Hfr. pose proof (HR k). pose proof (HR j). unfold upd, is_zero. split; [intros k' |]; repeat case_decide; subst; try done; lia.
Qed.

Lemma back_refs (R : Z * Z → Z) fr k : (∀ k, 0 ≤ R k) → (2 ≤ fr)%nat → let R1 := upd R k (R k + 1) in
  (∀ k', R k' = upd R1 k (R1 k - 1) k') ∧ (fr - is_zero (R k) + is_zero (R1 k - 1) = fr)%nat.
Proof.
  intros HR Hfr. pose proof (HR k). unfold upd, is_zero. split; [intros k' |]; repeat case_decide; subst; try done; lia.
Qed.

Lemma fs_is_ext t R R' fr fr' lk s : (∀ k, R' k = R k) → fr = fr' → fs_is dev pid t R fr lk s → fs_is dev pid t R' fr' lk s.
Proof. intros HR <- [Hs Ht]. split; [done | by eapply itable_ext]. Qed.

Section walk.
Context (t : store) (R : Z * Z → Z) (fr : nat) (F : gmap Z (Z * list Z)) (s0 : kstate).
Hypotheses (Hread : readable t) (HR : ∀ k, 0 ≤ R k) (Hfr : (2 ≤ fr)%nat) (Htree : disk_tree (st_view t) (k_sb s0) F).

(** Entry [ip] is a reference to inode [k], the only one that was added. *)
Definition at_inode (k : Z) (ip : nat) (s : kstate) : Prop :=
  fs_is dev pid t (upd R (dev, k) (R (dev, k) + 1)) (fr - is_zero (R (dev, k))) None s ∧ ino_frame s0 s ∧
  ∃ x, k_itable s !! ip = Some x ∧ key x = (dev, k) ∧ 0 < i_ref x.

(** The outcome of a search. *)
Definition found (o : option Z) (r : option nat) (s : kstate) : Prop :=
  match o with
  | Some j => ∃ ip, r = Some ip ∧ at_inode j ip s
  | None => r = None ∧ fs_is dev pid t R fr None s ∧ ino_frame s0 s
  end.

(** Inode [k] is locked and holds [c]. *)
Definition locked_at (k : Z) (ty : Z) (c : list Z) (ip : nat) (s : kstate) : Prop :=
  fs_is dev pid t (upd R (dev, k) (R (dev, k) + 1)) (fr - is_zero (R (dev, k))) (Some ip) s ∧ ino_frame s0 s ∧
  ∃ x, k_itable s !! ip = Some x ∧ key x = (dev, k) ∧ 0 < i_ref x ∧ i_type x = ty ∧ i_nlink x ≠ 0 ∧
    i_size x = Z.of_nat (length c) ∧ file_in (st_view t) (i_addrs x) c.

Lemma sb_frame s : ino_frame s0 s → k_sb s = k_sb s0.
Proof. intros [H _]. by rewrite H. Qed.

Lemma ilock_walk k ty c ip s (Q : unit → kstate → Prop) : at_inode k ip s → F !! k = Some (ty, c) →
  (∀ s', locked_at k ty c ip s' → Q tt s') → wp (ilock (Some ip)) Q s.
Proof.
  intros (H & Hf & x & Hx & Hk & Hp) HF HQ. assert (i_dev x = dev ∧ i_inum x = k) as [Ed Ei] by (by injection Hk).
  destruct (dt_type _ _ _ Htree _ _ _ HF) as [Hty Hnl].
  eapply (ilock_table_wp dev pid t _ _ ip x c); [done | done | done | done | done | rewrite sb_frame, Ei by done; by eapply dt_file |].
  intros s' x' H' Hf' Hx' Hk' Hr' Hl Hsz Hfi. rewrite (sb_frame s Hf), Ei in Hl. destruct (loaded_fields _ _ Hl) as (E1 & E2 & _ & _).
  apply HQ. split; [done |]. split; [by etransitivity |]. exists x'. rewrite Hr', Hk', E1, E2. done.
Qed.

(** Leaving an inode. *)
Lemma leave_walk k ty c ip s (Q : unit → kstate → Prop) : locked_at k ty c ip s →
  (∀ s', fs_is dev pid t R fr None s' → ino_frame s0 s' → Q tt s') → wp (iunlockput ip) Q s.
Proof.
  intros (H & Hf & x & Hx & Hk & Hp & _ & Hn & _ & _) HQ. eapply iunlockput_wp; [done | done | done | done |].
  intros s' H' Hf' _. rewrite Hk in H'. destruct (back_refs R fr (dev, k) HR Hfr) as [B1 B2].
  apply HQ; [| by etransitivity]. by eapply (fs_is_ext t _ _ _ _ _ _ B1 B2).
Qed.
Lemma drop_walk k ty c ip s (Q : unit → kstate → Prop) : at_inode k ip s → F !! k = Some (ty, c) →
  (∀ s', fs_is dev pid t R fr None s' → ino_frame s0 s' → Q tt s') → wp (iput ip) Q s.
Proof.
  intros (H & Hf & x & Hx & Hk & Hp) HF HQ. assert (i_dev x = dev ∧ i_inum x = k) as [Ed Ei] by (by injection Hk).
  destruct (dt_type _ _ _ Htree _ _ _ HF) as [Hty Hnl]. eapply (iput_wp dev pid t); [done | done | done | |].
  - intros _ Hv. pose proof (it_load _ _ _ _ _ _ _ _ (fi_table _ _ _ _ _ _ _ H) _ _ Hx Hp Ed Hv) as Hl.
    rewrite (sb_frame s Hf), Ei in Hl. destruct (loaded_fields _ _ Hl) as (_ & -> & _ & _). done.
  - intros s' H' Hf' _. rewrite Hk in H'. destruct (back_refs R fr (dev, k) HR Hfr) as [B1 B2].
    apply HQ; [| by etransitivity]. by eapply (fs_is_ext t _ _ _ _ _ _ B1 B2).
Qed.

(** Stepping from a directory to one of its entries. *)
Lemma step_walk k c name ip s (Q : option (nat * Z) → kstate → Prop) : locked_at k T_DIR c ip s → F !! k = Some (T_DIR, c) →
  (dir_lookup c name = None → ∀ s', locked_at k T_DIR c ip s' → Q None s') →
  (∀ j next off s', dir_lookup c name = Some j → (∀ Q' : unit → kstate → Prop, (∀ s'', at_inode j next s'' → Q' tt s'') → wp (iunlockput ip) Q' s') →
     Q (Some (next, off)) s') → wp (dirlookup ip name) Q s.
Proof.
  intros (H & Hf & x & Hx & Hk & Hp & Hty & Hn & Hsz & Hfi) HF Hnone Hsome. assert (i_dev x = dev ∧ i_inum x = k) as [Ed Ei] by (by injection Hk).
  eapply (dirlookup_wp t _ _ _ ip x c name); [done | done | done | done | done | done | done | done | by eapply dt_dir | |].
  { intros j _ _. unfold is_zero. case_decide; lia. }
  unfold dir_lookup in *. destruct (find_entry c name 0 (length c / DE)) as [i|] eqn:Ei'; cbn [mbind option_bind] in *.
  - cbv zeta. set (j := de_inum (entry_at c i)) in *. intros next y s' H' F' Hy Hky Hry Hkept. apply (Hsome j); [done |].
    intros Q' HQ'. destruct (Hkept _ _ Hx Hp _ Hx) as (x' & Hx' & Hp' & Ex').
    assert (key x' = (dev, k) ∧ i_nlink x' ≠ 0) as [Hk' Hn'] by (rewrite Ex'; done).
    eapply iunlockput_wp; [done | done | done | done |]. intros s'' H'' F'' Hk''. apply HQ'. rewrite Hk' in H''.
    destruct (hop_refs R fr (dev, k) (dev, j) HR Hfr) as [B1 B2]. split; [by eapply (fs_is_ext t _ _ _ _ _ _ B1 B2) |].
    split; [do 2 (etransitivity; [done |]); done |]. destruct (Hk'' next y Hy Hry) as (z & Hz & Hkz & Hpz); [| exists z; by rewrite Hkz].
    intros ->. assert (y = x') as -> by congruence. rewrite <-(it_refs _ _ _ _ _ _ _ _ (fi_table _ _ _ _ _ _ _ H') _ _ Hy Hry), Hk'.
    rewrite Hk' in Hky. injection Hky as <-. pose proof (HR (dev, k)). unfold upd. rewrite !decide_True by done. lia.
  - intros s' H' F' I'. apply Hnone; [done |]. split; [done |]. split; [by etransitivity |]. exists x. rewrite I'. done.
Qed.

(** The body of the loop of [namex]. *)
Definition namex_round (nameiparent : bool) : nat * list Z * list Z → K (nat * list Z * list Z + option (nat * list Z)) :=
  fun '(ip, path, name) =>
    match skipelem path with
    | None => if nameiparent then iput ip;; ret (inr None) else ret (inr (Some (ip, name)))
    | Some (path, name) =>
        ilock (Some ip);;
        x ← get_inode ip;
        if negb (i_type x =? T_DIR) then iunlockput ip;; ret (inr None)
        else if nameiparent && (deref path =? 0) then iunlock (Some ip);; ret (inr (Some (ip, name)))
        else
          next ← dirlookup ip name;
          match next with
          | None => iunlockput ip;; ret (inr None)
          | Some (next, _) => iunlockput ip;; ret (inl (next, path, name))
          end
    end.

(** What the walk from [k] is to return. *)
Definition outcome (nameiparent : bool) (k : Z) (es : list (list Z)) (r : option (nat * list Z)) (s : kstate) : Prop :=
  if nameiparent then found (fst <$> resolve_parent F k es) (fst <$> r) s ∧ snd <$> r = snd <$> resolve_parent F k es
  else found (resolve F k es) (fst <$> r) s.

Lemma outcome_none b k es s : fs_is dev pid t R fr None s → ino_frame s0 s → resolve F k es = None → resolve_parent F k es = None →
  outcome b k es None s.
Proof. intros H Hf H1 H2. unfold outcome. rewrite H1, H2. by destruct b. Qed.

Lemma namex_loop b n : ∀ es path name k ip s (Q : option (nat * list Z) → kstate → Prop), (length es < n)%nat → Forall (λ c, c ≠ 0) path →
  path_elems path = es → at_inode k ip s → is_Some (F !! k) → (∀ r s', outcome b k es r s' → Q r s') →
  wp (loop n (namex_round b) (ip, path, name)) Q s.
Proof.
  induction n as [|n IH]; intros es path name k ip s Q Hn Hp He Hat [[ty c] HF] HQ; [lia |].
  apply wp_loop_S. unfold namex_round. pose proof (skipelem_walks_path path Hp) as Hsk. rewrite He in Hsk. destruct es as [|e es].
  - rewrite Hsk. destruct b.
    + apply wp_bind. eapply drop_walk; [done | done |]. intros s' H' F'. apply wp_ret, HQ. unfold outcome. done.
    + apply wp_ret, HQ. exists ip. done.
  - destruct Hsk as (rest & -> & Hes & Hrest & Hhd). apply wp_bind. eapply ilock_walk; [done | done |]. intros s1 H1.
    pose proof H1 as (H & Hf & x & Hx & Hk & Hpx & Hty & Hnl & Hsz & Hfi). apply wp_bind. eapply get_inode_wp; [done |]. rewrite Hty.
    destruct (Z.eqb_spec ty T_DIR) as [-> | Hnd].
    2: { apply wp_bind. eapply leave_walk; [done |]. intros s' H' F'. apply wp_ret, HQ. apply Z.eqb_neq in Hnd.
         apply outcome_none; [done | done | |]; simpl; by rewrite HF, Hnd. }
    cbn [negb]. assert (b && (deref rest =? 0) = true ↔ b = true ∧ es = []) as Hstop.
    { destruct rest as [|ch rest]; [subst es; simpl; rewrite andb_true_r; naive_solver |]. destruct Hhd as [_ Hne].
      inversion Hrest; subst. cbn [deref]. rewrite (proj2 (Z.eqb_neq ch 0)) by done. rewrite andb_false_r. naive_solver. }
    destruct (b && (deref rest =? 0)) eqn:Eb.
    { destruct Hstop as [[-> Hes0] _]; [done |]. apply wp_bind. eapply (iunlock_table_wp dev pid t); [exact H | done | done |]. intros s' H' F' I'. apply wp_ret, HQ.
      unfold outcome. simpl. rewrite HF, Hes0. split; [| done]. exists ip. split; [done |]. split; [done |]. split; [by etransitivity |].
      exists (unlocked x). rewrite I'. split; [apply list_lookup_insert_eq; by eapply lookup_lt_Some | done]. }
    assert (b = true → es ≠ []) as Hgo by (intros Hb Hes0; discriminate (proj2 Hstop (conj Hb Hes0))). apply wp_bind. eapply step_walk; [done | done | |].
    + intros Hnone s2 H2. apply wp_bind. eapply leave_walk; [done |]. intros s' H' F'. apply wp_ret, HQ.
      unfold outcome. destruct b; simpl; rewrite HF, Hnone; cbn; [| done]. destruct es; [by destruct Hgo | done].
    + intros j next off s2 Hj Hdrop. apply wp_bind, Hdrop. intros s3 H3. apply wp_ret.
      eapply (IH es); [simpl in Hn; lia | done | exact Hes | done | by eapply dt_closed |]. intros r s' Hr. apply HQ. revert Hr.
      unfold outcome. destruct b; simpl; rewrite HF, Hj; cbn; [| done]. destruct es; [by destruct Hgo | done].
Qed.
End walk.

Lemma namex_unfold path b : namex path b =
  (ip ← (if deref path =? SLASH then iget ROOTDEV ROOTINO else p ← curproc; pr ← get_proc p; cwd ← nonnull (p_cwd pr); idup cwd);
   loop (S (length path)) (namex_round b) (ip, path, [])).
Proof. done. Qed.

Lemma refs_nonneg t R fr lk s : fs_is dev pid t R fr lk s → ∀ k, 0 ≤ R k.
Proof.
  intros [_ Ht] k. destruct (decide (R k = 0)); [lia |]. destruct (it_has _ _ _ _ _ _ _ _ Ht k) as (i & x & Hx & Hp & Hk); [done |].
  rewrite <-Hk, (it_refs _ _ _ _ _ _ _ _ Ht _ _ Hx Hp). lia.
Qed.

(** The inode at which the search for [path] starts: the root, or the current
    directory of the process. *)
Definition starts_at (path : list Z) (k : Z) (s : kstate) : Prop :=
  if deref path =? SLASH then dev = ROOTDEV ∧ k = ROOTINO
  else ∃ p pr cwd x, k_cur s = Some p ∧ k_procs s !! p = Some pr ∧ p_cwd pr = Some cwd ∧
    k_itable s !! cwd = Some x ∧ key x = (dev, k) ∧ 0 < i_ref x.

Lemma namex_wp t R fr F path b k s : readable t → fs_is dev pid t R fr None s → (2 ≤ fr)%nat → disk_tree (st_view t) (k_sb s) F →
  Forall (λ c, c ≠ 0) path → starts_at path k s → is_Some (F !! k) → wp (namex path b) (outcome t R fr F s b k (path_elems path)) s.
Proof.
  intros Hr H Hfr Htr Hp Hst HF. pose proof (refs_nonneg _ _ _ _ _ H) as HR. rewrite namex_unfold. apply wp_bind.
  assert (∀ ip s1, at_inode t R fr s k ip s1 → wp (loop (S (length path)) (namex_round b) (ip, path, [])) (outcome t R fr F s b k (path_elems path)) s1) as Hgo.
  { intros ip s1 H1. eapply (namex_loop t R fr F s); try done. pose proof (path_elems_length path). lia. }
  unfold starts_at in Hst. destruct (deref path =? SLASH).
  - destruct Hst as [<- ->]. eapply (iget_wp dev pid t); [done | lia |]. intros ip x s1 H1 F1 Hx Hk Hpx _. apply Hgo. split; [done |]. split; [done |]. eauto.
  - destruct Hst as (p & pr & cwd & x & Hc & Hpr & Hcwd & Hx & Hk & Hpx).
    apply wp_bind. eapply wp_done; [by apply curproc_done |]. apply wp_bind. eapply wp_done; [by apply get_proc_done |]. apply wp_bind.
    apply (wp_must _ _ cwd); [done |]. eapply (idup_wp dev pid t); [done | done | done |]. intros s1 H1 F1 I1. apply Hgo. rewrite Hk in H1. split.
    + replace (fr - is_zero (R (dev, k)))%nat with fr; [done |]. rewrite <-Hk, (it_refs _ _ _ _ _ _ _ _ (fi_table _ _ _ _ _ _ _ H) _ _ Hx Hpx), is_zero_ne by lia. lia.
    + split; [done |]. exists (x <| i_ref := i_ref x + 1 |>). rewrite I1. split; [apply list_lookup_insert_eq; by eapply lookup_lt_Some |]. split; [done | simpl; lia].
Qed.
End paths.

(** ** The bytes behind a path *)

Definition load_file {L : Layout} {E : Env} (path : list Z) : K (option (list Z)) :=
  ip ← namei path;
  match ip with
  | None => ret None
  | Some ip =>
      ilock (Some ip);;
      x ← get_inode ip;
      '(_, bs) ← readi ip DLocal 0 (i_size x);
      iunlockput ip;;
      ret (Some bs)
  end.

Lemma resolve_in V sb F k es j : disk_tree V sb F → is_Some (F !! k) → resolve F k es = Some j → is_Some (F !! j).
Proof.
  intros Ht. revert k. induction es as [|e es IH]; intros k Hk; simpl; [by intros [= <-] |].
  destruct Hk as [[ty c] HF]. rewrite HF. destruct (Z.eqb_spec ty T_DIR) as [-> |]; [| done].
  destruct (dir_lookup c (take DIRSIZ e)) as [i|] eqn:Ei; [| done]. simpl. apply IH. by eapply dt_closed.
Qed.

Lemma load_file_wp {L : Layout} {E : Env} dev pid t R fr F path k s : readable t → fs_is dev pid t R fr None s → (2 ≤ fr)%nat →
  disk_tree (st_view t) (k_sb s) F → Forall (λ c, c ≠ 0) path → starts_at dev path k s → is_Some (F !! k) →
  wp (load_file path) (λ r s', r = (j ← resolve F k (path_elems path); snd <$> F !! j) ∧ fs_is dev pid t R fr None s' ∧ ino_frame s s') s.
Proof.
  intros Hr H Hfr Htr Hp Hst HF. pose proof (refs_nonneg _ _ _ _ _ _ _ H) as HR. unfold load_file. apply wp_bind. unfold namei. apply wp_bind.
  eapply wp_mono; [by apply (namex_wp dev pid t R fr F path false k) |]. intros r s1 Ho. apply wp_ret. unfold outcome in Ho.
  destruct (resolve F k (path_elems path)) as [j|] eqn:Ej; simpl in Ho.
  2: { destruct Ho as (-> & H1 & F1). by apply wp_ret. }
  destruct Ho as (ip & -> & Hat). destruct (resolve_in _ _ _ _ _ _ Htr HF Ej) as [[ty c] HFj].
  apply wp_bind. eapply (ilock_walk dev pid t R fr F s); [done.. |]. intros s2 H2.
  pose proof H2 as (G & Gf & x & Hx & Hk & Hpx & Hty & Hnl & Hsz & Hfi). assert (i_dev x = dev) as Hd by (by injection Hk).
  assert (Z.of_nat (length c) < 2 ^ 31) as Hmax by (pose proof (fi_max _ _ _ Hfi); pose proof maxfile_bytes; lia).
  apply wp_bind. eapply get_inode_wp; [done |]. apply wp_bind. rewrite Hsz.
  eapply (readi_local_wp dev pid t ip x c); [done | apply G | done | done | done | done | lia | lia |]. intros s3 Hs3 F3.
  destruct (bio_ino_frame _ _ F3) as [F3' I3]. apply wp_bind.
  eapply (leave_walk dev pid t R fr s HR Hfr j ty c).
  - split; [by eapply fs_is_bio |]. split; [by etransitivity |]. exists x. rewrite I3. done.
  - intros s4 H4 F4. apply wp_ret. split; [| done]. cbn [mbind option_bind]. rewrite HFj. cbn. f_equal.
    unfold read_data. rewrite (proj2 (Z.ltb_ge _ _)), (proj2 (Z.leb_gt _ _)) by lia. simpl. unfold slice. rewrite drop_0, Nat2Z.id. apply firstn_all.
Qed.

(** ** Theorems *)

(** C9: [namei] and [nameiparent] find what a path names.  The disk holds the
    tree of files [F]; the elements of the path, cut to [DIRSIZ] bytes, are
    followed from the root or from the current directory through the directories
    of the tree.  [namei] returns an entry of the inode table for the inode the
    path leads to, with one reference more than before, and fails exactly if an
    element is missing or what is to be searched is no directory.  [nameiparent]
    returns the directory of the last element and that element.  No reference, no
    lock and no change of the disk is left behind, on any outcome. *)
Theorem namei_finds_path {L : Layout} {E : Env} dev pid t R fr F path k s :
  readable t → fs_is dev pid t R fr None s → (2 ≤ fr)%nat → disk_tree (st_view t) (k_sb s) F →
  Forall (λ c, c ≠ 0) path → starts_at dev path k s → is_Some (F !! k) →
  (∃ r s', namei path s = Done r s' ∧ found dev pid t R fr s (resolve F k (path_elems path)) r s') ∧
  (∃ r s', nameiparent path s = Done r s' ∧ found dev pid t R fr s (fst <$> resolve_parent F k (path_elems path)) (fst <$> r) s' ∧
     snd <$> r = snd <$> resolve_parent F k (path_elems path)).
Proof.
  intros Hr H Hfr Htr Hp Hst HF. split.
  - destruct (wp_elim _ _ _ (namex_wp dev pid t R fr F path false k s Hr H Hfr Htr Hp Hst HF)) as (r & s' & Hrun & Ho).
    exists (fst <$> r), s'. split; [| exact Ho]. unfold namei. by rewrite (bind_done _ _ _ _ _ Hrun).
  - destruct (wp_elim _ _ _ (namex_wp dev pid t R fr F path true k s Hr H Hfr Htr Hp Hst HF)) as (r & s' & Hrun & Ho & Hn).
    exists r, s'. done.
Qed.
