(* ===== verification/Mount.v ===== *)
(** * Mounting the file system (kernel/fs.c: fsinit)

    Reading the super block, replaying the log and looking for orphaned inodes. *)

From S2P Require Import Prelude Machine Kstate Logic Strings Sched Kalloc Vm Printf Bio BioSpec BlockStore Log LogData LogSpec Fs FsData FsRead FsInode.

(** The disk [d] can be mounted without reclaiming an inode: a super block, a log
    at [start], and after its replay no inode that is in use but has no link. *)
Record mountable (sb : superblock) (start : Z) (d : gmap Z (list Z)) : Prop := {
  mt_super : ∃ blk, d !! 1 = Some blk ∧ decode_superblock blk = sb;
  mt_magic : sb_magic sb = FSMAGIC;
  mt_start : i32 (sb_logstart sb) = start;
  mt_range : 0 ≤ start ∧ start + Z.of_nat LOGBLOCKS < 2 ^ 31;
  mt_log : ∃ h, log_valid start d h;
  mt_inode : ∀ i, 1 ≤ i < sb_ninodes sb → ¬ in_log start (IBLOCK i sb) ∧ is_Some (d !! IBLOCK i sb) ∧
    (d_type (disk_inode (replay start d) sb i) = 0 ∨ d_nlink (disk_inode (replay start d) sb i) ≠ 0);
}.

Section mount.
Context {L : Layout} {E : Env} (dev pid : Z).

Lemma stored_sb t s sb : stored dev pid t s → stored dev pid t (s <| k_sb := sb |>).
Proof. intros [[H1 H2 H3] H4 H5 H6]. split; [split |..]; done. Qed.

Lemma readsb_wp t blk s (Q : unit → kstate → Prop) : readable t → stored dev pid t s → st_view t !! 1 = Some blk →
  (∀ s', stored dev pid t s' → bio_frame (s <| k_sb := decode_superblock blk |>) s' → Q tt s') → wp (readsb dev) Q s.
Proof.
  intros Hr Hs Hb HQ. unfold readsb. apply wp_bind. eapply (bread_wp dev pid t); [done | done | done |]. intros bi s1 Hs1 [E1 W1].
  apply wp_bind. eapply (get_data_wp dev pid t); [done | done |]. intros x ->. apply wp_bind, wp_modify.
  eapply (fs_brelse_wp dev pid t); [done | by apply stored_sb |]. intros s2 Hs2 F2. apply HQ; [done |]. etransitivity; [| done].
  split; [rewrite E1; by destruct s | done].
Qed.

(** Without orphans the scan reads every inode and reclaims none. *)
Lemma ireclaim_wp t s : readable t → stored dev pid t s →
  (∀ i, 1 ≤ i < sb_ninodes (k_sb s) → is_Some (st_view t !! IBLOCK i (k_sb s)) ∧
    (d_type (disk_inode (st_view t) (k_sb s) i) = 0 ∨ d_nlink (disk_inode (st_view t) (k_sb s) i) ≠ 0)) →
  wp (ireclaim dev) (λ _ s', stored dev pid t s' ∧ bio_frame s s') s.
Proof.
  intros Hr Hs Hi. unfold ireclaim. apply wp_bind, wp_gets.
  apply (wp_for_seq (λ _ s', stored dev pid t s' ∧ bio_frame s s')); [done | | done].
  intros i s1 [Hs1 F1] Hin. destruct (Hi (Z.of_nat i)) as [[blk Hblk] Hno]; [lia |]. apply wp_bind.
  eapply (bread_wp dev pid t); [done | done | done |]. intros bi s2 Hs2 F2. apply wp_bind. eapply (get_data_wp dev pid t); [done | done |].
  intros x ->. cbv zeta. unfold disk_inode, content in Hno. rewrite Hblk in Hno. simpl default in Hno. set (dip := decode_dinode _) in *.
  assert (negb (d_type dip =? 0) && (d_nlink dip =? 0) = false) as ->.
  { destruct Hno as [-> | Hno%Z.eqb_neq]; [done |]. rewrite Hno. apply andb_false_r. }
  apply wp_bind, wp_ret, wp_bind. eapply (fs_brelse_wp dev pid t); [done | done |]. intros s3 Hs3 F3. apply wp_ret.
  split; [done |]. do 2 (etransitivity; [done |]). done.
Qed.

Lemma fsinit_wp t sb start d s : readable t → stored dev pid t s → st_view t = d → st_dirty t = ∅ → (2 ≤ st_free t)%nat →
  u32 dev = dev → mountable sb start d → length (lh_block (log_lh (k_log s))) = LOGBLOCKS → k_panicking s = 0 ∧ k_panicked s = 0 →
  wp (fsinit dev) (λ _ s', disk_frame (s <| k_sb := sb |>) s' ∧ log_holds dev start [] (k_log s') ∧
    same_data start (k_disk s') (replay start d) ∧
    ∃ t', stored dev pid t' s' ∧ readable t' ∧ st_view t' = k_disk s' ∧ st_dirty t' = ∅ ∧ (2 ≤ st_free t')%nat) s.
Proof.
  intros Hr Hs Hv Hd Hf Hdev [(blk & Hblk & Hsb) Hmg Hst Hrg [h Hlog] Hino] Hlh Hpan. unfold fsinit.
  apply wp_bind. eapply (readsb_wp t); [done | done | by rewrite Hv |]. rewrite Hsb. intros s1 Hs1 F1. apply wp_bind, wp_gets.
  assert (k_sb s1 = sb ∧ k_log s1 = k_log s ∧ k_panicking s1 = 0 ∧ k_panicked s1 = 0) as (Esb & El & Ep1 & Ep2) by (destruct F1 as [F1 _]; by rewrite F1).
  rewrite Esb, Hmg. cbn [negb Z.eqb]. rewrite Z.eqb_refl. cbn [negb]. unfold initlog.
  apply wp_bind, wp_bind, wp_modify, wp_bind, wp_modify. rewrite Hst.
  set (l2 := (k_log s1) <| log_start := start |> <| log_dev := dev |>). lazymatch goal with |- wp ?m ?Q _ => change (wp m Q (s1 <| k_log := l2 |>)) end.
  assert (stored dev pid t (s1 <| k_log := l2 |>)) as Hs2 by (by apply stored_log).
  eapply wp_mono; [apply (recover_wp dev pid start Hrg d h) |]; [| done |].
  { split; [exists t; by rewrite (rd_held _ Hr) | | done]. split; [done | done | simpl; by rewrite El]. }
  intros _ s3 (W3 & Hl3 & Hb3).
  assert (k_disk s1 = d) as Ed. { rewrite <-Hv. apply map_eq. intros b. apply (sd_clean _ _ _ _ Hs1). rewrite Hd. set_solver. }
  assert (same_data start (k_disk s3) (replay start d)) as Hsd.
  { rewrite (wrote_disk _ _ _ W3). simpl. rewrite Ed. by apply recovery_result. }
  destruct Hb3 as [(t3 & Hs3 & Hv3 & Hd3 & Hh3 & Hf3) _ _].
  assert (readable t3) as Hr3 by (split; [done | lia | rewrite Hd3; set_solver]).
  assert (disk_frame (s <| k_sb := sb |>) s3) as Hfr.
  { etransitivity; [by apply bio_disk_frame |]. etransitivity; [apply (log_disk_frame s1 l2) | apply W3]. }
  assert (k_sb s3 = sb) as Esb3 by (destruct Hfr as [Hfr _]; by rewrite Hfr).
  eapply wp_mono; [apply (ireclaim_wp t3); [done | done |] |].
  - rewrite Esb3, Hv3. intros i Hi. destruct (Hino i Hi) as (Hnl & Hsome & Hty). unfold disk_inode, content in *.
    rewrite (Hsd _ Hnl). split; [| done]. unfold replay. rewrite (lv_header _ _ _ Hlog). by apply apply_writes_is_Some.
  - intros _ s4 [Hs4 F4]. pose proof F4 as [E4 _]. split; [etransitivity; [done | by apply bio_disk_frame] |].
    split; [by rewrite E4 |]. split; [by rewrite E4 |]. exists t3. split; [done |]. split; [done |]. split; [by rewrite E4 | done].
Qed.
End mount.
