(* ===== verification/Console.v ===== *)
(** * The console and its UART (kernel/console.c, kernel/uart.c, procdump) *)

From S2P Require Import Prelude Machine Kstate Strings Sched Kalloc Vm Printf.

Definition INPUT_BUF_SIZE : nat := 128.
Definition Ctrl (x : Ascii.ascii) : Z := chr x - chr "@".
Arguments Ctrl _%_char.

Definition upd_cons (f : cons_t → cons_t) : K unit := modify (fun s => s <| k_cons ::= f |>).

(** [cons.buf[i % INPUT_BUF_SIZE]]. *)
Definition cons_slot (i : Z) : nat := Z.to_nat (i mod Z.of_nat INPUT_BUF_SIZE).
Definition get_cons_char (i : Z) : K Z :=
  c ← gets k_cons; must (cons_buf c !! cons_slot i) "cons.buf index".

Section console.
Context {L : Layout} {E : Env}.

Definition uartwrite (bs : list Z) : K unit :=
  acquire LkUart;;
  for_each bs (fun c =>
    wait_loop (fun _ : unit =>
      busy ← gets k_tx_busy;
      if negb (busy =? 0) then sleep ChUart LkUart;; ret (inl tt) else ret (inr tt)) tt;;
    modify (fun s => s <| k_uart_out ::= cons (u8 c) |>);;
    modify (fun s => s <| k_tx_busy := 1 |>));;
  release LkUart.

Definition consolewrite (src : msrc) (n : Z) : K Z :=
  loop (Z.to_nat (Z.max 0 n / 32 + 3)) (fun '(i, src) =>
    if i <? n then
      let nn := Z.min 32 (n - i) in
      '(bs, r) ← either_copyin src nn;
      if r =? -1 then ret (inr i)
      else
        uartwrite bs;;
        ret (inl (i + nn, match src with
                          | SUser va => SUser (u64 (va + nn))
                          | SLocal l => SLocal (drop (Z.to_nat nn) l)
                          end))
    else ret (inr i)) (0, src).

(** Wait for input; the next character, or -1 if the process was killed. *)
Definition console_getc : K Z :=
  wait_loop (fun _ : unit =>
    c ← gets k_cons;
    if cons_r c =? cons_w c then
      p ← curproc;
      k ← killed p;
      if negb (k =? 0) then release LkCons;; ret (inr (-1))
      else sleep ChCons LkCons;; ret (inl tt)
    else
      ch ← get_cons_char (cons_r c);
      upd_cons (fun c => c <| cons_r := u32 (cons_r c + 1) |>);;
      ret (inr ch)) tt.

Definition consoleread (dst : mdest) (n : Z) : K Z :=
  let target := u32 n in
  acquire LkCons;;
  r ← loop (S (Z.to_nat n)) (fun '(n, dst) =>
    if 0 <? n then
      c ← console_getc;
      if c =? -1 then ret (inr None)
      else if c =? Ctrl "D" then
        (if u32 n <? target then upd_cons (fun c => c <| cons_r := u32 (cons_r c - 1) |>)
         else ret tt);;
        ret (inr (Some n))
      else
        r ← either_copyout dst [c];
        if r =? -1 then ret (inr (Some n))
        else
          let dst := match dst with DUser va => DUser (u64 (va + 1))
                                  | DKernel pa => DKernel (pa + 1) | DLocal => DLocal end in
          if c =? 10 then ret (inr (Some (n - 1)))
          else ret (inl (n - 1, dst))
    else ret (inr (Some n))) (n, dst);
  match r with
  | None => ret (-1)
  | Some n => release LkCons;; ret (i32 (target - n))
  end.

Definition state_name (st : procstate) : list Z :=
  bytes_of_string
    match st with
    | UNUSED => "unused" | USED => "used" | SLEEPING => "sleep "
    | RUNNABLE => "runble" | RUNNING => "run   " | ZOMBIE => "zombie"
    end.

Definition procdump : K unit :=
  printf "
" [];;
  for_each (seq 0 NPROC) (fun i =>
    p ← get_proc i;
    if decide (p_state p = UNUSED) then ret tt
    else
      printf "%d %s %s" [VZ (p_pid p); VS (Some (state_name (p_state p))); VS (Some (p_name p))];;
      printf "
" []).

Definition consoleintr (c : Z) : K unit :=
  acquire LkCons;;
  (if c =? Ctrl "P" then procdump
   else if c =? Ctrl "U" then
     loop (S (S INPUT_BUF_SIZE)) (fun _ : unit =>
       cs ← gets k_cons;
       if negb (cons_e cs =? cons_w cs) then
         ch ← get_cons_char (u32 (cons_e cs - 1));
         if negb (ch =? 10) then
           upd_cons (fun c => c <| cons_e := u32 (cons_e c - 1) |>);;
           consputc BACKSPACE;;
           ret (inl tt)
         else ret (inr tt)
       else ret (inr tt)) tt
   else if (c =? Ctrl "H") || (c =? 127) then
     cs ← gets k_cons;
     if negb (cons_e cs =? cons_w cs) then
       upd_cons (fun c => c <| cons_e := u32 (cons_e c - 1) |>);;
       consputc BACKSPACE
     else ret tt
   else
     cs ← gets k_cons;
     if negb (c =? 0) && (u32 (cons_e cs - cons_r cs) <? Z.of_nat INPUT_BUF_SIZE) then
       let c := if c =? 13 then 10 else c in
       consputc c;;
       upd_cons (fun cs => cs <| cons_buf ::= <[cons_slot (cons_e cs) := u8 c]> |>
                              <| cons_e := u32 (cons_e cs + 1) |>);;
       cs ← gets k_cons;
       if (c =? 10) || (c =? Ctrl "D") ||
          (u32 (cons_e cs - cons_r cs) =? Z.of_nat INPUT_BUF_SIZE) then
         upd_cons (fun cs => cs <| cons_w := cons_e cs |>);;
         wakeup (Some ChCons)
       else ret tt
     else ret tt);;
  release LkCons.

(** [uartgetc]: -1 if no character is waiting. *)
Definition uartgetc : K Z :=
  rx ← gets k_uart_in;
  match rx with
  | [] => ret (-1)
  | c :: rx => modify (fun s => s <| k_uart_in := rx |>);; ret c
  end.

Definition uartintr : K unit :=
  acquire LkUart;;
  idle ← gets env_tx_idle;
  (if (idle : bool) then
     modify (fun s => s <| k_tx_busy := 0 |>);;
     wakeup (Some ChUart)
   else ret tt);;
  release LkUart;;
  rx ← gets k_uart_in;
  loop (S (length rx)) (fun _ : unit =>
    c ← uartgetc;
    if c =? -1 then ret (inr tt)
    else consoleintr c;; ret (inl tt)) tt.

Definition consoleinit : K unit :=
  modify (fun s => s <| k_devsw ::= <[1%nat := Some DrvConsole]> |>).

End console.
