(* ===== verification/ConsoleSpec.v ===== *)
(** * The console edits lines (kernel/console.c)

    The ring buffer of the console holds the bytes that readers may have and the
    line that is being typed.  [consoleintr] edits the line and hands it over when
    it is complete; [consoleread] takes bytes from the front. *)

From S2P Require Import Prelude Machine Kstate Logic Strings Sched Kalloc Vm VmSpec UvmSpec CopySpec Printf Console.

(** ** The buffer as two lists *)

#[local] Abbreviation SIZE := (Z.of_nat INPUT_BUF_SIZE).

(** The buffer holds the bytes [q] for readers and the line [l].  The counters are
    taken on 32 bits; [b] is the reader's position. *)
Record buffer (c : cons_t) (q l : list Z) (b : Z) : Prop := {
  bf_pos : 0 ≤ b;
  bf_r : cons_r c = u32 b;
  bf_w : cons_w c = u32 (b + Z.of_nat (length q));
  bf_e : cons_e c = u32 (b + Z.of_nat (length q + length l));
  bf_size : (length q + length l ≤ INPUT_BUF_SIZE)%nat;
  bf_buf : length (cons_buf c) = INPUT_BUF_SIZE;
  bf_bytes : Forall is_byte (q ++ l);
  bf_byte : ∀ k x, (q ++ l) !! k = Some x → cons_buf c !! cons_slot (b + Z.of_nat k) = Some x;
}.

Lemma cons_slot_lt i : (cons_slot i < INPUT_BUF_SIZE)%nat.
Proof. unfold cons_slot. pose proof (Z.mod_pos_bound i SIZE ltac:(done)). unfold INPUT_BUF_SIZE in *. lia. Qed.

(** The size divides [2^32], so wrapping counters keep their slots. *)
Lemma cons_slot_u32 i : cons_slot (u32 i) = cons_slot i.
Proof. unfold cons_slot, u32. f_equal. apply Z.mod_mod_divide. by exists (2 ^ 32 / SIZE). Qed.

Lemma cons_slot_inj i j : cons_slot i = cons_slot j → - SIZE < i - j < SIZE → i = j.
Proof.
  unfold cons_slot. intros H Hij. pose proof (Z.mod_pos_bound i SIZE ltac:(done)). pose proof (Z.mod_pos_bound j SIZE ltac:(done)).
  apply Z2Nat.inj in H; [| lia | lia]. pose proof (Z.div_mod i SIZE ltac:(done)). pose proof (Z.div_mod j SIZE ltac:(done)).
  unfold INPUT_BUF_SIZE in *. nia.
Qed.

Lemma u32_diff i j : u32 (u32 i - u32 j) = u32 (i - j).
Proof. unfold u32. by rewrite <-Zminus_mod. Qed.
Lemma u32_succ i k : u32 (u32 i + k) = u32 (i + k).
Proof. unfold u32. by rewrite Z.add_mod_idemp_l. Qed.
Lemma u32_pred i k : u32 (u32 i - k) = u32 (i - k).
Proof. unfold u32. by rewrite Zminus_mod_idemp_l. Qed.

Section buffer.
Context (c : cons_t) (q l : list Z) (b : Z).
Hypothesis H : buffer c q l b.

(** The tests of the code. *)
Lemma buffer_empty_line : (cons_e c =? cons_w c) = bool_decide (l = []).
Proof.
  rewrite (bf_e _ _ _ _ H), (bf_w _ _ _ _ H). pose proof (bf_size _ _ _ _ H) as Hs. apply eq_true_iff_eq.
  rewrite Z.eqb_eq, bool_decide_eq_true. split; [| intros ->; by rewrite Nat.add_0_r].
  intros E. assert (u32 (Z.of_nat (length l)) = 0) as E0.
  { transitivity (u32 (u32 (b + Z.of_nat (length q + length l)) - u32 (b + Z.of_nat (length q)))); [rewrite u32_diff; f_equal; lia |].
    by rewrite E, Z.sub_diag. }
  rewrite u32_small in E0 by (unfold INPUT_BUF_SIZE in *; lia). destruct l; [done | simpl in *; lia].
Qed.

Lemma buffer_no_data : (cons_r c =? cons_w c) = bool_decide (q = []).
Proof.
  rewrite (bf_r _ _ _ _ H), (bf_w _ _ _ _ H). pose proof (bf_size _ _ _ _ H) as Hs. apply eq_true_iff_eq.
  rewrite Z.eqb_eq, bool_decide_eq_true. split; [| intros ->; by rewrite Z.add_0_r].
  intros E. assert (u32 (Z.of_nat (length q)) = 0) as E0.
  { transitivity (u32 (u32 (b + Z.of_nat (length q)) - u32 b)); [rewrite u32_diff; f_equal; lia |]. by rewrite E, Z.sub_diag. }
  rewrite u32_small in E0 by (unfold INPUT_BUF_SIZE in *; lia). destruct q; [done | simpl in *; lia].
Qed.

Lemma buffer_count : u32 (cons_e c - cons_r c) = Z.of_nat (length q + length l).
Proof.
  rewrite (bf_e _ _ _ _ H), (bf_r _ _ _ _ H), u32_diff. pose proof (bf_size _ _ _ _ H). rewrite u32_small; unfold INPUT_BUF_SIZE in *; lia.
Qed.

(** *** The updates of the code *)

Definition push (ch : Z) : cons_t :=
  c <| cons_buf ::= <[cons_slot (cons_e c) := ch]> |> <| cons_e := u32 (cons_e c + 1) |>.

Lemma buffer_push ch : (length q + length l < INPUT_BUF_SIZE)%nat → is_byte ch → buffer (push ch) q (l ++ [ch]) b.
Proof.
  intros Hlt Hch. destruct H as [H1 H2 H3 H4 H5 H6 H8 H7]. split; simpl; try done.
  - rewrite H4, u32_succ, length_app. f_equal. simpl. lia.
  - rewrite length_app. simpl. lia.
  - by rewrite length_insert.
  - rewrite app_assoc. apply Forall_app. split; [done | by apply Forall_singleton].
  - intros k x Hk. rewrite H4, cons_slot_u32. rewrite app_assoc in Hk. apply lookup_app_Some in Hk as [Hk | [Hk1 Hk2]].
    + pose proof (lookup_lt_Some _ _ _ Hk) as Hkl. rewrite length_app in Hkl. rewrite list_lookup_insert_ne; [by apply H7 |].
      intros E. apply cons_slot_inj in E; unfold INPUT_BUF_SIZE in *; lia.
    + rewrite length_app in Hk1, Hk2. apply list_lookup_singleton_Some in Hk2 as [Hk2 <-].
      replace (Z.of_nat k) with (Z.of_nat (length q + length l)) by lia. apply list_lookup_insert_eq. rewrite H6. apply cons_slot_lt.
Qed.

Lemma buffer_commit : buffer (c <| cons_w := cons_e c |>) (q ++ l) [] b.
Proof.
  destruct H as [H1 H2 H3 H4 H5 H6 H8 H7]. split; simpl; try done.
  - by rewrite H4, length_app.
  - by rewrite H4, length_app, Nat.add_0_r.
  - rewrite length_app. lia.
  - by rewrite app_nil_r.
  - by rewrite app_nil_r.
Qed.

(** The bytes of the line, and their removal. *)
Lemma buffer_last l' x : l = l' ++ [x] → cons_buf c !! cons_slot (u32 (cons_e c - 1)) = Some x ∧
  buffer (c <| cons_e := u32 (cons_e c - 1) |>) q l' b.
Proof.
  intros E. destruct H as [H1 H2 H3 H4 H5 H6 H8 H7]. rewrite E, length_app in *. simpl in *. split.
  - rewrite H4, u32_pred, cons_slot_u32. replace (b + Z.of_nat (length q + (length l' + 1)) - 1) with (b + Z.of_nat (length q + length l')) by lia.
    apply H7. rewrite lookup_app_r, lookup_app_r by lia. by replace (_ - _ - _)%nat with 0%nat by lia.
  - split; simpl; try done.
    + rewrite H4, u32_pred. f_equal. lia.
    + lia.
    + rewrite app_assoc in H8. by apply Forall_app in H8 as [H8 _].
    + intros k y Hk. apply H7. rewrite app_assoc. by apply lookup_app_l_Some.
Qed.

Lemma buffer_pop x q' : q = x :: q' → cons_buf c !! cons_slot (cons_r c) = Some x ∧
  buffer (c <| cons_r := u32 (cons_r c + 1) |>) q' l (b + 1).
Proof.
  intros E. destruct H as [H1 H2 H3 H4 H5 H6 H8 H7]. rewrite E in *. simpl in *. split.
  - rewrite H2, cons_slot_u32. replace b with (b + Z.of_nat 0) by lia. by apply H7.
  - split; simpl; try done.
    + lia.
    + by rewrite H2, u32_succ.
    + rewrite H3. f_equal. lia.
    + rewrite H4. f_equal. lia.
    + lia.
    + by apply Forall_cons in H8 as [_ H8].
    + intros k y Hk. replace (b + 1 + Z.of_nat k) with (b + Z.of_nat (S k)) by lia. by apply H7.
Qed.
End buffer.

(** ** Typing *)

(** What a character does to the bytes for readers and the line; the flag says
    that the line is complete. *)
Definition edit (c : Z) (q l : list Z) : list Z * list Z * bool :=
  if c =? Ctrl "P" then (q, l, false)
  else if c =? Ctrl "U" then (q, [], false)
  else if (c =? Ctrl "H") || (c =? 127) then (q, removelast l, false)
  else if negb (c =? 0) && (length q + length l <? INPUT_BUF_SIZE)%nat then
    let c := if c =? 13 then 10 else c in
    if (c =? 10) || (c =? Ctrl "D") || (S (length q + length l) =? INPUT_BUF_SIZE)%nat then (q ++ l ++ [c], [], true)
    else (q, l ++ [c], false)
  else (q, l, false).

(** The interrupt finds none of the locks it takes held by its CPU. *)
Record quiet (s : kstate) : Prop := {
  qt_cons : LkCons ∉ k_held s;
  qt_pr : LkPr ∉ k_held s;
  qt_proc : ∀ j, LkProc j ∉ k_held s;
  qt_panic : k_panicking s = 0 ∧ k_panicked s = 0;
  qt_procs : length (k_procs s) = NPROC;
}.

Section typing.
Context {L : Layout} {E : Env}.

(** The state in which the handler works, [out] having been echoed. *)
Definition at_work (s : kstate) (c : cons_t) (out : list Z) : kstate :=
  s <| k_held ::= cons LkCons |> <| k_cons := c |> <| k_uart_out := out |>.

Lemma echo s c out x : k_panicked s = 0 → ∃ out', consputc x (at_work s c out) = Done tt (at_work s c out').
Proof. intros Hp. destruct (prints_consputc x (at_work s c out)) as [out' Hx]; [done |]. by exists out'. Qed.

Lemma wp_echo s c out x (Q : unit → kstate → Prop) : k_panicked s = 0 → (∀ out', Q tt (at_work s c out')) →
  wp (consputc x) Q (at_work s c out).
Proof. intros Hp HQ. destruct (echo s c out x Hp) as [out' Hx]. by eapply wp_done. Qed.

Lemma wp_char s c out i x (Q : Z → kstate → Prop) : cons_buf c !! cons_slot i = Some x → Q x (at_work s c out) →
  wp (get_cons_char i) Q (at_work s c out).
Proof. intros Hx HQ. apply wp_bind, wp_gets. by apply (wp_must _ _ x). Qed.

(** The loop that erases the line, one character at a time. *)
Definition kill_round : unit → K (unit + unit) := fun _ =>
  cs ← gets k_cons;
  if negb (cons_e cs =? cons_w cs) then
    ch ← get_cons_char (u32 (cons_e cs - 1));
    if negb (ch =? 10) then
      upd_cons (fun c => c <| cons_e := u32 (cons_e c - 1) |>);;
      consputc BACKSPACE;;
      ret (inl tt)
    else ret (inr tt)
  else ret (inr tt).

Lemma kill_line s q l b : ∀ c out n, k_panicked s = 0 → buffer c q l b → Forall (λ x, x ≠ 10) l → (length l < n)%nat →
  wp (loop n kill_round tt) (λ _ t, ∃ c' out', t = at_work s c' out' ∧ buffer c' q [] b) (at_work s c out).
Proof.
  induction l as [| x l IH] using rev_ind; intros c out [| n] Hp Hb Hl Hn; [lia | | lia |]; apply wp_loop_S; unfold kill_round at 1;
    apply wp_bind, wp_gets; change (k_cons (at_work s c out)) with c; rewrite (buffer_empty_line _ _ _ _ Hb).
  - apply wp_ret. by exists c, out.
  - rewrite bool_decide_false by (by destruct l). cbn [negb].
    apply Forall_app in Hl as [Hl [Hx _]%Forall_cons]. destruct (buffer_last _ _ _ _ Hb l x eq_refl) as [Hc Hb'].
    apply wp_bind. eapply wp_char; [exact Hc |]. rewrite (proj2 (Z.eqb_neq _ _)) by done. cbn [negb].
    apply wp_bind, wp_modify. apply wp_bind. rewrite length_app in Hn. simpl in Hn.
    apply (wp_echo s (c <| cons_e := u32 (cons_e c - 1) |>)); [done |]. intros out'. apply wp_ret. apply IH; done || lia.
Qed.

(** The process list is printed and nothing else changes. *)
Lemma wp_print s c out fmt ap (Q : unit → kstate → Prop) : quiet s → prints (printf_loop (bytes_of_string fmt) ap) →
  (∀ out', Q tt (at_work s c out')) → wp (printf fmt ap) Q (at_work s c out).
Proof.
  intros Hq Hp HQ. destruct (printf_locked fmt ap (at_work s c out)) as [out' Hx]; [done | | apply Hq | apply Hq |].
  - simpl. apply not_elem_of_cons. split; [done | apply Hq].
  - eapply wp_done; [exact Hx |]. apply (HQ out').
Qed.

Lemma procdump_wp s c out (Q : unit → kstate → Prop) : quiet s → (∀ out', Q tt (at_work s c out')) → wp procdump Q (at_work s c out).
Proof.
  intros Hq HQ. assert (∀ ap, prints (printf_loop (bytes_of_string "
") ap)) as Hnl by (intros ap; apply prints_plain; repeat constructor; done).
  unfold procdump. apply wp_bind. apply wp_print; [done | apply Hnl |]. intros out1.
  apply (wp_for_seq (λ _ t, ∃ out', t = at_work s c out')).
  - by exists out1.
  - intros i t [out2 ->] Hi. destruct (lookup_lt_is_Some_2 (k_procs s) i) as [p Hp]; [rewrite (qt_procs _ Hq); lia |].
    apply wp_bind. eapply wp_done; [by apply get_proc_done |]. case_decide; [by apply wp_ret; exists out2 |].
    apply wp_bind. apply wp_print; [done | |].
    + change (bytes_of_string "%d %s %s") with ([] ++ chr "%" :: chr "d" :: ([32] ++ chr "%" :: chr "s" :: ([32] ++ chr "%" :: chr "s" :: []))).
      apply prints_lit, prints_d, prints_lit, prints_s, prints_lit, prints_s, prints_ret; repeat constructor; done.
    + intros out3. apply wp_print; [done | apply Hnl |]. intros out4. by exists out4.
  - intros t [out' ->]. apply HQ.
Qed.

(** The state after the interrupt. *)
Definition edited (s : kstate) (q l : list Z) (b : Z) (fin : bool) (t : kstate) : Prop :=
  ∃ c' out, buffer c' q l b ∧
    t = s <| k_cons := c' |> <| k_uart_out := out |>
          <| k_procs := if fin then imap (wake_entry (Some ChCons) (k_cur s)) (k_procs s) else k_procs s |>.

Lemma done_editing s q l b fin c out :
  LkCons ∉ k_held s → buffer c q l b →
  wp (release LkCons) (λ _, edited s q l b fin)
    (at_work (s <| k_procs := if fin then imap (wake_entry (Some ChCons) (k_cur s)) (k_procs s) else k_procs s |>) c out).
Proof.
  intros Hl Hb. eapply wp_done; [by eapply release_done |]. exists c, out. split; [done |]. by destruct s.
Qed.

Lemma set_procs_same s : s <| k_procs := k_procs s |> = s.
Proof. by destruct s. Qed.

(** The end of the handler: a complete line goes to the readers. *)
Definition hand_over (ch : Z) : K unit :=
  cs ← gets k_cons;
  if (ch =? 10) || (ch =? Ctrl "D") || (u32 (cons_e cs - cons_r cs) =? SIZE) then
    upd_cons (fun cs => cs <| cons_w := cons_e cs |>);;
    wakeup (Some ChCons)
  else ret tt.

Lemma hand_over_wp s q l b ch c out : quiet s → buffer c q (l ++ [ch]) b →
  let r := if (ch =? 10) || (ch =? Ctrl "D") || (S (length q + length l) =? INPUT_BUF_SIZE)%nat then (q ++ l ++ [ch], [], true)
    else (q, l ++ [ch], false) in
  wp (hand_over ch) (λ _, wp (release LkCons) (λ _, edited s r.1.1 r.1.2 b r.2)) (at_work s c out).
Proof.
  intros Hq Hb. pose proof (qt_cons _ Hq) as Hlk. unfold hand_over. apply wp_bind, wp_gets. change (k_cons (at_work s c out)) with c.
  rewrite (buffer_count _ _ _ _ Hb), length_app.
  replace (Z.of_nat (length q + (length l + length [ch])) =? SIZE) with (S (length q + length l) =? INPUT_BUF_SIZE)%nat
    by (apply eq_true_iff_eq; rewrite Nat.eqb_eq, Z.eqb_eq; simpl length; lia).
  destruct ((ch =? 10) || (ch =? Ctrl "D") || (S (length q + length l) =? INPUT_BUF_SIZE)%nat); cbv zeta.
  - apply wp_bind, wp_modify. change (wp (wakeup (Some ChCons)) ?Q ?t) with (wp (wakeup (Some ChCons)) Q (at_work s (c <| cons_w := cons_e c |>) out)).
    eapply wp_done; [apply wakeup_done; [apply Hq |] |].
    + intros j. simpl. apply not_elem_of_cons. split; [done | apply Hq].
    + apply (done_editing s _ [] b true (c <| cons_w := cons_e c |>) out); [done |]. by apply buffer_commit.
  - apply wp_ret. pose proof (done_editing s q (l ++ [ch]) b false c out Hlk Hb) as Hd. cbn iota in Hd. by rewrite set_procs_same in Hd.
Qed.

Lemma consoleintr_wp c s q l b : quiet s → buffer (k_cons s) q l b → Forall (λ x, x ≠ 10) l → is_byte c →
  wp (consoleintr c) (λ _, edited s (edit c q l).1.1 (edit c q l).1.2 b (edit c q l).2) s.
Proof.
  intros Hq Hb Hl Hc. pose proof (qt_cons _ Hq) as Hlk. destruct (qt_panic _ Hq) as [_ Hp].
  unfold consoleintr. apply wp_bind. eapply wp_done; [by apply acquire_done |]. cbv beta.
  replace (s <| k_held ::= cons LkCons |>) with (at_work s (k_cons s) (k_uart_out s)) by (by destruct s).
  assert (∀ q l c out, buffer c q l b → wp (release LkCons) (λ _, edited s q l b false) (at_work s c out)) as Hend.
  { intros q1 l1 c1 out1 Hb1. pose proof (done_editing s q1 l1 b false c1 out1 Hlk Hb1) as Hd. cbn iota in Hd. by rewrite set_procs_same in Hd. }
  unfold edit. apply wp_bind. destruct (c =? Ctrl "P").
  { apply procdump_wp; [done |]. intros out'. by apply Hend. }
  destruct (c =? Ctrl "U").
  { eapply wp_mono; [apply (kill_line s q l b); [done | done | done | unfold INPUT_BUF_SIZE; pose proof (bf_size _ _ _ _ Hb) as Hs; unfold INPUT_BUF_SIZE in Hs; lia] |].
    intros _ t (c' & out' & -> & Hb'). by apply Hend. }
  destruct ((c =? Ctrl "H") || (c =? 127)).
  { apply wp_bind, wp_gets. change (k_cons (at_work _ ?x _)) with x. rewrite (buffer_empty_line _ _ _ _ Hb).
    destruct l as [| x l' _] using rev_ind; [by apply wp_ret, Hend |]. rewrite bool_decide_false by (by destruct l'). cbn [negb].
    destruct (buffer_last _ _ _ _ Hb l' x eq_refl) as [_ Hb']. rewrite removelast_last.
    apply wp_bind, wp_modify. apply (wp_echo s ((k_cons s) <| cons_e := u32 (cons_e (k_cons s) - 1) |>)); [done |].
    intros out'. by apply Hend. }
  pose proof (bf_size _ _ _ _ Hb) as Hsz. apply wp_bind, wp_gets. change (k_cons (at_work _ ?x _)) with x. rewrite (buffer_count _ _ _ _ Hb).
  replace (Z.of_nat (length q + length l) <? SIZE) with (length q + length l <? INPUT_BUF_SIZE)%nat
    by (apply eq_true_iff_eq; rewrite Nat.ltb_lt, Z.ltb_lt; lia).
  destruct (negb (c =? 0) && (length q + length l <? INPUT_BUF_SIZE)%nat) eqn:Eok; [| by apply wp_ret, Hend].
  apply andb_true_iff in Eok as [_ Hlt%Nat.ltb_lt]. cbv zeta. set (ch := if c =? 13 then 10 else c).
  assert (u8 ch = ch) as Eu by (unfold ch; destruct (c =? 13); [done | apply Z.mod_small; unfold is_byte in Hc; lia]).
  apply wp_bind, wp_echo; [done |]. intros out'. apply wp_bind, wp_modify. rewrite Eu.
  assert (is_byte ch) as Hch by (unfold ch; destruct (c =? 13); done).
  pose proof (buffer_push _ _ _ _ Hb ch Hlt Hch) as Hb'. set (c1 := push (k_cons s) ch) in *.
  exact (hand_over_wp s q l b ch c1 out' Hq Hb').
Qed.
End typing.
