(* ===== verification/ConsoleRead.v ===== *)
(** * Reading a line from the console (kernel/console.c)

    A read of the console delivers the bytes that were typed, up to the end of the
    line, into the memory of the process that reads. *)

From S2P Require Import Prelude Machine Kstate Logic Strings Sched Kalloc Vm VmSpec UvmSpec CopySpec Printf Console ConsoleSpec.

(** ** What a read delivers *)

(** The bytes a read of [n] bytes delivers from [q], and whether it ends at an
    end-of-file mark; [None] if it has to wait. *)
Fixpoint take_line (n : nat) (q : list Z) : option (list Z * bool) :=
  match n, q with
  | O, _ => Some ([], false)
  | S _, [] => None
  | S n, c :: q =>
      if c =? Ctrl "D" then Some ([], true)
      else if c =? 10 then Some ([c], false)
      else '(D, eof) ← take_line n q; Some (c :: D, eof)
  end.

(** The mark is left for the next read unless it is all there is. *)
Definition consumed (D : list Z) (eof : bool) : nat :=
  (length D + (if eof && bool_decide (D = []) then 1 else 0))%nat.

Lemma take_line_prefix n q D eof : take_line n q = Some (D, eof) → (length D ≤ n)%nat ∧ D `prefix_of` q.
Proof.
  revert q D. induction n as [| n IH]; intros [| c q] D; simpl; try done; [by intros [= <- _]; split; [done | apply prefix_nil] .. |].
  destruct (c =? Ctrl "D"); [intros [= <- _]; split; [simpl; lia | apply prefix_nil] |].
  destruct (c =? 10); [intros [= <- _]; split; [simpl; lia | by apply prefix_cons, prefix_nil] |].
  destruct (take_line n q) as [[D' e'] |] eqn:Et; [| done]. intros [= <- ->]. destruct (IH q D' Et) as [H1 H2].
  split; [simpl; lia | by apply prefix_cons].
Qed.

Section read.
Context {L : Layout} {E : Env}.

(** The state during the read. *)
Definition reading (s : kstate) (c : cons_t) : kstate := s <| k_held ::= cons LkCons |> <| k_cons := c |>.

Lemma space_frame kpt pages l s s' pt sz : space kpt pages l s pt sz → k_mem s' = k_mem s → k_freelist s' = k_freelist s →
  k_cur s' = k_cur s → k_procs s' = k_procs s → LkKmem ∉ k_held s' → space kpt pages l s' pt sz.
Proof.
  intros [[[[F1 F2 F3] H2 H3 H4 H5 H6] H7] H8 H9 H10 H11 H12] Em Ef Ec Ep Hh.
  split; [split; [split |] | done | done | done | done | by rewrite Ec, Ep]; rewrite ?Em; try done.
  split; [by rewrite Em, Ef | done | done].
Qed.

Lemma copied_out_cons kpt pages s pt sz dstva src k pages' l' t c c' :
  copied_out kpt pages (reading s c) pt sz dstva src k pages' l' t →
  copied_out kpt pages (reading s c') pt sz dstva src k pages' l' (t <| k_cons := c' |>).
Proof.
  intros [Hsp Hon Hr Hw]. split; [| | done | exact Hw].
  - apply (space_frame _ _ _ t); try done. apply Hsp.
  - unfold only_pages in *. rewrite Hon. by destruct s.
Qed.

(** One more byte. *)
Lemma copied_out_byte kpt pages s pt sz dstva D k x pages1 l1 t j pages2 l2 t2 : 0 ≤ dstva → is_root pages pt →
  copied_out kpt pages s pt sz dstva D k pages1 l1 t → D !! k = Some x → (j ≤ 1)%nat →
  copied_out kpt pages1 t pt sz (dstva + Z.of_nat k) [x] j pages2 l2 t2 → copied_out kpt pages s pt sz dstva D (k + j) pages2 l2 t2.
Proof.
  intros Hd Hrt [Hsp Hon Hr Hw] Hx Hj [Hsp2 Hon2 Hr2 Hw2]. split; [done | | auto |].
  - unfold only_pages in *. rewrite Hon2, Hon. by destruct s.
  - intros root sz' va Hroot Hk Hsz Hva. rewrite Hw2, Hw by auto. repeat case_decide; try done; try lia.
    replace (Z.to_nat (va - (dstva + Z.of_nat k))) with 0%nat by lia. replace (Z.to_nat (va - dstva)) with k by lia. by rewrite Hx.
Qed.

(** A byte that is there is taken at once. *)
Lemma getc_wp s c q l b x (Q : Z → kstate → Prop) : k_cons s = c → buffer c (x :: q) l b →
  Q x (s <| k_cons := c <| cons_r := u32 (cons_r c + 1) |> |>) → wp console_getc Q s.
Proof.
  intros <- Hb HQ. apply wp_wait_loop. apply wp_bind, wp_gets. rewrite (buffer_no_data _ _ _ _ Hb). cbn [bool_decide].
  rewrite bool_decide_false by done. destruct (buffer_pop _ _ _ _ Hb x q eq_refl) as [Hc _].
  apply wp_bind, wp_bind, wp_gets. apply (wp_must _ _ x); [exact Hc |]. apply wp_bind, wp_modify. apply wp_ret. by destruct s.
Qed.

(** A byte for the process, as far as its address can be written. *)
Lemma deliver_wp kpt pages s pt sz dstva D k x pages1 l1 t : 0 ≤ dstva → dstva + Z.of_nat k < 2 ^ 64 → is_root pages pt → pt ≠ kpt →
  copied_out kpt pages s pt sz dstva D k pages1 l1 t → D !! k = Some x →
  wp (either_copyout (DUser (dstva + Z.of_nat k)) [x])
    (λ r t', ∃ pages2 l2, r = 0 ∧ copied_out kpt pages s pt sz dstva D (S k) pages2 l2 t' ∨
       r = -1 ∧ copied_out kpt pages s pt sz dstva D k pages2 l2 t' ∧ stopped sz (k_mem s) pt (dstva + Z.of_nat k) l2) t.
Proof.
  intros Hd Hd64 Hrt Hne Hco Hx. pose proof (co_space _ _ _ _ _ _ _ _ _ _ _ Hco) as Hsp. destruct (sp_run _ _ _ _ _ _ Hsp) as (p & pr & Hc & Hp & Hpt & Hsz).
  unfold either_copyout. apply wp_bind. eapply wp_done; [by apply curproc_done |]. apply wp_bind. eapply wp_done; [by apply get_proc_done |].
  rewrite Hpt. eapply wp_mono; [apply (copyout_wp kpt pages1 l1 t pt sz); [done | lia] |].
  intros r t' (j & pages2 & l2 & Hco2 & Hr). exists pages2, l2. cbn [length] in Hr.
  assert (copied_out kpt pages s pt sz dstva D (k + j) pages2 l2 t') as Hco3 by (eapply copied_out_byte; try done; lia).
  destruct Hr as [[-> ->] | (-> & Hj & Hst)]; [left; by rewrite <-Nat.add_1_r | right].
  assert (j = 0%nat) as -> by lia. rewrite Nat.add_0_r in Hco3. split; [done |]. split; [done |]. rewrite Z.add_0_r in Hst.
  destruct (decide (MAXVA ≤ dstva + Z.of_nat k)) as [Hm | Hm]; [by left |]. right. destruct Hst as [? | [Hw | ?]]; [done | left | by right].
  intros Hw'. apply Hw. unfold writable in *. rewrite (co_wrote _ _ _ _ _ _ _ _ _ _ _ Hco) by (done || lia). by rewrite decide_False by lia.
Qed.

(** The loop of [consoleread]. *)
Definition read_round (target : Z) : Z * mdest → K (Z * mdest + option Z) := fun '(n, dst) =>
  if 0 <? n then
    c ← console_getc;
    if c =? -1 then ret (inr None)
    else if c =? Ctrl "D" then
      (if u32 n <? target then upd_cons (fun c => c <| cons_r := u32 (cons_r c - 1) |>)
       else ret tt);;
      ret (inr (Some n))
    else
      r ← either_copyout dst [c];
      if r =? -1 then ret (inr (Some n))
      else
        let dst := match dst with DUser va => DUser (u64 (va + 1))
                                | DKernel pa => DKernel (pa + 1) | DLocal => DLocal end in
        if c =? 10 then ret (inr (Some (n - 1)))
        else ret (inl (n - 1, dst))
  else ret (inr (Some n)).

Lemma consoleread_loop dst n : consoleread dst n =
  (acquire LkCons;;
   r ← loop (S (Z.to_nat n)) (read_round (u32 n)) (n, dst);
   match r with None => ret (-1) | Some n' => release LkCons;; ret (i32 (u32 n - n')) end).
Proof. done. Qed.

Section loop.
Context (kpt : Z) (pages : gmap Z puse) (s : kstate) (pt sz dstva : Z) (q ln : list Z) (b : Z) (N : nat) (D : list Z) (eof : bool).
Hypothesis Hroot : is_root pages pt.
Hypothesis Hkpt : pt ≠ kpt.
Hypothesis Hdst : 0 ≤ dstva ∧ dstva + Z.of_nat N < 2 ^ 64.
Hypothesis HN : Z.of_nat N < 2 ^ 31.

(** The read has delivered [k] bytes and taken [u] from the buffer. *)
Definition progress (k u : nat) (l' : list Z) (t : kstate) : Prop := ∃ c pages',
  copied_out kpt pages (reading s c) pt sz dstva D k pages' l' t ∧ k_cons t = c ∧ buffer c (drop u q) ln (b + Z.of_nat u).

Definition ended (r : option Z) (t : kstate) : Prop := ∃ k l', r = Some (Z.of_nat N - Z.of_nat k) ∧ (k ≤ N)%nat ∧
  (k = length D ∧ progress k (consumed D eof) l' t ∨
   (k < length D)%nat ∧ progress k (S k) l' t ∧ stopped sz (k_mem s) pt (dstva + Z.of_nat k) l').

(** Taking a byte. *)
Lemma take_byte k l' t x q' (Q : Z → kstate → Prop) : progress k k l' t → drop k q = x :: q' →
  (∀ t', progress k (S k) l' t' → t' <| k_cons := (k_cons t') <| cons_r := u32 (cons_r (k_cons t') - 1) |> |> = t → Q x t') →
  wp console_getc Q t.
Proof.
  intros (c & pages' & Hco & Hc & Hb) Hq HQ. rewrite Hq in Hb. destruct (buffer_pop _ _ _ _ Hb x q' eq_refl) as [_ Hb'].
  eapply getc_wp; [exact Hc | exact Hb |]. apply HQ.
  - exists (c <| cons_r := u32 (cons_r c + 1) |>), pages'. split; [by eapply copied_out_cons |]. split; [done |].
    replace (drop (S k) q) with q'; [by replace (b + Z.of_nat (S k)) with (b + Z.of_nat k + 1) by lia |].
    rewrite <-(Nat.add_1_r k), <-drop_drop, Hq. done.
  - destruct t as [], c as []. simpl in *. subst. simpl. rewrite u32_pred. replace (cons_r + 1 - 1) with cons_r by lia.
    pose proof (bf_r _ _ _ _ Hb) as Hr. simpl in Hr. rewrite Hr. unfold u32. by rewrite Z.mod_mod.
Qed.

Lemma progress_deliver k u l' t x (Q : Z → kstate → Prop) : progress k u l' t → (k < N)%nat → D !! k = Some x →
  (∀ l2 t', progress (S k) u l2 t' → Q 0 t') →
  (∀ l2 t', progress k u l2 t' → stopped sz (k_mem s) pt (dstva + Z.of_nat k) l2 → Q (-1) t') →
  wp (either_copyout (DUser (dstva + Z.of_nat k)) [x]) Q t.
Proof.
  intros (c & pages' & Hco & Hc & Hb) Hk Hx Hok Hbad.
  eapply wp_mono; [apply (deliver_wp kpt pages (reading s c) pt sz dstva D k x pages' l' t); [lia | lia | done | done | done | done] |].
  intros r t' (pages2 & l2 & Hr). assert (∀ k', copied_out kpt pages (reading s c) pt sz dstva D k' pages2 l2 t' → k_cons t' = c) as Hcons.
  { intros k' Hco'. pose proof (co_only _ _ _ _ _ _ _ _ _ _ _ Hco') as Hon. unfold only_pages in Hon. by rewrite Hon. }
  destruct Hr as [[-> Hco'] | (-> & Hco' & Hst)]; [apply (Hok l2) | apply (Hbad l2); [| done]]; exists c, pages2; eauto.
Qed.

Lemma read_loop m : ∀ k l' t fuel, N = (k + m)%nat → progress k k l' t → Forall is_byte q →
  take_line m (drop k q) = Some (drop k D, eof) → (k ≤ length D)%nat → (m < fuel)%nat →
  wp (loop fuel (read_round (u32 (Z.of_nat N))) (Z.of_nat m, DUser (dstva + Z.of_nat k))) ended t.
Proof.
  induction m as [| m IH]; intros k l' t [| fuel] Hm Hpr Hq Htl Hk Hfuel; [lia | | lia |]; apply wp_loop_S; cbn [read_round].
  { injection Htl as Hd He. symmetry in Hd. apply (f_equal length) in Hd. rewrite length_drop in Hd. simpl in Hd.
    apply wp_ret. exists k, l'. split; [f_equal; lia |]. split; [lia |]. left. split; [lia |].
    unfold consumed. rewrite <-He. simpl. rewrite Nat.add_0_r. by replace (length D) with k by lia. }
  rewrite (proj2 (Z.ltb_lt 0 _)) by lia. destruct (drop k q) as [| x q'] eqn:Eq; [done |]. simpl in Htl.
  assert (is_byte x) as Hx. { eapply Forall_cons. rewrite <-Eq. by apply Forall_drop. }
  apply wp_bind. eapply (take_byte k l' t x q'); [done | done |]. intros t1 Hpr1 Hback.
  rewrite (proj2 (Z.eqb_neq x (-1))) by (unfold is_byte in Hx; lia). destruct (x =? Ctrl "D").
  { injection Htl as Hd He. symmetry in Hd. apply (f_equal length) in Hd. rewrite length_drop in Hd. simpl in Hd.
    rewrite !u32_small by lia. apply wp_bind. destruct (Z.ltb_spec (Z.of_nat (S m)) (Z.of_nat N)) as [Hlt | Hge].
    - apply wp_modify. apply wp_ret. exists k, l'. split; [f_equal; lia |]. split; [lia |]. left. split; [lia |].
      change (t1 <| k_cons ::= λ c, c <| cons_r := u32 (cons_r c - 1) |> |>) with
        (t1 <| k_cons := (k_cons t1) <| cons_r := u32 (cons_r (k_cons t1) - 1) |> |>). rewrite Hback.
      unfold consumed. rewrite <-He, bool_decide_false by (intros ->; simpl in *; lia). simpl. rewrite Nat.add_0_r. by replace (length D) with k by lia.
    - apply wp_ret, wp_ret. exists k, l'. split; [f_equal; lia |]. split; [lia |]. left. split; [lia |].
      unfold consumed. rewrite <-He, bool_decide_true by (apply nil_length_inv; lia). simpl. by replace (length D + 1)%nat with (S k) by lia. }
  apply wp_bind. assert (D !! k = Some x) as HD.
  { destruct (x =? 10); [| destruct (take_line m q') as [[D' e'] |]; [| done]]; injection Htl as Hd _; 
      rewrite <-(Nat.add_0_r k), <-lookup_drop, <-Hd; done. }
  eapply progress_deliver; [exact Hpr1 | lia | exact HD | |]; intros l2 t2 Hpr2; cbn [Z.eqb].
  - destruct (x =? 10) eqn:Enl.
    + injection Htl as Hd He. symmetry in Hd. apply (f_equal length) in Hd. rewrite length_drop in Hd. simpl in Hd.
      apply wp_ret. exists (S k), l2. split; [f_equal; lia |]. split; [lia |]. left. split; [lia |]. unfold consumed. rewrite <-He. simpl. rewrite Nat.add_0_r.
      by replace (length D) with (S k) by lia.
    + apply wp_ret. replace (Z.of_nat (S m) - 1) with (Z.of_nat m) by lia. rewrite u64_small by lia.
      replace (dstva + Z.of_nat k + 1) with (dstva + Z.of_nat (S k)) by lia.
      apply (IH (S k) l2); [lia | done | done | | apply lookup_lt_Some in HD; lia | lia].
      destruct (take_line m q') as [[D' e'] |] eqn:Et; [| done]. injection Htl as Hd He. subst e'.
      rewrite <-(Nat.add_1_r k), <-!drop_drop, Eq, <-Hd. done.
  - intros Hst. apply wp_ret. exists k, l2. split; [f_equal; lia |]. split; [lia |]. right. apply lookup_lt_Some in HD. done.
Qed.
End loop.
End read.

(** ** Theorems *)

(** A line with no end of line in it stays so. *)
Lemma edit_line c q l : Forall (λ x, x ≠ 10) l → Forall (λ x, x ≠ 10) (edit c q l).1.2.
Proof.
  intros Hl. unfold edit. destruct (c =? Ctrl "P"); [done |]. destruct (c =? Ctrl "U"); [constructor |].
  destruct ((c =? Ctrl "H") || (c =? 127)).
  { destruct l as [| x l' _] using rev_ind; [done |]. simpl. rewrite removelast_last. by apply Forall_app in Hl as [Hl _]. }
  destruct (_ && _); [| done]. cbv zeta. set (ch := if c =? 13 then 10 else c).
  destruct (Z.eqb_spec ch 10) as [E | E]; [constructor |]. simpl. destruct (_ || _); [constructor |]. simpl.
  apply Forall_app. split; [done | by apply Forall_singleton].
Qed.

(** C21: the console edits lines.  For every character that arrives, [consoleintr]
    returns, and the buffer then holds what the line editor makes of it: an ordinary
    character is added to the line while there is room, backspace removes the last
    one, Ctrl-U the whole line, and a newline, a Ctrl-D or a full buffer hands the
    line to the readers and wakes those that sleep on the console, and nobody else
    in any other case. *)
Theorem console_edits_lines {L : Layout} {E : Env} c s q l b : quiet s → buffer (k_cons s) q l b →
  Forall (λ x, x ≠ 10) l → is_byte c →
  let '(q', l', fin) := edit c q l in
  ∃ s', consoleintr c s = Done tt s' ∧ buffer (k_cons s') q' l' b ∧ Forall (λ x, x ≠ 10) l' ∧ k_held s' = k_held s ∧
    k_procs s' = if fin then imap (wake_entry (Some ChCons) (k_cur s)) (k_procs s) else k_procs s.
Proof.
  intros Hq Hb Hl Hc. pose proof (consoleintr_wp c s q l b Hq Hb Hl Hc) as Hwp. pose proof (edit_line c q l Hl) as Hl'.
  destruct (edit c q l) as [[q' l'] fin]. simpl in *. apply wp_elim in Hwp as ([] & s' & Hrun & c' & out & Hb' & ->).
  eexists. split; [exact Hrun |]. by split_and!.
Qed.

(** C22: a read of the console delivers a line.  When the bytes typed so far hold
    a whole line, or enough bytes, [consoleread] returns without waiting: the process
    finds the line, up to and including its newline and no longer than it asked for,
    in its memory, and the buffer keeps the rest.  An end-of-file mark ends the read
    and is kept for the next one unless it came first.  If an address cannot be
    written, the bytes before it have been delivered. *)
Theorem console_read_delivers_line {L : Layout} {E : Env} kpt pages l s pt sz q ln b dstva n D eof :
  space kpt pages l s pt sz → LkCons ∉ k_held s → buffer (k_cons s) q ln b → 0 ≤ n < 2 ^ 31 →
  0 ≤ dstva → dstva + n < 2 ^ 64 → take_line (Z.to_nat n) q = Some (D, eof) →
  ∃ k s' l' pages', consoleread (DUser dstva) n s = Done (Z.of_nat k) s' ∧ space kpt pages' l' s' pt sz ∧
    wrote kpt pages (k_mem s) (k_mem s') pt sz dstva D k ∧
    (k = length D ∧ buffer (k_cons s') (drop (consumed D eof) q) ln (b + Z.of_nat (consumed D eof)) ∨
     (k < length D)%nat ∧ buffer (k_cons s') (drop (S k) q) ln (b + Z.of_nat (S k)) ∧
       stopped sz (k_mem s) pt (dstva + Z.of_nat k) l').
Proof.
  intros Hsp Hlk Hb Hn Hd0 Hd Ht. set (N := Z.to_nat n). assert (n = Z.of_nat N) as En by (unfold N; lia).
  assert (wp (consoleread (DUser dstva) n) (λ r t, ∃ k l' pages' u, r = Z.of_nat k ∧ space kpt pages' l' t pt sz ∧
    wrote kpt pages (k_mem s) (k_mem t) pt sz dstva D k ∧ buffer (k_cons t) (drop u q) ln (b + Z.of_nat u) ∧
    (k = length D ∧ u = consumed D eof ∨ (k < length D)%nat ∧ u = S k ∧ stopped sz (k_mem s) pt (dstva + Z.of_nat k) l')) s) as Hwp.
  2: { apply wp_elim in Hwp as (r & s' & Hrun & k & l' & pages' & u & -> & Hsp' & Hw & Hb' & Hc). exists k, s', l', pages'.
       split; [done |]. split; [done |]. split; [done |]. destruct Hc as [[Hk ->] | (Hk & -> & Hst)]; [left | right]; done. }
  rewrite consoleread_loop. apply wp_bind. eapply wp_done; [by apply acquire_done |]. cbv beta. apply wp_bind.
  replace (s <| k_held ::= cons LkCons |>) with (reading s (k_cons s)) by (by destruct s).
  assert (space kpt pages l (reading s (k_cons s)) pt sz) as Hsp1.
  { apply (space_frame kpt pages l s); try done. simpl. apply not_elem_of_cons. split; [done | apply Hsp]. }
  eapply wp_mono.
  - rewrite En at 2 3. replace (DUser dstva) with (DUser (dstva + Z.of_nat 0)) by (f_equal; lia).
    eapply (read_loop kpt pages s pt sz dstva q ln b N D eof) with (k := 0%nat) (l' := l);
      [apply Hsp | apply Hsp | lia | lia | done | | | | lia | lia].
    + exists (k_cons s), pages. split; [| split; [done | by rewrite drop_0, Z.add_0_r]]. split; [done | by destruct s | done |].
      by apply wrote_nil; intros ???.
    + pose proof (bf_bytes _ _ _ _ Hb) as Hby. by apply Forall_app in Hby as [Hby _].
    + by rewrite !drop_0.
  - intros r t (k & l' & -> & HkN & Hend). assert (∀ u, progress kpt pages s pt sz dstva q ln b D k u l' t →
      wp (release LkCons;; ret (i32 (u32 n - (Z.of_nat N - Z.of_nat k)))) (λ r t, ∃ pages', r = Z.of_nat k ∧ space kpt pages' l' t pt sz ∧
        wrote kpt pages (k_mem s) (k_mem t) pt sz dstva D k ∧ buffer (k_cons t) (drop u q) ln (b + Z.of_nat u)) t) as Hfin.
    { intros u (c & pages' & Hco & Hc & Hbu). pose proof (co_only _ _ _ _ _ _ _ _ _ _ _ Hco) as Hon. unfold only_pages in Hon.
      apply wp_bind. eapply wp_done; [apply (release_done LkCons (k_held s)); [by rewrite Hon | done] |]. apply wp_ret. exists pages'.
      split; [rewrite u32_small, i32_small; lia |]. split; [| split; [apply Hco | simpl; by rewrite Hc]].
      apply (space_frame kpt pages' l' t); try done; [apply Hco | apply Hsp]. }
    destruct Hend as [[Hk Hpr] | (Hk & Hpr & Hst)]; (eapply wp_mono; [exact (Hfin _ Hpr) |]); intros r' t' (pages' & -> & H1 & H2 & H3);
      exists k, l', pages'; eexists; (split; [done |]); (split; [done |]); (split; [done |]); (split; [exact H3 |]); [by left | by right].
Qed.
