(* ===== verification/File.v ===== *)
(** * Pipes and the file layer (kernel/pipe.c, kernel/file.c) *)

From S2P Require Import Prelude Machine Kstate Strings Sched Kalloc Vm Printf Bio Log Fs Console.

Definition PIPESIZE : nat := 512.

(** [pi->data[i % PIPESIZE]]. *)
Definition pipe_slot (i : Z) : nat := Z.to_nat (i mod Z.of_nat PIPESIZE).

(** A pipe as [pipealloc] leaves it; its buffer holds what [kalloc] filled the
    page with. *)
Definition newpipe : pipe := mkPipe (replicate PIPESIZE 5) 0 0 1 1.

Section file.
Context {L : Layout} {E : Env}.

(** ** Pipes *)

Definition pipeclose (pi writable : Z) : K unit :=
  acquire (LkPipe pi);;
  (if negb (writable =? 0) then
     upd_pipe pi (fun x => x <| pi_writeopen := 0 |>);;
     wakeup (Some (ChPipeRead pi))
   else
     upd_pipe pi (fun x => x <| pi_readopen := 0 |>);;
     wakeup (Some (ChPipeWrite pi)));;
  x ← get_pipe pi;
  if (pi_readopen x =? 0) && (pi_writeopen x =? 0) then
    release (LkPipe pi);;
    kfree pi;;
    modify (fun s => s <| k_pipes ::= delete pi |>)
  else release (LkPipe pi).

Definition pipewrite (pi addr n : Z) : K Z :=
  pr ← curproc;
  acquire (LkPipe pi);;
  r ← wait_loop_plus (S (Z.to_nat n)) (fun i =>
    if i <? n then
      x ← get_pipe pi;
      k ← (if pi_readopen x =? 0 then ret 1 else killed pr);
      if negb (k =? 0) then
        release (LkPipe pi);;
        ret (inr None)
      else
        x ← get_pipe pi;
        if pi_nwrite x =? u32 (pi_nread x + Z.of_nat PIPESIZE) then
          wakeup (Some (ChPipeRead pi));;
          sleep (ChPipeWrite pi) (LkPipe pi);;
          ret (inl i)
        else
          p ← get_proc pr;
          '(bs, e) ← copyin (p_pagetable p) (u64 (addr + i)) 1;
          if e =? -1 then ret (inr (Some i))
          else
            ch ← must (bs !! 0%nat) "copyin";
            upd_pipe pi (fun x => x <| pi_data ::= <[pipe_slot (pi_nwrite x) := ch]> |>
                                     <| pi_nwrite := u32 (pi_nwrite x + 1) |>);;
            ret (inl (i + 1))
    else ret (inr (Some i))) 0;
  match r with
  | None => ret (-1)
  | Some i =>
      wakeup (Some (ChPipeRead pi));;
      release (LkPipe pi);;
      ret i
  end.

Definition piperead (pi addr n : Z) : K Z :=
  pr ← curproc;
  acquire (LkPipe pi);;
  k ← wait_loop (fun _ : unit =>
    x ← get_pipe pi;
    if (pi_nread x =? pi_nwrite x) && negb (pi_writeopen x =? 0) then
      k ← killed pr;
      if negb (k =? 0) then
        release (LkPipe pi);;
        ret (inr false)
      else
        sleep (ChPipeRead pi) (LkPipe pi);;
        ret (inl tt)
    else ret (inr true)) tt;
  if negb k then ret (-1)
  else
    i ← loop (S (Z.to_nat n)) (fun i =>
      if i <? n then
        x ← get_pipe pi;
        if pi_nread x =? pi_nwrite x then ret (inr i)
        else
          ch ← must (pi_data x !! pipe_slot (pi_nread x)) "pi->data index";
          p ← get_proc pr;
          r ← copyout (p_pagetable p) (u64 (addr + i)) [ch];
          if r =? -1 then ret (inr (if i =? 0 then -1 else i))
          else
            upd_pipe pi (fun x => x <| pi_nread := u32 (pi_nread x + 1) |>);;
            ret (inl (i + 1))
      else ret (inr i)) 0;
    wakeup (Some (ChPipeWrite pi));;
    release (LkPipe pi);;
    ret i.

(** ** The file table *)

Definition filealloc : K (option nat) :=
  acquire LkFtable;;
  r ← for_until (seq 0 NFILE) (fun f =>
    x ← get_file f;
    if f_ref x =? 0 then
      upd_file f (fun x => x <| f_ref := 1 |>);;
      release LkFtable;;
      ret (Some f)
    else ret None);
  match r with
  | Some f => ret (Some f)
  | None => release LkFtable;; ret None
  end.

Definition filedup (f : nat) : K nat :=
  acquire LkFtable;;
  x ← get_file f;
  if f_ref x <? 1 then kpanic "filedup"
  else
    upd_file f (fun x => x <| f_ref := f_ref x + 1 |>);;
    release LkFtable;;
    ret f.

Definition fileclose (f : nat) : K unit :=
  acquire LkFtable;;
  x ← get_file f;
  if f_ref x <? 1 then kpanic "fileclose"
  else
    upd_file f (fun x => x <| f_ref := f_ref x - 1 |>);;
    ff ← get_file f;
    if 0 <? f_ref ff then release LkFtable
    else
      upd_file f (fun x => x <| f_ref := 0 |> <| f_type := FD_NONE |>);;
      release LkFtable;;
      if decide (f_type ff = FD_PIPE) then pipeclose (f_pipe ff) (f_writable ff)
      else if decide (f_type ff = FD_INODE ∨ f_type ff = FD_DEVICE) then
        begin_op;;
        ip ← nonnull (f_ip ff);
        iput ip;;
        end_op
      else ret tt.

(** The two ends of a new pipe, or [None] for -1. *)
Definition pipealloc : K (option (nat * nat)) :=
  f0 ← filealloc;
  match f0 with
  | None => ret None
  | Some f0 =>
      f1 ← filealloc;
      match f1 with
      | None => fileclose f0;; ret None
      | Some f1 =>
          pi ← kalloc;
          if pi =? 0 then fileclose f0;; fileclose f1;; ret None
          else
            modify (fun s => s <| k_pipes ::= <[pi := newpipe]> |>);;
            upd_file f0 (fun x => x <| f_type := FD_PIPE |> <| f_readable := 1 |>
                                    <| f_writable := 0 |> <| f_pipe := pi |>);;
            upd_file f1 (fun x => x <| f_type := FD_PIPE |> <| f_readable := 0 |>
                                    <| f_writable := 1 |> <| f_pipe := pi |>);;
            ret (Some (f0, f1))
      end
  end.

Definition filestat (f : nat) (addr : Z) : K Z :=
  p ← curproc;
  x ← get_file f;
  if decide (f_type x = FD_INODE ∨ f_type x = FD_DEVICE) then
    ilock (f_ip x);;
    ip ← nonnull (f_ip x);
    st ← stati ip;
    iunlock (f_ip x);;
    pr ← get_proc p;
    r ← copyout (p_pagetable pr) addr st;
    if r <? 0 then ret (-1) else ret 0
  else ret (-1).

(** [devsw[major]], [None] when the index is bad or no driver is there. *)
Definition get_devsw (major : Z) : K (option driver) :=
  if (major <? 0) || (Z.of_nat NDEV <=? major) then ret None
  else
    d ← gets k_devsw;
    must (d !! Z.to_nat major) "devsw index".

Definition fileread (f : nat) (addr n : Z) : K Z :=
  x ← get_file f;
  if f_readable x =? 0 then ret (-1)
  else
    match f_type x with
    | FD_PIPE => piperead (f_pipe x) addr n
    | FD_DEVICE =>
        d ← get_devsw (f_major x);
        match d with
        | None => ret (-1)
        | Some DrvConsole => consoleread (DUser addr) n
        end
    | FD_INODE =>
        ilock (f_ip x);;
        ip ← nonnull (f_ip x);
        x ← get_file f;
        '(r, _) ← readi ip (DUser addr) (f_off x) (u32 n);
        (if 0 <? r then upd_file f (fun x => x <| f_off := u32 (f_off x + r) |>) else ret tt);;
        iunlock (f_ip x);;
        ret r
    | FD_NONE => kpanic "fileread"
    end.

Definition filewrite_max : Z := (Z.of_nat MAXOPBLOCKS - 1 - 1 - 2) / 2 * BSIZE.

Definition filewrite (f : nat) (addr n : Z) : K Z :=
  x ← get_file f;
  if f_writable x =? 0 then ret (-1)
  else
    match f_type x with
    | FD_PIPE => pipewrite (f_pipe x) addr n
    | FD_DEVICE =>
        d ← get_devsw (f_major x);
        match d with
        | None => ret (-1)
        | Some DrvConsole => consolewrite (SUser addr) n
        end
    | FD_INODE =>
        ip ← nonnull (f_ip x);
        i ← loop (Z.to_nat (Z.max 0 n / filewrite_max + 3)) (fun i =>
          if i <? n then
            let n1 := Z.min (n - i) filewrite_max in
            begin_op;;
            ilock (Some ip);;
            x ← get_file f;
            r ← writei ip (SUser (u64 (addr + i))) (f_off x) n1;
            (if 0 <? r then upd_file f (fun x => x <| f_off := u32 (f_off x + r) |>) else ret tt);;
            iunlock (Some ip);;
            end_op;;
            if negb (r =? n1) then ret (inr i)
            else ret (inl (i + r))
          else ret (inr i)) 0;
        ret (if i =? n then n else -1)
    | FD_NONE => kpanic "filewrite"
    end.

End file.
