(* ===== verification/FileSpec.v ===== *)
(** * Reading a file through its descriptor (kernel/file.c)

    [fileread] on an inode: the bytes of the file reach the memory of the
    process, and the offset advances by what was read. *)

From S2P Require Import Prelude Machine Kstate Logic Strings Sched Kalloc Vm Printf Bio BioSpec BlockStore Log LogData LogSpec Fs FsData FsRead FsInode VmSpec UvmSpec CopySpec File.

(** The state after a read: the user's pages changed as well. *)
Definition user_frame (s s' : kstate) : Prop :=
  s' = (s <| k_bufs := k_bufs s' |> <| k_procs := k_procs s' |> <| k_itable := k_itable s' |>
          <| k_mem := k_mem s' |> <| k_freelist := k_freelist s' |>) ∧ woken (k_procs s) (k_procs s').

#[global] Instance user_frame_preorder : PreOrder user_frame.
Proof.
  split.
  - intros s. split; [by destruct s | reflexivity].
  - intros s1 s2 s3 [E1 W1] [E2 W2]. split; [| by etransitivity]. rewrite E2, E1. by destruct s1.
Qed.

Lemma ino_user_frame s s' : ino_frame s s' → user_frame s s' ∧ k_mem s' = k_mem s ∧ k_freelist s' = k_freelist s.
Proof. intros [H W]. split; [split; [rewrite H; by destruct s | done] |]. by rewrite H. Qed.

Lemma pages_user_frame s s' : only_pages s s' → user_frame s s'.
Proof. unfold only_pages. intros H. rewrite H. split; [by destruct s | reflexivity]. Qed.

Section reads.
Context {L : Layout} {E : Env} (kpt : Z).

Lemma space_ino pages l s s' pt sz : space kpt pages l s pt sz → ino_frame s s' → space kpt pages l s' pt sz.
Proof.
  intros [[[[F1 F2 F3] H2 H3 H4 H5 H6] H7] H8 H9 H10 H11 (p & pr & Hc & Hp & Hpt & Hsz)] [Hs' Hw].
  destruct (Forall2_lookup_l _ _ _ _ _ Hw Hp) as (pr' & Hp' & Hpr).
  assert (k_mem s' = k_mem s ∧ k_freelist s' = k_freelist s ∧ k_held s' = k_held s ∧ k_cur s' = k_cur s) as (Em & Ef & Eh & Ec) by (by rewrite Hs').
  split; [split; [split |] | | done | done | done |]; rewrite ?Em, ?Eh; try done.
  - split; [by rewrite Em, Ef | done | done].
  - exists p, pr'. split; [by rewrite Ec |]. split; [done |]. destruct Hpr as [-> | [_ ->]]; done.
Qed.

Lemma wrote_seq pages pages1 m m1 m2 pt sz dstva D k n j : 0 ≤ dstva → is_root pages pt → (∀ root, is_root pages root → is_root pages1 root) →
  wrote kpt pages m m1 pt sz dstva D k → wrote kpt pages1 m1 m2 pt sz (dstva + Z.of_nat k) (slice D k n) j → (j ≤ n)%nat →
  wrote kpt pages m m2 pt sz dstva D (k + j).
Proof.
  intros Hd Hrt Hr Hw Hw2 Hj root sz' va Hroot Hk Hsz Hva. rewrite Hw2, Hw by auto. repeat case_decide; try done; try lia.
  unfold slice. rewrite lookup_take_lt, lookup_drop by lia. do 2 f_equal. lia.
Qed.

Lemma stopped_back pages m m1 pt sz dstva D k va l : wrote kpt pages m m1 pt sz dstva D k → is_root pages pt → pt ≠ kpt → 0 ≤ va →
  dstva + Z.of_nat k ≤ va → stopped sz m1 pt va l → stopped sz m pt va l.
Proof.
  intros Hw Hrt Hpt Hva0 Hva. unfold stopped, writable. intros [H | [H | H]]; [by left | | by do 2 right].
  destruct (decide (MAXVA ≤ va)); [by left |]. right; left. intros [b Hb]. apply H. exists b.
  rewrite Hw by (done || lia). rewrite decide_False by lia. done.
Qed.

(** [k] bytes of [data] have arrived at [dstva]. *)
Definition arrived (pages : gmap Z puse) (s0 : kstate) (pt sz dstva : Z) (data : list Z) (k : nat) (l' : list Z) (s : kstate) : Prop :=
  ∃ pages', space kpt pages' l' s pt sz ∧ user_frame s0 s ∧ (∀ root, is_root pages root → is_root pages' root) ∧
    wrote kpt pages (k_mem s0) (k_mem s) pt sz dstva data k.

Lemma arrived_ino pages s0 pt sz dstva data k l' s s' : arrived pages s0 pt sz dstva data k l' s → ino_frame s s' →
  arrived pages s0 pt sz dstva data k l' s'.
Proof.
  intros (pages' & Hsp & Hf & Hr & Hw) H. exists pages'. destruct (ino_user_frame _ _ H) as (Hu & -> & _).
  split; [by eapply space_ino |]. split; [by etransitivity | done].
Qed.

(** User memory as a place for the bytes of a file. *)
Lemma user_sink pages s0 pt sz dstva data : is_root pages pt → pt ≠ kpt → 0 ≤ dstva → dstva + Z.of_nat (length data) < 2 ^ 64 →
  sink (DUser dstva) data (λ k s, ∃ l', arrived pages s0 pt sz dstva data k l' s)
    (λ _ s, ∃ j l', (j < length data)%nat ∧ arrived pages s0 pt sz dstva data j l' s ∧ stopped sz (k_mem s0) pt (dstva + Z.of_nat j) l').
Proof.
  intros Hrt Hpt Hd0 Hd. split.
  - simpl. by rewrite Z.add_0_r, u64_small by lia.
  - intros k s s' (l' & H) Hf. exists l'. eapply arrived_ino; [done |]. by apply bio_ino_frame.
  - intros _ s s' (j & l' & Hj & H & Hst) Hf. exists j, l'. split; [done |]. split; [| done]. eapply arrived_ino; [done |]. by apply bio_ino_frame.
  - intros k m s Hm Hk (l' & pages' & Hsp & Hf & Hr & Hw). pose proof (sp_run _ _ _ _ _ _ Hsp) as (p & pr & Hc & Hp & Hpp & _).
    cbn [dest_add either_copyout]. rewrite u64_small by lia. apply wp_bind. eapply wp_done; [by apply curproc_done |].
    apply wp_bind. eapply wp_done; [by apply get_proc_done |]. rewrite Hpp. eapply wp_mono; [apply (copyout_wp kpt pages' l'); [done | lia] |].
    assert (length (slice data k m) = m) as Hlen by (unfold slice; rewrite length_take, length_drop; lia).
    intros r s' (j & pages2 & l2 & [Hsp2 Hon2 Hr2 Hw2] & Hcase). rewrite Hlen in Hcase. split; [done |].
    assert (j ≤ m)%nat as Hj by lia. assert (arrived pages s0 pt sz dstva data (k + j) l2 s') as Ha.
    { exists pages2. split; [done |]. split; [etransitivity; [done | by apply pages_user_frame] |]. split; [auto |].
      by eapply (wrote_seq pages pages'). }
    destruct Hcase as [[-> ->] | (-> & Hlt & Hst)]; [left; by eauto | right]. split; [done |]. exists (k + j)%nat, l2.
    split; [lia |]. split; [done |]. replace (dstva + Z.of_nat (k + j)) with (dstva + Z.of_nat k + Z.of_nat j) by lia.
    eapply (stopped_back pages _ (k_mem s)); [done | done | done | lia | lia | done].
Qed.
End reads.

Lemma wp_upd_file f g x (Q : unit → kstate → Prop) s : k_ftable s !! f = Some x →
  Q tt (s <| k_ftable ::= <[f := g x]> |>) → wp (upd_file f g) Q s.
Proof. intros Hx HQ. apply wp_bind, wp_bind, wp_gets. apply (wp_must _ _ x); [done |]. by apply wp_modify. Qed.

Lemma get_file_wp f x s (Q : file → kstate → Prop) : k_ftable s !! f = Some x → Q x s → wp (get_file f) Q s.
Proof. intros Hx HQ. apply wp_bind, wp_gets. by apply (wp_must _ _ x). Qed.

(** The file table after a read that returned [r]. *)
Definition advanced (f : nat) (x : file) (r : Z) (T T' : list file) : Prop :=
  T' = if r =? -1 then T else <[f := x <| f_off := f_off x + r |>]> T.

Lemma read_data_end c off n : 0 ≤ off → 0 ≤ n → read_data c off n ≠ [] → off + Z.of_nat (length (read_data c off n)) ≤ Z.of_nat (length c).
Proof.
  intros Ho Hn H. assert (length (read_data c off n) ≠ 0)%nat as H0 by (by destruct (read_data c off n)). revert H0. unfold read_data.
  destruct (_ || _); [done |]. unfold slice. rewrite length_take, length_drop. lia.
Qed.

Lemma advance_wp f x s c n r (Q : unit → kstate → Prop) : k_ftable s !! f = Some x → 0 ≤ f_off x → 0 ≤ n →
  Z.of_nat (length c) < 2 ^ 32 → r = -1 ∨ r = Z.of_nat (length (read_data c (f_off x) n)) →
  (∀ T, advanced f x r (k_ftable s) T → Q tt (s <| k_ftable := T |>)) →
  wp (if 0 <? r then upd_file f (fun x => x <| f_off := u32 (f_off x + r) |>) else ret tt) Q s.
Proof.
  intros Hx Ho Hn Hc Hr HQ. destruct (Z.ltb_spec 0 r) as [Hlt | Hge].
  - pose proof (read_data_end c (f_off x) n Ho Hn) as He. destruct Hr as [-> | Hr]; [lia |].
    assert (read_data c (f_off x) n ≠ []) as Hne by (intros H; rewrite H in Hr; simpl in Hr; lia).
    eapply wp_upd_file; [done |]. rewrite u32_small by (specialize (He Hne); lia). apply HQ. unfold advanced. rewrite (proj2 (Z.eqb_neq _ _)) by lia. done.
  - apply wp_ret. replace s with (s <| k_ftable := k_ftable s |>) by (by destruct s). apply HQ. unfold advanced.
    destruct (Z.eqb_spec r (-1)) as [| Hne]; [done |]. replace (f_off x + r) with (f_off x) by lia.
    symmetry. apply list_insert_id. by destruct x.
Qed.

Lemma ino_frame_ftable s T s' : ino_frame (s <| k_ftable := T |>) s' → ino_frame s (s' <| k_ftable := k_ftable s |>) ∧ k_ftable s' = T.
Proof. intros [H W]. split; [split; [rewrite H; by destruct s | done] | by rewrite H]. Qed.

Lemma finish_wp {L : Layout} {E : Env} dev pid t kpt pages s0 pt sz dstva data k l' ip x T r s (Q : Z → kstate → Prop) :
  stored dev pid t s → arrived kpt pages s0 pt sz dstva data k l' s → k_itable s !! ip = Some x → i_lock x = mkSleeplock 1 pid → 1 ≤ i_ref x →
  (∀ s', stored dev pid t s' → arrived kpt pages s0 pt sz dstva data k l' (s' <| k_ftable := k_ftable s |>) →
     k_itable s' = <[ip := unlocked x]> (k_itable s) → k_ftable s' = T → Q r s') →
  wp (iunlock (Some ip);; ret r) Q (s <| k_ftable := T |>).
Proof.
  intros Hs Ha Hx Hl Hr HQ. apply wp_bind. eapply (iunlock_wp dev pid t ip x).
  - destruct Hs as [[H1 H2 H3] H4 H5 H6]. split; [split |..]; done.
  - done.
  - done.
  - done.
  - intros s' Hs' Hf Hi. apply wp_ret. destruct (ino_frame_ftable _ _ _ Hf) as [Hf' HT]. apply HQ; [done | | done | done].
    by eapply arrived_ino.
Qed.

(** ** Theorems *)

(** C12: [fileread] of a file on the disk delivers its bytes.  The file's inode is
    locked and loaded, the bytes from the offset on (at most [n], fewer at the
    end of the file) are copied block by block through the buffer cache into the
    memory of the process, the offset advances by their number, which is the
    result, and the inode is unlocked again.  The content of the file system does
    not change.  If a page of the destination cannot be written, the result is
    -1, the bytes before it have arrived and the offset stays. *)
Theorem file_read_delivers {L : Layout} {E : Env} dev pid t kpt pages l s pt sz f x ip i c addr n :
  readable t → stored dev pid t s → space kpt pages l s pt sz →
  k_ftable s !! f = Some x → f_readable x ≠ 0 → f_type x = FD_INODE → f_ip x = Some ip → 0 ≤ f_off x < 2 ^ 32 →
  k_itable s !! ip = Some i → entry_of dev (st_view t) (k_sb s) i → disk_file (st_view t) (k_sb s) (i_inum i) c →
  0 ≤ addr → 0 ≤ n < 2 ^ 31 → addr + n < 2 ^ 64 →
  let data := read_data c (f_off x) n in
  ∃ r s' k l', fileread f addr n s = Done r s' ∧ stored dev pid t s' ∧ arrived kpt pages s pt sz addr data k l' (s' <| k_ftable := k_ftable s |>) ∧
    (∃ i', k_itable s' = <[ip := i']> (k_itable s) ∧ entry_of dev (st_view t) (k_sb s) i' ∧ i_valid i' ≠ 0 ∧ i_inum i' = i_inum i) ∧
    (r = Z.of_nat (length data) ∧ k = length data ∧ k_ftable s' = <[f := x <| f_off := f_off x + r |>]> (k_ftable s) ∨
     r = -1 ∧ (k < length data)%nat ∧ k_ftable s' = k_ftable s ∧ stopped sz (k_mem s) pt (addr + Z.of_nat k) l').
Proof.
  intros Hr Hs Hsp Hx Hrd Hty Hip Hoff Hi He Hdf Ha Hn Han data.
  enough (wp (fileread f addr n) (λ r s', ∃ k l', stored dev pid t s' ∧ arrived kpt pages s pt sz addr data k l' (s' <| k_ftable := k_ftable s |>) ∧
    (∃ i', k_itable s' = <[ip := i']> (k_itable s) ∧ entry_of dev (st_view t) (k_sb s) i' ∧ i_valid i' ≠ 0 ∧ i_inum i' = i_inum i) ∧
    (r = Z.of_nat (length data) ∧ k = length data ∧ k_ftable s' = <[f := x <| f_off := f_off x + r |>]> (k_ftable s) ∨
     r = -1 ∧ (k < length data)%nat ∧ k_ftable s' = k_ftable s ∧ stopped sz (k_mem s) pt (addr + Z.of_nat k) l')) s) as H.
  { apply wp_elim in H as (r & s' & Hrun & k & l' & H1 & H2 & H3 & H4). exists r, s', k, l'. done. }
  unfold fileread. apply wp_bind. eapply get_file_wp; [done |]. rewrite (proj2 (Z.eqb_neq _ _)), Hty, Hip by done.
  apply wp_bind. eapply (ilock_file_wp dev pid t); [done.. |]. intros s1 i1 Hs1 F1 I1 -> Hl1 Hsz1 Hfi1.
  set (d := disk_inode _ _ _) in *. destruct (fetch_same pid d i) as (E1 & E2 & E3 & E4). set (i1 := fetch pid d i) in *.
  destruct (ino_user_frame _ _ F1) as (U1 & M1 & _). assert (k_ftable s1 = k_ftable s) as T1 by (destruct F1 as [F1 _]; by rewrite F1).
  apply wp_bind. apply (wp_must _ _ ip); [done |]. apply wp_bind. eapply get_file_wp; [by rewrite T1 |]. apply wp_bind.
  assert (length data ≤ Z.to_nat n)%nat as Hdl.
  { unfold data, read_data. destruct (_ || _); [simpl; lia |]. unfold slice. rewrite length_take. lia. }
  rewrite u32_small by lia. eapply wp_mono.
  { eapply (readi_wp dev pid t ip i1 c); [done | done | | by rewrite E1; apply He | done | done | done | lia | |].
    - rewrite I1. apply list_lookup_insert_eq. by eapply lookup_lt_Some.
    - eapply (user_sink kpt pages s pt sz addr data); [apply Hsp | apply Hsp | done | lia].
    - exists l. eapply arrived_ino; [| done]. exists pages. split; [done |]. split; [reflexivity |]. split; [done |].
      by apply wrote_nil; intros ???. }
  intros [r bs] s2 (Hs2 & I2 & Hcase). rewrite I1 in I2.
  assert (∃ k l', arrived kpt pages s pt sz addr data k l' s2 ∧ (r = Z.of_nat (length data) ∧ k = length data ∨
    r = -1 ∧ (k < length data)%nat ∧ stopped sz (k_mem s) pt (addr + Z.of_nat k) l')) as (k & l' & Har & Hc).
  { destruct Hcase as [(-> & _ & l' & H) | (-> & _ & _ & k & l' & H1 & H2 & H3)]; [by eauto 10 |]. exists k, l'. auto. }
  assert (k_ftable s2 = k_ftable s) as T2 by (destruct Har as (? & _ & [Hu _] & _); by rewrite Hu). clear Hcase.
  assert (Z.of_nat (length c) < 2 ^ 32) as Hmax by (pose proof (fi_max _ _ _ Hfi1); pose proof maxfile_bytes; lia).
  apply wp_bind. eapply (advance_wp f x s2 c n r); [by rewrite T2 | lia | lia | done | destruct Hc as [[-> _] | [-> _]]; [by right | by left] |].
  intros T HT. rewrite T2 in HT. unfold advanced in HT. rewrite Hip. eapply (finish_wp dev pid t kpt pages s pt sz addr data k l' ip i1 T r s2); [done | done | | done | by rewrite E3; apply He |].
  { rewrite I2. apply list_lookup_insert_eq. by eapply lookup_lt_Some. }
  intros s4 Hs4 Ha4 I4 T4. exists k, l'. split; [done |]. split; [by rewrite <-T2 |]. split.
  - exists (unlocked i1). rewrite I4, I2, list_insert_insert_eq. split; [done |]. split; [| split; [apply Hl1 | done]].
    split; [change (1 ≤ i_ref i1); rewrite E3; apply He | change (i_dev i1 = dev); rewrite E1; apply He | done |]. intros _. change (i_inum (unlocked i1)) with (i_inum i1). rewrite E2.
    destruct Hl1 as [Hv Hl1]. split; [done |]. exact (f_equal unlocked Hl1).
  - rewrite T4, HT. destruct Hc as [[-> ->] | (-> & Hk & Hst)]; [left | right]; [| auto]. rewrite (proj2 (Z.eqb_neq _ _)) by lia. done.
Qed.
