(* ===== verification/Proc.v ===== *)
(** * Processes: creation, exit, wait (kernel/proc.c) *)

From S2P Require Import Prelude Machine Kstate Strings Sched Kalloc Vm Printf Bio Log Fs Console File.

Section proc.
Context {L : Layout} {E : Env}.

Definition procinit : K unit :=
  for_each (seq 0 NPROC) (fun i =>
    upd_proc i (fun p => p <| p_state := UNUSED |> <| p_kstack := KSTACK (Z.of_nat i) |>)).

(** [nextpid + 1] has no defined value once [nextpid] is the largest int. *)
Definition allocpid : K Z :=
  acquire LkPid;;
  pid ← gets k_nextpid;
  (if INT_MAX <=? pid then undef "nextpid overflow"
   else modify (fun s => s <| k_nextpid := pid + 1 |>));;
  release LkPid;;
  ret pid.

(** ** Page tables of processes *)

Definition proc_pagetable (p : nat) : K Z :=
  pagetable ← uvmcreate;
  if pagetable =? 0 then ret 0
  else
    r ← mappages pagetable TRAMPOLINE PGSIZE sym_trampoline (Z.lor PTE_R PTE_X);
    if r <? 0 then uvmfree pagetable 0;; ret 0
    else
      pr ← get_proc p;
      r ← mappages pagetable TRAPFRAME PGSIZE (p_trapframe pr) (Z.lor PTE_R PTE_W);
      if r <? 0 then
        uvmunmap pagetable TRAMPOLINE 1 0;;
        uvmfree pagetable 0;;
        ret 0
      else ret pagetable.

Definition proc_freepagetable (pagetable sz : Z) : K unit :=
  uvmunmap pagetable TRAMPOLINE 1 0;;
  uvmunmap pagetable TRAPFRAME 1 0;;
  uvmfree pagetable sz.

(** ** Allocating and freeing table entries *)

Definition freeproc (i : nat) : K unit :=
  p ← get_proc i;
  (if negb (p_trapframe p =? 0) then kfree (p_trapframe p) else ret tt);;
  upd_proc i (fun p => p <| p_trapframe := 0 |>);;
  p ← get_proc i;
  (if negb (p_pagetable p =? 0) then proc_freepagetable (p_pagetable p) (p_sz p) else ret tt);;
  upd_proc i (fun p => p <| p_pagetable := 0 |> <| p_sz := 0 |> <| p_pid := 0 |>
    <| p_parent := None |> <| p_name ::= <[0%nat := 0]> |> <| p_chan := None |>
    <| p_killed := 0 |> <| p_xstate := 0 |> <| p_syscall_mask := 0 |>
    <| p_child_syscall_mask := 0 |> <| p_audit_enabled := 0 |> <| p_strict_mode := 0 |>
    <| p_state := UNUSED |>).

(** The scan for an UNUSED entry; its lock is held on return. *)
Definition find_unused : K (option nat) :=
  for_until (seq 0 NPROC) (fun i =>
    acquire (LkProc i);;
    p ← get_proc i;
    if decide (p_state p = UNUSED) then ret (Some i)
    else release (LkProc i);; ret None).

Definition allocproc : K (option nat) :=
  r ← find_unused;
  match r with
  | None => ret None
  | Some p =>
      pid ← allocpid;
      upd_proc p (fun x => x <| p_pid := pid |> <| p_state := USED |> <| p_syscall_mask := 0 |>
        <| p_child_syscall_mask := 0 |> <| p_audit_enabled := 0 |> <| p_strict_mode := 0 |>);;
      tf ← kalloc;
      upd_proc p (fun x => x <| p_trapframe := tf |>);;
      if tf =? 0 then
        freeproc p;;
        release (LkProc p);;
        ret None
      else
        pt ← proc_pagetable p;
        upd_proc p (fun x => x <| p_pagetable := pt |>);;
        if pt =? 0 then
          freeproc p;;
          release (LkProc p);;
          ret None
        else
          upd_proc p (fun x => x <| p_context :=
            mkContext sym_forkret (p_kstack x + PGSIZE) (replicate 12 0) |>);;
          ret (Some p)
  end.

Definition userinit : K unit :=
  p ← allocproc;
  modify (fun s => s <| k_initproc := p |>);;
  p ← nonnull p;
  cwd ← namei (bytes_of_string "/");
  upd_proc p (fun x => x <| p_cwd := cwd |>);;
  upd_proc p (fun x => x <| p_state := RUNNABLE |>);;
  release (LkProc p).

Definition growproc (n : Z) : K Z :=
  p ← curproc;
  pr ← get_proc p;
  let sz := p_sz pr in
  if 0 <? n then
    if TRAPFRAME <? u64 (sz + n) then ret (-1)
    else
      sz ← uvmalloc (p_pagetable pr) sz (u64 (sz + n)) PTE_W;
      if sz =? 0 then ret (-1)
      else upd_proc p (fun x => x <| p_sz := sz |>);; ret 0
  else if n <? 0 then
    sz ← uvmdealloc (p_pagetable pr) sz (u64 (sz + n));
    upd_proc p (fun x => x <| p_sz := sz |>);;
    ret 0
  else
    upd_proc p (fun x => x <| p_sz := sz |>);;
    ret 0.

(** ** fork *)

Definition kfork : K Z :=
  p ← curproc;
  np ← allocproc;
  match np with
  | None => ret (-1)
  | Some np =>
      pr ← get_proc p;
      (if negb (p_child_syscall_mask pr =? 0)
       then upd_proc np (fun x => x <| p_syscall_mask := p_child_syscall_mask pr |>)
       else upd_proc np (fun x => x <| p_syscall_mask := p_syscall_mask pr |>));;
      upd_proc p (fun x => x <| p_child_syscall_mask := 0 |>);;
      upd_proc np (fun x => x <| p_audit_enabled := p_audit_enabled pr |>);;
      upd_proc np (fun x => x <| p_strict_mode := p_strict_mode pr |>);;
      npr ← get_proc np;
      r ← uvmcopy (p_pagetable pr) (p_pagetable npr) (p_sz pr);
      if r <? 0 then
        freeproc np;;
        release (LkProc np);;
        ret (-1)
      else
        upd_proc np (fun x => x <| p_sz := p_sz pr |>);;
        kmemmove (p_trapframe npr) (p_trapframe pr) TF_SIZE;;
        kstore64 (p_trapframe npr + TF_a0) 0;;
        for_each (seq 0 NOFILE) (fun i =>
          f ← must (p_ofile pr !! i) "ofile index";
          match f with
          | Some f =>
              f ← filedup f;
              upd_proc np (fun x => x <| p_ofile ::= <[i := Some f]> |>)
          | None => ret tt
          end);;
        cwd ← nonnull (p_cwd pr);
        cwd ← idup cwd;
        upd_proc np (fun x => x <| p_cwd := Some cwd |>);;
        upd_proc np (fun x => x <| p_name ::= fun s => safestrcpy s (p_name pr) 16 |>);;
        npr ← get_proc np;
        let pid := p_pid npr in
        release (LkProc np);;
        acquire LkWait;;
        upd_proc np (fun x => x <| p_parent := Some p |>);;
        release LkWait;;
        acquire (LkProc np);;
        upd_proc np (fun x => x <| p_state := RUNNABLE |>);;
        release (LkProc np);;
        ret pid
  end.

(** ** exit and wait *)

Definition reparent (p : nat) : K unit :=
  for_each (seq 0 NPROC) (fun pp =>
    x ← get_proc pp;
    if decide (p_parent x = Some p) then
      init ← gets k_initproc;
      upd_proc pp (fun x => x <| p_parent := init |>);;
      wakeup (ChProc <$> init)
    else ret tt).

Definition kexit (status : Z) : K unit :=
  p ← curproc;
  init ← gets k_initproc;
  if decide (init = Some p) then kpanic "init exiting"
  else
    for_each (seq 0 NOFILE) (fun fd =>
      pr ← get_proc p;
      f ← must (p_ofile pr !! fd) "ofile index";
      match f with
      | Some f =>
          fileclose f;;
          upd_proc p (fun x => x <| p_ofile ::= <[fd := None]> |>)
      | None => ret tt
      end);;
    begin_op;;
    pr ← get_proc p;
    cwd ← nonnull (p_cwd pr);
    iput cwd;;
    end_op;;
    upd_proc p (fun x => x <| p_cwd := None |>);;
    acquire LkWait;;
    reparent p;;
    pr ← get_proc p;
    wakeup (ChProc <$> p_parent pr);;
    acquire (LkProc p);;
    upd_proc p (fun x => x <| p_xstate := status |>);;
    upd_proc p (fun x => x <| p_state := ZOMBIE |>);;
    release LkWait;;
    sched;;
    kpanic "zombie exit".

(** One pass over the table: [inl r] to return [r], [inr havekids] to go on. *)
Definition kwait_scan (p : nat) (addr : Z) : K (Z + bool) :=
  loop (S NPROC) (fun '(pp, havekids) =>
    if (pp <? NPROC)%nat then
      x ← get_proc pp;
      if decide (p_parent x = Some p) then
        acquire (LkProc pp);;
        x ← get_proc pp;
        if decide (p_state x = ZOMBIE) then
          let pid := p_pid x in
          pr ← get_proc p;
          r ← (if negb (addr =? 0)
               then copyout (p_pagetable pr) addr (le_bytes 4 (u32 (p_xstate x)))
               else ret 0);
          if r <? 0 then
            release (LkProc pp);;
            release LkWait;;
            ret (inr (inl (-1)))
          else
            freeproc pp;;
            release (LkProc pp);;
            release LkWait;;
            ret (inr (inl pid))
        else
          release (LkProc pp);;
          ret (inl (S pp, true))
      else ret (inl (S pp, havekids))
    else ret (inr (inr havekids))) (O, false).

Definition kwait (addr : Z) : K Z :=
  p ← curproc;
  acquire LkWait;;
  wait_loop (fun _ : unit =>
    r ← kwait_scan p addr;
    match r with
    | inl v => ret (inr v)
    | inr havekids =>
        k ← (if negb havekids then ret 1 else killed p);
        if negb (k =? 0) then
          release LkWait;;
          ret (inr (-1))
        else
          sleep (ChProc p) LkWait;;
          ret (inl tt)
    end) tt.

End proc.
