(* ===== verification/Exec.v ===== *)
(** * exec (kernel/exec.c, kernel/elf.h) *)

From S2P Require Import Prelude Machine Kstate Strings Sched Kalloc Vm Printf Bio Log Fs Console File Proc.

Definition ELF_MAGIC : Z := 0x464C457F.
Definition ELFHDR_SIZE : Z := 64.
Definition PROGHDR_SIZE : Z := 56.
Definition ELF_PROG_LOAD : Z := 1.

(** Fields of [struct elfhdr]. *)
Definition elf_magic (bs : list Z) : Z := le_val (slice bs 0 4).
Definition elf_entry (bs : list Z) : Z := le_val (slice bs 24 8).
Definition elf_phoff (bs : list Z) : Z := le_val (slice bs 32 8).
Definition elf_phnum (bs : list Z) : Z := le_val (slice bs 56 2).

Record proghdr := mkProghdr {
  ph_type : Z;
  ph_flags : Z;
  ph_off : Z;
  ph_vaddr : Z;
  ph_filesz : Z;
  ph_memsz : Z;
}.
Definition decode_proghdr (bs : list Z) : proghdr :=
  mkProghdr (le_val (slice bs 0 4)) (le_val (slice bs 4 4)) (le_val (slice bs 8 8))
    (le_val (slice bs 16 8)) (le_val (slice bs 32 8)) (le_val (slice bs 40 8)).

Definition flags2perm (flags : Z) : Z :=
  let perm := if negb (Z.land flags 1 =? 0) then PTE_X else 0 in
  if negb (Z.land flags 2 =? 0) then Z.lor perm PTE_W else perm.

(** The part of the path after its last '/'. *)
Fixpoint last_elem (s last : list Z) : list Z :=
  match s with
  | [] => last
  | c :: s => if c =? 0 then last else last_elem s (if c =? SLASH then s else last)
  end.

Section exec.
Context {L : Layout} {E : Env}.

Definition loadseg (pagetable va : Z) (ip : nat) (offset sz : Z) : K Z :=
  loop (Z.to_nat (sz / PGSIZE + 3)) (fun i =>
    if i <? sz then
      pa ← walkaddr pagetable (u64 (va + i));
      if pa =? 0 then kpanic "loadseg: address should exist"
      else
        let n := if sz - i <? PGSIZE then sz - i else PGSIZE in
        '(r, _) ← readi ip (DKernel pa) (u32 (offset + i)) n;
        if negb (r =? n) then ret (inr (-1))
        else ret (inl (i + PGSIZE))
    else ret (inr 0)) 0.

(** The program-header loop: [(ok, sz)], where [ok = false] is [goto bad]. *)
Definition kexec_load (ip : nat) (elf : list Z) (pagetable : Z) : K (bool * Z) :=
  loop (Z.to_nat (elf_phnum elf + 1)) (fun '(i, off, sz) =>
    if i <? elf_phnum elf then
      '(r, bs) ← readi ip DLocal (u32 off) PROGHDR_SIZE;
      if negb (r =? PROGHDR_SIZE) then ret (inr (false, sz))
      else
        let ph := decode_proghdr bs in
        let next := (i + 1, i32 (off + PROGHDR_SIZE)) in
        if negb (ph_type ph =? ELF_PROG_LOAD) then ret (inl (next, sz))
        else if ph_memsz ph <? ph_filesz ph then ret (inr (false, sz))
        else if u64 (ph_vaddr ph + ph_memsz ph) <? ph_vaddr ph then ret (inr (false, sz))
        else if negb (ph_vaddr ph mod PGSIZE =? 0) then ret (inr (false, sz))
        else
          sz1 ← uvmalloc pagetable sz (u64 (ph_vaddr ph + ph_memsz ph)) (flags2perm (ph_flags ph));
          if sz1 =? 0 then ret (inr (false, sz))
          else
            r ← loadseg pagetable (ph_vaddr ph) ip (u32 (ph_off ph)) (u32 (ph_filesz ph));
            if r <? 0 then ret (inr (false, sz1))
            else ret (inl (next, sz1))
    else ret (inr (true, sz))) ((0, i32 (elf_phoff elf)), 0).

(** The argument strings: [Some (argc, sp, ustack)], or [None] for [goto bad]. *)
Definition kexec_args (pagetable sp stackbase : Z) (argv : list (list Z)) :
    K (option (Z * list Z)) :=
  loop (S (length argv)) (fun '(sp, ustack, argv) =>
    match argv with
    | [] => ret (inr (Some (sp, ustack)))
    | arg :: argv =>
        if (MAXARG <=? length ustack)%nat then ret (inr None)
        else
          let sp := u64 (sp - (strlen arg + 1)) in
          let sp := sp - sp mod 16 in
          if sp <? stackbase then ret (inr None)
          else
            r ← copyout pagetable sp (cstr arg ++ [0]);
            if r <? 0 then ret (inr None)
            else ret (inl (sp, ustack ++ [sp], argv))
    end) (sp, [], argv).

(** [bad:] *)
Definition kexec_bad (pagetable sz : Z) (ip : option nat) : K Z :=
  (if negb (pagetable =? 0) then proc_freepagetable pagetable sz else ret tt);;
  (match ip with
   | Some ip => iunlockput ip;; end_op
   | None => ret tt
   end);;
  ret (-1).

(** Stack, arguments and the switch to the new image. *)
Definition kexec_start (p : nat) (path : list Z) (argv : list (list Z))
    (entry pagetable sz : Z) : K Z :=
  pr ← get_proc p;
  let oldsz := p_sz pr in
  let sz := PGROUNDUP sz in
  sz1 ← uvmalloc pagetable sz (u64 (sz + (USERSTACK + 1) * PGSIZE)) PTE_W;
  if sz1 =? 0 then kexec_bad pagetable sz None
  else
    let sz := sz1 in
    uvmclear pagetable (u64 (sz - (USERSTACK + 1) * PGSIZE));;
    let sp := sz in
    let stackbase := u64 (sp - USERSTACK * PGSIZE) in
    r ← kexec_args pagetable sp stackbase argv;
    match r with
    | None => kexec_bad pagetable sz None
    | Some (sp, ustack) =>
        let argc := Z.of_nat (length ustack) in
        let sp := u64 (sp - (argc + 1) * 8) in
        let sp := sp - sp mod 16 in
        if sp <? stackbase then kexec_bad pagetable sz None
        else
          r ← copyout pagetable sp (concat (le_bytes 8 <$> (ustack ++ [0])));
          if r <? 0 then kexec_bad pagetable sz None
          else
            kstore64 (p_trapframe pr + TF_a1) sp;;
            upd_proc p (fun x => x <| p_name ::= fun s => safestrcpy s (last_elem path path) 16 |>);;
            let oldpagetable := p_pagetable pr in
            upd_proc p (fun x => x <| p_pagetable := pagetable |>);;
            upd_proc p (fun x => x <| p_sz := sz |>);;
            kstore64 (p_trapframe pr + TF_epc) entry;;
            kstore64 (p_trapframe pr + TF_sp) sp;;
            proc_freepagetable oldpagetable oldsz;;
            ret argc
    end.

Definition kexec (path : list Z) (argv : list (list Z)) : K Z :=
  p ← curproc;
  begin_op;;
  ip ← namei path;
  match ip with
  | None => end_op;; ret (-1)
  | Some ip =>
      ilock (Some ip);;
      '(r, elf) ← readi ip DLocal 0 ELFHDR_SIZE;
      if negb (r =? ELFHDR_SIZE) then kexec_bad 0 0 (Some ip)
      else if negb (elf_magic elf =? ELF_MAGIC) then kexec_bad 0 0 (Some ip)
      else
        pagetable ← proc_pagetable p;
        if pagetable =? 0 then kexec_bad 0 0 (Some ip)
        else
          '(ok, sz) ← kexec_load ip elf pagetable;
          if negb ok then kexec_bad pagetable sz (Some ip)
          else
            iunlockput ip;;
            end_op;;
            kexec_start p path argv (elf_entry elf) pagetable sz
  end.

End exec.
