(* ===== verification/Sysproc.v ===== *)
(** * System-call arguments and the process system calls
      (the argument functions of kernel/syscall.c, kernel/sysproc.c) *)

From S2P Require Import Prelude Machine Kstate Strings Sched Kalloc Vm Printf Bio Log Fs Console File Proc.

(** A field of the current process's trapframe. *)
Definition tf_get (p : nat) (off : Z) : K Z :=
  pr ← get_proc p;
  if p_trapframe pr =? 0 then undef "null pointer" else kload64 (p_trapframe pr + off).
Definition tf_set (p : nat) (off v : Z) : K unit :=
  pr ← get_proc p;
  if p_trapframe pr =? 0 then undef "null pointer" else kstore64 (p_trapframe pr + off) v.

Section sysproc.
Context {L : Layout} {E : Env}.

(** ** Arguments *)

Definition fetchaddr (addr : Z) : K (option Z) :=
  p ← curproc;
  pr ← get_proc p;
  if (p_sz pr <=? addr) || (p_sz pr <? u64 (addr + 8)) then ret None
  else
    '(bs, r) ← copyin (p_pagetable pr) addr 8;
    if negb (r =? 0) then ret None else ret (Some (le_val bs)).

(** The string, or [None] for -1; the C function returns its [strlen]. *)
Definition fetchstr (addr max : Z) : K (option (list Z)) :=
  p ← curproc;
  pr ← get_proc p;
  copyinstr (p_pagetable pr) addr max.

Definition argraw (n : Z) : K Z :=
  p ← curproc;
  if n =? 0 then tf_get p TF_a0
  else if n =? 1 then tf_get p TF_a1
  else if n =? 2 then tf_get p TF_a2
  else if n =? 3 then tf_get p TF_a3
  else if n =? 4 then tf_get p TF_a4
  else if n =? 5 then tf_get p TF_a5
  else kpanic "argraw".

Definition argint (n : Z) : K Z := v ← argraw n; ret (i32 v).
Definition argaddr (n : Z) : K Z := argraw n.
Definition argstr (n max : Z) : K (option (list Z)) := addr ← argaddr n; fetchstr addr max.

(** ** kernel/sysproc.c *)

Definition sys_exit : K Z := n ← argint 0; kexit n;; ret 0.

Definition sys_getpid : K Z := p ← curproc; pr ← get_proc p; ret (u64 (p_pid pr)).

Definition sys_fork : K Z := r ← kfork; ret (u64 r).

Definition sys_wait : K Z := p ← argaddr 0; r ← kwait p; ret (u64 r).

Definition sys_sbrk : K Z :=
  n ← argint 0;
  t ← argint 1;
  p ← curproc;
  pr ← get_proc p;
  let addr := p_sz pr in
  if (t =? SBRK_EAGER) || (n <? 0) then
    r ← growproc n;
    if r <? 0 then ret (u64 (-1)) else ret addr
  else if u64 (addr + n) <? addr then ret (u64 (-1))
  else if TRAPFRAME <? u64 (addr + n) then ret (u64 (-1))
  else
    upd_proc p (fun x => x <| p_sz := u64 (p_sz x + n) |>);;
    ret addr.

Definition sys_pause : K Z :=
  n ← argint 0;
  let n := if n <? 0 then 0 else n in
  acquire LkTicks;;
  ticks0 ← gets k_ticks;
  r ← wait_loop (fun _ : unit =>
    ticks ← gets k_ticks;
    if u32 (ticks - ticks0) <? n then
      p ← curproc;
      k ← killed p;
      if negb (k =? 0) then
        release LkTicks;;
        ret (inr (-1))
      else
        sleep ChTicks LkTicks;;
        ret (inl tt)
    else ret (inr 0)) tt;
  if r =? 0 then release LkTicks;; ret 0 else ret (u64 r).

Definition sys_kill : K Z := pid ← argint 0; r ← kkill pid; ret (u64 r).

Definition sys_uptime : K Z :=
  acquire LkTicks;;
  xticks ← gets k_ticks;
  release LkTicks;;
  ret xticks.

Definition sys_hello : K Z := printf "hello
" [];; ret 0.

(** ** The filter's system calls *)

Definition sys_setfilter : K Z :=
  mask ← argaddr 0;
  p ← curproc;
  pr ← get_proc p;
  if negb (Z.land mask (p_syscall_mask pr) =? p_syscall_mask pr) then ret (u64 (-1))
  else
    upd_proc p (fun x => x <| p_syscall_mask := mask |>);;
    ret 0.

Definition sys_getfilter : K Z := p ← curproc; pr ← get_proc p; ret (p_syscall_mask pr).

Definition sys_setfilter_child : K Z :=
  p ← curproc;
  mask ← argaddr 0;
  pr ← get_proc p;
  if negb (Z.land mask (p_syscall_mask pr) =? p_syscall_mask pr) then ret (u64 (-1))
  else
    upd_proc p (fun x => x <| p_child_syscall_mask := mask |>);;
    ret 0.

Definition sys_setaudit : K Z :=
  p ← curproc;
  enable ← argint 0;
  upd_proc p (fun x => x <| p_audit_enabled := enable |>);;
  ret 0.

Definition sys_setstrict : K Z :=
  value ← argint 0;
  p ← curproc;
  upd_proc p (fun x => x <| p_strict_mode := value |>);;
  ret 0.

End sysproc.
