(* ===== verification/Sysfile.v ===== *)
(** * File system calls and the audit log (kernel/sysfile.c) *)

From S2P Require Import Prelude Machine Kstate Strings Sched Kalloc Vm Printf Bio Log Fs Console File Proc Exec Sysproc.

(** ** Decimal rendering for the audit log *)

(** [while(n > 0) { temp[j++] = (n % 10) + '0'; n /= 10; }]: the digits of [n],
    least significant first; an int has at most ten. *)
Fixpoint rev_digits (fuel : nat) (n : Z) : list Z :=
  match fuel with
  | O => []
  | S fuel => if 0 <? n then (n mod 10 + chr "0") :: rev_digits fuel (n / 10) else []
  end.

Definition int_to_str (n : Z) : list Z :=
  if n =? 0 then [chr "0"] else rev (rev_digits 10 n).

(** The record written to /audit.log, newline included. *)
Definition audit_msg (pid syscall_num : Z) : list Z :=
  bytes_of_string "AUDIT: PID=" ++ int_to_str pid ++
  bytes_of_string " BLOCKED SYSCALL=" ++ int_to_str syscall_num ++ [10].

Section sysfile.
Context {L : Layout} {E : Env}.

Definition argfd (n : Z) : K (option (nat * nat)) :=
  fd ← argint n;
  if (fd <? 0) || (Z.of_nat NOFILE <=? fd) then ret None
  else
    p ← curproc;
    pr ← get_proc p;
    f ← must (p_ofile pr !! Z.to_nat fd) "ofile index";
    match f with
    | None => ret None
    | Some f => ret (Some (Z.to_nat fd, f))
    end.

Definition set_ofile (p fd : nat) (f : option nat) : K unit :=
  upd_proc p (fun x => x <| p_ofile ::= <[fd := f]> |>).

Definition fdalloc (f : nat) : K Z :=
  p ← curproc;
  r ← for_until (seq 0 NOFILE) (fun fd =>
    pr ← get_proc p;
    x ← must (p_ofile pr !! fd) "ofile index";
    match x with
    | None => set_ofile p fd (Some f);; ret (Some (Z.of_nat fd))
    | Some _ => ret None
    end);
  ret (default (-1) r).

Definition sys_dup : K Z :=
  a ← argfd 0;
  match a with
  | None => ret (u64 (-1))
  | Some (_, f) =>
      fd ← fdalloc f;
      if fd <? 0 then ret (u64 (-1))
      else filedup f;; ret fd
  end.

Definition sys_read : K Z :=
  p ← argaddr 1;
  n ← argint 2;
  a ← argfd 0;
  match a with
  | None => ret (u64 (-1))
  | Some (_, f) => r ← fileread f p n; ret (u64 r)
  end.

Definition sys_write : K Z :=
  p ← argaddr 1;
  n ← argint 2;
  a ← argfd 0;
  match a with
  | None => ret (u64 (-1))
  | Some (_, f) => r ← filewrite f p n; ret (u64 r)
  end.

Definition sys_close : K Z :=
  a ← argfd 0;
  match a with
  | None => ret (u64 (-1))
  | Some (fd, f) =>
      p ← curproc;
      set_ofile p fd None;;
      fileclose f;;
      ret 0
  end.

Definition sys_fstat : K Z :=
  st ← argaddr 1;
  a ← argfd 0;
  match a with
  | None => ret (u64 (-1))
  | Some (_, f) => r ← filestat f st; ret (u64 r)
  end.

(** ** link and unlink *)

Definition link_bad (ip : nat) : K Z :=
  ilock (Some ip);;
  upd_inode ip (fun x => x <| i_nlink := i16 (i_nlink x - 1) |>);;
  iupdate ip;;
  iunlockput ip;;
  end_op;;
  ret (u64 (-1)).

Definition sys_link : K Z :=
  old ← argstr 0 (Z.of_nat MAXPATH);
  match old with
  | None => ret (u64 (-1))
  | Some old =>
      new ← argstr 1 (Z.of_nat MAXPATH);
      match new with
      | None => ret (u64 (-1))
      | Some new =>
          begin_op;;
          ip ← namei old;
          match ip with
          | None => end_op;; ret (u64 (-1))
          | Some ip =>
              ilock (Some ip);;
              x ← get_inode ip;
              if i_type x =? T_DIR then
                iunlockput ip;;
                end_op;;
                ret (u64 (-1))
              else
                upd_inode ip (fun x => x <| i_nlink := i16 (i_nlink x + 1) |>);;
                iupdate ip;;
                iunlock (Some ip);;
                r ← nameiparent new;
                match r with
                | None => link_bad ip
                | Some (dp, name) =>
                    ilock (Some dp);;
                    dx ← get_inode dp;
                    x ← get_inode ip;
                    r ← (if negb (i_dev dx =? i_dev x) then ret (-1)
                         else dirlink dp name (i_inum x));
                    if r <? 0 then
                      iunlockput dp;;
                      link_bad ip
                    else
                      iunlockput dp;;
                      iput ip;;
                      end_op;;
                      ret 0
                end
          end
      end
  end.

Definition isdirempty (dp : nat) : K bool :=
  x ← get_inode dp;
  loop (Z.to_nat (i_size x / DIRENT_SIZE + 2)) (fun off =>
    x ← get_inode dp;
    if off <? i_size x then
      '(r, bs) ← readi dp DLocal off DIRENT_SIZE;
      if negb (r =? DIRENT_SIZE) then kpanic "isdirempty: readi"
      else if negb (de_inum (decode_dirent bs) =? 0) then ret (inr false)
      else ret (inl (off + DIRENT_SIZE))
    else ret (inr true)) (2 * DIRENT_SIZE).

Definition unlink_bad (dp : nat) : K Z :=
  iunlockput dp;;
  end_op;;
  ret (u64 (-1)).

Definition sys_unlink : K Z :=
  path ← argstr 0 (Z.of_nat MAXPATH);
  match path with
  | None => ret (u64 (-1))
  | Some path =>
      begin_op;;
      r ← nameiparent path;
      match r with
      | None => end_op;; ret (u64 (-1))
      | Some (dp, name) =>
          ilock (Some dp);;
          if (namecmp name (bytes_of_string ".") =? 0) ||
             (namecmp name (bytes_of_string "..") =? 0) then unlink_bad dp
          else
            r ← dirlookup dp name;
            match r with
            | None => unlink_bad dp
            | Some (ip, off) =>
                ilock (Some ip);;
                x ← get_inode ip;
                if i_nlink x <? 1 then kpanic "unlink: nlink < 1"
                else
                  e ← (if i_type x =? T_DIR then isdirempty ip else ret true);
                  if negb e then
                    iunlockput ip;;
                    unlink_bad dp
                  else
                    r ← writei dp (SLocal (replicate (Z.to_nat DIRENT_SIZE) 0)) off DIRENT_SIZE;
                    if negb (r =? DIRENT_SIZE) then kpanic "unlink: writei"
                    else
                      x ← get_inode ip;
                      (if i_type x =? T_DIR then
                         upd_inode dp (fun x => x <| i_nlink := i16 (i_nlink x - 1) |>);;
                         iupdate dp
                       else ret tt);;
                      iunlockput dp;;
                      upd_inode ip (fun x => x <| i_nlink := i16 (i_nlink x - 1) |>);;
                      iupdate ip;;
                      iunlockput ip;;
                      end_op;;
                      ret 0
            end
      end
  end.

(** ** create and open *)

(** [fail:] *)
Definition create_fail (ip dp : nat) : K (option nat) :=
  upd_inode ip (fun x => x <| i_nlink := 0 |>);;
  iupdate ip;;
  iunlockput ip;;
  iunlockput dp;;
  ret None.

(** The new (or existing) inode, locked, or [None]. *)
Definition create (path : list Z) (type major minor : Z) : K (option nat) :=
  r ← nameiparent path;
  match r with
  | None => ret None
  | Some (dp, name) =>
      ilock (Some dp);;
      r ← dirlookup dp name;
      match r with
      | Some (ip, _) =>
          iunlockput dp;;
          ilock (Some ip);;
          x ← get_inode ip;
          if (type =? T_FILE) && ((i_type x =? T_FILE) || (i_type x =? T_DEVICE))
          then ret (Some ip)
          else
            iunlockput ip;;
            ret None
      | None =>
          dx ← get_inode dp;
          r ← ialloc (i_dev dx) type;
          match r with
          | None =>
              iunlockput dp;;
              ret None
          | Some ip =>
              ilock (Some ip);;
              upd_inode ip (fun x => x <| i_major := major |> <| i_minor := minor |>
                                       <| i_nlink := 1 |>);;
              iupdate ip;;
              x ← get_inode ip;
              dx ← get_inode dp;
              r ← (if type =? T_DIR then
                     r ← dirlink ip (bytes_of_string ".") (i_inum x);
                     if r <? 0 then ret r
                     else dirlink ip (bytes_of_string "..") (i_inum dx)
                   else ret 0);
              if r <? 0 then create_fail ip dp
              else
                r ← dirlink dp name (i_inum x);
                if r <? 0 then create_fail ip dp
                else
                  (if type =? T_DIR then
                     upd_inode dp (fun x => x <| i_nlink := i16 (i_nlink x + 1) |>);;
                     iupdate dp
                   else ret tt);;
                  iunlockput dp;;
                  ret (Some ip)
          end
      end
  end.

(** The inode [sys_open] works on, locked; [None] when it fails. *)
Definition open_inode (path : list Z) (omode : Z) : K (option nat) :=
  if negb (Z.land omode O_CREATE =? 0) then create path T_FILE 0 0
  else
    ip ← namei path;
    match ip with
    | None => ret None
    | Some ip =>
        ilock (Some ip);;
        x ← get_inode ip;
        if (i_type x =? T_DIR) && negb (omode =? O_RDONLY) then
          iunlockput ip;;
          ret None
        else ret (Some ip)
    end.

Definition sys_open : K Z :=
  omode ← argint 1;
  path ← argstr 0 (Z.of_nat MAXPATH);
  match path with
  | None => ret (u64 (-1))
  | Some path =>
      begin_op;;
      ip ← open_inode path omode;
      match ip with
      | None => end_op;; ret (u64 (-1))
      | Some ip =>
          x ← get_inode ip;
          if (i_type x =? T_DEVICE) && ((i_major x <? 0) || (Z.of_nat NDEV <=? i_major x)) then
            iunlockput ip;;
            end_op;;
            ret (u64 (-1))
          else
            f ← filealloc;
            fd ← (match f with None => ret (-1) | Some f => fdalloc f end);
            match f with
            | Some f =>
                if fd <? 0 then
                  fileclose f;;
                  iunlockput ip;;
                  end_op;;
                  ret (u64 (-1))
                else
                  x ← get_inode ip;
                  (if i_type x =? T_DEVICE
                   then upd_file f (fun y => y <| f_type := FD_DEVICE |> <| f_major := i_major x |>)
                   else upd_file f (fun y => y <| f_type := FD_INODE |> <| f_off := 0 |>));;
                  upd_file f (fun y => y <| f_ip := Some ip |>
                    <| f_readable := b2z (Z.land omode O_WRONLY =? 0) |>
                    <| f_writable := b2z (negb (Z.land omode O_WRONLY =? 0) ||
                                          negb (Z.land omode O_RDWR =? 0)) |>);;
                  (if negb (Z.land omode O_TRUNC =? 0) && (i_type x =? T_FILE)
                   then itrunc ip else ret tt);;
                  iunlock (Some ip);;
                  end_op;;
                  ret fd
            | None =>
                iunlockput ip;;
                end_op;;
                ret (u64 (-1))
            end
      end
  end.

Definition sys_mkdir : K Z :=
  begin_op;;
  path ← argstr 0 (Z.of_nat MAXPATH);
  ip ← (match path with None => ret None | Some path => create path T_DIR 0 0 end);
  match ip with
  | None => end_op;; ret (u64 (-1))
  | Some ip => iunlockput ip;; end_op;; ret 0
  end.

Definition sys_mknod : K Z :=
  begin_op;;
  major ← argint 1;
  minor ← argint 2;
  path ← argstr 0 (Z.of_nat MAXPATH);
  ip ← (match path with
        | None => ret None
        | Some path => create path T_DEVICE (i16 major) (i16 minor)
        end);
  match ip with
  | None => end_op;; ret (u64 (-1))
  | Some ip => iunlockput ip;; end_op;; ret 0
  end.

Definition sys_chdir : K Z :=
  p ← curproc;
  begin_op;;
  path ← argstr 0 (Z.of_nat MAXPATH);
  ip ← (match path with None => ret None | Some path => namei path end);
  match ip with
  | None => end_op;; ret (u64 (-1))
  | Some ip =>
      ilock (Some ip);;
      x ← get_inode ip;
      if negb (i_type x =? T_DIR) then
        iunlockput ip;;
        end_op;;
        ret (u64 (-1))
      else
        iunlock (Some ip);;
        pr ← get_proc p;
        cwd ← nonnull (p_cwd pr);
        iput cwd;;
        end_op;;
        upd_proc p (fun x => x <| p_cwd := Some ip |>);;
        ret 0
  end.

(** ** exec and pipe *)

(** The argument loop of [sys_exec]: whether it completed, the pages in argv
    and the strings they hold. *)
Definition exec_args (uargv : Z) : K (bool * list Z * list (list Z)) :=
  loop (S (S MAXARG)) (fun '(i, pages, argv) =>
    if (MAXARG <=? i)%nat then ret (inr (false, pages, argv))
    else
      uarg ← fetchaddr (u64 (uargv + 8 * Z.of_nat i));
      match uarg with
      | None => ret (inr (false, pages, argv))
      | Some uarg =>
          if uarg =? 0 then ret (inr (true, pages, argv))
          else
            page ← kalloc;
            if page =? 0 then ret (inr (false, pages, argv))
            else
              str ← fetchstr uarg PGSIZE;
              match str with
              | None => ret (inr (false, pages ++ [page], argv))
              | Some str =>
                  kstore page (str ++ [0]);;
                  ret (inl (S i, pages ++ [page], argv ++ [str]))
              end
      end) (O, [], []).

Definition sys_exec : K Z :=
  uargv ← argaddr 1;
  path ← argstr 0 (Z.of_nat MAXPATH);
  match path with
  | None => ret (u64 (-1))
  | Some path =>
      '(ok, pages, argv) ← exec_args uargv;
      if (ok : bool) then
        r ← kexec path argv;
        for_each pages kfree;;
        ret (u64 r)
      else
        for_each pages kfree;;
        ret (u64 (-1))
  end.

Definition sys_pipe : K Z :=
  p ← curproc;
  fdarray ← argaddr 0;
  r ← pipealloc;
  match r with
  | None => ret (u64 (-1))
  | Some (rf, wf) =>
      fd0 ← fdalloc rf;
      fd1 ← (if fd0 <? 0 then ret (-1) else fdalloc wf);
      if (fd0 <? 0) || (fd1 <? 0) then
        (if 0 <=? fd0 then set_ofile p (Z.to_nat fd0) None else ret tt);;
        fileclose rf;;
        fileclose wf;;
        ret (u64 (-1))
      else
        pr ← get_proc p;
        r ← copyout (p_pagetable pr) fdarray (le_bytes 4 fd0);
        r ← (if r <? 0 then ret r
             else copyout (p_pagetable pr) (u64 (fdarray + 4)) (le_bytes 4 fd1));
        if r <? 0 then
          set_ofile p (Z.to_nat fd0) None;;
          set_ofile p (Z.to_nat fd1) None;;
          fileclose rf;;
          fileclose wf;;
          ret (u64 (-1))
        else ret 0
  end.

(** ** The audit log *)

Definition audit_log_write (pid syscall_num : Z) : K unit :=
  let msg := audit_msg pid syscall_num in
  let len := Z.of_nat (length msg) in
  begin_op;;
  ip ← namei (bytes_of_string "/audit.log");
  match ip with
  | None => end_op
  | Some ip =>
      ilock (Some ip);;
      x ← get_inode ip;
      (if i_type x =? T_FILE then
         writei ip (SLocal msg) (i_size x) len;; ret tt
       else ret tt);;
      iunlockput ip;;
      end_op
  end.

End sysfile.
