(* ===== verification/Syscall.v ===== *)
(** * System-call dispatch and the filter (kernel/syscall.c) *)

From S2P Require Import Prelude Machine Kstate Strings Sched Kalloc Vm Printf Bio Log Fs Console File Proc Exec Sysproc Sysfile.

(** What the argument inspection of a blocked call decides: run the call after
    all, fail because the path cannot be read, or treat it as a violation. *)
Inductive verdict := VRun | VBadPath | VDeny.
#[global] Instance verdict_eq_dec : EqDecision verdict.
Proof. solve_decision. Defined.

Section syscall.
Context {L : Layout} {E : Env}.

(** [syscalls[]]: entry 0 is empty, entry [SYS_x] is [sys_x]. *)
Definition syscalls : list (option (K Z)) :=
  [None;
   Some sys_fork; Some sys_exit; Some sys_wait; Some sys_pipe; Some sys_read;
   Some sys_kill; Some sys_exec; Some sys_fstat; Some sys_chdir; Some sys_dup;
   Some sys_getpid; Some sys_sbrk; Some sys_pause; Some sys_uptime; Some sys_open;
   Some sys_write; Some sys_mknod; Some sys_unlink; Some sys_link; Some sys_mkdir;
   Some sys_close; Some sys_hello; Some sys_setfilter; Some sys_getfilter;
   Some sys_setfilter_child; Some sys_setaudit; Some sys_setstrict].

(** The argument filters, 1 to 5 of the code, for a call whose bit is set. *)
Definition inspect (p : nat) (num : Z) : K verdict :=
  if num =? SYS_open then
    a1 ← tf_get p TF_a1;
    let omode := i32 a1 in
    a0 ← tf_get p TF_a0;
    path ← fetchstr a0 (Z.of_nat MAXPATH);
    match path with
    | None => ret VBadPath
    | Some path =>
        if (Z.land omode O_WRONLY =? 0) && (Z.land omode O_RDWR =? 0) &&
           negb (strncmp path (bytes_of_string "secret") 6 =? 0)
        then ret VRun else ret VDeny
    end
  else if num =? SYS_kill then
    a0 ← tf_get p TF_a0;
    let target_pid := i32 a0 in
    if 2 <? target_pid then ret VRun else ret VDeny
  else if num =? SYS_exec then
    a0 ← tf_get p TF_a0;
    path ← fetchstr a0 (Z.of_nat MAXPATH);
    match path with
    | None => ret VBadPath
    | Some path =>
        if negb (strncmp path (bytes_of_string "sh") 3 =? 0) &&
           negb (strncmp path (bytes_of_string "rm") 3 =? 0)
        then ret VRun else ret VDeny
    end
  else if num =? SYS_unlink then
    a0 ← tf_get p TF_a0;
    path ← fetchstr a0 (Z.of_nat MAXPATH);
    match path with
    | None => ret VBadPath
    | Some path =>
        if negb (strncmp path (bytes_of_string "/bin/") 5 =? 0) &&
           negb (strncmp path (bytes_of_string "README") 6 =? 0) &&
           negb (strncmp path (bytes_of_string "audit.log") 9 =? 0)
        then ret VRun else ret VDeny
    end
  else if num =? SYS_sbrk then
    a0 ← tf_get p TF_a0;
    let n := i32 a0 in
    pr ← get_proc p;
    if (n <=? 1024 * 1024) && (u64 (p_sz pr + n) <=? 10 * 1024 * 1024)
    then ret VRun else ret VDeny
  else ret VDeny.

(** A violation: kill the process in strict mode, else fail the call. *)
Definition violation (p : nat) (num : Z) : K unit :=
  pr ← get_proc p;
  if negb (p_strict_mode pr =? 0) then
    printf "Sandbox: Process %d KILLED due to strict violation!
" [VZ (p_pid pr)];;
    upd_proc p (fun x => x <| p_killed := 1 |>);;
    (if negb (p_audit_enabled pr =? 0) then audit_log_write (p_pid pr) num else ret tt);;
    tf_set p TF_a0 (u64 (-1))
  else
    tf_set p TF_a0 (u64 (-1));;
    (if negb (p_audit_enabled pr =? 0) then
       printf "Sandbox Audit: Process %d (%s) blocked Syscall %d!
" [VZ (p_pid pr); VS (Some (p_name pr)); VZ num];;
       audit_log_write (p_pid pr) num
     else ret tt).

(** [syscall()] over a table of handlers. *)
Definition syscall_with (table : list (option (K Z))) : K unit :=
  p ← curproc;
  a7 ← tf_get p TF_a7;
  let num := i32 a7 in
  let handler :=
    if (0 <? num) && (num <? Z.of_nat (length table))
    then mjoin (table !! Z.to_nat num) else None in
  match handler with
  | Some handler =>
      pr ← get_proc p;
      if negb (Z.land (p_syscall_mask pr) (u64 (Z.shiftl 1 num)) =? 0) then
        v ← inspect p num;
        match v with
        | VRun => r ← handler; tf_set p TF_a0 r
        | VBadPath => tf_set p TF_a0 (u64 (-1))
        | VDeny => violation p num
        end
      else
        r ← handler;
        tf_set p TF_a0 r
  | None =>
      pr ← get_proc p;
      printf "%d %s: unknown sys call %d
" [VZ (p_pid pr); VS (Some (p_name pr)); VZ num];;
      tf_set p TF_a0 (u64 (-1))
  end.

Definition syscall : K unit := syscall_with syscalls.

End syscall.
