(* ===== verification/Trap.v ===== *)
(** * Traps, interrupts, the scheduler loop, first return to user space
      (kernel/trap.c, scheduler and forkret of kernel/proc.c) *)

From S2P Require Import Prelude Machine Kstate Strings Sched Kalloc Vm Printf Bio Log Fs Console File Proc Exec Sysproc Sysfile Syscall.

Definition SSTATUS_SPP : Z := Z.shiftl 1 8.
Definition SSTATUS_SPIE : Z := Z.shiftl 1 5.
Definition SSTATUS_SIE : Z := Z.shiftl 1 1.
Definition SATP_SV39 : Z := Z.shiftl 8 60.
Definition MAKE_SATP (pagetable : Z) : Z := Z.lor SATP_SV39 (Z.shiftr pagetable 12).
Definition UART0_IRQ : Z := 10.
Definition VIRTIO0_IRQ : Z := 1.

Section trap.
Context {L : Layout} {E : Env}.

Definition r_csr (f : csrs → Z) : K Z := gets (fun s => f (k_csr s)).
Definition intr_on : K unit := upd_csr (fun c => c <| csr_sstatus ::= Z.lor SSTATUS_SIE |>).
Definition intr_off : K unit :=
  upd_csr (fun c => c <| csr_sstatus ::= Z.land (u64 (Z.lnot SSTATUS_SIE)) |>).

Definition clockintr : K unit :=
  id ← r_csr csr_tp;
  (if id =? 0 then
     acquire LkTicks;;
     modify (fun s => s <| k_ticks := u32 (k_ticks s + 1) |>);;
     wakeup (Some ChTicks);;
     release LkTicks
   else ret tt);;
  t ← r_csr csr_time;
  upd_csr (fun c => c <| csr_stimecmp := u64 (t + 1000000) |>).

(** 2 if timer interrupt, 1 if other device, 0 if not recognized. *)
Definition devintr : K Z :=
  scause ← r_csr csr_scause;
  if scause =? 0x8000000000000009 then
    irq ← gets env_irq;
    (if irq =? UART0_IRQ then uartintr
     else if irq =? VIRTIO0_IRQ then modify env_disk_intr
     else if negb (irq =? 0) then printf "unexpected interrupt irq=%d
" [VZ irq]
     else ret tt);;
    ret 1
  else if scause =? 0x8000000000000005 then
    clockintr;;
    ret 2
  else ret 0.

Definition prepare_return : K unit :=
  p ← curproc;
  intr_off;;
  upd_csr (fun c => c <| csr_stvec := TRAMPOLINE + (sym_uservec - sym_trampoline) |>);;
  pr ← get_proc p;
  satp ← r_csr csr_satp;
  tf_set p TF_kernel_satp satp;;
  tf_set p TF_kernel_sp (u64 (p_kstack pr + PGSIZE));;
  tf_set p TF_kernel_trap sym_usertrap;;
  tp ← r_csr csr_tp;
  tf_set p TF_kernel_hartid tp;;
  x ← r_csr csr_sstatus;
  let x := Z.land x (u64 (Z.lnot SSTATUS_SPP)) in
  let x := Z.lor x SSTATUS_SPIE in
  upd_csr (fun c => c <| csr_sstatus := x |>);;
  epc ← tf_get p TF_epc;
  upd_csr (fun c => c <| csr_sepc := epc |>).

(** The dispatch part of [usertrap]: [which_dev]. *)
Definition usertrap_dispatch (p : nat) : K Z :=
  scause ← r_csr csr_scause;
  if scause =? 8 then
    k ← killed p;
    (if negb (k =? 0) then kexit (-1) else ret tt);;
    epc ← tf_get p TF_epc;
    tf_set p TF_epc (u64 (epc + 4));;
    intr_on;;
    syscall;;
    ret 0
  else
    which_dev ← devintr;
    if negb (which_dev =? 0) then ret which_dev
    else
      scause ← r_csr csr_scause;
      stval ← r_csr csr_stval;
      pr ← get_proc p;
      r ← (if (scause =? 15) || (scause =? 13)
           then vmfault (p_pagetable pr) stval (if scause =? 13 then 1 else 0)
           else ret 0);
      if negb (r =? 0) then ret 0
      else
        sepc ← r_csr csr_sepc;
        printf "usertrap(): unexpected scause 0x%lx pid=%d
" [VZ scause; VZ (p_pid pr)];;
        printf "            sepc=0x%lx stval=0x%lx
" [VZ sepc; VZ stval];;
        setkilled p;;
        ret 0.

Definition usertrap : K Z :=
  sstatus ← r_csr csr_sstatus;
  if negb (Z.land sstatus SSTATUS_SPP =? 0) then kpanic "usertrap: not from user mode"
  else
    upd_csr (fun c => c <| csr_stvec := sym_kernelvec |>);;
    p ← curproc;
    sepc ← r_csr csr_sepc;
    tf_set p TF_epc sepc;;
    which_dev ← usertrap_dispatch p;
    k ← killed p;
    (if negb (k =? 0) then kexit (-1) else ret tt);;
    (if which_dev =? 2 then yield else ret tt);;
    prepare_return;;
    pr ← get_proc p;
    ret (MAKE_SATP (p_pagetable pr)).

Definition kerneltrap : K unit :=
  sepc ← r_csr csr_sepc;
  sstatus ← r_csr csr_sstatus;
  scause ← r_csr csr_scause;
  if Z.land sstatus SSTATUS_SPP =? 0 then kpanic "kerneltrap: not from supervisor mode"
  else if negb (Z.land sstatus SSTATUS_SIE =? 0) then kpanic "kerneltrap: interrupts enabled"
  else
    which_dev ← devintr;
    if which_dev =? 0 then
      stval ← r_csr csr_stval;
      printf "scause=0x%lx sepc=0x%lx stval=0x%lx
" [VZ scause; VZ sepc; VZ stval];;
      kpanic "kerneltrap"
    else
      me ← myproc;
      (if (which_dev =? 2) && bool_decide (is_Some me) then yield else ret tt);;
      upd_csr (fun c => c <| csr_sepc := sepc |>);;
      upd_csr (fun c => c <| csr_sstatus := sstatus |>).

(** [forkret], up to the jump to user space with the returned satp. *)
Definition forkret : K Z :=
  p ← curproc;
  release (LkProc p);;
  first ← gets k_first;
  (if negb (first =? 0) then
     fsinit ROOTDEV;;
     modify (fun s => s <| k_first := 0 |>);;
     r ← kexec (bytes_of_string "/init") [bytes_of_string "/init"];
     tf_set p TF_a0 (u64 r);;
     a0 ← tf_get p TF_a0;
     if a0 =? u64 (-1) then kpanic "exec" else ret tt
   else ret tt);;
  prepare_return;;
  pr ← get_proc p;
  ret (MAKE_SATP (p_pagetable pr)).

(** One round of [scheduler]'s outer loop; [run i] is process [i] from the
    [swtch] into it to its [swtch] back. *)
Definition scheduler_round (run : nat → K unit) : K bool :=
  intr_on;;
  intr_off;;
  loop (S NPROC) (fun '(i, found) =>
    if (i <? NPROC)%nat then
      acquire (LkProc i);;
      p ← get_proc i;
      found ← (if decide (p_state p = RUNNABLE) then
                 upd_proc i (fun x => x <| p_state := RUNNING |>);;
                 modify (fun s => s <| k_cur := Some i |>);;
                 run i;;
                 modify (fun s => s <| k_cur := None |>);;
                 ret true
               else ret found);
      release (LkProc i);;
      ret (inl (S i, found))
    else ret (inr found)) (O, false).

End trap.
