(* ===== verification/Frame.v ===== *)
(** * What each kernel function can change

    A relation between kernel states [Allows] a field when it accepts every
    change of that field.  Every kernel function below stays within every
    relation that is a preorder and allows the fields the function writes; which
    fields those are is exactly what its lemma asks for.  A client obtains its
    frame theorems by choosing a relation.

    [Inert], [Tolerant] and [EnvTolerant] bundle what the clients of the process
    table use: a relation that accepts every change outside the table; also the
    changes inside it that keep the pid and the filter's fields of each entry;
    and also what happens while the current process does not run. *)

From S2P Require Import Prelude Machine Kstate Logic Strings Sched Kalloc Vm Printf Bio Log Fs Console File Proc Exec Sysproc Sysfile Syscall Trap.

Class Allows (R : kstate → kstate → Prop) {T} (proj : kstate → T) `{!Setter proj} :=
  allow : ∀ f s, R s (upd proj f s).

(** The fields of [struct proc] the filter relies on, and [killed], which is
    only ever set while the entry is in use. *)
Definition sec_step (p p' : proc) : Prop :=
  p_pid p' = p_pid p ∧ p_syscall_mask p' = p_syscall_mask p ∧
  p_child_syscall_mask p' = p_child_syscall_mask p ∧
  p_audit_enabled p' = p_audit_enabled p ∧ p_strict_mode p' = p_strict_mode p ∧
  (p_killed p' = p_killed p ∨ p_killed p' = 1).

Class AllowsProc (R : kstate → kstate → Prop) :=
  allow_proc : ∀ s i p p',
    k_procs s !! i = Some p → sec_step p p' → R s (s <| k_procs ::= <[i := p']> |>).
Class AllowsEnv (R : kstate → kstate → Prop) {E : Env} :=
  allow_env : ∀ s s', env_swtch s = Some s' → R s s'.
Class AllowsDiskIntr (R : kstate → kstate → Prop) {E : Env} :=
  allow_disk_intr : ∀ s, R s (env_disk_intr s).

(** ** Bundles *)

Class Inert (R : kstate → kstate → Prop) := {
  inert_preorder :: PreOrder R;
  inert_frame : ∀ s s',
    k_procs s' = k_procs s → k_nextpid s' = k_nextpid s → k_cur s' = k_cur s → R s s';
}.

Class Tolerant (R : kstate → kstate → Prop) := {
  tol_inert :: Inert R;
  tol_proc :: AllowsProc R;
}.

Class EnvTolerant (R : kstate → kstate → Prop) {E : Env} := {
  env_tol :: Tolerant R;
  env_tol_swtch :: AllowsEnv R;
  env_tol_disk :: AllowsDiskIntr R;
}.

Section inert.
Context (R : kstate → kstate → Prop) `{!Inert R}.

#[global] Instance inert_mem : Allows R k_mem.
Proof. intros f s. by apply inert_frame. Qed.
#[global] Instance inert_freelist : Allows R k_freelist.
Proof. intros f s. by apply inert_frame. Qed.
#[global] Instance inert_initproc : Allows R k_initproc.
Proof. intros f s. by apply inert_frame. Qed.
#[global] Instance inert_held : Allows R k_held.
Proof. intros f s. by apply inert_frame. Qed.
#[global] Instance inert_ftable : Allows R k_ftable.
Proof. intros f s. by apply inert_frame. Qed.
#[global] Instance inert_itable : Allows R k_itable.
Proof. intros f s. by apply inert_frame. Qed.
#[global] Instance inert_pipes : Allows R k_pipes.
Proof. intros f s. by apply inert_frame. Qed.
#[global] Instance inert_bufs : Allows R k_bufs.
Proof. intros f s. by apply inert_frame. Qed.
#[global] Instance inert_log : Allows R k_log.
Proof. intros f s. by apply inert_frame. Qed.
#[global] Instance inert_sb : Allows R k_sb.
Proof. intros f s. by apply inert_frame. Qed.
#[global] Instance inert_disk : Allows R k_disk.
Proof. intros f s. by apply inert_frame. Qed.
#[global] Instance inert_dwrites : Allows R k_dwrites.
Proof. intros f s. by apply inert_frame. Qed.
#[global] Instance inert_ticks : Allows R k_ticks.
Proof. intros f s. by apply inert_frame. Qed.
#[global] Instance inert_devsw : Allows R k_devsw.
Proof. intros f s. by apply inert_frame. Qed.
#[global] Instance inert_cons : Allows R k_cons.
Proof. intros f s. by apply inert_frame. Qed.
#[global] Instance inert_uart_out : Allows R k_uart_out.
Proof. intros f s. by apply inert_frame. Qed.
#[global] Instance inert_uart_in : Allows R k_uart_in.
Proof. intros f s. by apply inert_frame. Qed.
#[global] Instance inert_tx_busy : Allows R k_tx_busy.
Proof. intros f s. by apply inert_frame. Qed.
#[global] Instance inert_first : Allows R k_first.
Proof. intros f s. by apply inert_frame. Qed.
#[global] Instance inert_csr : Allows R k_csr.
Proof. intros f s. by apply inert_frame. Qed.
End inert.

(** ** Primitive steps *)

Lemma within_get_proc `{!PreOrder R} i : within R (get_proc i).
Proof. unfold get_proc. solve_within. Qed.

Lemma within_upd_proc `{!PreOrder R, !AllowsProc R} i f :
  (∀ p, sec_step p (f p)) → within R (upd_proc i f).
Proof.
  intros Hf s s'. unfold upd_proc, get_proc. rewrite !bind_unfold. cbn [gets].
  destruct (k_procs s !! i) as [p|] eqn:Hp; cbn [must ret undef]; [|done].
  intros [= <-]. by eapply allow_proc.
Qed.

Ltac solve_allow :=
  lazymatch goal with
  | |- ?R ?s (upd ?proj ?f ?t) =>
      first [ constr_eq s t; apply (allow (proj := proj))
            | transitivity t; [solve_allow | apply (allow (proj := proj))] ]
  end.
Ltac sec_step_tac := unfold sec_step; simpl; repeat split; auto.

#[export] Hint Extern 0 (Allows _ _) => apply _ : within.
#[export] Hint Extern 0 (AllowsProc _) => apply _ : within.
#[export] Hint Extern 0 (AllowsEnv _) => apply _ : within.
#[export] Hint Extern 0 (AllowsDiskIntr _) => apply _ : within.
#[export] Hint Extern 0 (PreOrder _) => apply _ : within.
#[export] Hint Extern 1 (within _ (modify _)) =>
  apply within_modify; intros ?; cbv beta; solve_allow : within.
#[export] Hint Extern 1 (within _ (upd_proc _ _)) =>
  apply within_upd_proc; intros ?; sec_step_tac : within.
#[export] Hint Extern 1 (within _ (get_proc _)) => apply within_get_proc; apply _ : within.

Tactic Notation "within_def" reference(f) := unfold f; solve_within.


Section lower.
Context {L : Layout} {E : Env} (R : kstate → kstate → Prop) `{!PreOrder R}.
Context `{!Allows R k_mem} `{!Allows R k_freelist} `{!Allows R k_initproc} `{!Allows R k_held} 
  `{!Allows R k_ftable} `{!Allows R k_itable} `{!Allows R k_pipes} 
  `{!Allows R k_bufs} `{!Allows R k_log} `{!Allows R k_sb} 
  `{!Allows R k_disk} `{!Allows R k_dwrites} `{!Allows R k_ticks} `{!Allows R k_devsw} 
  `{!Allows R k_cons} `{!Allows R k_uart_out} `{!Allows R k_uart_in} `{!Allows R k_tx_busy} `{!Allows R k_first} `{!Allows R k_csr}.
Context `{!AllowsProc R} `{!AllowsEnv R} `{!AllowsDiskIntr R}.

Lemma within_swtch : within R swtch.
Proof.
  intros s s'. unfold swtch. destruct (env_swtch s) eqn:Hs; intros [= <-]; [by apply allow_env | reflexivity].
Qed.
#[local] Hint Resolve within_swtch : within.


(** ** Accessors (Kstate) *)

Lemma within_get_file i : within R (get_file i).
Proof. within_def get_file. Qed.
#[local] Hint Resolve within_get_file : within.
Lemma within_upd_file i f : within R (upd_file i f).
Proof. within_def upd_file. Qed.
#[local] Hint Resolve within_upd_file : within.
Lemma within_get_inode i : within R (get_inode i).
Proof. within_def get_inode. Qed.
#[local] Hint Resolve within_get_inode : within.
Lemma within_upd_inode i f : within R (upd_inode i f).
Proof. within_def upd_inode. Qed.
#[local] Hint Resolve within_upd_inode : within.
Lemma within_get_buf i : within R (get_buf i).
Proof. within_def get_buf. Qed.
#[local] Hint Resolve within_get_buf : within.
Lemma within_upd_buf i f : within R (upd_buf i f).
Proof. within_def upd_buf. Qed.
#[local] Hint Resolve within_upd_buf : within.
Lemma within_get_pipe pa : within R (get_pipe pa).
Proof. within_def get_pipe. Qed.
#[local] Hint Resolve within_get_pipe : within.
Lemma within_upd_pipe pa f : within R (upd_pipe pa f).
Proof. within_def upd_pipe. Qed.
#[local] Hint Resolve within_upd_pipe : within.
Lemma within_upd_log f : within R (upd_log f).
Proof. within_def upd_log. Qed.
#[local] Hint Resolve within_upd_log : within.
Lemma within_upd_mem f : within R (upd_mem f).
Proof. within_def upd_mem. Qed.
#[local] Hint Resolve within_upd_mem : within.
Lemma within_upd_csr f : within R (upd_csr f).
Proof. within_def upd_csr. Qed.
#[local] Hint Resolve within_upd_csr : within.
Lemma within_kload64 a : within R (kload64 a).
Proof. within_def kload64. Qed.
#[local] Hint Resolve within_kload64 : within.
Lemma within_kstore64 a v : within R (kstore64 a v).
Proof. within_def kstore64. Qed.
#[local] Hint Resolve within_kstore64 : within.
Lemma within_kload a n : within R (kload a n).
Proof. within_def kload. Qed.
#[local] Hint Resolve within_kload : within.
Lemma within_kstore a bs : within R (kstore a bs).
Proof. within_def kstore. Qed.
#[local] Hint Resolve within_kstore : within.

(** ** Locks (Sched) *)

Lemma within_holding lk : within R (holding lk).
Proof. within_def holding. Qed.
#[local] Hint Resolve within_holding : within.
Lemma within_acquire lk : within R (acquire lk).
Proof. within_def acquire. Qed.
#[local] Hint Resolve within_acquire : within.
Lemma within_release lk : within R (release lk).
Proof. within_def release. Qed.
#[local] Hint Resolve within_release : within.
Lemma within_myproc : within R (myproc).
Proof. within_def myproc. Qed.
#[local] Hint Resolve within_myproc : within.
Lemma within_curproc : within R (curproc).
Proof. within_def curproc. Qed.
#[local] Hint Resolve within_curproc : within.
Lemma within_killed p : within R (killed p).
Proof. within_def killed. Qed.
#[local] Hint Resolve within_killed : within.
Lemma within_get_sleeplock l : within R (get_sleeplock l).
Proof. within_def get_sleeplock. Qed.
#[local] Hint Resolve within_get_sleeplock : within.
Lemma within_set_sleeplock l v : within R (set_sleeplock l v).
Proof. within_def set_sleeplock. Qed.
#[local] Hint Resolve within_set_sleeplock : within.
Lemma within_holdingsleep l : within R (holdingsleep l).
Proof. within_def holdingsleep. Qed.
#[local] Hint Resolve within_holdingsleep : within.

(** ** Memory (Kalloc, Vm) *)

Lemma within_kmemset dst c n : within R (kmemset dst c n).
Proof. within_def kmemset. Qed.
#[local] Hint Resolve within_kmemset : within.
Lemma within_kmemmove dst src n : within R (kmemmove dst src n).
Proof. within_def kmemmove. Qed.
#[local] Hint Resolve within_kmemmove : within.
Lemma within_kfree pa : within R (kfree pa).
Proof. within_def kfree. Qed.
#[local] Hint Resolve within_kfree : within.
Lemma within_kalloc : within R (kalloc).
Proof. within_def kalloc. Qed.
#[local] Hint Resolve within_kalloc : within.
Lemma within_freerange pa_start pa_end : within R (freerange pa_start pa_end).
Proof. within_def freerange. Qed.
#[local] Hint Resolve within_freerange : within.
Lemma within_walk_level va alloc level pagetable : within R (walk_level va alloc level pagetable).
Proof. within_def walk_level. Qed.
#[local] Hint Resolve within_walk_level : within.
Lemma within_walk pagetable va alloc : within R (walk pagetable va alloc).
Proof. within_def walk. Qed.
#[local] Hint Resolve within_walk : within.
Lemma within_walkaddr pagetable va : within R (walkaddr pagetable va).
Proof. within_def walkaddr. Qed.
#[local] Hint Resolve within_walkaddr : within.
Lemma within_mappages pagetable va size pa perm : within R (mappages pagetable va size pa perm).
Proof. within_def mappages. Qed.
#[local] Hint Resolve within_mappages : within.
Lemma within_uvmcreate : within R (uvmcreate).
Proof. within_def uvmcreate. Qed.
#[local] Hint Resolve within_uvmcreate : within.
Lemma within_uvmunmap pagetable va npages do_free : within R (uvmunmap pagetable va npages do_free).
Proof. within_def uvmunmap. Qed.
#[local] Hint Resolve within_uvmunmap : within.
Lemma within_uvmdealloc pagetable oldsz newsz : within R (uvmdealloc pagetable oldsz newsz).
Proof. within_def uvmdealloc. Qed.
#[local] Hint Resolve within_uvmdealloc : within.
Lemma within_uvmalloc pagetable oldsz newsz xperm : within R (uvmalloc pagetable oldsz newsz xperm).
Proof. within_def uvmalloc. Qed.
#[local] Hint Resolve within_uvmalloc : within.
Lemma within_freewalk_aux fuel pagetable : within R (freewalk_aux fuel pagetable).
Proof. revert pagetable. induction fuel; intros; cbn [freewalk_aux]; solve_within. Qed.
#[local] Hint Resolve within_freewalk_aux : within.
Lemma within_freewalk pagetable : within R (freewalk pagetable).
Proof. within_def freewalk. Qed.
#[local] Hint Resolve within_freewalk : within.
Lemma within_uvmfree pagetable sz : within R (uvmfree pagetable sz).
Proof. within_def uvmfree. Qed.
#[local] Hint Resolve within_uvmfree : within.
Lemma within_uvmcopy old new sz : within R (uvmcopy old new sz).
Proof. within_def uvmcopy. Qed.
#[local] Hint Resolve within_uvmcopy : within.
Lemma within_uvmclear pagetable va : within R (uvmclear pagetable va).
Proof. within_def uvmclear. Qed.
#[local] Hint Resolve within_uvmclear : within.
Lemma within_ismapped pagetable va : within R (ismapped pagetable va).
Proof. within_def ismapped. Qed.
#[local] Hint Resolve within_ismapped : within.
Lemma within_vmfault pagetable va read : within R (vmfault pagetable va read).
Proof. within_def vmfault. Qed.
#[local] Hint Resolve within_vmfault : within.
Lemma within_copyout pagetable dstva src : within R (copyout pagetable dstva src).
Proof. within_def copyout. Qed.
#[local] Hint Resolve within_copyout : within.
Lemma within_copyin pagetable srcva len : within R (copyin pagetable srcva len).
Proof. within_def copyin. Qed.
#[local] Hint Resolve within_copyin : within.
Lemma within_copyinstr pagetable srcva max : within R (copyinstr pagetable srcva max).
Proof. within_def copyinstr. Qed.
#[local] Hint Resolve within_copyinstr : within.
Lemma within_either_copyout dst src : within R (either_copyout dst src).
Proof. within_def either_copyout. Qed.
#[local] Hint Resolve within_either_copyout : within.
Lemma within_either_copyin src len : within R (either_copyin src len).
Proof. within_def either_copyin. Qed.
#[local] Hint Resolve within_either_copyin : within.

(** ** Output (Printf) *)

Lemma within_uartputc_sync c : within R (uartputc_sync c).
Proof. within_def uartputc_sync. Qed.
#[local] Hint Resolve within_uartputc_sync : within.
Lemma within_consputc c : within R (consputc c).
Proof. within_def consputc. Qed.
#[local] Hint Resolve within_consputc : within.
Lemma within_printint xx base sign : within R (printint xx base sign).
Proof. within_def printint. Qed.
#[local] Hint Resolve within_printint : within.
Lemma within_printptr_digits n x : within R (printptr_digits n x).
Proof. revert x. induction n; intros; cbn [printptr_digits]; solve_within. Qed.
#[local] Hint Resolve within_printptr_digits : within.
Lemma within_printptr x : within R (printptr x).
Proof. within_def printptr. Qed.
#[local] Hint Resolve within_printptr : within.
Lemma within_va_int ap : within R (va_int ap).
Proof. within_def va_int. Qed.
#[local] Hint Resolve within_va_int : within.
Lemma within_va_str ap : within R (va_str ap).
Proof. within_def va_str. Qed.
#[local] Hint Resolve within_va_str : within.
Lemma within_printf_loop fmt ap : within R (printf_loop fmt ap).
Proof.
  remember (length fmt) as n eqn:Hn. revert fmt ap Hn.
  induction n as [n IH] using lt_wf_ind. intros fmt ap ->.
  assert (Hrec : ∀ fmt' ap', (length fmt' < length fmt)%nat → within R (printf_loop fmt' ap'))
    by (intros; by eapply IH).
  clear IH. destruct fmt as [|cx [|c0 [|c1 [|c2 fmt]]]]; cbn [printf_loop]; simpl in Hrec;
    solve_within; apply Hrec; simpl; lia.
Qed.
#[local] Hint Resolve within_printf_loop : within.
Lemma within_printf fmt ap : within R (printf fmt ap).
Proof. within_def printf. Qed.
#[local] Hint Resolve within_printf : within.

(** ** Buffers, log, inodes, files: the parts that neither sleep nor wake *)

Lemma within_virtio_disk_rw bi write : within R (virtio_disk_rw bi write).
Proof. within_def virtio_disk_rw. Qed.
#[local] Hint Resolve within_virtio_disk_rw : within.
Lemma within_bget_cached dev blockno : within R (bget_cached dev blockno).
Proof. within_def bget_cached. Qed.
#[local] Hint Resolve within_bget_cached : within.
Lemma within_bget_lru : within R (bget_lru).
Proof. within_def bget_lru. Qed.
#[local] Hint Resolve within_bget_lru : within.
Lemma within_bwrite bi : within R (bwrite bi).
Proof. within_def bwrite. Qed.
#[local] Hint Resolve within_bwrite : within.
Lemma within_bpin bi : within R (bpin bi).
Proof. within_def bpin. Qed.
#[local] Hint Resolve within_bpin : within.
Lemma within_bunpin bi : within R (bunpin bi).
Proof. within_def bunpin. Qed.
#[local] Hint Resolve within_bunpin : within.
Lemma within_get_lh_block i : within R (get_lh_block i).
Proof. within_def get_lh_block. Qed.
#[local] Hint Resolve within_get_lh_block : within.
Lemma within_set_lh_block i v : within R (set_lh_block i v).
Proof. within_def set_lh_block. Qed.
#[local] Hint Resolve within_set_lh_block : within.
Lemma within_get_lh_n : within R (get_lh_n).
Proof. within_def get_lh_n. Qed.
#[local] Hint Resolve within_get_lh_n : within.
Lemma within_set_lh_n n : within R (set_lh_n n).
Proof. within_def set_lh_n. Qed.
#[local] Hint Resolve within_set_lh_n : within.
Lemma within_for_lh body : (∀ i, within R (body i)) → within R (for_lh body).
Proof. intros H. unfold for_lh. solve_within. Qed.
#[local] Hint Extern 1 (within _ (for_lh _)) => apply within_for_lh; intros ?; solve_within : within.
Lemma within_iget_scan dev inum : within R (iget_scan dev inum).
Proof. within_def iget_scan. Qed.
#[local] Hint Resolve within_iget_scan : within.
Lemma within_iget dev inum : within R (iget dev inum).
Proof. within_def iget. Qed.
#[local] Hint Resolve within_iget : within.
Lemma within_idup ip : within R (idup ip).
Proof. within_def idup. Qed.
#[local] Hint Resolve within_idup : within.
Lemma within_get_addr ip n : within R (get_addr ip n).
Proof. within_def get_addr. Qed.
#[local] Hint Resolve within_get_addr : within.
Lemma within_set_addr ip n v : within R (set_addr ip n v).
Proof. within_def set_addr. Qed.
#[local] Hint Resolve within_set_addr : within.
Lemma within_upd_cons f : within R (upd_cons f).
Proof. within_def upd_cons. Qed.
#[local] Hint Resolve within_upd_cons : within.
Lemma within_get_cons_char i : within R (get_cons_char i).
Proof. within_def get_cons_char. Qed.
#[local] Hint Resolve within_get_cons_char : within.
Lemma within_filealloc : within R (filealloc).
Proof. within_def filealloc. Qed.
#[local] Hint Resolve within_filealloc : within.
Lemma within_filedup f : within R (filedup f).
Proof. within_def filedup. Qed.
#[local] Hint Resolve within_filedup : within.
Lemma within_stati ip : within R (stati ip).
Proof. within_def stati. Qed.
#[local] Hint Resolve within_stati : within.
Lemma within_get_devsw major : within R (get_devsw major).
Proof. within_def get_devsw. Qed.
#[local] Hint Resolve within_get_devsw : within.
Lemma within_procdump : within R (procdump).
Proof. within_def procdump. Qed.
#[local] Hint Resolve within_procdump : within.
Lemma within_uartgetc : within R (uartgetc).
Proof. within_def uartgetc. Qed.
#[local] Hint Resolve within_uartgetc : within.

(** ** Page tables of processes, system-call arguments, traps *)

Lemma within_proc_pagetable p : within R (proc_pagetable p).
Proof. within_def proc_pagetable. Qed.
#[local] Hint Resolve within_proc_pagetable : within.
Lemma within_proc_freepagetable pagetable sz : within R (proc_freepagetable pagetable sz).
Proof. within_def proc_freepagetable. Qed.
#[local] Hint Resolve within_proc_freepagetable : within.
Lemma within_find_unused : within R (find_unused).
Proof. within_def find_unused. Qed.
#[local] Hint Resolve within_find_unused : within.
Lemma within_tf_get p off : within R (tf_get p off).
Proof. within_def tf_get. Qed.
#[local] Hint Resolve within_tf_get : within.
Lemma within_tf_set p off v : within R (tf_set p off v).
Proof. within_def tf_set. Qed.
#[local] Hint Resolve within_tf_set : within.
Lemma within_fetchaddr addr : within R (fetchaddr addr).
Proof. within_def fetchaddr. Qed.
#[local] Hint Resolve within_fetchaddr : within.
Lemma within_fetchstr addr max : within R (fetchstr addr max).
Proof. within_def fetchstr. Qed.
#[local] Hint Resolve within_fetchstr : within.
Lemma within_argraw n : within R (argraw n).
Proof. within_def argraw. Qed.
#[local] Hint Resolve within_argraw : within.
Lemma within_argint n : within R (argint n).
Proof. within_def argint. Qed.
#[local] Hint Resolve within_argint : within.
Lemma within_argaddr n : within R (argaddr n).
Proof. within_def argaddr. Qed.
#[local] Hint Resolve within_argaddr : within.
Lemma within_argstr n max : within R (argstr n max).
Proof. within_def argstr. Qed.
#[local] Hint Resolve within_argstr : within.
Lemma within_argfd n : within R (argfd n).
Proof. within_def argfd. Qed.
#[local] Hint Resolve within_argfd : within.
Lemma within_r_csr f : within R (r_csr f).
Proof. within_def r_csr. Qed.
#[local] Hint Resolve within_r_csr : within.
Lemma within_intr_on : within R (intr_on).
Proof. within_def intr_on. Qed.
#[local] Hint Resolve within_intr_on : within.
Lemma within_intr_off : within R (intr_off).
Proof. within_def intr_off. Qed.
#[local] Hint Resolve within_intr_off : within.
Lemma within_prepare_return : within R (prepare_return).
Proof. within_def prepare_return. Qed.
#[local] Hint Resolve within_prepare_return : within.

(** ** Functions that update table entries *)

Lemma within_wakeup ch : within R (wakeup ch).
Proof. within_def wakeup. Qed.
#[local] Hint Resolve within_wakeup : within.
Lemma within_kkill pid : within R (kkill pid).
Proof. within_def kkill. Qed.
#[local] Hint Resolve within_kkill : within.
Lemma within_setkilled p : within R (setkilled p).
Proof. within_def setkilled. Qed.
#[local] Hint Resolve within_setkilled : within.
Lemma within_releasesleep l : within R (releasesleep l).
Proof. within_def releasesleep. Qed.
#[local] Hint Resolve within_releasesleep : within.
Lemma within_brelse bi : within R (brelse bi).
Proof. within_def brelse. Qed.
#[local] Hint Resolve within_brelse : within.
Lemma within_iunlock ip : within R (iunlock ip).
Proof. within_def iunlock. Qed.
#[local] Hint Resolve within_iunlock : within.
Lemma within_growproc n : within R (growproc n).
Proof. within_def growproc. Qed.
#[local] Hint Resolve within_growproc : within.
Lemma within_reparent p : within R (reparent p).
Proof. within_def reparent. Qed.
#[local] Hint Resolve within_reparent : within.
Lemma within_set_ofile p fd f : within R (set_ofile p fd f).
Proof. within_def set_ofile. Qed.
#[local] Hint Resolve within_set_ofile : within.
Lemma within_fdalloc f : within R (fdalloc f).
Proof. within_def fdalloc. Qed.
#[local] Hint Resolve within_fdalloc : within.
Lemma within_clockintr : within R (clockintr).
Proof. within_def clockintr. Qed.
#[local] Hint Resolve within_clockintr : within.

(** ** Sleeping *)

Lemma within_sched : within R (sched).
Proof. within_def sched. Qed.
#[local] Hint Resolve within_sched : within.
Lemma within_yield : within R (yield).
Proof. within_def yield. Qed.
#[local] Hint Resolve within_yield : within.
Lemma within_sleep ch lk : within R (sleep ch lk).
Proof. within_def sleep. Qed.
#[local] Hint Resolve within_sleep : within.
Lemma within_acquiresleep l : within R (acquiresleep l).
Proof. within_def acquiresleep. Qed.
#[local] Hint Resolve within_acquiresleep : within.

(** ** Buffers and log (Bio, Log) *)

Lemma within_bget dev blockno : within R (bget dev blockno).
Proof. within_def bget. Qed.
#[local] Hint Resolve within_bget : within.
Lemma within_bread dev blockno : within R (bread dev blockno).
Proof. within_def bread. Qed.
#[local] Hint Resolve within_bread : within.
Lemma within_install_trans recovering : within R (install_trans recovering).
Proof. within_def install_trans. Qed.
#[local] Hint Resolve within_install_trans : within.
Lemma within_read_head : within R (read_head).
Proof. within_def read_head. Qed.
#[local] Hint Resolve within_read_head : within.
Lemma within_write_head : within R (write_head).
Proof. within_def write_head. Qed.
#[local] Hint Resolve within_write_head : within.
Lemma within_recover_from_log : within R (recover_from_log).
Proof. within_def recover_from_log. Qed.
#[local] Hint Resolve within_recover_from_log : within.
Lemma within_initlog dev sb : within R (initlog dev sb).
Proof. within_def initlog. Qed.
#[local] Hint Resolve within_initlog : within.
Lemma within_begin_op : within R (begin_op).
Proof. within_def begin_op. Qed.
#[local] Hint Resolve within_begin_op : within.
Lemma within_write_log : within R (write_log).
Proof. within_def write_log. Qed.
#[local] Hint Resolve within_write_log : within.
Lemma within_commit : within R (commit).
Proof. within_def commit. Qed.
#[local] Hint Resolve within_commit : within.
Lemma within_end_op : within R (end_op).
Proof. within_def end_op. Qed.
#[local] Hint Resolve within_end_op : within.
Lemma within_log_find blockno : within R (log_find blockno).
Proof. within_def log_find. Qed.
#[local] Hint Resolve within_log_find : within.
Lemma within_log_write bi : within R (log_write bi).
Proof. within_def log_write. Qed.
#[local] Hint Resolve within_log_write : within.

(** ** File system (Fs) *)

Lemma within_readsb dev : within R (readsb dev).
Proof. within_def readsb. Qed.
#[local] Hint Resolve within_readsb : within.
Lemma within_bzero dev bno : within R (bzero dev bno).
Proof. within_def bzero. Qed.
#[local] Hint Resolve within_bzero : within.
Lemma within_balloc dev : within R (balloc dev).
Proof. within_def balloc. Qed.
#[local] Hint Resolve within_balloc : within.
Lemma within_bfree dev b : within R (bfree dev b).
Proof. within_def bfree. Qed.
#[local] Hint Resolve within_bfree : within.
Lemma within_ialloc dev type : within R (ialloc dev type).
Proof. within_def ialloc. Qed.
#[local] Hint Resolve within_ialloc : within.
Lemma within_iupdate ip : within R (iupdate ip).
Proof. within_def iupdate. Qed.
#[local] Hint Resolve within_iupdate : within.
Lemma within_ilock ip : within R (ilock ip).
Proof. within_def ilock. Qed.
#[local] Hint Resolve within_ilock : within.
Lemma within_bmap ip bn : within R (bmap ip bn).
Proof. within_def bmap. Qed.
#[local] Hint Resolve within_bmap : within.
Lemma within_itrunc ip : within R (itrunc ip).
Proof. within_def itrunc. Qed.
#[local] Hint Resolve within_itrunc : within.
Lemma within_iput ip : within R (iput ip).
Proof. within_def iput. Qed.
#[local] Hint Resolve within_iput : within.
Lemma within_iunlockput ip : within R (iunlockput ip).
Proof. within_def iunlockput. Qed.
#[local] Hint Resolve within_iunlockput : within.
Lemma within_ireclaim dev : within R (ireclaim dev).
Proof. within_def ireclaim. Qed.
#[local] Hint Resolve within_ireclaim : within.
Lemma within_fsinit dev : within R (fsinit dev).
Proof. within_def fsinit. Qed.
#[local] Hint Resolve within_fsinit : within.
Lemma within_readi ip dst off n : within R (readi ip dst off n).
Proof. within_def readi. Qed.
#[local] Hint Resolve within_readi : within.
Lemma within_writei ip src off n : within R (writei ip src off n).
Proof. within_def writei. Qed.
#[local] Hint Resolve within_writei : within.
Lemma within_dirlookup dp name : within R (dirlookup dp name).
Proof. within_def dirlookup. Qed.
#[local] Hint Resolve within_dirlookup : within.
Lemma within_dirlink_slot dp : within R (dirlink_slot dp).
Proof. within_def dirlink_slot. Qed.
#[local] Hint Resolve within_dirlink_slot : within.
Lemma within_dirlink dp name inum : within R (dirlink dp name inum).
Proof. within_def dirlink. Qed.
#[local] Hint Resolve within_dirlink : within.
Lemma within_namex path nameiparent : within R (namex path nameiparent).
Proof. within_def namex. Qed.
#[local] Hint Resolve within_namex : within.
Lemma within_namei path : within R (namei path).
Proof. within_def namei. Qed.
#[local] Hint Resolve within_namei : within.
Lemma within_nameiparent path : within R (nameiparent path).
Proof. within_def nameiparent. Qed.
#[local] Hint Resolve within_nameiparent : within.

(** ** Console output (Console) *)

Lemma within_uartwrite bs : within R (uartwrite bs).
Proof. within_def uartwrite. Qed.
#[local] Hint Resolve within_uartwrite : within.
Lemma within_consolewrite src n : within R (consolewrite src n).
Proof. within_def consolewrite. Qed.
#[local] Hint Resolve within_consolewrite : within.

End lower.

#[export] Hint Resolve
  within_get_file within_upd_file within_get_inode within_upd_inode within_get_buf
  within_upd_buf within_get_pipe within_upd_pipe within_upd_log within_upd_mem
  within_upd_csr within_kload64 within_kstore64 within_kload within_kstore
  within_holding within_acquire within_release within_myproc within_curproc
  within_killed within_get_sleeplock within_set_sleeplock within_holdingsleep within_kmemset
  within_kmemmove within_kfree within_kalloc within_freerange within_walk_level
  within_walk within_walkaddr within_mappages within_uvmcreate within_uvmunmap
  within_uvmdealloc within_uvmalloc within_freewalk_aux within_freewalk within_uvmfree
  within_uvmcopy within_uvmclear within_ismapped within_vmfault within_copyout
  within_copyin within_copyinstr within_either_copyout within_either_copyin within_uartputc_sync
  within_consputc within_printint within_printptr_digits within_printptr within_va_int
  within_va_str within_printf_loop within_printf within_virtio_disk_rw within_bget_cached
  within_bget_lru within_bwrite within_bpin within_bunpin within_get_lh_block
  within_set_lh_block within_get_lh_n within_set_lh_n within_iget_scan within_iget
  within_idup within_get_addr within_set_addr within_upd_cons within_get_cons_char
  within_filealloc within_filedup within_stati within_get_devsw within_procdump
  within_uartgetc within_proc_pagetable within_proc_freepagetable within_find_unused within_tf_get
  within_tf_set within_fetchaddr within_fetchstr within_argraw within_argint
  within_argaddr within_argstr within_argfd within_r_csr within_intr_on
  within_intr_off within_prepare_return within_wakeup within_kkill within_setkilled
  within_releasesleep within_brelse within_iunlock within_growproc within_reparent
  within_set_ofile within_fdalloc within_clockintr within_sched within_yield
  within_sleep within_acquiresleep within_bget within_bread within_install_trans
  within_read_head within_write_head within_recover_from_log within_initlog within_begin_op
  within_write_log within_commit within_end_op within_log_find within_log_write
  within_readsb within_bzero within_balloc within_bfree within_ialloc
  within_iupdate within_ilock within_bmap within_itrunc within_iput
  within_iunlockput within_ireclaim within_fsinit within_readi within_writei
  within_dirlookup within_dirlink_slot within_dirlink within_namex within_namei
  within_nameiparent within_uartwrite within_consolewrite : within.

#[export] Hint Extern 1 (within _ (for_lh _)) =>
  apply within_for_lh; [apply _ | intros ?; solve_within] : within.

(** ** Pipes and console input

    These two have invariants of their own (Pipe.v for the pipes), so the functions
    above them ask only that a relation accepts what their operations do. *)

Class PipeOps {L : Layout} {E : Env} (R : kstate → kstate → Prop) := {
  within_pipeclose pi writable : within R (pipeclose pi writable);
  within_pipewrite pi addr n : within R (pipewrite pi addr n);
  within_piperead pi addr n : within R (piperead pi addr n);
  within_newpipe pi : within R (modify (fun s => s <| k_pipes ::= <[pi := newpipe]> |>));
}.

Class ConsOps {L : Layout} {E : Env} (R : kstate → kstate → Prop) := {
  within_consoleread dst n : within R (consoleread dst n);
  within_consoleintr c : within R (consoleintr c);
}.

#[export] Hint Resolve within_pipeclose within_pipewrite within_piperead within_newpipe
  within_consoleread within_consoleintr : within.
#[export] Hint Extern 0 (PipeOps _) => apply _ : within.
#[export] Hint Extern 0 (ConsOps _) => apply _ : within.

#[global] Instance allows_pipe_ops {L : Layout} {E : Env} R `{!PreOrder R}
  `{!Allows R k_pipes} `{!Allows R k_mem} `{!Allows R k_freelist} `{!Allows R k_held}
  `{!AllowsProc R} `{!AllowsEnv R} : PipeOps R.
Proof.
  split; intros.
  - within_def pipeclose.
  - within_def pipewrite.
  - within_def piperead.
  - solve_within.
Qed.

#[global] Instance allows_cons_ops {L : Layout} {E : Env} R `{!PreOrder R}
  `{!Allows R k_cons} `{!Allows R k_uart_out} `{!Allows R k_mem} `{!Allows R k_freelist}
  `{!Allows R k_held} `{!AllowsProc R} `{!AllowsEnv R} : ConsOps R.
Proof.
  split; intros.
  - unfold consoleread, console_getc. solve_within.
  - within_def consoleintr.
Qed.

Section upper.
Context {L : Layout} {E : Env} (R : kstate → kstate → Prop) `{!PreOrder R}.
Context `{!Allows R k_mem} `{!Allows R k_freelist} `{!Allows R k_initproc} `{!Allows R k_held} 
  `{!Allows R k_ftable} `{!Allows R k_itable} 
  `{!Allows R k_bufs} `{!Allows R k_log} `{!Allows R k_sb} 
  `{!Allows R k_disk} `{!Allows R k_dwrites} `{!Allows R k_ticks} `{!Allows R k_devsw} 
  `{!Allows R k_uart_out} `{!Allows R k_uart_in} `{!Allows R k_tx_busy} `{!Allows R k_first} `{!Allows R k_csr}.
Context `{!AllowsProc R} `{!AllowsEnv R} `{!AllowsDiskIntr R}.
Context `{!PipeOps R} `{!ConsOps R}.


(** ** Interrupts and files (Console, File) *)

Lemma within_uartintr : within R (uartintr).
Proof. within_def uartintr. Qed.
#[local] Hint Resolve within_uartintr : within.
Lemma within_fileclose f : within R (fileclose f).
Proof. within_def fileclose. Qed.
#[local] Hint Resolve within_fileclose : within.
Lemma within_pipealloc : within R (pipealloc).
Proof. within_def pipealloc. Qed.
#[local] Hint Resolve within_pipealloc : within.
Lemma within_filestat f addr : within R (filestat f addr).
Proof. within_def filestat. Qed.
#[local] Hint Resolve within_filestat : within.
Lemma within_fileread f addr n : within R (fileread f addr n).
Proof. within_def fileread. Qed.
#[local] Hint Resolve within_fileread : within.
Lemma within_filewrite f addr n : within R (filewrite f addr n).
Proof. within_def filewrite. Qed.
#[local] Hint Resolve within_filewrite : within.

(** ** exec, exit (Exec, Proc) *)

Lemma within_loadseg pagetable va ip offset sz : within R (loadseg pagetable va ip offset sz).
Proof. within_def loadseg. Qed.
#[local] Hint Resolve within_loadseg : within.
Lemma within_kexec_load ip elf pagetable : within R (kexec_load ip elf pagetable).
Proof. within_def kexec_load. Qed.
#[local] Hint Resolve within_kexec_load : within.
Lemma within_kexec_bad pagetable sz ip : within R (kexec_bad pagetable sz ip).
Proof. within_def kexec_bad. Qed.
#[local] Hint Resolve within_kexec_bad : within.
Lemma within_kexec_args pagetable sp stackbase argv : within R (kexec_args pagetable sp stackbase argv).
Proof. within_def kexec_args. Qed.
#[local] Hint Resolve within_kexec_args : within.
Lemma within_kexec_start p path argv entry pagetable sz : within R (kexec_start p path argv entry pagetable sz).
Proof. within_def kexec_start. Qed.
#[local] Hint Resolve within_kexec_start : within.
Lemma within_kexec path argv : within R (kexec path argv).
Proof. within_def kexec. Qed.
#[local] Hint Resolve within_kexec : within.
Lemma within_kexit status : within R (kexit status).
Proof. within_def kexit. Qed.
#[local] Hint Resolve within_kexit : within.

(** ** System calls *)

Lemma within_sys_exit : within R (sys_exit).
Proof. within_def sys_exit. Qed.
#[local] Hint Resolve within_sys_exit : within.
Lemma within_sys_getpid : within R (sys_getpid).
Proof. within_def sys_getpid. Qed.
#[local] Hint Resolve within_sys_getpid : within.
Lemma within_sys_sbrk : within R (sys_sbrk).
Proof. within_def sys_sbrk. Qed.
#[local] Hint Resolve within_sys_sbrk : within.
Lemma within_sys_pause : within R (sys_pause).
Proof. within_def sys_pause. Qed.
#[local] Hint Resolve within_sys_pause : within.
Lemma within_sys_kill : within R (sys_kill).
Proof. within_def sys_kill. Qed.
#[local] Hint Resolve within_sys_kill : within.
Lemma within_sys_uptime : within R (sys_uptime).
Proof. within_def sys_uptime. Qed.
#[local] Hint Resolve within_sys_uptime : within.
Lemma within_sys_hello : within R (sys_hello).
Proof. within_def sys_hello. Qed.
#[local] Hint Resolve within_sys_hello : within.
Lemma within_sys_getfilter : within R (sys_getfilter).
Proof. within_def sys_getfilter. Qed.
#[local] Hint Resolve within_sys_getfilter : within.
Lemma within_sys_dup : within R (sys_dup).
Proof. within_def sys_dup. Qed.
#[local] Hint Resolve within_sys_dup : within.
Lemma within_sys_read : within R (sys_read).
Proof. within_def sys_read. Qed.
#[local] Hint Resolve within_sys_read : within.
Lemma within_sys_write : within R (sys_write).
Proof. within_def sys_write. Qed.
#[local] Hint Resolve within_sys_write : within.
Lemma within_sys_close : within R (sys_close).
Proof. within_def sys_close. Qed.
#[local] Hint Resolve within_sys_close : within.
Lemma within_sys_fstat : within R (sys_fstat).
Proof. within_def sys_fstat. Qed.
#[local] Hint Resolve within_sys_fstat : within.
Lemma within_link_bad ip : within R (link_bad ip).
Proof. within_def link_bad. Qed.
#[local] Hint Resolve within_link_bad : within.
Lemma within_sys_link : within R (sys_link).
Proof. within_def sys_link. Qed.
#[local] Hint Resolve within_sys_link : within.
Lemma within_isdirempty dp : within R (isdirempty dp).
Proof. within_def isdirempty. Qed.
#[local] Hint Resolve within_isdirempty : within.
Lemma within_unlink_bad dp : within R (unlink_bad dp).
Proof. within_def unlink_bad. Qed.
#[local] Hint Resolve within_unlink_bad : within.
Lemma within_sys_unlink : within R (sys_unlink).
Proof. within_def sys_unlink. Qed.
#[local] Hint Resolve within_sys_unlink : within.
Lemma within_create_fail ip dp : within R (create_fail ip dp).
Proof. within_def create_fail. Qed.
#[local] Hint Resolve within_create_fail : within.
Lemma within_create path type major minor : within R (create path type major minor).
Proof. within_def create. Qed.
#[local] Hint Resolve within_create : within.
Lemma within_open_inode path omode : within R (open_inode path omode).
Proof. within_def open_inode. Qed.
#[local] Hint Resolve within_open_inode : within.
Lemma within_sys_open : within R (sys_open).
Proof. within_def sys_open. Qed.
#[local] Hint Resolve within_sys_open : within.
Lemma within_sys_mkdir : within R (sys_mkdir).
Proof. within_def sys_mkdir. Qed.
#[local] Hint Resolve within_sys_mkdir : within.
Lemma within_sys_mknod : within R (sys_mknod).
Proof. within_def sys_mknod. Qed.
#[local] Hint Resolve within_sys_mknod : within.
Lemma within_sys_chdir : within R (sys_chdir).
Proof. within_def sys_chdir. Qed.
#[local] Hint Resolve within_sys_chdir : within.
Lemma within_exec_args uargv : within R (exec_args uargv).
Proof. within_def exec_args. Qed.
#[local] Hint Resolve within_exec_args : within.
Lemma within_sys_exec : within R (sys_exec).
Proof. within_def sys_exec. Qed.
#[local] Hint Resolve within_sys_exec : within.
Lemma within_sys_pipe : within R (sys_pipe).
Proof. within_def sys_pipe. Qed.
#[local] Hint Resolve within_sys_pipe : within.
Lemma within_audit_log_write pid syscall_num : within R (audit_log_write pid syscall_num).
Proof. within_def audit_log_write. Qed.
#[local] Hint Resolve within_audit_log_write : within.
Lemma within_inspect p num : within R (inspect p num).
Proof. within_def inspect. Qed.
#[local] Hint Resolve within_inspect : within.
Lemma within_violation p num : within R (violation p num).
Proof. within_def violation. Qed.
#[local] Hint Resolve within_violation : within.
Lemma within_devintr : within R (devintr).
Proof. within_def devintr. apply within_modify, allow_disk_intr. Qed.
#[local] Hint Resolve within_devintr : within.
Lemma within_kerneltrap : within R (kerneltrap).
Proof. within_def kerneltrap. Qed.
#[local] Hint Resolve within_kerneltrap : within.

End upper.

#[export] Hint Resolve
  within_uartintr within_fileclose within_pipealloc within_filestat within_fileread
  within_filewrite within_loadseg within_kexec_load within_kexec_bad within_kexec_args
  within_kexec_start within_kexec within_kexit within_sys_exit within_sys_getpid
  within_sys_sbrk within_sys_pause within_sys_kill within_sys_uptime within_sys_hello
  within_sys_getfilter within_sys_dup within_sys_read within_sys_write within_sys_close
  within_sys_fstat within_link_bad within_sys_link within_isdirempty within_unlink_bad
  within_sys_unlink within_create_fail within_create within_open_inode within_sys_open
  within_sys_mkdir within_sys_mknod within_sys_chdir within_exec_args within_sys_exec
  within_sys_pipe within_audit_log_write within_inspect within_violation within_devintr
  within_kerneltrap : within.
