(* ===== verification/Kernel.v ===== *)
(** * The whole kernel against a relation

    The functions that do change the fields the filter depends on are few:
    [freeproc], [kfork] and the four calls that configure the filter.  A relation
    that accepts these and is [EnvTolerant] is kept by everything user space can
    enter: every system call, [usertrap], [kerneltrap] and [forkret]. *)

From S2P Require Import Prelude Machine Kstate Logic Strings Sched Kalloc Vm Printf Bio Log Fs Console File Proc Exec Sysproc Sysfile Syscall Trap Frame.

Lemma within_mono {A} (R R' : kstate → kstate → Prop) (m : K A) :
  (∀ s s', R s s' → R' s s') → within R m → within R' m.
Proof. intros HR Hm s s' H. by apply HR, Hm. Qed.

Lemma within_assoc {A B C} R `{!PreOrder R} (m : K A) (f : A → K B) (k : B → K C) :
  within R (m ≫= f) → (∀ b, within R (k b)) → within R (m ≫= λ a, f a ≫= k).
Proof.
  intros H1 H2 s s' H. apply (within_bind R (m ≫= f) k H1 H2).
  rewrite <-H, !bind_unfold. by destruct (m s).
Qed.

Class TableOps {L : Layout} {E : Env} (R : kstate → kstate → Prop) := {
  kt_freeproc i : within R (freeproc i);
  kt_kfork : within R kfork;
  kt_setfilter : within R sys_setfilter;
  kt_setfilter_child : within R sys_setfilter_child;
  kt_setaudit : within R sys_setaudit;
  kt_setstrict : within R sys_setstrict;
}.

(** The bundle for the clients that only watch the process table. *)
Class KernelTolerant {L : Layout} {E : Env} (R : kstate → kstate → Prop) := {
  kt_env :: EnvTolerant R;
  kt_ops :: TableOps R;
}.

Section kernel.
Context {L : Layout} {E : Env} (R : kstate → kstate → Prop) `{!PreOrder R}.
Context `{!Allows R k_mem} `{!Allows R k_freelist} `{!Allows R k_initproc} `{!Allows R k_held} 
  `{!Allows R k_ftable} `{!Allows R k_itable} 
  `{!Allows R k_bufs} `{!Allows R k_log} `{!Allows R k_sb} 
  `{!Allows R k_disk} `{!Allows R k_dwrites} `{!Allows R k_ticks} `{!Allows R k_devsw} 
  `{!Allows R k_uart_out} `{!Allows R k_uart_in} `{!Allows R k_tx_busy} `{!Allows R k_first} `{!Allows R k_csr}.
Context `{!AllowsProc R} `{!AllowsEnv R} `{!AllowsDiskIntr R}.
Context `{!PipeOps R} `{!ConsOps R}.
Context `{!TableOps R}.

#[local] Hint Resolve kt_freeproc kt_kfork kt_setfilter kt_setfilter_child kt_setaudit
  kt_setstrict : within.

Lemma within_kwait_scan p addr : within R (kwait_scan p addr).
Proof. within_def kwait_scan. Qed.
#[local] Hint Resolve within_kwait_scan : within.

Lemma within_kwait addr : within R (kwait addr).
Proof. within_def kwait. Qed.
#[local] Hint Resolve within_kwait : within.

Lemma within_sys_fork : within R sys_fork.
Proof. within_def sys_fork. Qed.

Lemma within_sys_wait : within R sys_wait.
Proof. within_def sys_wait. Qed.
#[local] Hint Resolve within_sys_fork within_sys_wait : within.

(** Every handler of the table. *)
Lemma within_syscalls : Forall (λ h, ∀ m, h = Some m → within R m) syscalls.
Proof. unfold syscalls. repeat constructor; intros m [= <-]; solve_within. Qed.

Lemma within_syscall_with table :
  Forall (λ h, ∀ m, h = Some m → within R m) table → within R (syscall_with table).
Proof.
  intros Ht. unfold syscall_with.
  apply within_bind; [apply _ | auto with within | intros p].
  apply within_bind; [apply _ | auto with within | intros a7]. cbv beta zeta.
  destruct (if _ && _ then _ else _) as [h|] eqn:Hh; [| solve_within].
  assert (Hw : within R h).
  { destruct (_ && _); [| done]. unfold mjoin, option_join in Hh.
    destruct (table !! _) as [o|] eqn:Ho; [| done]. subst o.
    rewrite Forall_lookup in Ht. by eapply Ht. }
  solve_within; done.
Qed.

Lemma within_syscall : within R syscall.
Proof. apply within_syscall_with, within_syscalls. Qed.
#[local] Hint Resolve within_syscall : within.

Lemma within_usertrap_dispatch p : within R (usertrap_dispatch p).
Proof. within_def usertrap_dispatch. Qed.
#[local] Hint Resolve within_usertrap_dispatch : within.

Lemma within_usertrap : within R usertrap.
Proof. within_def usertrap. Qed.

Lemma within_forkret : within R forkret.
Proof. within_def forkret. Qed.

End kernel.
