(* ===== verification/ProcSpec.v ===== *)
(** * Process table entries: allocation, release, fork

    Exact effect of [allocproc], [freeproc] and [kfork] of kernel/proc.c on the
    process table. *)

From S2P Require Import Prelude Machine Kstate Logic Strings Sched Kalloc Vm Printf Bio Log Fs Console File Proc Exec Sysproc Sysfile Syscall Trap Frame.

(** ** The two frames *)

Definition procs_frame (s s' : kstate) : Prop :=
  k_procs s' = k_procs s ∧ k_nextpid s' = k_nextpid s ∧ k_cur s' = k_cur s.

#[global] Instance procs_frame_inert : Inert procs_frame.
Proof.
  split; [split |].
  - by intros s.
  - intros s1 s2 s3 (?&?&?) (?&?&?). repeat split; congruence.
  - by repeat split.
Qed.

Definition sec_frame (s s' : kstate) : Prop :=
  Forall2 sec_step (k_procs s) (k_procs s') ∧ k_nextpid s' = k_nextpid s ∧ k_cur s' = k_cur s.

#[global] Instance sec_step_preorder : PreOrder sec_step.
Proof.
  split; [intros p; sec_step_tac |].
  intros p q r (?&?&?&?&?&[?|?]) (?&?&?&?&?&[?|?]); repeat split; try congruence;
    (left; congruence) || (right; congruence).
Qed.

#[global] Instance sec_frame_tolerant : Tolerant sec_frame.
Proof.
  split; [split; [split |] |].
  - intros s. by repeat split.
  - intros s1 s2 s3 (?&?&?) (?&?&?). repeat split; try congruence. by etrans.
  - intros s s' H1 H2 H3. unfold sec_frame. by rewrite H1.
  - intros s i p p' Hp Hs. repeat split; simpl; try done.
    rewrite <-(list_insert_id (k_procs s) i p) at 1 by done.
    apply Forall2_insert; [| done]. apply Forall_Forall2_diag, Forall_true. intros ?; reflexivity.
Qed.

(** From the run of a function to the frame it keeps. *)
Lemma within_run {A} R (m : K A) s a s' : within R m → m s = Done a s' → R s s'.
Proof. intros Hw H. apply Hw. by rewrite H. Qed.

(** The process table, the pid counter and the current process. *)
Definition table_is (l : list proc) (n : Z) (c : option nat) (s : kstate) : Prop :=
  k_procs s = l ∧ k_nextpid s = n ∧ k_cur s = c.

Lemma table_is_self s : table_is (k_procs s) (k_nextpid s) (k_cur s) s.
Proof. done. Qed.

Lemma table_inert {A} l n c (m : K A) a s s' :
  table_is l n c s → m s = Done a s' → within procs_frame m → table_is l n c s'.
Proof.
  intros (<-&<-&<-) H Hw. by apply (within_run _ _ _ _ _ Hw) in H.
Qed.

Lemma table_get l n c i p s s' :
  table_is l n c s → get_proc i s = Done p s' → l !! i = Some p ∧ s' = s.
Proof. intros (<-&_&_) H. by apply get_proc_inv. Qed.

Lemma table_upd l n c i f a s s' :
  table_is l n c s → upd_proc i f s = Done a s' →
  ∃ p, l !! i = Some p ∧ table_is (<[i := f p]> l) n c s'.
Proof. intros (<-&<-&<-) H. apply upd_proc_inv in H as (p & Hp & ->). by exists p. Qed.

(** [tstep Ht H] executes the first step of the run [H], keeping in [Ht] what
    is known of the table. *)
Ltac tprim Ht H :=
  lazymatch type of H with
  | get_proc _ _ = Done _ _ => apply (table_get _ _ _ _ _ _ _ Ht) in H as [H ->]
  | upd_proc _ _ _ = Done _ _ =>
      let p := fresh "p" in let Hp := fresh "Hp" in
      apply (table_upd _ _ _ _ _ _ _ _ Ht) in H as (p & Hp & H); clear Ht; rename H into Ht
  | _ =>
      let Ht' := fresh "Ht" in
      lazymatch type of Ht with table_is ?l ?n ?c _ =>
      lazymatch type of H with _ = Done _ ?s2 =>
        assert (Ht' : table_is l n c s2)
          by (eapply table_inert; [exact Ht | exact H | solve_within])
      end end;
      clear Ht; rename Ht' into Ht; kprim H
  end.

Ltac tstep Ht H :=
  let a := fresh "a" in let s1 := fresh "s" in let H1 := fresh "Hrun" in
  apply bind_inv in H as (a & s1 & H1 & H); cbv beta in H; tprim Ht H1.

(** ** freeproc *)

(** What is left of an entry that has been freed. *)
Definition freed (p : proc) : proc :=
  p <| p_trapframe := 0 |> <| p_pagetable := 0 |> <| p_sz := 0 |> <| p_pid := 0 |>
    <| p_parent := None |> <| p_name ::= <[0%nat := 0]> |> <| p_chan := None |>
    <| p_killed := 0 |> <| p_xstate := 0 |> <| p_syscall_mask := 0 |>
    <| p_child_syscall_mask := 0 |> <| p_audit_enabled := 0 |> <| p_strict_mode := 0 |>
    <| p_state := UNUSED |>.

Section procspec.
Context {L : Layout} {E : Env}.

Lemma freeproc_effect l n c i a s s' :
  table_is l n c s → freeproc i s = Done a s' →
  ∃ p, l !! i = Some p ∧ table_is (<[i := freed p]> l) n c s'.
Proof.
  unfold freeproc. intros Ht H. do 5 tstep Ht H. tprim Ht H.
  pose proof (lookup_lt_Some _ _ _ Hrun) as Hlt.
  rewrite Hrun in Hp. injection Hp as <-.
  rewrite list_lookup_insert_eq in Hrun1, Hp0 by done. simplify_eq.
  exists a0. split; [done |]. by rewrite list_insert_insert_eq in Ht.
Qed.

(** ** allocproc *)

Lemma find_unused_effect l n c r s s' :
  table_is l n c s → find_unused s = Done r s' →
  table_is l n c s' ∧
  match r with
  | None => ∀ i p, (i < NPROC)%nat → l !! i = Some p → p_state p ≠ UNUSED
  | Some i => ∃ p, l !! i = Some p ∧ p_state p = UNUSED ∧
      ∀ j q, (j < i)%nat → l !! j = Some q → p_state q ≠ UNUSED
  end.
Proof.
  unfold find_unused. intros Ht H.
  enough (Hgen : ∀ m k s, table_is l n c s →
    for_until (seq k m) (fun i => acquire (LkProc i);; p ← get_proc i;
      if decide (p_state p = UNUSED) then ret (Some i)
      else release (LkProc i);; ret None) s = Done r s' →
    (∀ j q, (j < k)%nat → l !! j = Some q → p_state q ≠ UNUSED) →
    table_is l n c s' ∧
    match r with
    | None => ∀ i p, (i < k + m)%nat → l !! i = Some p → p_state p ≠ UNUSED
    | Some i => ∃ p, l !! i = Some p ∧ p_state p = UNUSED ∧
        ∀ j q, (j < i)%nat → l !! j = Some q → p_state q ≠ UNUSED
    end).
  { apply (Hgen NPROC 0%nat s); [done | exact H | lia]. }
  clear s Ht H. induction m as [|m IH]; intros k s Ht H Hk; cbn [seq for_until] in H.
  { kprim H. subst. split; [done |]. intros i p Hi. apply Hk. lia. }
  apply bind_inv in H as (x & s1 & H1 & H). tstep Ht H1. tstep Ht H1.
  destruct (decide (p_state a0 = UNUSED)) as [Hu|Hu].
  { kprim H1. subst. kprim H. subst. eauto 10. }
  tstep Ht H1. kprim H1. subst. apply IH in H; [| done |].
  { rewrite Nat.add_succ_comm in H. done. }
  intros j q Hj Hq. destruct (decide (j = k)) as [->|]; [congruence | apply (Hk j); [lia | done]].
Qed.

(** [allocpid] hands out the counter. *)
Lemma allocpid_effect l n c pid s s' :
  table_is l n c s → allocpid s = Done pid s' → pid = n ∧ table_is l (n + 1) c s'.
Proof.
  unfold allocpid. intros Ht H. do 2 tstep Ht H.
  apply bind_inv in H as (x & s9 & Hm & H). destruct Ht as (<-&<-&<-).
  destruct (INT_MAX <=? _); [done |]. kprim Hm. kinv H. kprim H. by subst.
Qed.

(** The entry [allocproc] hands out, made from the UNUSED entry [p]. *)
Definition allocated (p : proc) (pid tf pt : Z) : proc :=
  p <| p_pid := pid |> <| p_state := USED |> <| p_syscall_mask := 0 |>
    <| p_child_syscall_mask := 0 |> <| p_audit_enabled := 0 |> <| p_strict_mode := 0 |>
    <| p_trapframe := tf |> <| p_pagetable := pt |>
    <| p_context := mkContext sym_forkret (p_kstack p + PGSIZE) (replicate 12 0) |>.

Lemma allocproc_effect l n c r s s' :
  table_is l n c s → allocproc s = Done r s' →
  match r with
  | Some i => ∃ p tf pt, l !! i = Some p ∧ p_state p = UNUSED ∧ tf ≠ 0 ∧ pt ≠ 0 ∧
      table_is (<[i := allocated p n tf pt]> l) (n + 1) c s' ∧
      ∀ j q, (j < i)%nat → l !! j = Some q → p_state q ≠ UNUSED
  | None => table_is l n c s' ∨
      ∃ i p q, l !! i = Some p ∧ p_state p = UNUSED ∧
        table_is (<[i := freed q]> l) (n + 1) c s'
  end.
Proof.
  unfold allocproc. intros Ht H. apply bind_inv in H as (x & s9 & Hm & H).
  apply (find_unused_effect _ _ _ _ _ _ Ht) in Hm as [Ht1 Hr]. clear Ht. rename Ht1 into Ht.
  destruct x as [i|]; [| kprim H; subst; by left].
  destruct Hr as (p & Hp & Hu & Hfirst). pose proof (lookup_lt_Some _ _ _ Hp) as Hlt.
  apply bind_inv in H as (pid & s8 & Hm & H).
  apply (allocpid_effect _ _ _ _ _ _ Ht) in Hm as [-> Ht1]. clear Ht. rename Ht1 into Ht.
  do 3 tstep Ht H. simplify_eq.
  rewrite list_lookup_insert_eq in Hp1 by done. simplify_eq.
  rewrite list_insert_insert_eq in Ht.
  destruct (Z.eqb_spec a0 0) as [->|Htf].
  - apply bind_inv in H as (u & s7 & Hm & H).
    apply (freeproc_effect _ _ _ _ _ _ _ Ht) in Hm as (q & Hq & Ht1).
    tstep Ht1 H. kprim H. subst. right. rewrite list_insert_insert_eq in Ht1. eauto 10.
  - do 2 tstep Ht H. rewrite list_lookup_insert_eq in Hp0 by done. simplify_eq.
    rewrite list_insert_insert_eq in Ht.
    destruct (Z.eqb_spec a2 0) as [->|Hpt].
    + apply bind_inv in H as (u & s7 & Hm & H).
      apply (freeproc_effect _ _ _ _ _ _ _ Ht) in Hm as (q & Hq & Ht1).
      tstep Ht1 H. kprim H. subst. right. rewrite list_insert_insert_eq in Ht1. eauto 10.
    + tstep Ht H. rewrite list_lookup_insert_eq in Hp0 by done. simplify_eq.
      rewrite list_insert_insert_eq in Ht. kprim H. subst. eauto 10.
Qed.

(** ** kfork *)

Lemma filedup_result f r s s' : filedup f s = Done r s' → r = f.
Proof.
  unfold filedup. intros H. kinv H. kinv H. destruct (_ <? _); [done |].
  do 2 kinv H. by kprim H.
Qed.

Lemma idup_result ip r s s' : idup ip s = Done r s' → r = ip.
Proof. unfold idup. intros H. do 3 kinv H. by kprim H. Qed.

(** The loop of [kfork] that copies the open files. *)
Lemma dup_files_effect pr np m k l n c q a s s' :
  table_is (<[np := q]> l) n c s → (np < length l)%nat →
  for_each (seq k m) (fun i =>
    f ← must (p_ofile pr !! i) "ofile index";
    match f with
    | Some f =>
        f ← filedup f;
        upd_proc np (fun x => x <| p_ofile ::= <[i := Some f]> |>)
    | None => ret tt
    end) s = Done a s' →
  ∃ ofs, table_is (<[np := q <| p_ofile := ofs |>]> l) n c s' ∧
    length ofs = length (p_ofile q) ∧
    (∀ i, (i < k)%nat → ofs !! i = p_ofile q !! i) ∧
    (∀ i f, (k ≤ i < k + m)%nat → (i < length ofs)%nat →
       p_ofile pr !! i = Some (Some f) → ofs !! i = Some (Some f)).
Proof.
  revert k q s. induction m as [|m IH]; intros k q s Ht Hlt H; cbn [seq for_each] in H.
  { kprim H. subst. exists (p_ofile q). split; [by destruct q |].
    split; [done |]. split; [done |]. lia. }
  apply bind_inv in H as (u & s1 & Hm & H). tstep Ht Hm. destruct a0 as [f|].
  - tstep Ht Hm. apply filedup_result in Hrun0 as ->. tprim Ht Hm.
    rewrite list_lookup_insert_eq in Hp by done. simplify_eq.
    rewrite list_insert_insert_eq in Ht. destruct (IH _ _ _ Ht Hlt H) as (ofs & H1 & H2 & H3 & H4).
    simpl in *. rewrite length_insert in H2. exists ofs. split; [exact H1 |]. split; [done |]. split.
    + intros i Hi. rewrite H3 by lia. by rewrite list_lookup_insert_ne by lia.
    + intros i f' Hi Hlen Hf'. destruct (decide (i = k)) as [->|]; [| apply H4; [lia | done..]].
      rewrite H3 by lia. rewrite list_lookup_insert_eq by lia. congruence.
  - kprim Hm. destruct (IH _ _ _ Ht Hlt H) as (ofs & H1 & H2 & H3 & H4).
    exists ofs. split; [done |]. split; [done |]. split.
    + intros i Hi. apply H3. lia.
    + intros i f' Hi Hlen Hf'. destruct (decide (i = k)) as [->|]; [congruence |].
      apply H4; [lia | done..].
Qed.

(** What a new process takes over from its parent. *)
Record inherits (parent child : proc) : Prop := {
  inh_mask : p_syscall_mask child =
    if p_child_syscall_mask parent =? 0 then p_syscall_mask parent
    else p_child_syscall_mask parent;
  inh_child_mask : p_child_syscall_mask child = 0;
  inh_audit : p_audit_enabled child = p_audit_enabled parent;
  inh_strict : p_strict_mode child = p_strict_mode parent;
  inh_sz : p_sz child = p_sz parent;
  inh_cwd : p_cwd child = p_cwd parent;
  inh_ofile : ∀ fd f, (fd < NOFILE)%nat → (fd < length (p_ofile child))%nat →
    p_ofile parent !! fd = Some (Some f) → p_ofile child !! fd = Some (Some f);
}.

(** Entries of different processes: an entry that is UNUSED is not the current one. *)
Lemma unused_ne (l : list proc) i j pr p :
  l !! i = Some pr → p_state pr ≠ UNUSED → l !! j = Some p → p_state p = UNUSED → j ≠ i.
Proof. intros H1 H2 H3 H4 ->. congruence. Qed.

(** [tnorm Ht]: what was read from the updated table, and the table itself, in
    terms of the entries it holds. *)
Ltac tlen := rewrite ?length_insert; lia.
Ltac tnorm Ht :=
  repeat match goal with
  | H : <[?i := _]> _ !! ?i = Some _ |- _ => rewrite list_lookup_insert_eq in H by tlen
  | H : <[?i := _]> _ !! ?j = Some _ |- _ => rewrite list_lookup_insert_ne in H by done
  end;
  simplify_eq; rewrite ?list_insert_insert_eq in Ht.

(** The two ways [kfork] ends: a new RUNNABLE entry that inherits from the
    parent, or -1 with at most a freed entry and, if the copy of the memory
    failed, the parent's mask for children reset. *)
Lemma kfork_effect l n i pr r s s' :
  table_is l n (Some i) s → l !! i = Some pr → p_state pr ≠ UNUSED →
  kfork s = Done r s' →
  (∃ j q child, r = n ∧ l !! j = Some q ∧ p_state q = UNUSED ∧ j ≠ i ∧
     table_is (<[j := child]> (<[i := pr <| p_child_syscall_mask := 0 |>]> l))
       (n + 1) (Some i) s' ∧
     inherits pr child ∧ p_pid child = n ∧ p_state child = RUNNABLE ∧ p_parent child = Some i ∧
     p_killed child = p_killed q ∧
     ∀ k x, (k < j)%nat → l !! k = Some x → p_state x ≠ UNUSED) ∨
  r = -1 ∧
    (table_is l n (Some i) s' ∨
     ∃ j q q', l !! j = Some q ∧ p_state q = UNUSED ∧ j ≠ i ∧
       (table_is (<[j := freed q']> l) (n + 1) (Some i) s' ∨
        table_is (<[j := freed q']> (<[i := pr <| p_child_syscall_mask := 0 |>]> l))
          (n + 1) (Some i) s')).
Proof.
  unfold kfork. intros Ht Hi Hst H. tstep Ht H.
  assert (a = i) as -> by (destruct Ht as (_&_&?); congruence).
  apply bind_inv in H as (x & s9 & Hm & H).
  apply (allocproc_effect _ _ _ _ _ _ Ht) in Hm. destruct x as [j|].
  2: { kprim H. subst. right. split; [done |]. destruct Hm as [Hm|(j & q & q' & ?&?&?)]; [by left |].
       right. exists j, q, q'. split; [done |]. split; [done |]. split; [by eapply unused_ne | by left]. }
  destruct Hm as (q & tf & pt & Hq & Hu & Htf & Hpt & Ht1 & Hfirst). clear Ht. rename Ht1 into Ht.
  assert (j ≠ i) as Hji by (by eapply unused_ne).
  pose proof (lookup_lt_Some _ _ _ Hq). pose proof (lookup_lt_Some _ _ _ Hi).
  tstep Ht H. tnorm Ht.
  set (m := if p_child_syscall_mask pr =? 0 then p_syscall_mask pr else p_child_syscall_mask pr).
  apply bind_inv in H as (u & s8 & Hm & H).
  assert (table_is (<[j := (allocated q n tf pt) <| p_syscall_mask := m |>]> l) (n + 1) (Some i) s8) as Ht1.
  { subst m. destruct (_ =? 0); cbn [negb] in Hm; tprim Ht Hm; tnorm Ht; exact Ht. }
  clear Ht Hm. rename Ht1 into Ht.
  tstep Ht H. tnorm Ht. rewrite list_insert_insert_ne in Ht by done.
  do 4 (tstep Ht H; tnorm Ht).
  destruct (a2 <? 0).
  - apply bind_inv in H as (v & s7 & Hm & H).
    apply (freeproc_effect _ _ _ _ _ _ _ Ht) in Hm as (q' & _ & Ht1).
    tstep Ht1 H. kprim H. rewrite list_insert_insert_eq in Ht1. subst.
    right. split; [done |]. right. exists j, q, q'. eauto 10.
  - do 3 (tstep Ht H; tnorm Ht). apply bind_inv in H as (v & s7 & Hm & H).
    destruct (dup_files_effect _ _ _ _ _ _ _ _ _ _ _ Ht ltac:(tlen) Hm)
      as (ofs & Ht1 & Hlen & _ & Hofs). clear Ht Hm. rename Ht1 into Ht.
    do 2 tstep Ht H. apply idup_result in Hrun3 as ->.
    do 10 (tstep Ht H; tnorm Ht). kprim H. subst.
    left. do 3 eexists. split; [reflexivity |]. split; [exact Hq |]. split; [done |].
    split; [done |]. split; [exact Ht |]. split; [| done]. split; try done.
    intros fd f Hfd Hfd' Hf. apply Hofs; [lia | done..].
Qed.

End procspec.
