(* ===== verification/Ratchet.v ===== *)
(** * The filter can only be tightened

    The relation [ratchet] holds between two kernel states when every process
    that exists in both has, in the second, at least the blocked calls it had in
    the first.  Every piece of kernel code that user space can reach performs
    only such steps. *)

From stdpp Require Import relations.
From S2P Require Import Prelude Machine Kstate Logic Strings Sched Kalloc Vm Printf Bio Log Fs Console File Proc Exec Sysproc Sysfile Syscall Trap Frame Kernel ProcSpec.

(** What may happen to one table entry while the pid counter was at least [n]:
    it keeps its pid and its mask grows, or it is free, or it was given to a
    process created since. *)
Definition entry_step (n : Z) (p p' : proc) : Prop :=
  (p_pid p' = p_pid p ∧ mask_le (p_syscall_mask p) (p_syscall_mask p')) ∨
  p_pid p' = 0 ∨ n ≤ p_pid p'.

(** [ratchet_but o] makes no promise on the mask of entry [o]. *)
Definition ratchet_but (o : option nat) (s s' : kstate) : Prop :=
  k_nextpid s ≤ k_nextpid s' ∧
  ∀ i p, k_procs s !! i = Some p → ∃ p', k_procs s' !! i = Some p' ∧
    (entry_step (k_nextpid s) p p' ∨ o = Some i ∧ p_pid p' = p_pid p).

Definition ratchet : kstate → kstate → Prop := ratchet_but None.

Lemma entry_step_refl n p : entry_step n p p.
Proof. left. split; [done | apply mask_le_refl]. Qed.

Lemma entry_step_trans n n' p q r :
  n ≤ n' → entry_step n p q → entry_step n' q r → entry_step n p r.
Proof.
  intros Hn [[H1 H2]|[H1|H1]] [[H3 H4]|[H3|H3]]; unfold entry_step.
  all: try (right; lia).
  left. split; [congruence | by eapply mask_le_trans].
Qed.

Lemma ratchet_but_refl o s : ratchet_but o s s.
Proof. split; [lia |]. intros i p Hp. exists p. split; [done |]. left. apply entry_step_refl. Qed.

Lemma ratchet_but_trans o s1 s2 s3 :
  ratchet_but o s1 s2 → ratchet_but o s2 s3 → ratchet_but o s1 s3.
Proof.
  intros [Hn1 H1] [Hn2 H2]. split; [lia |]. intros i p Hp.
  destruct (H1 _ _ Hp) as (p' & Hp' & Hs1). destruct (H2 _ _ Hp') as (p'' & Hp'' & Hs2).
  exists p''. split; [done |].
  destruct Hs1 as [Hs1|[-> Hs1]], Hs2 as [Hs2|[E Hs2]].
  - left. by eapply entry_step_trans.
  - destruct Hs1 as [[Hs1 _]|Hs1]; [right; split; congruence |]. left. right. lia.
  - destruct Hs2 as [[Hs2 _]|Hs2]; [right; split; congruence |]. left. right. lia.
  - right. split; congruence.
Qed.

#[global] Instance ratchet_but_preorder o : PreOrder (ratchet_but o).
Proof. split; [exact (ratchet_but_refl o) | exact (ratchet_but_trans o)]. Qed.

(** An update of one entry that is allowed for that entry. *)
Lemma ratchet_but_update o s i p p' :
  k_procs s !! i = Some p →
  entry_step (k_nextpid s) p p' ∨ (o = Some i ∧ p_pid p' = p_pid p) →
  ratchet_but o s (s <| k_procs ::= <[i := p']> |>).
Proof.
  intros Hp Hs. split; [simpl; lia |]. intros j q Hq. simpl.
  destruct (decide (j = i)) as [->|Hji].
  - rewrite list_lookup_insert_eq by (by eapply lookup_lt_Some). exists p'.
    split; [done |]. by simplify_eq.
  - rewrite list_lookup_insert_ne by done. exists q. split; [done |]. left. apply entry_step_refl.
Qed.

#[global] Instance ratchet_but_tolerant o : Tolerant (ratchet_but o).
Proof.
  split; [split; [apply _ |] |].
  - intros s s' Hp Hn _. split; [lia |]. intros i p. rewrite Hp. intros Hi. exists p.
    split; [done |]. left. apply entry_step_refl.
  - intros s i p p' Hp (?&Hm&_). apply (ratchet_but_update _ _ _ p); [done |].
    left. left. rewrite Hm. split; [done | apply mask_le_refl].
Qed.
#[global] Instance ratchet_tolerant : Tolerant ratchet := ratchet_but_tolerant None.

(** Updates of a table entry that a relation on entries allows. *)
Lemma within_upd_ratchet o i f :
  (∀ p, p_pid (f p) = p_pid p ∧ mask_le (p_syscall_mask p) (p_syscall_mask (f p)) ∨
        p_pid (f p) = 0) →
  within (ratchet_but o) (upd_proc i f).
Proof.
  intros Hf s s'. unfold upd_proc, get_proc. rewrite !bind_unfold. simpl.
  destruct (k_procs s !! i) as [p|] eqn:Hp; simpl; [|done]. intros [= <-].
  apply (ratchet_but_update _ _ _ p); [done |]. left. destruct (Hf p) as [?|?]; [by left |].
  right. by left.
Qed.

Lemma within_upd_exempt i f :
  (∀ p, p_pid (f p) = p_pid p) → within (ratchet_but (Some i)) (upd_proc i f).
Proof.
  intros Hf s s'. unfold upd_proc, get_proc. rewrite !bind_unfold. simpl.
  destruct (k_procs s !! i) as [p|] eqn:Hp; simpl; [|done]. intros [= <-].
  apply (ratchet_but_update _ _ _ p); [done |]. right. split; [done | apply Hf].
Qed.

Section functions.
Context {L : Layout} {E : Env}.

Lemma within_freeproc o i : within (ratchet_but o) (freeproc i).
Proof. unfold freeproc. solve_within. apply within_upd_ratchet. intros p. by right. Qed.
Lemma within_freeproc_ratchet i : within ratchet (freeproc i).
Proof. exact (within_freeproc None i). Qed.
#[local] Hint Resolve within_freeproc within_freeproc_ratchet : within.

Lemma within_allocpid : within ratchet allocpid.
Proof.
  unfold allocpid. apply within_bind; [apply _ | auto with within | intros _].
  intros s s'. rewrite bind_unfold. cbn [gets].
  destruct (Z.leb_spec INT_MAX (k_nextpid s)); [done |].
  rewrite bind_unfold. cbn [modify]. intros Hr. transitivity (s <| k_nextpid := k_nextpid s + 1 |>).
  - split; [simpl; lia |]. intros i p Hp. exists p. split; [done |]. left. apply entry_step_refl.
  - revert Hr. match goal with |- context [?m (_ <| _ := _ |>)] => set (tail := m) end.
    assert (Hw : within ratchet tail) by (subst tail; solve_within). apply Hw.
Qed.

(** A new pid is at least the old counter. *)
Lemma within_new_pid i f :
  (∀ pid p, p_pid (f pid p) = pid) →
  within ratchet (pid ← allocpid; upd_proc i (f pid)).
Proof.
  intros Hf s s'. rewrite bind_unfold. pose proof (within_allocpid s) as Hw.
  destruct (allocpid s) as [pid s1| | |] eqn:Ha; [| by apply Hw ..].
  destruct (allocpid_effect _ _ _ _ _ _ (table_is_self s) Ha) as [-> (Hp&Hn&_)].
  unfold upd_proc, get_proc. rewrite !bind_unfold. cbn [gets]. rewrite Hp.
  destruct (k_procs s !! i) as [p|] eqn:Hi; cbn [must]; [|done]. intros [= <-].
  split; [simpl; lia |]. intros j q Hq. simpl. rewrite Hp.
  destruct (decide (j = i)) as [->|Hji].
  - rewrite list_lookup_insert_eq by (by eapply lookup_lt_Some).
    eexists. split; [done |]. left. right. right. rewrite Hf. lia.
  - rewrite list_lookup_insert_ne by done. exists q. split; [done |]. left. apply entry_step_refl.
Qed.

Lemma within_allocproc : within ratchet allocproc.
Proof.
  unfold allocproc. apply within_bind; [apply _ | auto with within |]. intros [i|]; [| solve_within].
  apply within_assoc; [apply _ | by apply within_new_pid | intros _]. solve_within.
Qed.

(** A step that hands out a new entry, followed by steps that spare all others. *)
Lemma within_fresh {A} (k : option nat → K A) :
  within ratchet (k None) → (∀ i, within (ratchet_but (Some i)) (k (Some i))) →
  within ratchet (allocproc ≫= k).
Proof.
  intros HN HS s s'. rewrite bind_unfold. pose proof (within_allocproc s) as Hw.
  destruct (allocproc s) as [[i|] s1| | |] eqn:Ha; [| | by apply Hw ..].
  2: { intros H. transitivity s1; [by apply Hw | by apply HN]. }
  intros [Hn2 H2]%HS. destruct (Hw s1 eq_refl) as [Hn1 H1].
  destruct (allocproc_effect _ _ _ _ _ _ (table_is_self s) Ha)
    as (q & tf & pt & Hq & _ & _ & _ & (Ht & Hn & _) & _).
  split; [lia |]. intros j p Hp. destruct (H1 _ _ Hp) as (p1 & Hp1 & [He|[? _]]); [| done].
  destruct (H2 _ _ Hp1) as (p2 & Hp2 & He2). exists p2. split; [done |]. left.
  destruct He2 as [He2|[[= <-] Hpid]]; [by eapply entry_step_trans |].
  right. right. rewrite Hpid. rewrite Ht, list_lookup_insert_eq in Hp1 by (by eapply lookup_lt_Some).
  injection Hp1 as <-. simpl. lia.
Qed.

Lemma within_kfork : within ratchet kfork.
Proof.
  unfold kfork. apply within_bind; [apply _ | auto with within | intros p].
  apply within_fresh; [solve_within |]. intros np. solve_within.
  all: first [ apply within_upd_exempt; by intros | apply within_upd_ratchet; intros; left; split; [done | apply mask_le_refl] ].
Qed.

(** The filter's own calls: a new mask must contain the old one. *)
Lemma within_setfilter : within ratchet sys_setfilter.
Proof.
  unfold sys_setfilter. apply within_bind; [apply _ | auto with within | intros mask].
  apply within_bind; [apply _ | auto with within | intros i].
  intros s s'. unfold get_proc. rewrite !bind_unfold. cbn [gets].
  destruct (k_procs s !! i) as [p|] eqn:Hp; cbn [must ret undef]; [| done].
  destruct (Z.eqb_spec (Z.land mask (p_syscall_mask p)) (p_syscall_mask p)) as [Hle|]; simpl.
  - rewrite bind_unfold, (upd_proc_done _ _ _ _ Hp). intros [= <-].
    apply (ratchet_but_update _ _ _ p); [done |]. left. by left.
  - intros [= <-]. reflexivity.
Qed.

Ltac solve_upd_ratchet :=
  apply (within_upd_ratchet None); intros; left; split; [done | apply mask_le_refl].

Lemma within_setfilter_child : within ratchet sys_setfilter_child.
Proof. unfold sys_setfilter_child. solve_within. solve_upd_ratchet. Qed.

Lemma within_setaudit : within ratchet sys_setaudit.
Proof. unfold sys_setaudit. solve_within. solve_upd_ratchet. Qed.

Lemma within_setstrict : within ratchet sys_setstrict.
Proof. unfold sys_setstrict. solve_within. solve_upd_ratchet. Qed.

End functions.


(** ** The guarantee of a kernel run

    A run of kernel code is a sequence of ratchet steps of its own and of steps
    of the environment: what other processes do between [swtch] and the return
    from it, and the disk's interrupt handler. *)

Definition env_step {E : Env} (s s' : kstate) : Prop :=
  env_swtch s = Some s' ∨ s' = env_disk_intr s.

Definition guarantee {E : Env} : kstate → kstate → Prop :=
  rtc (λ s s', ratchet s s' ∨ env_step s s').

#[global] Instance guarantee_kernel {L : Layout} {E : Env} : KernelTolerant guarantee.
Proof.
  assert (Hsub : ∀ s s', ratchet s s' → guarantee s s') by (intros; apply rtc_once; by left).
  split; [split; [split; [split; [apply _ |] |] | |] | split].
  - intros s s' H1 H2 H3. by apply Hsub, inert_frame.
  - intros s i p p' Hp Hs. by apply Hsub, (tol_proc _ _ p).
  - intros s s' Hs. apply rtc_once. right. by left.
  - intros s. apply rtc_once. right. by right.
  - intros i. apply (within_mono _ _ _ Hsub), within_freeproc_ratchet.
  - apply (within_mono _ _ _ Hsub), within_kfork.
  - apply (within_mono _ _ _ Hsub), within_setfilter.
  - apply (within_mono _ _ _ Hsub), within_setfilter_child.
  - apply (within_mono _ _ _ Hsub), within_setaudit.
  - apply (within_mono _ _ _ Hsub), within_setstrict.
Qed.

(** ** The whole machine

    The ways the state changes: kernel code entered by a trap from user space,
    by an interrupt in the kernel or by the first run of a new process, under
    any environment that itself takes only ratchet steps; and everything outside
    the kernel's control of the process table, such as user programs, devices
    and the choice of the current process. *)

Inductive machine_step {L : Layout} : kstate → kstate → Prop :=
  | step_usertrap (E : Env) s s' :
      (∀ a b, env_step a b → ratchet a b) → outcome_state (usertrap s) = Some s' →
      machine_step s s'
  | step_kerneltrap (E : Env) s s' :
      (∀ a b, env_step a b → ratchet a b) → outcome_state (kerneltrap s) = Some s' →
      machine_step s s'
  | step_forkret (E : Env) s s' :
      (∀ a b, env_step a b → ratchet a b) → outcome_state (forkret s) = Some s' →
      machine_step s s'
  | step_other s s' :
      k_procs s' = k_procs s → k_nextpid s' = k_nextpid s → machine_step s s'.

Lemma guarantee_ratchet {E : Env} s s' :
  (∀ a b, env_step a b → ratchet a b) → guarantee s s' → ratchet s s'.
Proof.
  intros HE. induction 1 as [s|s1 s2 s3 [H|H] _ IH]; [reflexivity | by etrans |].
  etrans; [by apply HE | done].
Qed.

Lemma machine_step_ratchet {L : Layout} s s' : machine_step s s' → ratchet s s'.
Proof.
  destruct 1 as [E s s' HE H|E s s' HE H|E s s' HE H|s s' Hp Hn].
  - apply (guarantee_ratchet s s' HE). by apply (within_usertrap guarantee).
  - apply (guarantee_ratchet s s' HE). by apply (within_kerneltrap guarantee).
  - apply (guarantee_ratchet s s' HE). by apply (within_forkret guarantee).
  - split; [lia |]. intros i p. rewrite Hp. intros Hi. exists p. split; [done |].
    left. apply entry_step_refl.
Qed.

Lemma machine_steps_ratchet {L : Layout} s s' : rtc machine_step s s' → ratchet s s'.
Proof.
  induction 1 as [s|s1 s2 s3 H _ IH]; [reflexivity |].
  etrans; [by apply machine_step_ratchet | done].
Qed.

(** ** Theorems *)

(** C2: nothing user space can start weakens a filter.  For every environment,
    whatever a trap from user space does (any system call with any arguments, a
    fault, an interrupt) and however it ends, its own steps never remove a call
    from the mask of a process that still exists. *)
Theorem usertrap_only_tightens {L : Layout} {E : Env} : within guarantee usertrap.
Proof. apply (within_usertrap guarantee). Qed.


(** C4: what fork hands down.  When [kfork] succeeds, a new entry holds a
    RUNNABLE process with the returned pid whose parent is the caller; its filter
    is the mask set for children if there is one and else the caller's own, its
    audit and strict flags, size, directory and open files are the caller's; of
    the other entries only the caller's mask for children changes, to zero.  If
    the mask for children contains the caller's mask, the child is at least as
    restricted as the caller. *)
Theorem fork_inherits_filter {L : Layout} {E : Env} s i p r s' :
  k_cur s = Some i → k_procs s !! i = Some p → p_state p ≠ UNUSED →
  kfork s = Done r s' → r ≠ -1 →
  ∃ j child, j ≠ i ∧ k_procs s' !! j = Some child ∧
    p_pid child = r ∧ p_state child = RUNNABLE ∧ p_parent child = Some i ∧
    inherits p child ∧
    (∀ k, k ≠ j → k ≠ i → k_procs s' !! k = k_procs s !! k) ∧
    k_procs s' !! i = Some (p <| p_child_syscall_mask := 0 |>) ∧
    (p_child_syscall_mask p = 0 ∨ mask_le (p_syscall_mask p) (p_child_syscall_mask p) →
     mask_le (p_syscall_mask p) (p_syscall_mask child)).
Proof.
  intros Hc Hp Hst H Hr.
  assert (Ht0 : table_is (k_procs s) (k_nextpid s) (Some i) s) by (by repeat split).
  destruct (kfork_effect _ _ _ _ _ _ _ Ht0 Hp Hst H) as
    [(j & q & child & -> & Hq & Hu & Hji & (Ht & _ & _) & Hinh & Hpid & Hrun & Hpar & _)|[? _]];
    [| done].
  pose proof (lookup_lt_Some _ _ _ Hq). pose proof (lookup_lt_Some _ _ _ Hp).
  exists j, child. rewrite Ht. split; [done |].
  split; [apply list_lookup_insert_eq; by rewrite length_insert |].
  do 3 (split; [done |]). split; [done |]. split.
  { intros k Hk1 Hk2. by rewrite !list_lookup_insert_ne. }
  split; [by rewrite list_lookup_insert_ne, list_lookup_insert_eq |].
  rewrite (inh_mask _ _ Hinh). destruct (Z.eqb_spec (p_child_syscall_mask p) 0); intros [?|?];
    done || apply mask_le_refl.
Qed.
