(* ===== verification/Filter.v ===== *)
(** * The system-call filter

    The decisions of kernel/syscall.c against a declarative policy, what a
    denied call does, and the behaviour of the calls that configure the filter
    (kernel/sysproc.c). *)

From S2P Require Import Prelude Machine Kstate Logic Strings Sched Kalloc Vm Printf Bio Log Fs Console File Proc Exec Sysproc Sysfile Syscall Trap Frame ProcSpec.

(** ** The policy

    What the filter promises for a call whose bit is set in the mask: [a0] and
    [a1] are the argument registers, [sz] the size of the process and [path] the
    string [a0] points to, if it can be read. *)

Definition starts_with (pre path : list Z) : bool := bool_decide (pre `prefix_of` path).

Definition path_policy (path : option (list Z)) (ok : list Z → bool) : verdict :=
  match path with
  | None => VBadPath
  | Some path => if ok path then VRun else VDeny
  end.

Definition policy (num a0 a1 sz : Z) (path : option (list Z)) : verdict :=
  if num =? SYS_open then
    path_policy path (fun path =>
      negb (Z.testbit (i32 a1) 0) && negb (Z.testbit (i32 a1) 1) &&
      negb (starts_with (bytes_of_string "secret") path))
  else if num =? SYS_kill then if 2 <? i32 a0 then VRun else VDeny
  else if num =? SYS_exec then
    path_policy path (fun path =>
      bool_decide (path ≠ bytes_of_string "sh") && bool_decide (path ≠ bytes_of_string "rm"))
  else if num =? SYS_unlink then
    path_policy path (fun path =>
      negb (starts_with (bytes_of_string "/bin/") path) &&
      negb (starts_with (bytes_of_string "README") path) &&
      negb (starts_with (bytes_of_string "audit.log") path))
  else if num =? SYS_sbrk then
    if (i32 a0 <=? 2 ^ 20) && (u64 (sz + i32 a0) <=? 10 * 2 ^ 20) then VRun else VDeny
  else VDeny.

(** ** String comparison *)

Lemma strncmp_prefix path pre n :
  n = length pre →
  Forall is_byte path → Forall (λ c, c ≠ 0) path →
  Forall is_byte pre → Forall (λ c, c ≠ 0) pre →
  (strncmp path pre n =? 0) = starts_with pre path.
Proof.
  intros ->. intros. unfold starts_with. apply eq_true_iff_eq. rewrite Z.eqb_eq, bool_decide_eq_true.
  rewrite strncmp_0, !cstr_id, firstn_all by done. split.
  - intros <-. apply prefix_take.
  - intros [k ->]. by rewrite take_app_length.
Qed.

Lemma strncmp_exact path name n :
  n = S (length name) →
  Forall is_byte path → Forall (λ c, c ≠ 0) path →
  Forall is_byte name → Forall (λ c, c ≠ 0) name →
  negb (strncmp path name n =? 0) = bool_decide (path ≠ name).
Proof.
  intros ->. intros. apply eq_true_iff_eq. rewrite negb_true_iff, Z.eqb_neq, bool_decide_eq_true.
  rewrite strncmp_0, !cstr_id by done. rewrite (take_ge name) by lia.
  apply not_iff_compat. split; [| intros ->; by rewrite take_ge by lia].
  intros Ht. pose proof (length_take path (S (length name))) as Hl. rewrite Ht in Hl.
  rewrite <-Ht, take_ge; [done | lia].
Qed.

Lemma user_string_bytes m pt va n l :
  mem_ok m → user_string m pt va n = Some l →
  Forall is_byte l ∧ Forall (λ c, c ≠ 0) l ∧ (length l < n)%nat.
Proof.
  intros Hm. revert va l. induction n as [|n IH]; intros va l; [done |]. cbn [user_string].
  unfold user_byte. destruct (_ =? 0); [done |].
  match goal with |- context [mread m ?a =? 0] =>
    destruct (Z.eqb_spec (mread m a) 0) as [|Hc]; [intros [= <-]; simpl; auto with lia |] end.
  destruct (user_string m pt (va + 1) n) as [l'|] eqn:E; intros [= <-].
  destruct (IH _ _ E) as (?&?&?). repeat split; [| | simpl; lia]; constructor; auto.
Qed.

(** ** A process that enters the kernel with a system call

    [calling s i p num]: process [i], whose table entry is [p], is current and
    has [num] in its [a7]. *)

Record calling (s : kstate) (i : nat) (p : proc) (num : Z) : Prop := {
  call_cur : k_cur s = Some i;
  call_proc : k_procs s !! i = Some p;
  call_tf : p_trapframe p ≠ 0;
  call_mem : mem_ok (k_mem s);
  call_num : num = i32 (load64 (k_mem s) (p_trapframe p + TF_a7));
}.

(** Argument registers, and the string argument of the path calls. *)
Definition arg (s : kstate) (p : proc) (off : Z) : Z := load64 (k_mem s) (p_trapframe p + off).
Definition path_arg (s : kstate) (p : proc) : option (list Z) :=
  user_string (k_mem s) (p_pagetable p) (arg s p TF_a0) MAXPATH.
Definition policy_of (s : kstate) (p : proc) (num : Z) : verdict :=
  policy num (arg s p TF_a0) (arg s p TF_a1) (p_sz p) (path_arg s p).

(** [a0 := v] in the trapframe of the caller. *)
Definition set_a0 (p : proc) (v : Z) (s : kstate) : kstate :=
  s <| k_mem ::= fun m => store64 m (p_trapframe p + TF_a0) v |>.

Section caller.
Context {L : Layout} {E : Env}.

Lemma tf_get_done s i p off :
  k_procs s !! i = Some p → p_trapframe p ≠ 0 → tf_get i off s = Done (arg s p off) s.
Proof.
  intros Hp Htf. unfold tf_get. rewrite (bind_done _ _ _ _ _ (get_proc_done _ _ _ Hp)).
  by rewrite (proj2 (Z.eqb_neq _ _) Htf).
Qed.

Lemma tf_set_a0_done s i p v :
  k_procs s !! i = Some p → p_trapframe p ≠ 0 → tf_set i TF_a0 v s = Done tt (set_a0 p v s).
Proof.
  intros Hp Htf. unfold tf_set. rewrite (bind_done _ _ _ _ _ (get_proc_done _ _ _ Hp)).
  by rewrite (proj2 (Z.eqb_neq _ _) Htf).
Qed.

Lemma fetchstr_done s i p va :
  k_cur s = Some i → k_procs s !! i = Some p → 0 ≤ va < 2 ^ 64 →
  fetchstr va (Z.of_nat MAXPATH) s =
    Done (user_string (k_mem s) (p_pagetable p) va MAXPATH) s.
Proof.
  intros Hc Hp Hva. unfold fetchstr. rewrite (bind_done _ _ _ _ _ (curproc_done _ _ Hc)).
  rewrite (bind_done _ _ _ _ _ (get_proc_done _ _ _ Hp)).
  by rewrite copyinstr_done by lia.
Qed.

Lemma land_mode (x : Z) b : 0 ≤ b → (Z.land x (Z.shiftl 1 b) =? 0) = negb (Z.testbit x b).
Proof.
  intros Hb. pose proof (land_bit_testbit x b Hb) as [H1 H2].
  destruct (Z.eqb_spec (Z.land x (Z.shiftl 1 b)) 0) as [He|He], (Z.testbit x b); simpl; try done.
  - by apply H2 in He.
  - by apply H1 in He.
Qed.

(** The argument inspection of the dispatcher implements the policy, returns
    for every state and changes nothing. *)
Lemma inspect_done s i p num :
  calling s i p num → inspect i num s = Done (policy_of s p num) s.
Proof.
  intros [Hc Hp Htf Hm _]. unfold inspect, policy_of, policy.
  assert (Ha0 : 0 ≤ arg s p TF_a0 < 2 ^ 64) by (by apply load64_range).
  pose proof (fetchstr_done s i p _ Hc Hp Ha0) as Hstr. fold (path_arg s p) in Hstr.
  assert (Hpath : ∀ l, path_arg s p = Some l → Forall is_byte l ∧ Forall (λ c, c ≠ 0) l)
    by (intros l Hl; by apply user_string_bytes in Hl as (?&?&?)).
  destruct (num =? SYS_open); [| destruct (num =? SYS_kill); [| destruct (num =? SYS_exec);
    [| destruct (num =? SYS_unlink); [| destruct (num =? SYS_sbrk); [| done]]]]].
  all: rewrite (bind_done _ _ _ _ _ (tf_get_done _ _ _ _ Hp Htf)); cbv zeta.
  - rewrite (bind_done _ _ _ _ _ (tf_get_done _ _ _ _ Hp Htf)), (bind_done _ _ _ _ _ Hstr).
    destruct (path_arg s p) as [path|]; [| done]. destruct (Hpath _ eq_refl). cbn [path_policy].
    change O_WRONLY with (Z.shiftl 1 0). change O_RDWR with (Z.shiftl 1 1).
    rewrite !land_mode by lia.
    rewrite (strncmp_prefix path (bytes_of_string "secret")) by (done || by repeat constructor).
    by destruct (_ && _).
  - by destruct (_ <? _).
  - rewrite (bind_done _ _ _ _ _ Hstr). destruct (path_arg s p) as [path|]; [| done].
    destruct (Hpath _ eq_refl). cbn [path_policy].
    rewrite (strncmp_exact path (bytes_of_string "sh")) by (done || by repeat constructor).
    rewrite (strncmp_exact path (bytes_of_string "rm")) by (done || by repeat constructor).
    by destruct (_ && _).
  - rewrite (bind_done _ _ _ _ _ Hstr). destruct (path_arg s p) as [path|]; [| done].
    destruct (Hpath _ eq_refl). cbn [path_policy].
    rewrite (strncmp_prefix path (bytes_of_string "/bin/")) by (done || by repeat constructor).
    rewrite (strncmp_prefix path (bytes_of_string "README")) by (done || by repeat constructor).
    rewrite (strncmp_prefix path (bytes_of_string "audit.log")) by (done || by repeat constructor).
    by destruct (_ && _).
  - rewrite (bind_done _ _ _ _ _ (get_proc_done _ _ _ Hp)). by destruct (_ && _).
Qed.

(** ** The dispatcher *)

(** Running a handler: its result goes to [a0]. *)
Definition run_handler (i : nat) (h : K Z) : K unit := r ← h; tf_set i TF_a0 r.

(** [num] names a handler of the table. *)
Definition has_handler (table : list (option (K Z))) (num : Z) (h : K Z) : Prop :=
  0 < num < 64 ∧ table !! Z.to_nat num = Some (Some h).

Lemma has_handler_lookup table num h :
  has_handler table num h →
  (if (0 <? num) && (num <? Z.of_nat (length table))
   then mjoin (table !! Z.to_nat num) else None) = Some h.
Proof.
  intros [Hn Ht]. pose proof (lookup_lt_Some _ _ _ Ht). rewrite Ht.
  destruct (Z.ltb_spec 0 num), (Z.ltb_spec num (Z.of_nat (length table))); simpl; done || lia.
Qed.

Lemma mask_test mask num :
  0 < num < 64 → negb (Z.land mask (u64 (Z.shiftl 1 num)) =? 0) = Z.testbit mask num.
Proof.
  intros Hn. assert (0 ≤ Z.shiftl 1 num < 2 ^ 64).
  { rewrite Z.shiftl_1_l. split; [lia | apply Z.pow_lt_mono_r; lia]. }
  by rewrite u64_small, land_mode, negb_involutive by lia.
Qed.

(** The dispatcher, by the mask and the policy. *)
Lemma syscall_with_cases table s i p num h :
  calling s i p num → has_handler table num h →
  syscall_with table s =
    if Z.testbit (p_syscall_mask p) num then
      match policy_of s p num with
      | VRun => run_handler i h s
      | VBadPath => Done tt (set_a0 p (u64 (-1)) s)
      | VDeny => violation i num s
      end
    else run_handler i h s.
Proof.
  intros Hcall Hh. pose proof Hcall as [Hc Hp Htf _ Hnum]. unfold syscall_with.
  rewrite (bind_done _ _ _ _ _ (curproc_done _ _ Hc)).
  rewrite (bind_done _ _ _ _ _ (tf_get_done _ _ _ _ Hp Htf)). unfold arg. rewrite <-Hnum.
  cbv zeta. rewrite (has_handler_lookup _ _ _ Hh).
  rewrite (bind_done _ _ _ _ _ (get_proc_done _ _ _ Hp)).
  rewrite mask_test by apply Hh. destruct (Z.testbit _ _); [| done].
  rewrite (bind_done _ _ _ _ _ (inspect_done _ _ _ _ Hcall)).
  destruct (policy_of s p num); [done | | done]. by apply tf_set_a0_done.
Qed.

(** A denied call of a process that is neither strict nor audited. *)
Lemma violation_quiet s i p num :
  calling s i p num → p_strict_mode p = 0 → p_audit_enabled p = 0 →
  violation i num s = Done tt (set_a0 p (u64 (-1)) s).
Proof.
  intros [_ Hp Htf _ _] Hst Hau. unfold violation.
  rewrite (bind_done _ _ _ _ _ (get_proc_done _ _ _ Hp)), Hst, Hau. cbn [Z.eqb negb].
  by rewrite (bind_done _ _ _ _ _ (tf_set_a0_done _ _ _ _ Hp Htf)).
Qed.

(** ** Strict mode *)

(** Once set, [killed] of entry [i] stays set. *)
Definition stays_killed (i : nat) (s s' : kstate) : Prop :=
  ∀ p, k_procs s !! i = Some p → p_killed p = 1 →
  ∃ p', k_procs s' !! i = Some p' ∧ p_killed p' = 1.

#[global] Instance stays_killed_tolerant i : Tolerant (stays_killed i).
Proof.
  split; [split; [split |] |].
  - intros s p Hp Hk. eauto.
  - intros s1 s2 s3 H1 H2 p Hp Hk. destruct (H1 p Hp Hk) as (p' & Hp' & Hk'). eauto.
  - intros s s' Hs _ _ p. rewrite Hs. eauto.
  - intros s j q q' Hq (_&_&_&_&_&Hkq) p Hp Hk. simpl.
    destruct (decide (i = j)) as [->|]; [| rewrite list_lookup_insert_ne by done; eauto].
    rewrite list_lookup_insert_eq by (by eapply lookup_lt_Some). exists q'. split; [done |].
    destruct Hkq; congruence.
Qed.

(** A denied call of a strict process leaves it killed. *)
Lemma violation_strict `{!EnvTolerant (stays_killed i)} s p num a s' :
  k_procs s !! i = Some p → p_strict_mode p ≠ 0 → violation i num s = Done a s' →
  ∃ p', k_procs s' !! i = Some p' ∧ p_killed p' = 1.
Proof.
  intros Hp Hst H. unfold violation in H.
  rewrite (bind_done _ _ _ _ _ (get_proc_done _ _ _ Hp)) in H.
  rewrite (proj2 (Z.eqb_neq _ _) Hst) in H. cbn [negb] in H.
  apply bind_inv in H as (u1 & s1 & H1 & H).
  assert (Hp1 : k_procs s1 !! i = Some p).
  { assert (procs_frame s s1) as (-> & _); [| done].
    eapply within_run; [| exact H1]. solve_within. }
  apply bind_inv in H as (u2 & s2 & H2 & H).
  rewrite (upd_proc_done _ _ _ _ Hp1) in H2. injection H2 as _ <-.
  assert (Hw : stays_killed i (s1 <| k_procs ::= <[i := p <| p_killed := 1 |>]> |>) s').
  { eapply within_run; [| exact H]. solve_within. }
  apply (Hw (p <| p_killed := 1 |>)); [| done].
  simpl. apply list_lookup_insert_eq. by eapply lookup_lt_Some.
Qed.

(** [kexit] does not return. *)
Lemma kexit_no_return status a s s' : kexit status s ≠ Done a s'.
Proof.
  unfold kexit. intros H. do 2 kinv H. destruct (decide _); [done |].
  repeat (apply bind_inv in H as (? & ? & _ & H)). done.
Qed.

(** What [usertrap] has done when it calls [syscall]: the trap vector points to
    the kernel, the saved program counter is past the ecall, interrupts are on. *)
Definition at_syscall (p : proc) (s : kstate) : kstate :=
  let epc := p_trapframe p + TF_epc in
  s <| k_csr ::= fun c => c <| csr_stvec := sym_kernelvec |> |>
    <| k_mem ::= fun m => store64 m epc (csr_sepc (k_csr s)) |>
    <| k_mem ::= fun m => store64 m epc (u64 (load64 m epc + 4)) |>
    <| k_csr ::= fun c => c <| csr_sstatus ::= Z.lor SSTATUS_SIE |> |>.

Lemma killed_inv i k s s' :
  killed i s = Done k s' → s' = s ∧
  ∃ p, k_procs s !! i = Some p ∧ k = p_killed p.
Proof.
  unfold killed. intros H. kinv H. subst. do 2 kinv H. kprim H. subst.
  split; [| eauto]. by apply acquire_release_id.
Qed.

Lemma tf_set_inv i off v a s s' :
  tf_set i off v s = Done a s' → ∃ p, k_procs s !! i = Some p ∧ p_trapframe p ≠ 0 ∧
    s' = (s <| k_mem ::= fun m => store64 m (p_trapframe p + off) v |>).
Proof.
  unfold tf_set. intros H. kinv H. destruct (Z.eqb_spec (p_trapframe a0) 0); [done |].
  kprim H. eauto.
Qed.

Lemma tf_get_inv i off v s s' :
  tf_get i off s = Done v s' → ∃ p, k_procs s !! i = Some p ∧ p_trapframe p ≠ 0 ∧
    s' = s ∧ v = arg s p off.
Proof.
  unfold tf_get. intros H. kinv H. destruct (Z.eqb_spec (p_trapframe a) 0); [done |].
  kprim H. eauto 10.
Qed.

(** The first half of [usertrap] on an ecall of a process that is not killed:
    it runs [syscall] in the state [at_syscall]. *)
Lemma usertrap_ecall s i p r s' :
  k_cur s = Some i → k_procs s !! i = Some p → csr_scause (k_csr s) = 8 →
  usertrap s = Done r s' →
  ∃ s2, syscall (at_syscall p s) = Done tt s2 ∧
    ∃ p2, k_procs s2 !! i = Some p2 ∧ p_killed p2 = 0.
Proof.
  intros Hc Hp Hcause H. unfold usertrap in H. unfold r_csr in H. kinv H. subst.
  destruct (negb _); [done |]. kinv H. subst.
  apply bind_inv in H as (j & s9 & Hj & H). apply curproc_inv in Hj as [Hj ->].
  simpl in Hj. assert (j = i) as -> by congruence. kinv H. subst.
  apply bind_inv in H as (u & s1 & H1 & H). apply tf_set_inv in H1 as (q & Hq & _ & ->).
  simpl in Hq. assert (q = p) as -> by congruence.
  apply bind_inv in H as (d & s2 & Hd & H). unfold usertrap_dispatch, r_csr in Hd.
  kinv Hd. subst. replace (csr_scause _) with 8 in Hd by (symmetry; exact Hcause).
  cbn [Z.eqb Pos.eqb] in Hd.
  apply bind_inv in Hd as (k & s3 & Hk & Hd). apply killed_inv in Hk as (-> & _).
  apply bind_inv in Hd as (u' & s4 & Hx & Hd).
  destruct (negb (k =? 0)); [by apply kexit_no_return in Hx |]. kprim Hx.
  apply bind_inv in Hd as (e & s5 & Hg & Hd). apply tf_get_inv in Hg as (q & Hq' & _ & -> & ->).
  apply bind_inv in Hd as (u2 & s6 & Hs & Hd). apply tf_set_inv in Hs as (q2 & Hq2 & _ & ->).
  unfold intr_on in Hd. kinv Hd. apply bind_inv in Hd as ([] & s7 & Hsys & Hd). kprim Hd. subst.
  simpl in Hq', Hq2. assert (q = p ∧ q2 = p) as [-> ->] by (split; congruence).
  exists s7. split; [exact Hsys |].
  apply bind_inv in H as (k2 & s8 & Hk & H). apply killed_inv in Hk as (-> & p2 & Hp2 & ->).
  exists p2. split; [done |]. apply bind_inv in H as (u3 & s8 & Hx & _).
  destruct (Z.eqb_spec (p_killed p2) 0); [done | by apply kexit_no_return in Hx].
Qed.

End caller.

(** ** The calls that configure the filter *)

Section configure.
Context {L : Layout} {E : Env}.

Lemma argaddr0_done s i p num :
  calling s i p num → argaddr 0 s = Done (arg s p TF_a0) s.
Proof.
  intros [Hc Hp Htf _ _]. unfold argaddr, argraw.
  rewrite (bind_done _ _ _ _ _ (curproc_done _ _ Hc)). simpl. by apply tf_get_done.
Qed.

Lemma argint0_done s i p num :
  calling s i p num → argint 0 s = Done (i32 (arg s p TF_a0)) s.
Proof.
  intros H. unfold argint. by rewrite (bind_done _ _ _ _ _ (argaddr0_done _ _ _ _ H)).
Qed.

(** Update of the caller's table entry. *)
Definition set_entry (i : nat) (p : proc) (s : kstate) : kstate :=
  s <| k_procs ::= <[i := p]> |>.

(** The two mask-setting calls accept a mask iff it contains the caller's. *)
Definition accepts (p : proc) (mask : Z) : bool := bool_decide (mask_le (p_syscall_mask p) mask).

Lemma accepts_test p mask :
  negb (Z.land mask (p_syscall_mask p) =? p_syscall_mask p) = negb (accepts p mask).
Proof.
  unfold accepts, mask_le. f_equal. apply eq_true_iff_eq. by rewrite Z.eqb_eq, bool_decide_eq_true.
Qed.

Ltac enter H :=
  pose proof H as [Hc Hp Htf _ _];
  repeat first
    [ rewrite (bind_done _ _ _ _ _ (argaddr0_done _ _ _ _ H))
    | rewrite (bind_done _ _ _ _ _ (argint0_done _ _ _ _ H))
    | rewrite (bind_done _ _ _ _ _ (curproc_done _ _ Hc))
    | rewrite (bind_done _ _ _ _ _ (get_proc_done _ _ _ Hp)) ].

Lemma setfilter_done s i p num :
  calling s i p num →
  sys_setfilter s =
    if accepts p (arg s p TF_a0)
    then Done 0 (set_entry i (p <| p_syscall_mask := arg s p TF_a0 |>) s)
    else Done (u64 (-1)) s.
Proof.
  intros H. unfold sys_setfilter. enter H. rewrite accepts_test.
  destruct (accepts _ _); cbn [negb]; [| done]. by rewrite (bind_done _ _ _ _ _ (upd_proc_done _ _ _ _ Hp)).
Qed.

Lemma setfilter_child_done s i p num :
  calling s i p num →
  sys_setfilter_child s =
    if accepts p (arg s p TF_a0)
    then Done 0 (set_entry i (p <| p_child_syscall_mask := arg s p TF_a0 |>) s)
    else Done (u64 (-1)) s.
Proof.
  intros H. unfold sys_setfilter_child. enter H. rewrite accepts_test.
  destruct (accepts _ _); cbn [negb]; [| done]. by rewrite (bind_done _ _ _ _ _ (upd_proc_done _ _ _ _ Hp)).
Qed.

Lemma setaudit_done s i p num :
  calling s i p num →
  sys_setaudit s =
    Done 0 (set_entry i (p <| p_audit_enabled := i32 (arg s p TF_a0) |>) s).
Proof.
  intros H. unfold sys_setaudit. enter H.
  by rewrite (bind_done _ _ _ _ _ (upd_proc_done _ _ _ _ Hp)).
Qed.

Lemma setstrict_done s i p num :
  calling s i p num →
  sys_setstrict s =
    Done 0 (set_entry i (p <| p_strict_mode := i32 (arg s p TF_a0) |>) s).
Proof.
  intros H. unfold sys_setstrict. enter H.
  by rewrite (bind_done _ _ _ _ _ (upd_proc_done _ _ _ _ Hp)).
Qed.

Lemma getfilter_done s i p num :
  calling s i p num → sys_getfilter s = Done (p_syscall_mask p) s.
Proof. intros H. unfold sys_getfilter. by enter H. Qed.

(** The calls keep the caller a caller. *)
Lemma calling_set_entry s i p q num :
  calling s i p num → p_trapframe q = p_trapframe p →
  calling (set_entry i q s) i q num.
Proof.
  intros [Hc Hp Htf Hm Hn] Hq. split; simpl; [done | | congruence | done | congruence].
  apply list_lookup_insert_eq. by eapply lookup_lt_Some.
Qed.

End configure.

(** ** Theorems *)

Section theorems.
Context {L : Layout} {E : Env}.

(** C1: the dispatcher implements the policy.  For a call that has a handler,
    [syscall] runs the handler when the call's bit is not in the mask or the
    policy allows the arguments, fails it with -1 when the path cannot be read,
    and otherwise treats it as a violation; inspecting the arguments (the path
    read through the caller's page table included) always ends and has no
    effect of its own. *)
Theorem dispatcher_implements_policy table s i p num h :
  calling s i p num → has_handler table num h →
  inspect i num s = Done (policy_of s p num) s ∧
  syscall_with table s =
    if Z.testbit (p_syscall_mask p) num then
      match policy_of s p num with
      | VRun => run_handler i h s
      | VBadPath => Done tt (set_a0 p (u64 (-1)) s)
      | VDeny => violation i num s
      end
    else run_handler i h s.
Proof. intros Hc Hh. split; [by apply inspect_done | by apply syscall_with_cases]. Qed.

(** A denied call has no effect but its result.  When the mask blocks the
    call, the policy does not allow its arguments and the process is neither
    strict nor audited, the whole system call stores -1 in the caller's [a0] and
    leaves every other part of the kernel state as it was. *)
Theorem denied_call_only_fails table s i p num h :
  calling s i p num → has_handler table num h →
  Z.testbit (p_syscall_mask p) num = true → policy_of s p num ≠ VRun →
  p_strict_mode p = 0 → p_audit_enabled p = 0 →
  syscall_with table s = Done tt (set_a0 p (u64 (-1)) s).
Proof.
  intros Hc Hh Hbit Hpol Hst Hau. rewrite (syscall_with_cases _ _ _ _ _ _ Hc Hh), Hbit.
  destruct (policy_of s p num); [done | done | by apply violation_quiet].
Qed.

(** Non-interference of blocked calls.  Whatever the handlers do, a call the
    filter does not let through behaves the same: replacing the handler of the
    call by any other code cannot be observed, strict mode and audit included. *)
Theorem denied_call_ignores_handler table table' s i p num h h' :
  calling s i p num → has_handler table num h → has_handler table' num h' →
  Z.testbit (p_syscall_mask p) num = true → policy_of s p num ≠ VRun →
  syscall_with table s = syscall_with table' s.
Proof.
  intros Hc Hh Hh' Hbit Hpol.
  rewrite (syscall_with_cases _ _ _ _ _ _ Hc Hh), (syscall_with_cases _ _ _ _ _ _ Hc Hh'), Hbit.
  by destruct (policy_of s p num).
Qed.

(** C13: strict mode is fatal.  When a strict process makes a blocked call,
    [usertrap] does not return to user space, whatever the rest of the system
    does meanwhile, as long as it does not clear the [killed] flag of a live
    process. *)
Theorem strict_violation_never_returns `{!EnvTolerant (stays_killed i)} s p num h r s' :
  csr_scause (k_csr s) = 8 → calling (at_syscall p s) i p num → has_handler syscalls num h →
  Z.testbit (p_syscall_mask p) num = true → policy_of (at_syscall p s) p num = VDeny →
  p_strict_mode p ≠ 0 →
  usertrap s ≠ Done r s'.
Proof.
  intros Hcause Hcall Hh Hbit Hpol Hst H. pose proof Hcall as [Hc Hp _ _ _].
  destruct (usertrap_ecall s _ _ _ _ Hc Hp Hcause H) as (s2 & Hsys & p2 & Hp2 & Hk).
  unfold syscall in Hsys. rewrite (syscall_with_cases _ _ _ _ _ _ Hcall Hh), Hbit, Hpol in Hsys.
  destruct (violation_strict _ _ _ _ _ Hp Hst Hsys) as (p3 & Hp3 & Hk3). congruence.
Qed.

(** [setfilter] and [getfilter].  The call succeeds exactly when the new
    mask contains the old one; it then changes nothing but the caller's mask, and
    [getfilter] returns the new mask; a refused call changes nothing. *)
Theorem setfilter_getfilter s i p num :
  calling s i p num →
  let mask := arg s p TF_a0 in
  let s' := set_entry i (p <| p_syscall_mask := mask |>) s in
  (mask_le (p_syscall_mask p) mask → sys_setfilter s = Done 0 s' ∧ sys_getfilter s' = Done mask s') ∧
  (¬ mask_le (p_syscall_mask p) mask → sys_setfilter s = Done (u64 (-1)) s).
Proof.
  intros Hcall mask s'. rewrite (setfilter_done _ _ _ _ Hcall). fold mask. unfold accepts.
  split; intros Hle.
  - rewrite bool_decide_true by done. split; [done |].
    rewrite (getfilter_done s' i (p <| p_syscall_mask := mask |>) num); [done |].
    by apply (calling_set_entry s i p).
  - by rewrite bool_decide_false.
Qed.

(** C35: a filter set after [setfilter_child] does not reach the children.  The
    mask for children is checked against the caller's mask only when it is set:
    if the caller then adds a call to its own mask that is not in the mask for
    children, the next process it forks may make that call although its parent
    may not. *)
Theorem later_filter_misses_child s i p num :
  calling s i p num → p_state p ≠ UNUSED →
  let mask := arg s p TF_a0 in
  mask_le (p_syscall_mask p) mask → p_child_syscall_mask p ≠ 0 →
  ¬ mask_le mask (p_child_syscall_mask p) →
  ∃ s1, sys_setfilter s = Done 0 s1 ∧
    ∀ r s2, kfork s1 = Done r s2 → r ≠ -1 →
      ∃ parent j child, k_procs s2 !! i = Some parent ∧ k_procs s2 !! j = Some child ∧
        p_pid child = r ∧ p_parent child = Some i ∧
        ¬ mask_le (p_syscall_mask parent) (p_syscall_mask child).
Proof.
  intros Hcall Hst mask Hle Hchild Hmiss. eexists. split.
  { rewrite (setfilter_done _ _ _ _ Hcall). fold mask. unfold accepts. by rewrite bool_decide_true. }
  intros r s2 Hfork Hr. set (p1 := p <| p_syscall_mask := mask |>) in Hfork.
  pose proof (calling_set_entry s i p p1 num Hcall eq_refl) as [Hc1 Hp1 _ _ _].
  assert (Ht0 : table_is (k_procs (set_entry i p1 s)) (k_nextpid s) (Some i) (set_entry i p1 s))
    by (by repeat split).
  destruct (kfork_effect _ _ _ _ _ _ _ Ht0 Hp1 Hst Hfork) as
    [(j & q & child & -> & Hq & Hu & Hji & (Ht & _ & _) & Hinh & Hpid & _ & Hpar & _)|[? _]];
    [| done].
  pose proof (lookup_lt_Some _ _ _ Hq). pose proof (lookup_lt_Some _ _ _ Hp1).
  exists (p1 <| p_child_syscall_mask := 0 |>), j, child. rewrite Ht.
  split; [by rewrite list_lookup_insert_ne, list_lookup_insert_eq |].
  split; [apply list_lookup_insert_eq; by rewrite length_insert |].
  split; [done |]. split; [done |]. rewrite (inh_mask _ _ Hinh). simpl.
  by rewrite (proj2 (Z.eqb_neq _ _) Hchild).
Qed.

(** The path filters compare text, not files.  The policy that the
    dispatcher implements lets through the same file under another spelling, and
    it lets a blocked [open] truncate a file as long as the access mode is
    read-only. *)
Theorem path_filters_are_textual a0 sz :
  policy SYS_open a0 O_RDONLY sz (Some (bytes_of_string "secret.txt")) = VDeny ∧
  policy SYS_open a0 O_RDONLY sz (Some (bytes_of_string "/secret.txt")) = VRun ∧
  policy SYS_open a0 O_TRUNC sz (Some (bytes_of_string "audit.log")) = VRun ∧
  policy SYS_exec a0 0 sz (Some (bytes_of_string "sh")) = VDeny ∧
  policy SYS_exec a0 0 sz (Some (bytes_of_string "/sh")) = VRun ∧
  policy SYS_unlink a0 0 sz (Some (bytes_of_string "audit.log")) = VDeny ∧
  policy SYS_unlink a0 0 sz (Some (bytes_of_string "/audit.log")) = VRun.
Proof. repeat split. Qed.

(** A sandboxed process can leave strict mode and silence its audit.
    Unlike the mask, the two flags are not protected: the calls accept any value
    from the process itself, zero included. *)
Theorem flags_can_be_cleared s i p num :
  calling s i p num → i32 (arg s p TF_a0) = 0 →
  sys_setstrict s = Done 0 (set_entry i (p <| p_strict_mode := 0 |>) s) ∧
  sys_setaudit s = Done 0 (set_entry i (p <| p_audit_enabled := 0 |>) s).
Proof.
  intros Hcall H0. rewrite (setstrict_done _ _ _ _ Hcall), (setaudit_done _ _ _ _ Hcall), H0. done.
Qed.

(** C37: killing pid 0 dooms the next child.  [kkill] compares pids without
    looking at the state, and an unused entry has pid 0: [kill(0)] succeeds on
    the first unused entry, [allocproc] does not clear the flag, and the process
    that is forked next starts out killed. *)
Theorem kill_zero_dooms_next_child s i p r s2 :
  k_cur s = Some i → k_procs s !! i = Some p → p_state p ≠ UNUSED →
  length (k_procs s) = NPROC → (∀ j, LkProc j ∉ k_held s) →
  (∀ j q, k_procs s !! j = Some q → p_pid q = 0 ↔ p_state q = UNUSED) →
  (kkill 0 ;; kfork) s = Done r s2 → r ≠ -1 →
  ∃ j child, k_procs s2 !! j = Some child ∧ p_pid child = r ∧ p_killed child = 1.
Proof.
  intros Hc Hp Hst Hlen Hlk Hinv H Hr. rewrite bind_unfold, kkill_done in H by done.
  destruct (list_find _ _) as [[k x]|] eqn:Hf.
  2: { exfalso. assert (Ht0 : table_is (k_procs s) (k_nextpid s) (Some i) s) by (by repeat split).
       apply list_find_None in Hf. rewrite Forall_lookup in Hf.
       destruct (kfork_effect _ _ _ _ _ _ _ Ht0 Hp Hst H) as [(j & q & _ & _ & Hq & Hu & _)|[? _]]; [| done].
       apply (Hf _ _ Hq). by apply (Hinv _ _ Hq). }
  apply list_find_Some in Hf as (Hx & Hx0 & Hbefore).
  assert (Hxu : p_state x = UNUSED) by (by apply (Hinv _ _ Hx)).
  assert (Hki : k ≠ i) by (by eapply unused_ne). pose proof (lookup_lt_Some _ _ _ Hx) as Hklt.
  set (s1 := s <| k_procs ::= <[k := kill_entry x]> |>) in H.
  assert (Ht0 : table_is (<[k := kill_entry x]> (k_procs s)) (k_nextpid s) (Some i) s1) by (by repeat split).
  assert (Hp1 : <[k := kill_entry x]> (k_procs s) !! i = Some p) by (by rewrite list_lookup_insert_ne).
  assert (Hxe : p_state (kill_entry x) = UNUSED ∧ p_killed (kill_entry x) = 1).
  { unfold kill_entry. simpl. rewrite decide_False by congruence. done. }
  assert (Hk1 : <[k := kill_entry x]> (k_procs s) !! k = Some (kill_entry x))
    by (by apply list_lookup_insert_eq).
  destruct (kfork_effect _ _ _ _ _ _ _ Ht0 Hp1 Hst H) as
    [(j & q & child & -> & Hq & Hu & Hji & (Ht & _ & _) & _ & Hpid & _ & _ & Hkilled & Hfirst)|[? _]];
    [| done].
  assert (j = k) as ->.
  { destruct (Nat.lt_trichotomy j k) as [Hjk|[?|Hjk]]; [| done |].
    - rewrite list_lookup_insert_ne in Hq by lia. exfalso.
      apply (Hbefore _ _ Hq Hjk). by apply (Hinv _ _ Hq).
    - exfalso. apply (Hfirst _ _ Hjk Hk1). apply Hxe. }
  exists k, child. rewrite Ht. split; [apply list_lookup_insert_eq; rewrite !length_insert; lia |].
  split; [done |]. rewrite Hkilled. rewrite Hk1 in Hq. injection Hq as <-. apply Hxe.
Qed.

End theorems.
