(* ===== verification/Pids.v ===== *)
(** * Process identifiers are unique

    The invariant of the process table that [getpid], [kill] and [wait] rely on:
    the pids of the entries in use are positive, below [nextpid], and distinct. *)

From S2P Require Import Prelude Machine Kstate Logic Strings Sched Kalloc Vm Printf Bio Log Fs Console File Proc Exec Sysproc Sysfile Syscall Trap Frame Kernel ProcSpec.

Record pids_ok (s : kstate) : Prop := {
  pids_next : 0 < k_nextpid s;
  pids_range : ∀ i p, k_procs s !! i = Some p → 0 ≤ p_pid p < k_nextpid s;
  pids_inj : ∀ i j p q, k_procs s !! i = Some p → k_procs s !! j = Some q →
    p_pid p = p_pid q → p_pid p ≠ 0 → i = j;
}.

Definition keeps_pids (s s' : kstate) : Prop := pids_ok s → pids_ok s'.

(** Replacing one entry, with the pid kept or given back. *)
Lemma pids_ok_update s i p p' :
  k_procs s !! i = Some p → p_pid p' = p_pid p ∨ p_pid p' = 0 →
  keeps_pids s (s <| k_procs ::= <[i := p']> |>).
Proof.
  intros Hp Hpid [Hn Hr Hi].
  assert (Hl : ∀ j q, <[i := p']> (k_procs s) !! j = Some q →
    ∃ q', k_procs s !! j = Some q' ∧ (p_pid q = p_pid q' ∨ p_pid q = 0)).
  { intros j q. destruct (decide (j = i)) as [->|].
    - rewrite list_lookup_insert_eq by (by eapply lookup_lt_Some). intros [= <-]. eauto.
    - rewrite list_lookup_insert_ne by done. eauto. }
  split; simpl; [done | |].
  - intros j q Hq. destruct (Hl _ _ Hq) as (q' & Hq' & H). specialize (Hr _ _ Hq'). lia.
  - intros j k q r Hq Hr' Heq Hne. destruct (Hl _ _ Hq) as (q' & Hq' & [H1|H1]); [| done].
    destruct (Hl _ _ Hr') as (r' & Hr'' & [H2|H2]); [| congruence].
    apply (Hi _ _ q' r' Hq' Hr''); congruence.
Qed.

#[global] Instance keeps_pids_tolerant : Tolerant keeps_pids.
Proof.
  split; [split; [split |] |].
  - by intros s H.
  - intros s1 s2 s3 H1 H2 H. by apply H2, H1.
  - intros s s' Hp Hn _ [H1 H2 H3]. split; rewrite ?Hp, ?Hn; done.
  - intros s i p p' Hp (Hpid & _). apply (pids_ok_update _ _ p); [done | by left].
Qed.

Lemma within_upd_pids i f :
  (∀ p, p_pid (f p) = p_pid p ∨ p_pid (f p) = 0) → within keeps_pids (upd_proc i f).
Proof.
  intros Hf s s'. unfold upd_proc, get_proc. rewrite !bind_unfold. cbn [gets].
  destruct (k_procs s !! i) as [p|] eqn:Hp; cbn [must ret undef]; [| done]. intros [= <-].
  by apply (pids_ok_update _ _ p).
Qed.
#[local] Hint Extern 2 (within keeps_pids (upd_proc _ _)) =>
  apply within_upd_pids; intros ?; (by left) || (by right) : within.

Section pids.
Context {L : Layout} {E : Env}.

Lemma pids_freeproc i : within keeps_pids (freeproc i).
Proof. unfold freeproc. solve_within. Qed.
#[local] Hint Resolve pids_freeproc : within.

(** The counter moves before its old value is used. *)
Lemma pids_bump s : keeps_pids s (s <| k_nextpid := k_nextpid s + 1 |>).
Proof.
  intros [H1 H2 H3]. split; simpl; [lia | | done].
  intros i p Hp. specialize (H2 _ _ Hp). lia.
Qed.

Lemma pids_allocpid : within keeps_pids allocpid.
Proof.
  unfold allocpid. apply within_bind; [apply _ | auto with within | intros _].
  intros s s'. rewrite bind_unfold. cbn [gets].
  destruct (INT_MAX <=? k_nextpid s); [done |].
  rewrite bind_unfold. cbn [modify]. intros Hr. transitivity (s <| k_nextpid := k_nextpid s + 1 |>).
  - apply pids_bump.
  - revert Hr. match goal with |- context [?m (_ <| _ := _ |>)] => set (tail := m) end.
    assert (Hw : within keeps_pids tail) by (subst tail; solve_within). apply Hw.
Qed.

Lemma pids_new i f :
  (∀ pid p, p_pid (f pid p) = pid) →
  within keeps_pids (pid ← allocpid; upd_proc i (f pid)).
Proof.
  intros Hf s s'. rewrite bind_unfold. pose proof (pids_allocpid s) as Hw.
  destruct (allocpid s) as [pid s1| | |] eqn:Ha; [| by apply Hw ..].
  destruct (allocpid_effect _ _ _ _ _ _ (table_is_self s) Ha) as [-> (Hp&Hn&_)].
  unfold upd_proc, get_proc. rewrite !bind_unfold. cbn [gets]. rewrite Hp.
  destruct (k_procs s !! i) as [p|] eqn:Hi; cbn [must]; [|done]. intros [= <-] [H1 H2 H3].
  assert (Hl : ∀ j q, <[i := f (k_nextpid s) p]> (k_procs s) !! j = Some q →
    (j = i ∧ p_pid q = k_nextpid s) ∨ (j ≠ i ∧ k_procs s !! j = Some q)).
  { intros j q. destruct (decide (j = i)) as [->|].
    - rewrite list_lookup_insert_eq by (by eapply lookup_lt_Some). intros [= <-]. left. auto.
    - rewrite list_lookup_insert_ne by done. auto. }
  split; simpl; rewrite ?Hp, ?Hn; [lia | |].
  - intros j q Hq. destruct (Hl _ _ Hq) as [[-> ?]|[_ Hq']]; [lia |]. specialize (H2 _ _ Hq'). lia.
  - intros j k q r Hq Hr Heq Hne.
    destruct (Hl _ _ Hq) as [[-> Hq1]|[Hj Hq']], (Hl _ _ Hr) as [[-> Hr1]|[Hk Hr']]; [done | | |].
    + specialize (H2 _ _ Hr'). lia.
    + specialize (H2 _ _ Hq'). lia.
    + by apply (H3 _ _ q r).
Qed.

Lemma pids_allocproc : within keeps_pids allocproc.
Proof.
  unfold allocproc. apply within_bind; [apply _ | auto with within |]. intros [i|]; [| solve_within].
  apply within_assoc; [apply _ | by apply pids_new | intros _]. solve_within.
Qed.
#[local] Hint Resolve pids_allocproc : within.

Lemma pids_kfork : within keeps_pids kfork.
Proof. unfold kfork. solve_within. Qed.

#[global] Instance keeps_pids_kernel `{!EnvTolerant keeps_pids} : KernelTolerant keeps_pids.
Proof.
  split; [done | split; [apply pids_freeproc | apply pids_kfork | ..]].
  - unfold sys_setfilter. solve_within.
  - unfold sys_setfilter_child. solve_within.
  - unfold sys_setaudit. solve_within.
  - unfold sys_setstrict. solve_within.
Qed.

(** C14: pids stay unique.  If the pids in use are distinct and below the
    counter, they still are after any trap from user space, however it ends, and
    after any other entry into the kernel, provided the other processes keep the
    same invariant while this one waits. *)
Theorem pids_unique `{!EnvTolerant keeps_pids} s s' :
  outcome_state (usertrap s) = Some s' ∨ outcome_state (kerneltrap s) = Some s' ∨
  outcome_state (forkret s) = Some s' →
  pids_ok s → pids_ok s'.
Proof.
  intros [H|[H|H]].
  - by apply (within_usertrap keeps_pids).
  - by apply (within_kerneltrap keeps_pids).
  - by apply (within_forkret keeps_pids).
Qed.

End pids.
