(* ===== verification/Pipe.v ===== *)
(** * Pipes are bounded queues

    The ring buffer of kernel/pipe.c as a queue of bytes, and what the pipe
    operations do to that queue. *)

From stdpp Require Import relations.
From S2P Require Import Prelude Machine Kstate Logic Strings Sched Kalloc Vm Printf Bio Log Fs Console File Proc Exec Sysproc Sysfile Syscall Trap Frame.

(** ** The queue a pipe holds *)

(** [nwrite - nread] as the code computes it, on 32 bits. *)
Definition pipe_count (x : pipe) : Z := u32 (pi_nwrite x - pi_nread x).

Definition pipe_byte (x : pipe) (k : nat) : Z :=
  nth (pipe_slot (pi_nread x + Z.of_nat k)) (pi_data x) 0.

Definition contents (x : pipe) : list Z := pipe_byte x <$> seq 0 (Z.to_nat (pipe_count x)).

Record pipe_ok (x : pipe) : Prop := {
  po_data : length (pi_data x) = PIPESIZE;
  po_nread : 0 ≤ pi_nread x < 2 ^ 32;
  po_nwrite : 0 ≤ pi_nwrite x < 2 ^ 32;
  po_count : pipe_count x ≤ Z.of_nat PIPESIZE;
}.

(** The two updates the code makes. *)
Definition push (ch : Z) (x : pipe) : pipe :=
  x <| pi_data ::= <[pipe_slot (pi_nwrite x) := ch]> |> <| pi_nwrite := u32 (pi_nwrite x + 1) |>.
Definition pop (x : pipe) : pipe := x <| pi_nread := u32 (pi_nread x + 1) |>.

Lemma pipe_slot_lt i : (pipe_slot i < PIPESIZE)%nat.
Proof. unfold pipe_slot. pose proof (Z.mod_pos_bound i (Z.of_nat PIPESIZE)). unfold PIPESIZE in *. lia. Qed.

(** The size divides [2^32], so wrapping counters keep their slots. *)
Lemma pipe_slot_u32 i j : pipe_slot (u32 i + j) = pipe_slot (i + j).
Proof.
  unfold pipe_slot, u32. f_equal.
  rewrite <-(Z.add_mod_idemp_l (i mod 2 ^ 32)), <-(Z.add_mod_idemp_l i) by done.
  do 2 f_equal. apply Z.mod_mod_divide.
  by exists (2 ^ 32 / Z.of_nat PIPESIZE).
Qed.

Lemma pipe_slot_inj i j :
  pipe_slot i = pipe_slot j → - Z.of_nat PIPESIZE < i - j < Z.of_nat PIPESIZE → i = j.
Proof.
  unfold pipe_slot. intros H Hij.
  pose proof (Z.mod_pos_bound i (Z.of_nat PIPESIZE) ltac:(done)).
  pose proof (Z.mod_pos_bound j (Z.of_nat PIPESIZE) ltac:(done)).
  apply Z2Nat.inj in H; [| lia | lia].
  pose proof (Z.div_mod i (Z.of_nat PIPESIZE) ltac:(done)).
  pose proof (Z.div_mod j (Z.of_nat PIPESIZE) ltac:(done)). unfold PIPESIZE in *. nia.
Qed.

(** The count, without the wrap-around. *)
Lemma pipe_count_cases x : pipe_ok x →
  pi_nwrite x = pi_nread x + pipe_count x ∨ pi_nwrite x = pi_nread x + pipe_count x - 2 ^ 32.
Proof.
  intros [_ Hr Hw _]. unfold pipe_count, u32.
  destruct (decide (pi_nread x ≤ pi_nwrite x)).
  - left. rewrite Z.mod_small; lia.
  - right. rewrite <-(Z.mod_add _ 1), Z.mod_small; lia.
Qed.

Lemma u32_cases i :
  0 ≤ i < 2 ^ 33 → i < 2 ^ 32 ∧ u32 i = i ∨ 2 ^ 32 ≤ i ∧ u32 i = i - 2 ^ 32.
Proof.
  intros Hi. unfold u32. destruct (decide (i < 2 ^ 32)); [left; rewrite Z.mod_small; lia |].
  right. split; [lia |]. rewrite <-(Z.mod_add _ (-1)), Z.mod_small; lia.
Qed.

Lemma u32_unique i k : 0 ≤ k < 2 ^ 32 → (i = k ∨ i = k - 2 ^ 32 ∨ i = k + 2 ^ 32) → u32 i = k.
Proof.
  intros Hk [-> | [-> | ->] ]; unfold u32; [by apply Z.mod_small | |].
  - rewrite <-(Z.mod_add _ 1), Z.mod_small; lia.
  - rewrite <-(Z.mod_add _ (-1)), Z.mod_small; lia.
Qed.

Lemma pipe_count_push ch x : pipe_ok x → pipe_count x < Z.of_nat PIPESIZE →
  pipe_count (push ch x) = pipe_count x + 1.
Proof.
  intros Hx Hc. pose proof (pipe_count_cases x Hx) as Hw. destruct Hx as [_ ? ? _].
  assert (0 ≤ pipe_count x) by apply u32_range.
  unfold pipe_count at 1. simpl. destruct (u32_cases (pi_nwrite x + 1)) as [ [? ->] | [? ->] ]; [lia | |];
    apply u32_unique; unfold PIPESIZE in *; lia.
Qed.

Lemma pipe_count_pop x : pipe_ok x → 0 < pipe_count x → pipe_count (pop x) = pipe_count x - 1.
Proof.
  intros Hx Hc. pose proof (pipe_count_cases x Hx) as Hw. destruct Hx as [_ ? ? Hmax].
  unfold pipe_count at 1. simpl. destruct (u32_cases (pi_nread x + 1)) as [ [? ->] | [? ->] ]; [lia | |];
    apply u32_unique; unfold PIPESIZE in *; lia.
Qed.

(** The code's test for a full pipe. *)
Lemma pipe_full x : pipe_ok x →
  (pi_nwrite x =? u32 (pi_nread x + Z.of_nat PIPESIZE)) = (pipe_count x =? Z.of_nat PIPESIZE).
Proof.
  intros Hx. pose proof (pipe_count_cases x Hx) as Hw. destruct Hx as [_ ? ? Hmax].
  assert (0 ≤ pipe_count x) by apply u32_range.
  destruct (u32_cases (pi_nread x + Z.of_nat PIPESIZE)) as [ [? ->] | [? ->] ]; [unfold PIPESIZE; lia | |];
    apply eq_true_iff_eq; rewrite !Z.eqb_eq; unfold PIPESIZE in *; lia.
Qed.

(** The code's test for an empty pipe. *)
Lemma pipe_empty x : pipe_ok x → (pi_nread x =? pi_nwrite x) = (pipe_count x =? 0).
Proof.
  intros Hx. pose proof (pipe_count_cases x Hx) as Hw. destruct Hx as [_ ? ? Hmax].
  apply eq_true_iff_eq; rewrite !Z.eqb_eq; unfold PIPESIZE in *; lia.
Qed.

Lemma pipe_slot_nwrite x : pipe_ok x → pipe_slot (pi_nwrite x) = pipe_slot (pi_nread x + pipe_count x).
Proof.
  intros Hx. pose proof (pipe_count_cases x Hx) as Hw.
  rewrite <-(Z.add_0_r (pi_nwrite x)), <-(Z.add_0_r (pi_nread x + pipe_count x)).
  rewrite <-(pipe_slot_u32 (_ + _)). do 2 f_equal. symmetry.
  apply u32_unique; [apply Hx | lia].
Qed.

Lemma contents_push ch x :
  pipe_ok x → pipe_count x < Z.of_nat PIPESIZE →
  contents (push ch x) = contents x ++ [ch] ∧ pipe_ok (push ch x).
Proof.
  intros Hx Hc. pose proof (pipe_count_push ch x Hx Hc) as Hcount.
  assert (0 ≤ pipe_count x) as Hc0 by apply u32_range.
  pose proof (pipe_slot_nwrite x Hx) as Hslot. pose proof (pipe_slot_lt (pi_nwrite x)) as Hlt.
  split; [| destruct Hx as [Hd ? ? ?]; split;
    [simpl; by rewrite length_insert | done | apply u32_range | lia]].
  unfold contents. rewrite Hcount. replace (Z.to_nat (pipe_count x + 1))
    with (Z.to_nat (pipe_count x) + 1)%nat by lia.
  rewrite seq_app, fmap_app. simpl. f_equal.
  - apply list_fmap_ext. intros _ k Hk%list_elem_of_lookup_2%elem_of_seq.
    unfold pipe_byte. simpl. rewrite !nth_lookup, list_lookup_insert_ne; [done |].
    rewrite Hslot. intros Heq%pipe_slot_inj; unfold PIPESIZE in *; lia.
  - unfold pipe_byte. simpl. rewrite nth_lookup, Z2Nat.id, <-Hslot by done.
    rewrite list_lookup_insert_eq; [done |]. by rewrite (po_data x Hx).
Qed.

Lemma contents_pop x :
  pipe_ok x → 0 < pipe_count x →
  contents x = nth (pipe_slot (pi_nread x)) (pi_data x) 0 :: contents (pop x) ∧ pipe_ok (pop x).
Proof.
  intros Hx Hc. pose proof (pipe_count_pop x Hx Hc) as Hcount.
  split; [| destruct Hx as [Hd ? ? ?]; split; [done | apply u32_range | done | lia]].
  unfold contents. rewrite Hcount.
  replace (Z.to_nat (pipe_count x)) with (S (Z.to_nat (pipe_count x - 1))) by lia.
  cbn [seq fmap list_fmap]. f_equal; [unfold pipe_byte; by rewrite Z.add_0_r |].
  rewrite <-seq_shift. change (map S) with (fmap (M:=list) S). rewrite <-list_fmap_compose.
  apply list_fmap_ext. intros _ k _. unfold compose, pipe_byte, pop. simpl.
  rewrite pipe_slot_u32. do 2 f_equal. lia.
Qed.

Lemma length_contents x : Z.of_nat (length (contents x)) = pipe_count x.
Proof.
  unfold contents. rewrite length_fmap, length_seq, Z2Nat.id; [done | apply u32_range].
Qed.

(** ** The queue discipline

    [fifo x x']: the queue of [x'] is that of [x] with some bytes added at the
    end and then some taken from the front. *)
Definition fifo (x x' : pipe) : Prop :=
  pipe_ok x → pipe_ok x' ∧ ∃ n added,
    (n ≤ length (contents x ++ added))%nat ∧ contents x' = drop n (contents x ++ added).

Lemma fifo_refl x : fifo x x.
Proof. intros Hx. split; [done |]. exists O, []. rewrite app_nil_r. split; [lia | done]. Qed.

Lemma fifo_trans x y z : fifo x y → fifo y z → fifo x z.
Proof.
  intros H1 H2 Hx. destruct (H1 Hx) as (Hy & n & bs & Hn & E1).
  destruct (H2 Hy) as (Hz & m & cs & Hm & E2). split; [done |].
  exists (n + m)%nat, (bs ++ cs). rewrite app_assoc. rewrite E1 in Hm, E2. split.
  - rewrite !length_app, length_drop in *. rewrite length_app in Hm. lia.
  - rewrite E2, <-drop_drop. f_equal. by rewrite (drop_app_le (contents x ++ bs)).
Qed.

Lemma fifo_push ch x : pipe_count x < Z.of_nat PIPESIZE → fifo x (push ch x).
Proof.
  intros Hc Hx. destruct (contents_push ch x Hx Hc) as [E Hx']. split; [done |].
  exists O, [ch]. rewrite E. split; [lia | done].
Qed.

Lemma fifo_pop x : 0 < pipe_count x → fifo x (pop x).
Proof.
  intros Hc Hx. destruct (contents_pop x Hx Hc) as [E Hx']. split; [done |].
  exists 1%nat, []. rewrite app_nil_r. rewrite E. simpl. split; [lia | done].
Qed.

(** ** The pipe operations

    [same_pipes]: no pipe changes.  [pipe_guarantee]: the steps of the code
    itself follow the queue discipline on every pipe; in between, the
    environment runs. *)
Definition same_pipes (s s' : kstate) : Prop := k_pipes s' = k_pipes s.

Definition pipes_fifo (s s' : kstate) : Prop :=
  ∀ pi x', k_pipes s' !! pi = Some x' → ∃ x, k_pipes s !! pi = Some x ∧ fifo x x'.

Definition pipe_guarantee {E : Env} : kstate → kstate → Prop :=
  rtc (λ s s', pipes_fifo s s' ∨ env_swtch s = Some s').

Lemma same_pipes_guarantee {E : Env} s s' : same_pipes s s' → pipe_guarantee s s'.
Proof.
  intros H. apply rtc_once. left. intros pi x'. rewrite H. intros Hx. exists x'.
  split; [done | apply fifo_refl].
Qed.

#[global] Instance same_pipes_preorder : PreOrder same_pipes.
Proof. split; [by intros s | intros s1 s2 s3; unfold same_pipes; congruence]. Qed.
#[global] Instance pipe_guarantee_preorder {E : Env} : PreOrder pipe_guarantee.
Proof. split; apply _. Qed.
#[global] Instance same_pipes_mem : Allows same_pipes k_mem.
Proof. intros f s. done. Qed.
#[global] Instance same_pipes_freelist : Allows same_pipes k_freelist.
Proof. intros f s. done. Qed.
#[global] Instance same_pipes_held : Allows same_pipes k_held.
Proof. intros f s. done. Qed.
#[global] Instance same_pipes_proc : AllowsProc same_pipes.
Proof. intros s i p p' _ _. done. Qed.
#[global] Instance pipe_guarantee_mem {E : Env} : Allows pipe_guarantee k_mem.
Proof. intros f s. by apply same_pipes_guarantee. Qed.
#[global] Instance pipe_guarantee_freelist {E : Env} : Allows pipe_guarantee k_freelist.
Proof. intros f s. by apply same_pipes_guarantee. Qed.
#[global] Instance pipe_guarantee_held {E : Env} : Allows pipe_guarantee k_held.
Proof. intros f s. by apply same_pipes_guarantee. Qed.
#[global] Instance pipe_guarantee_proc {E : Env} : AllowsProc pipe_guarantee.
Proof. intros s i p p' _ _. by apply same_pipes_guarantee. Qed.
#[global] Instance pipe_guarantee_env {E : Env} : AllowsEnv pipe_guarantee.
Proof. intros s s' H. apply rtc_once. by right. Qed.

Definition pipe_is (pi : Z) (x : pipe) (s : kstate) : Prop := k_pipes s !! pi = Some x.

Lemma get_pipe_returns P pi : returns P (get_pipe pi) (pipe_is pi).
Proof.
  intros s x s' _ H. unfold get_pipe in H. kinv H. kprim H. by subst.
Qed.

Lemma pipe_is_kept {A} pi x (m : K A) :
  within same_pipes m → returns (pipe_is pi x) m (λ _, pipe_is pi x).
Proof. intros Hm. apply (returns_within same_pipes); [done |]. intros s s' _ H E. red. by rewrite E. Qed.

Lemma within_upd_pipe_from {E : Env} pi x f :
  fifo x (f x) → within_from (pipe_is pi x) pipe_guarantee (upd_pipe pi f).
Proof.
  intros Hf s s' Hx H. unfold upd_pipe, get_pipe in H. rewrite !bind_unfold in H. cbn [gets] in H.
  rewrite Hx in H. injection H as <-. apply rtc_once. left. intros pj y. simpl.
  destruct (decide (pj = pi)) as [->|Hne].
  - rewrite lookup_insert_eq. intros [= <-]. by exists x.
  - rewrite lookup_insert_ne by done. intros Hy. exists y. split; [done | apply fifo_refl].
Qed.

Section operations.
Context {L : Layout} {E : Env}.

(** A frame step inside [within_from]. *)
Lemma within_from_frame {A B} pi x (m : K A) (f : A → K B) :
  within same_pipes m → (∀ a, within_from (pipe_is pi x) pipe_guarantee (f a)) →
  within_from (pipe_is pi x) pipe_guarantee (m ≫= f).
Proof.
  intros Hm Hf. apply (within_from_bind _ (λ _, pipe_is pi x)); [apply _ | | by apply pipe_is_kept | done].
  apply within_from_within. intros s s' H. by apply same_pipes_guarantee, Hm.
Qed.

Lemma within_get_pipe_from {A} pi (f : pipe → K A) :
  (∀ x, within_from (pipe_is pi x) pipe_guarantee (f x)) →
  within pipe_guarantee (get_pipe pi ≫= f).
Proof.
  intros Hf. apply within_of_from. apply (within_from_bind _ (pipe_is pi)); [apply _ | | | done].
  - apply within_from_within, within_get_pipe; apply _.
  - apply get_pipe_returns.
Qed.

Lemma fifo_push_test ch x :
  (pi_nwrite x =? u32 (pi_nread x + Z.of_nat PIPESIZE)) = false → fifo x (push ch x).
Proof.
  intros Ht Hx. rewrite pipe_full in Ht by done. apply Z.eqb_neq in Ht.
  apply fifo_push; [| done]. pose proof (po_count x Hx). lia.
Qed.

Lemma fifo_pop_test x : (pi_nread x =? pi_nwrite x) = false → fifo x (pop x).
Proof.
  intros Ht Hx. rewrite pipe_empty in Ht by done. apply Z.eqb_neq in Ht.
  apply fifo_pop; [| done]. assert (0 ≤ pipe_count x) by apply u32_range. lia.
Qed.

Lemma pipewrite_fifo pi addr n : within pipe_guarantee (pipewrite pi addr n).
Proof.
  unfold pipewrite. apply within_bind; [apply _ | solve_within | intros pr].
  apply within_bind; [apply _ | solve_within | intros _].
  apply within_bind; [apply _ | | intros r; solve_within].
  apply within_wait_loop_plus; [apply _ | intros i]. destruct (i <? n); [| solve_within].
  apply within_get_pipe_from. intros x0. apply within_from_within.
  apply within_bind; [apply _ | solve_within | intros k]. destruct (negb _); [solve_within |].
  apply within_get_pipe_from. intros x.
  destruct (pi_nwrite x =? _) eqn:Hfull; [apply within_from_within; solve_within |].
  apply within_from_frame; [solve_within | intros p].
  apply within_from_frame; [solve_within | intros [bs e] ].
  destruct (e =? -1); [apply within_from_within; solve_within |].
  apply within_from_frame; [solve_within | intros ch].
  apply (within_from_bind _ (λ _ _, True)); [apply _ | | done | intros _; apply within_from_within; solve_within].
  apply (within_upd_pipe_from _ _ (push ch)). by apply fifo_push_test.
Qed.

Lemma piperead_fifo pi addr n : within pipe_guarantee (piperead pi addr n).
Proof.
  unfold piperead. apply within_bind; [apply _ | solve_within | intros pr].
  apply within_bind; [apply _ | solve_within | intros _].
  apply within_bind; [apply _ | solve_within | intros k]. destruct (negb k); [solve_within |].
  apply within_bind; [apply _ | | intros i; solve_within].
  apply within_loop; [apply _ | intros i]. destruct (i <? n); [| solve_within].
  apply within_get_pipe_from. intros x.
  destruct (pi_nread x =? _) eqn:Hempty; [apply within_from_within; solve_within |].
  apply within_from_frame; [solve_within | intros ch].
  apply within_from_frame; [solve_within | intros p].
  apply within_from_frame; [solve_within | intros r].
  destruct (r =? -1); [apply within_from_within; solve_within |].
  apply (within_from_bind _ (λ _ _, True)); [apply _ | | done | intros _; apply within_from_within; solve_within].
  apply (within_upd_pipe_from _ _ pop). by apply fifo_pop_test.
Qed.

(** Closing an end keeps the queue. *)
Lemma fifo_same x x' :
  pi_data x' = pi_data x → pi_nread x' = pi_nread x → pi_nwrite x' = pi_nwrite x → fifo x x'.
Proof.
  intros H1 H2 H3 [? ? ? ?].
  assert (Hc : pipe_count x' = pipe_count x) by (unfold pipe_count; congruence).
  assert (Hcont : contents x' = contents x).
  { unfold contents. rewrite Hc. apply list_fmap_ext. intros _ k _. unfold pipe_byte. by rewrite H1, H2. }
  split; [split; congruence |]. exists O, []. rewrite app_nil_r, Hcont. split; [lia | done].
Qed.

Lemma within_close_end pi f :
  (∀ x, fifo x (f x)) → within pipe_guarantee (upd_pipe pi f).
Proof.
  intros Hf s s' H. unfold upd_pipe, get_pipe in H. rewrite !bind_unfold in H. cbn [gets] in H.
  destruct (k_pipes s !! pi) as [x|] eqn:Hx; [| done].
  apply (within_upd_pipe_from pi x f (Hf x) s); [done |].
  unfold upd_pipe, get_pipe. rewrite !bind_unfold. cbn [gets]. by rewrite Hx.
Qed.

Lemma pipeclose_fifo pi writable : within pipe_guarantee (pipeclose pi writable).
Proof.
  unfold pipeclose. solve_within.
  1-2: apply within_close_end; intros x; by apply fifo_same.
  apply within_modify. intros s. apply rtc_once. left. intros pj y. simpl.
  intros [_ Hy]%lookup_delete_Some. exists y. split; [done | apply fifo_refl].
Qed.

End operations.

