(* ===== verification/Text.v ===== *)
(** * Numbers as text

    The decimal numbers of the audit log (int_to_str of kernel/sysfile.c), the
    conversion back that user programs use (atoi of user/ulib.c) and the number
    formatting of kernel/printf.c, with the sizes of the buffers they fill. *)

From S2P Require Import Prelude Machine Kstate Strings Sched Kalloc Vm Printf Bio Log Fs Console File Proc Exec Sysproc Sysfile.

(** [atoi]: [n = n*10 + *s++ - '0'] over the leading digits; [None] when the int
    overflows, which C leaves undefined. *)
Fixpoint atoi_from (n : Z) (s : list Z) : option Z :=
  match s with
  | c :: s =>
      if (chr "0" <=? c) && (c <=? chr "9") then
        let n := n * 10 + c - chr "0" in
        if n <=? INT_MAX then atoi_from n s else None
      else Some n
  | [] => Some n
  end.
Definition atoi (s : list Z) : option Z := atoi_from 0 s.

(** ** Digits *)

(** The number a list of digits denotes, least significant first. *)
Fixpoint digits_val (base : Z) (ds : list Z) : Z :=
  match ds with
  | [] => 0
  | d :: ds => d + base * digits_val base ds
  end.

Lemma digits_val_app base ds es :
  digits_val base (ds ++ es) = digits_val base ds + base ^ Z.of_nat (length ds) * digits_val base es.
Proof.
  induction ds as [|d ds IH]; [by rewrite Z.pow_0_r, Z.mul_1_l |].
  cbn [digits_val app length]. rewrite IH, Nat2Z.inj_succ, Z.pow_succ_r by lia. ring.
Qed.

Lemma rev_digits_spec fuel n :
  0 ≤ n < 10 ^ Z.of_nat fuel →
  digits_val 10 ((λ c, c - chr "0") <$> rev_digits fuel n) = n ∧
  Forall (λ c, chr "0" ≤ c ≤ chr "9") (rev_digits fuel n).
Proof.
  revert n. induction fuel as [|fuel IH]; intros n Hn.
  { rewrite Z.pow_0_r in Hn. cbn. split; [lia | constructor]. }
  rewrite Nat2Z.inj_succ, Z.pow_succ_r in Hn by lia. cbn [rev_digits].
  destruct (Z.ltb_spec 0 n); [| cbn; split; [lia | constructor]].
  pose proof (Z.div_mod n 10 ltac:(done)) as Hdm.
  pose proof (Z.mod_pos_bound n 10 ltac:(done)).
  assert (chr "0" = 48 ∧ chr "9" = 57) as [-> ->] by done.
  destruct (IH (n / 10)) as [Hv Hd].
  { split; [apply Z.div_pos; lia | apply Z.div_lt_upper_bound; lia]. }
  split; [| constructor; [lia | exact Hd]].
  cbn [fmap list_fmap digits_val]. change (chr "0") with 48 in Hv. rewrite Hv. lia.
Qed.

Lemma length_rev_digits fuel n : (length (rev_digits fuel n) ≤ fuel)%nat.
Proof.
  revert n. induction fuel as [|fuel IH]; intros n; simpl; [lia |].
  destruct (0 <? n); simpl; [| lia]. specialize (IH (n / 10)). lia.
Qed.

(** The value of a decimal text, given least significant digit first. *)
Definition dec_val (ds : list Z) : Z := digits_val 10 ((λ c, c - chr "0") <$> ds).

Lemma dec_val_nonneg ds : Forall (λ c, chr "0" ≤ c ≤ chr "9") ds → 0 ≤ dec_val ds.
Proof.
  unfold dec_val. induction 1 as [|c ds Hc _ IH]; [done |]. cbn [fmap list_fmap digits_val].
  change (chr "0") with 48 in *. lia.
Qed.

Lemma atoi_from_rev ds rest :
  Forall (λ c, chr "0" ≤ c ≤ chr "9") ds → dec_val ds ≤ INT_MAX →
  atoi_from 0 (rev ds ++ rest) = atoi_from (dec_val ds) rest.
Proof.
  intros Hd. revert rest. induction Hd as [|c ds Hc Hd IH]; intros rest Hv; [done |].
  cbn [rev]. rewrite <-app_assoc. cbn [app].
  assert (Hrec : dec_val (c :: ds) = (c - chr "0") + 10 * dec_val ds) by done.
  pose proof (dec_val_nonneg ds Hd). change (chr "0") with 48 in *. change (chr "9") with 57 in *.
  rewrite IH by lia. cbn [atoi_from]. change (chr "0") with 48. change (chr "9") with 57.
  destruct (Z.leb_spec 48 c), (Z.leb_spec c 57); try lia. cbn [andb].
  replace (dec_val ds * 10 + c - 48) with (dec_val (c :: ds)) by lia.
  by destruct (Z.leb_spec (dec_val (c :: ds)) INT_MAX); [| lia].
Qed.

Lemma int_to_str_digits n :
  0 ≤ n ≤ INT_MAX → Forall (λ c, chr "0" ≤ c ≤ chr "9") (int_to_str n) ∧
  (0 < length (int_to_str n) ≤ 10)%nat.
Proof.
  intros Hn. unfold int_to_str. destruct (Z.eqb_spec n 0); [by split; [repeat constructor | simpl; lia] |].
  destruct (rev_digits_spec 10 n) as [Hv Hd]; [unfold INT_MAX in *; lia |].
  rewrite length_rev. pose proof (length_rev_digits 10 n). split; [by apply Forall_rev |].
  split; [| lia]. destruct (rev_digits 10 n); [cbn in Hv; lia | simpl; lia].
Qed.

(** ** printint *)

Lemma digits_of_spec fuel x base :
  2 ≤ base → 0 ≤ x < 2 ^ Z.of_nat fuel →
  ∃ ds, digits_of fuel x base = (λ d, nth (Z.to_nat d) digits 0) <$> ds ∧
    (fuel = O ∨ ds ≠ []) ∧ Forall (λ d, 0 ≤ d < base) ds ∧ digits_val base ds = x.
Proof.
  intros Hb. revert x. induction fuel as [|fuel IH]; intros x Hx.
  { rewrite Z.pow_0_r in Hx. exists []. cbn. split; [done |]. split; [by left |].
    split; [constructor | lia]. }
  rewrite Nat2Z.inj_succ, Z.pow_succ_r in Hx by lia. cbn [digits_of].
  pose proof (Z.div_mod x base ltac:(lia)). pose proof (Z.mod_pos_bound x base ltac:(lia)).
  destruct (Z.eqb_spec (x / base) 0) as [Hz|Hz].
  - exists [x mod base]. cbn. split; [done |]. split; [by right |]. split; [by apply Forall_singleton | nia].
  - destruct (IH (x / base)) as (ds & E & _ & Hf & Hv).
    { split; [apply Z.div_pos; lia |]. apply Z.div_lt_upper_bound; nia. }
    exists (x mod base :: ds). cbn [fmap list_fmap digits_val]. rewrite E, Hv.
    split; [done |]. split; [by right |]. split; [by constructor | lia].
Qed.

Lemma length_digits_of fuel x base k :
  2 ≤ base → 0 ≤ x < base ^ Z.of_nat (S k) → (length (digits_of fuel x base) ≤ S k)%nat.
Proof.
  intros Hb. revert x k. induction fuel as [|fuel IH]; intros x k Hx; cbn [digits_of length]; [lia |].
  destruct (Z.eqb_spec (x / base) 0) as [_|H0]; [simpl; lia |].
  rewrite Nat2Z.inj_succ, Z.pow_succ_r in Hx by lia.
  destruct k as [|k]; [rewrite Z.pow_0_r in Hx; rewrite Z.div_small in H0; lia |].
  assert (length (digits_of fuel (x / base) base) ≤ S k)%nat; [| lia].
  apply IH. split; [apply Z.div_pos; lia | apply Z.div_lt_upper_bound; lia].
Qed.

Lemma digits_bound x base k bound :
  2 ≤ base → (bound <=? base ^ Z.of_nat (S k)) = true → 0 ≤ x < bound →
  (length (digits_of 64 x base) ≤ S k)%nat.
Proof. intros H1 H2%Z.leb_le H3. apply length_digits_of; lia. Qed.

(** ** Theorems *)

(** The numbers in the audit log can be read back.  [int_to_str] renders
    every non-negative int as its decimal digits, and [atoi], applied to that
    text followed by any text that does not start with a digit, returns the
    number. *)
Theorem atoi_int_to_str n rest :
  0 ≤ n ≤ INT_MAX → match rest with [] => True | c :: _ => ¬ chr "0" ≤ c ≤ chr "9" end →
  atoi (int_to_str n ++ rest) = Some n.
Proof.
  intros Hn Hrest. assert (Hstop : ∀ m, atoi_from m rest = Some m).
  { intros m. destruct rest as [|c rest]; [done |]. cbn [atoi_from].
    destruct (Z.leb_spec (chr "0") c), (Z.leb_spec c (chr "9")); done || lia. }
  unfold atoi, int_to_str. destruct (Z.eqb_spec n 0) as [-> |]; [apply Hstop |].
  destruct (rev_digits_spec 10 n) as [Hv Hd]; [unfold INT_MAX in *; lia |].
  fold (dec_val (rev_digits 10 n)) in Hv. rewrite atoi_from_rev by (done || lia). by rewrite Hv.
Qed.


(** Number formatting is correct and stays inside its buffer.  For every
    64-bit argument, in base 10 and in base 16, signed or not, the characters
    [printint] puts in [buf[20]] are the digits of the absolute value, least
    significant first, followed by a minus sign exactly when the number is
    negative and signed, and there are at most twenty of them. *)
Theorem printint_correct xx base sign :
  base = 10 ∨ base = 16 → - 2 ^ 63 ≤ xx < 2 ^ 63 →
  let neg := sign && (xx <? 0) in
  ∃ ds, printint_buf xx base sign =
      ((λ d, nth (Z.to_nat d) digits 0) <$> ds) ++ (if neg then [chr "-"] else []) ∧
    ds ≠ [] ∧ Forall (λ d, 0 ≤ d < base) ds ∧
    digits_val base ds = (if neg then - xx else u64 xx) ∧
    (length (printint_buf xx base sign) ≤ 20)%nat.
Proof.
  intros Hb Hxx neg. unfold printint_buf. fold neg. set (x := if neg then u64 (- xx) else u64 xx).
  assert (Hx : x = if neg then - xx else u64 xx).
  { subst x neg. destruct sign, (Z.ltb_spec xx 0); cbn [andb]; try done. by apply u64_small; lia. }
  assert (Hr : 0 ≤ x < 2 ^ 64) by (subst x; destruct neg; apply u64_range).
  destruct (digits_of_spec 64 x base) as (ds & E & Hne & Hf & Hv); [lia | exact Hr |].
  exists ds. rewrite E. split; [done |]. split; [by destruct Hne |]. split; [done |].
  split; [by rewrite Hv |]. rewrite <-E, length_app. clearbody x.
  assert (Hlen : (length (digits_of 64 x base) ≤ if neg then 19 else 20)%nat).
  { destruct Hb as [-> | ->]; [| transitivity 16%nat; [by apply (digits_bound x 16 15 (2 ^ 64)) | destruct neg; lia]].
    subst neg. destruct (sign && (xx <? 0)) eqn:Hneg; [| by apply (digits_bound x 10 19 (2 ^ 64))].
    apply (digits_bound x 10 18 (2 ^ 63 + 1)); [done | done | lia]. }
  destruct neg; cbn [length]; lia.
Qed.
