(* ===== verification/Sandbox.v ===== *)
(** * The sandbox library of user space (user/filter.c)

    The library calls the kernel through the stubs that user/usys.pl generates:
    the stub of call [num] puts [num] in [a7] and executes [ecall]; the arguments
    are in [a0], [a1], ... and the result comes back in [a0]. *)

From S2P Require Import Prelude Machine Kstate Logic Strings Sched Kalloc Vm Printf Bio Log Fs Console File Proc Exec Sysproc Sysfile Syscall Trap Frame ProcSpec Filter.

Section sandbox.
Context {L : Layout} {E : Env}.

(** A system call of process [i] with one argument; the result is an int. *)
Definition ucall (i : nat) (num a0 : Z) : K Z :=
  tf_set i TF_a0 a0;;
  tf_set i TF_a7 num;;
  syscall;;
  r ← tf_get i TF_a0;
  ret (i32 r).

Definition bit (num : Z) : Z := u64 (Z.shiftl 1 num).

(** [strcmp(profile, "PURE_COMPUTE") == 0] compares whole strings. *)
Definition sandbox_apply_profile (i : nat) (profile : list Z) : K Z :=
  if decide (cstr profile = bytes_of_string "PURE_COMPUTE") then
    let mask := 0 in
    let mask := Z.lor mask (bit SYS_open) in
    let mask := Z.lor mask (bit SYS_write) in
    let mask := Z.lor mask (bit SYS_read) in
    let mask := Z.lor mask (bit SYS_mknod) in
    let mask := Z.lor mask (bit SYS_unlink) in
    let mask := Z.lor mask (bit SYS_link) in
    let mask := Z.lor mask (bit SYS_mkdir) in
    let mask := Z.lor mask (bit SYS_chdir) in
    ucall i SYS_setfilter mask
  else ret (-1).

Definition sandbox_block_syscall (i : nat) (syscall_num : Z) : K Z :=
  ucall i SYS_setfilter (bit syscall_num).

Definition sandbox_set_audit (i : nat) (enable : Z) : K Z :=
  ucall i SYS_setaudit (u64 enable).

(** ** What a configuration call through the stub does *)

(** The registers of the call are in the trapframe. *)
Definition with_regs (p : proc) (num a0 : Z) (s : kstate) : kstate :=
  s <| k_mem ::= fun m => store64 m (p_trapframe p + TF_a0) a0 |>
    <| k_mem ::= fun m => store64 m (p_trapframe p + TF_a7) num |>.

Lemma mem_ok_store m a v : mem_ok m → mem_ok (store64 m a v).
Proof. intros Hm. by apply mem_ok_mstore, le_bytes_byte. Qed.

Lemma with_regs_calling s i p num a0 :
  k_cur s = Some i → k_procs s !! i = Some p → p_trapframe p ≠ 0 → mem_ok (k_mem s) →
  0 ≤ num < 2 ^ 31 → 0 ≤ a0 < 2 ^ 64 →
  calling (with_regs p num a0 s) i p num ∧ arg (with_regs p num a0 s) p TF_a0 = a0.
Proof.
  intros Hc Hp Htf Hm Hnum Ha0. split.
  - split; [done | done | done | by do 2 apply mem_ok_store |].
    simpl. rewrite load64_store64, u64_small, i32_small by lia. done.
  - unfold arg, with_regs. simpl.
    rewrite load64_store64_out, load64_store64, u64_small by (unfold TF_a0, TF_a7; lia). done.
Qed.

(** The call runs its handler when its bit is not in the mask. *)
Lemma ucall_unblocked s i p num a0 h r q :
  k_cur s = Some i → k_procs s !! i = Some p → p_trapframe p ≠ 0 → mem_ok (k_mem s) →
  has_handler syscalls num h → 0 ≤ a0 < 2 ^ 64 → Z.testbit (p_syscall_mask p) num = false →
  p_trapframe q = p_trapframe p → 0 ≤ r < 2 ^ 64 →
  h (with_regs p num a0 s) = Done r (set_entry i q (with_regs p num a0 s)) →
  ucall i num a0 s = Done (i32 r) (set_a0 q r (set_entry i q (with_regs p num a0 s))).
Proof.
  intros Hc Hp Htf Hm Hh Ha0 Hbit Hq Hr Hrun.
  destruct (with_regs_calling s i p num a0) as [Hcall _]; try done.
  { destruct Hh as [? _]. lia. }
  set (s1 := with_regs p num a0 s) in *.
  assert (Hset : ∀ off v s', k_procs s' !! i = Some p → tf_set i off v s' =
    Done tt (s' <| k_mem ::= fun m => store64 m (p_trapframe p + off) v |>)).
  { intros off v s' Hp'. unfold tf_set. rewrite (bind_done _ _ _ _ _ (get_proc_done _ _ _ Hp')).
    by rewrite (proj2 (Z.eqb_neq _ _) Htf). }
  unfold ucall. do 2 erewrite bind_done by (apply Hset; exact Hp).
  fold (with_regs p num a0 s). fold s1.
  assert (Hentry : k_procs (set_entry i q s1) !! i = Some q).
  { simpl. apply list_lookup_insert_eq. by eapply lookup_lt_Some. }
  erewrite (bind_done syscall).
  2: { unfold syscall. rewrite (syscall_with_cases _ _ _ _ _ _ Hcall Hh), Hbit. unfold run_handler.
       rewrite (bind_done _ _ _ _ _ Hrun). apply tf_set_a0_done; [exact Hentry | congruence]. }
  erewrite bind_done by (apply tf_get_done; [exact Hentry | congruence]).
  unfold arg, set_a0. simpl. rewrite load64_store64, u64_small by done. done.
Qed.

(** Changing the mask through the stub, by the outcome of the kernel's test. *)
Lemma ucall_setfilter s i p mask :
  k_cur s = Some i → k_procs s !! i = Some p → p_trapframe p ≠ 0 → mem_ok (k_mem s) →
  0 ≤ mask < 2 ^ 64 → Z.testbit (p_syscall_mask p) SYS_setfilter = false →
  let s1 := with_regs p SYS_setfilter mask s in
  ucall i SYS_setfilter mask s =
    if accepts p mask
    then Done 0 (set_a0 p 0 (set_entry i (p <| p_syscall_mask := mask |>) s1))
    else Done (-1) (set_a0 p (u64 (-1)) s1).
Proof.
  intros Hc Hp Htf Hm Hmask Hbit s1.
  destruct (with_regs_calling s i p SYS_setfilter mask) as [Hcall Harg]; try done.
  assert (Hh : has_handler syscalls SYS_setfilter sys_setfilter) by (by split).
  pose proof (setfilter_done _ _ _ _ Hcall) as Hrun. rewrite Harg in Hrun.
  destruct (accepts p mask).
  - rewrite (ucall_unblocked s i p _ _ _ 0 (p <| p_syscall_mask := mask |>) Hc Hp Htf Hm Hh Hmask Hbit);
      try done.
  - assert (Hid : set_entry i p s1 = s1) by (by apply insert_id_state).
    rewrite (ucall_unblocked s i p _ _ _ (u64 (-1)) p Hc Hp Htf Hm Hh Hmask Hbit); try done.
    + by fold s1; rewrite Hid.
    + fold s1. by rewrite Hid.
Qed.

(** The library cannot add a second blocked call.  [sandbox_block_syscall]
    asks for the mask that holds only the new call, so it succeeds exactly when
    the process has no other call blocked; otherwise it returns -1 and the
    filter stays as it was. *)
Theorem block_syscall_does_not_accumulate s i p num :
  k_cur s = Some i → k_procs s !! i = Some p → p_trapframe p ≠ 0 → mem_ok (k_mem s) →
  0 ≤ num < 64 → Z.testbit (p_syscall_mask p) SYS_setfilter = false →
  ∃ r s', sandbox_block_syscall i num s = Done r s' ∧
    (mask_le (p_syscall_mask p) (2 ^ num) →
       r = 0 ∧ k_procs s' !! i = Some (p <| p_syscall_mask := 2 ^ num |>)) ∧
    (¬ mask_le (p_syscall_mask p) (2 ^ num) → r = -1 ∧ k_procs s' !! i = Some p).
Proof.
  intros Hc Hp Htf Hm Hnum Hbit. unfold sandbox_block_syscall.
  assert (Hb : bit num = 2 ^ num).
  { unfold bit. rewrite Z.shiftl_1_l. apply u64_small. split; [lia | apply Z.pow_lt_mono_r; lia]. }
  rewrite Hb. rewrite (ucall_setfilter s i p) by (done || rewrite <-Hb; apply u64_range).
  unfold accepts. destruct (decide (mask_le (p_syscall_mask p) (2 ^ num))) as [Hle|Hle].
  - rewrite bool_decide_true by done. do 2 eexists. split; [done |]. split; [| done].
    intros _. split; [done |]. simpl. apply list_lookup_insert_eq. by eapply lookup_lt_Some.
  - rewrite bool_decide_false by done. do 2 eexists. split; [done |]. by split.
Qed.

End sandbox.
