(* ===== verification/Umalloc.v ===== *)
(** * The user-level allocator (user/umalloc.c)

    Blocks are counted in units of a header, 16 bytes; a free block's header holds
    the address of the next free block and its own size.  The memory of the process
    is a map from addresses to bytes.  [sbrk] is the system call as the kernel
    implements it (sys_sbrk and growproc): whether the kernel finds the pages is the
    argument [grow]. *)

From S2P Require Import Prelude Machine.

Definition HEADER : Z := 16.
Definition SBRK_ERROR : Z := 2 ^ 64 - 1.

(** ** Headers *)

Definition hptr (m : gmap Z Z) (p : Z) : Z := load64 m p.
Definition hsize (m : gmap Z Z) (p : Z) : Z := le_val (mload m (p + 8) 4).
Definition set_hptr (m : gmap Z Z) (p v : Z) : gmap Z Z := store64 m p v.
Definition set_hsize (m : gmap Z Z) (p v : Z) : gmap Z Z := mstore m (p + 8) (le_bytes 4 v).

(** The memory of the process, the variable [freep] and the end of the memory. *)
Record ust := mkUst {
  u_mem : gmap Z Z;
  u_freep : Z;
  u_brk : Z;
}.
#[global] Instance ust_settable : Settable ust := λ s, mkUst (u_mem s) (u_freep s) (u_brk s).

Section umalloc.
(** The address of the static variable [base], and the kernel's answer to a request
    for [n] more bytes. *)
Context (base : Z) (grow : Z → Z → bool).

(** A negative argument larger than the memory wraps around, and uvmdealloc then
    leaves the size as it is. *)
Definition sbrk (n : Z) (s : ust) : Z * ust :=
  let b := u_brk s in
  if 0 <? n then if grow b n then (b, s <| u_brk := b + n |>) else (SBRK_ERROR, s)
  else if n <? 0 then (b, s <| u_brk := if b + n <? 0 then b else b + n |>)
  else (b, s).

(** ** free *)

(** The loop that looks for the free block before [bp]. *)
Fixpoint free_find (fuel : nat) (m : gmap Z Z) (bp p : Z) : option Z :=
  match fuel with
  | O => None
  | S fuel =>
      if (p <? bp) && (bp <? hptr m p) then Some p
      else if (hptr m p <=? p) && ((p <? bp) || (bp <? hptr m p)) then Some p
      else free_find fuel m bp (hptr m p)
  end.

(** There is at most one free block in 16 bytes of memory; the loops go round twice. *)
Definition rounds (s : ust) : nat := 2 * (Z.to_nat (u_brk s / HEADER) + 2).

Definition free (ap : Z) (s : ust) : option ust :=
  let bp := ap - HEADER in
  p ← free_find (rounds s) (u_mem s) bp (u_freep s);
  let m := u_mem s in
  let m :=
    if bp + HEADER * hsize m bp =? hptr m p then
      let m := set_hsize m bp (u32 (hsize m bp + hsize m (hptr m p))) in
      set_hptr m bp (hptr m (hptr m p))
    else set_hptr m bp (hptr m p) in
  let m :=
    if p + HEADER * hsize m p =? bp then
      let m := set_hsize m p (u32 (hsize m p + hsize m bp)) in
      set_hptr m p (hptr m bp)
    else set_hptr m p bp in
  Some (s <| u_mem := m |> <| u_freep := p |>).

(** ** malloc *)

Definition morecore (nu : Z) (s : ust) : option (Z * ust) :=
  let nu := if nu <? 4096 then 4096 else nu in
  let '(p, s) := sbrk (i32 (nu * HEADER)) s in
  if p =? SBRK_ERROR then Some (0, s)
  else
    let s := s <| u_mem ::= λ m, set_hsize m p nu |> in
    s ← free (p + HEADER) s;
    Some (u_freep s, s).

Fixpoint malloc_loop (fuel : nat) (nunits prevp p : Z) (s : ust) : option (Z * ust) :=
  match fuel with
  | O => None
  | S fuel =>
      let m := u_mem s in
      if nunits <=? hsize m p then
        let '(p, m) :=
          if hsize m p =? nunits then (p, set_hptr m prevp (hptr m p))
          else
            let m := set_hsize m p (u32 (hsize m p - nunits)) in
            let p := p + HEADER * hsize m p in
            (p, set_hsize m p nunits) in
        Some (p + HEADER, s <| u_mem := m |> <| u_freep := prevp |>)
      else if p =? u_freep s then
        r ← morecore nunits s;
        let '(p, s) := r in
        if p =? 0 then Some (0, s) else malloc_loop fuel nunits p (hptr (u_mem s) p) s
      else malloc_loop fuel nunits p (hptr m p) s
  end.

Definition malloc (nbytes : Z) (s : ust) : option (Z * ust) :=
  let nunits := u32 ((nbytes + HEADER - 1) / HEADER + 1) in
  let s :=
    if u_freep s =? 0 then s <| u_mem ::= λ m, set_hsize (set_hptr m base base) base 0 |> <| u_freep := base |>
    else s in
  malloc_loop (S (rounds s)) nunits (u_freep s) (hptr (u_mem s) (u_freep s)) s.
End umalloc.
