(* ===== verification/UmallocSpec.v ===== *)
(** * The user-level allocator is safe (user/umalloc.c)

    The free blocks form a ring sorted by address, with [base] first and no two
    blocks adjacent.  [malloc] hands out blocks that overlap neither each other nor
    the free ones, their contents stay what the program stores in them, and both
    loops end. *)

From stdpp Require Import sorting.
From S2P Require Import Prelude Machine Umalloc.

(** ** Headers *)

(** Only the header at [x] differs. *)
Definition same_but (x : Z) (m m' : gmap Z Z) : Prop := ∀ i, i < x ∨ x + 16 ≤ i → mread m' i = mread m i.

Lemma same_but_trans x m1 m2 m3 : same_but x m1 m2 → same_but x m2 m3 → same_but x m1 m3.
Proof. intros H1 H2 i Hi. by rewrite H2, H1. Qed.

Lemma same_but_set_hptr x m v : same_but x m (set_hptr m x v).
Proof. intros i Hi. apply mread_mstore_out. rewrite length_le_bytes. lia. Qed.
Lemma same_but_set_hsize x m v : same_but x m (set_hsize m x v).
Proof. intros i Hi. apply mread_mstore_out. rewrite length_le_bytes. lia. Qed.

Lemma hptr_same x m m' p : same_but x m m' → p + 16 ≤ x ∨ x + 16 ≤ p → hptr m' p = hptr m p.
Proof. intros H Hp. unfold hptr, load64. f_equal. apply mload_ext. intros i Hi. apply H. lia. Qed.
Lemma hsize_same x m m' p : same_but x m m' → p + 16 ≤ x ∨ x + 16 ≤ p → hsize m' p = hsize m p.
Proof. intros H Hp. unfold hsize. f_equal. apply mload_ext. intros i Hi. apply H. lia. Qed.

Lemma hptr_set m p v : 0 ≤ v < 2 ^ 64 → hptr (set_hptr m p v) p = v.
Proof. intros Hv. unfold hptr, set_hptr. rewrite load64_store64. by apply u64_small. Qed.
Lemma hsize_set m p v : 0 ≤ v < 2 ^ 32 → hsize (set_hsize m p v) p = v.
Proof.
  intros Hv. unfold hsize, set_hsize. rewrite <-(length_le_bytes 4 v) at 1. rewrite mload_mstore, le_val_bytes. by apply Z.mod_small.
Qed.
Lemma hptr_set_hsize m p v : hptr (set_hsize m p v) p = hptr m p.
Proof. apply load64_mstore_out. lia. Qed.
Lemma hsize_set_hptr m p v : hsize (set_hptr m p v) p = hsize m p.
Proof. unfold hsize, set_hptr, store64. rewrite mload_mstore_out; [done |]. rewrite length_le_bytes. lia. Qed.

Lemma mem_ok_set_hptr m p v : mem_ok m → mem_ok (set_hptr m p v).
Proof. intros H. apply mem_ok_mstore; [done | apply le_bytes_byte]. Qed.
Lemma mem_ok_set_hsize m p v : mem_ok m → mem_ok (set_hsize m p v).
Proof. intros H. apply mem_ok_mstore; [done | apply le_bytes_byte]. Qed.

(** ** Blocks and rings of blocks *)

(** A block: the address of its header and its units. *)
Abbreviation block := (Z * Z)%type.

Definition bend (b : block) : Z := b.1 + 16 * b.2.
Definition apart (b c : block) : Prop := bend b ≤ c.1 ∨ bend c ≤ b.1.

(** The headers of [l] link its blocks, the last one to [next]. *)
Definition first (l : list block) (next : Z) : Z := match l with [] => next | b :: _ => b.1 end.
Fixpoint seg (m : gmap Z Z) (l : list block) (next : Z) : Prop :=
  match l with
  | [] => True
  | b :: l => hsize m b.1 = b.2 ∧ hptr m b.1 = first l next ∧ seg m l next
  end.

Lemma first_app l1 l2 next : first (l1 ++ l2) next = first l1 (first l2 next).
Proof. by destruct l1. Qed.

Lemma seg_app m l1 l2 next : seg m (l1 ++ l2) next ↔ seg m l1 (first l2 next) ∧ seg m l2 next.
Proof. induction l1 as [| b l1 IH]; simpl; [tauto |]. rewrite IH, first_app. tauto. Qed.

(** Writing a header elsewhere changes nothing. *)
Lemma seg_same x m m' l next : same_but x m m' → Forall (λ b, b.1 + 16 ≤ x ∨ x + 16 ≤ b.1) l → seg m l next → seg m' l next.
Proof.
  intros Hs Hl. induction Hl as [| b l Hb Hl IH]; simpl; [done |]. intros (H1 & H2 & H3).
  rewrite (hsize_same x m m'), (hptr_same x m m') by done. auto.
Qed.

(** *** Joining a block to the ones after it *)

Definition join (m : gmap Z Z) (x c : Z) : gmap Z Z :=
  if x + HEADER * hsize m x =? c then
    let m := set_hsize m x (u32 (hsize m x + hsize m c)) in set_hptr m x (hptr m c)
  else set_hptr m x c.

Definition absorb (b : block) (l : list block) : list block :=
  match l with
  | c :: l' => if bend b =? c.1 then (b.1, b.2 + c.2) :: l' else b :: l
  | [] => [b]
  end.

(** The first block ends before the second one begins. *)
Definition before (b c : block) : Prop := bend b < c.1.
Definition sized (lo hi : Z) (b : block) : Prop := lo ≤ b.1 ∧ 1 ≤ b.2 ∧ bend b ≤ hi.

Lemma first_absorb b l next : first (absorb b l) next = b.1.
Proof. destruct l as [| c l]; simpl; [done |]. by destruct (_ =? _). Qed.

Lemma absorb_head b l : ∃ n l', absorb b l = (b.1, n) :: l' ∧ (Forall (λ c, 1 ≤ c.2) l → b.2 ≤ n) ∧ l' ⊆ l.
Proof.
  destruct b as [a n], l as [| c l]; simpl; [exists n, []; auto with lia |].
  destruct (_ =? _); [exists (n + c.2), l | exists n, (c :: l)]; (split; [done |]); (split; [| set_solver]).
  - intros H. inversion_clear H. lia.
  - lia.
Qed.

Lemma absorb_sorted b l : StronglySorted before l → Forall (λ c, bend b ≤ c.1 ∧ 0 ≤ c.2) l → StronglySorted before (absorb b l).
Proof.
  intros Hs Hb. destruct Hs as [| c l Hs Hc]; simpl; [by repeat constructor |]. apply Forall_cons in Hb as [[Hbc Hc0] Hb].
  destruct (Z.eqb_spec (bend b) c.1) as [E | E].
  - constructor; [done |]. eapply Forall_impl; [exact Hc |]. intros d. unfold before, bend in *. simpl. lia.
  - constructor; [by constructor |]. constructor; [unfold before; lia |]. apply Forall_forall. intros d Hd.
    rewrite Forall_forall in Hc. specialize (Hc d Hd). unfold before, bend in *. lia.
Qed.

(** A property that two adjacent blocks pass on to the block they make. *)
Definition joins (P : block → Prop) : Prop := ∀ b c, P b → P c → bend b = c.1 → P (b.1, b.2 + c.2).

Lemma absorb_Forall P b l : joins P → P b → Forall P l → Forall P (absorb b l).
Proof.
  intros HP Hb Hl. destruct l as [| c l]; simpl; [by apply Forall_singleton |]. pose proof Hl as [Hc Hl']%Forall_cons.
  destruct (Z.eqb_spec (bend b) c.1) as [E | E]; constructor; auto.
Qed.

Lemma joins_sized lo hi : joins (sized lo hi).
Proof. intros b c. unfold sized, bend. simpl. lia. Qed.

(** What overlaps none of the parts does not overlap the whole. *)
Lemma joins_apart d : 1 ≤ d.2 → joins (apart d).
Proof. intros Hd b c. unfold apart, bend. simpl. lia. Qed.

Lemma joins_outside i : joins (λ b, i < b.1 ∨ bend b ≤ i).
Proof. intros b c. unfold bend. simpl. lia. Qed.

Lemma joins_above z : joins (λ b, z ≤ b.1 ∧ 1 ≤ b.2).
Proof. intros b c. simpl. lia. Qed.

Lemma join_same m x c : same_but x m (join m x c).
Proof.
  unfold join. case_match; [| apply same_but_set_hptr].
  eapply same_but_trans; [apply same_but_set_hsize | apply same_but_set_hptr].
Qed.

Lemma join_ok m x c : mem_ok m → mem_ok (join m x c).
Proof. intros H. unfold join. case_match; apply mem_ok_set_hptr; [by apply mem_ok_set_hsize | done]. Qed.

Lemma join_done m b l next : hsize m b.1 = b.2 → seg m l next → 0 ≤ b.2 → mem_ok m →
  (l = [] → bend b ≠ next) → 0 ≤ next < 2 ^ 64 → Forall (λ c, bend b ≤ c.1 ∧ b.1 + 16 ≤ c.1 ∧ 0 ≤ c.2 ∧ 0 ≤ c.1 < 2 ^ 64 ∧ b.2 + c.2 < 2 ^ 32) l →
  seg (join m b.1 (first l next)) (absorb b l) next.
Proof.
  intros Hb Hl Hb0 Hm Hne Hnx Hf. pose proof (join_same m b.1 (first l next)) as Hj. unfold join in *. rewrite Hb in *.
  change HEADER with 16 in *. fold (bend b) in *. destruct l as [| c l].
  { simpl in *. rewrite (proj2 (Z.eqb_neq _ _)) in * by auto. simpl. rewrite hsize_set_hptr, hptr_set by done. done. }
  apply Forall_cons in Hf as [(F1 & F2 & F3 & F4 & F5) Hf]. simpl in Hl, Hj |- *. destruct Hl as (C1 & C2 & C3).
  destruct (Z.eqb_spec (bend b) c.1) as [E | E]; simpl.
  - assert (first l next = hptr m c.1 ∧ 0 ≤ hptr m c.1 < 2 ^ 64) as [-> Hr] by (split; [done | by apply load64_range]).
    rewrite C1, u32_small in * by lia.
    rewrite (hptr_same b.1 m) in * by (apply same_but_set_hsize || lia).
    rewrite hsize_set_hptr, hsize_set, hptr_set by lia. split; [done | split; [done |]].
    eapply (seg_same b.1 m); [exact Hj | | done]. eapply Forall_impl; [exact Hf |]. simpl. lia.
  - rewrite hsize_set_hptr, hptr_set by lia. split; [done | split; [done |]].
    eapply (seg_same b.1 m _ (c :: l)); [exact Hj | | done]. constructor; [lia |]. eapply Forall_impl; [exact Hf |]. simpl. lia.
Qed.

(** *** Where a block belongs *)

Lemma sorted_length L lo hi : StronglySorted before L → Forall (sized lo hi) L → lo ≤ hi →
  lo + 16 * Z.of_nat (length L) ≤ hi.
Proof.
  intros Hs. revert lo. induction Hs as [| b L Hs IH Hb]; intros lo Hl Hle; simpl; [lia |].
  apply Forall_cons in Hl as [[H1 [H2 H3]] Hl]. unfold bend in *.
  specialize (IH (b.1 + 16 * b.2)). lapply IH; [intros IH' |].
  - specialize (IH' ltac:(lia)). lia.
  - apply Forall_forall. intros c Hc. rewrite Forall_forall in Hb, Hl. specialize (Hb c Hc). specialize (Hl c Hc).
    unfold before, sized, bend in *. lia.
Qed.

(** A block that overlaps none of a sorted list lies between two of them. *)
Lemma sorted_split L b : StronglySorted before L → Forall (λ c, 1 ≤ c.2) L → Forall (apart b) L →
  ∃ l1 l2, L = l1 ++ l2 ∧ Forall (λ c, bend c ≤ b.1) l1 ∧ Forall (λ c, bend b ≤ c.1) l2.
Proof.
  induction 1 as [| c L Hs IH Hc]; intros Hl Ha; [by exists [], [] |].
  apply Forall_cons in Hl as [Hc1 Hl]. apply Forall_cons in Ha as [[Hbc | Hcb] Ha].
  - exists [], (c :: L). split; [done |]. split; [done |]. constructor; [done |]. eapply Forall_impl; [exact Hc |].
    intros d. unfold before, bend in *. lia.
  - destruct (IH Hl Ha) as (l1 & l2 & -> & H1 & H2). exists (c :: l1), l2. split; [done |]. split; [by constructor | done].
Qed.

Lemma sorted_increasing l : StronglySorted before l → Forall (λ c, 0 ≤ c.2) l → StronglySorted (λ b c, b.1 < c.1) l.
Proof.
  induction 1 as [| b l Hs IH Hb]; intros Hl; [constructor |]. apply Forall_cons in Hl as [H0 Hl]. constructor; [by apply IH |].
  eapply Forall_impl; [exact Hb |]. intros c. unfold before, bend. lia.
Qed.

(** The search goes past the blocks below [bp] ... *)
Lemma find_low m bp l : ∀ next fuel, seg m l next → StronglySorted (λ b c, b.1 < c.1) l → Forall (λ b, b.1 < next) l →
  next < bp → free_find (length l + fuel) m bp (first l next) = free_find fuel m bp next.
Proof.
  induction l as [| b l IH]; intros next fuel Hs Hso Hn Hbp; [done |]. simpl in Hs. destruct Hs as (_ & Hp & Hs).
  apply StronglySorted_inv in Hso as [Hso Hb]. apply Forall_cons in Hn as [Hbn Hn]. simpl. rewrite Hp.
  assert (b.1 < first l next < bp) as Hf.
  { destruct l as [| c l]; simpl; [lia |]. apply Forall_cons in Hb as [Hb _]. apply Forall_cons in Hn as [Hn _]. lia. }
  replace ((_ && _)) with false by lia. rewrite (proj2 (Z.leb_gt _ _)) by lia. simpl. by apply IH.
Qed.

(** ... and past those above it, back to the first one. *)
Lemma find_high m bp l : ∀ next fuel, seg m l next → StronglySorted (λ b c, b.1 < c.1) l → Forall (λ b, bp < b.1) l →
  next < bp → free_find (length l + fuel) m bp (first l next) = free_find fuel m bp next.
Proof.
  induction l as [| b l IH]; intros next fuel Hs Hso Hn Hbp; [done |]. simpl in Hs. destruct Hs as (_ & Hp & Hs).
  apply StronglySorted_inv in Hso as [Hso Hb]. apply Forall_cons in Hn as [Hbn Hn]. simpl. rewrite Hp.
  assert (b.1 < first l next ∨ first l next = next) as Hf.
  { destruct l as [| c l]; simpl; [by right |]. apply Forall_cons in Hb as [Hb _]. by left. }
  rewrite (proj2 (Z.ltb_ge b.1 bp)) by lia. simpl. replace ((_ && _)) with false; [by apply IH |]. lia.
Qed.

(** The sorted list with [b] in its place, joined to its neighbours. *)
Fixpoint insert_block (b : block) (L : list block) : list block :=
  match L with
  | [] => [b]
  | c :: L' => if bend b <=? c.1 then absorb b L else absorb c (insert_block b L')
  end.

Lemma absorb_length b l : (length (absorb b l) ≤ S (length l))%nat.
Proof. destruct l as [| c l]; simpl; [lia |]. destruct (_ =? _); simpl; lia. Qed.

Lemma insert_length b L : (length (insert_block b L) ≤ S (length L))%nat.
Proof.
  induction L as [| c L IH]; cbn [insert_block]; [simpl; lia |]. destruct (_ <=? _); [apply absorb_length |].
  pose proof (absorb_length c (insert_block b L)). simpl. lia.
Qed.

Lemma insert_Forall P b L : joins P → P b → Forall P L → Forall P (insert_block b L).
Proof.
  intros HP Hb Hl. induction Hl as [| c L Hc Hl IH]; cbn [insert_block]; [by apply Forall_singleton |].
  destruct (_ <=? _); apply absorb_Forall; try done. by constructor.
Qed.

Lemma insert_sorted b L : StronglySorted before L → 1 ≤ b.2 → Forall (λ c, 1 ≤ c.2) L → Forall (apart b) L →
  StronglySorted before (insert_block b L).
Proof.
  intros Hs Hb. induction Hs as [| c L Hs IH Hc]; intros Hl Ha; [by repeat constructor |].
  apply Forall_cons in Hl as [Hc1 Hl]. apply Forall_cons in Ha as [Hbc Ha]. cbn [insert_block].
  assert (Forall (λ d, bend c ≤ d.1 ∧ 1 ≤ d.2) L) as Hcl.
  { apply Forall_forall. intros d Hd. rewrite Forall_forall in Hc, Hl. specialize (Hc d Hd). specialize (Hl d Hd). unfold before in *. lia. }
  destruct (Z.leb_spec (bend b) c.1) as [Hle | Hgt].
  - apply absorb_sorted; [by constructor |]. constructor; [lia |]. eapply Forall_impl; [exact Hcl |]. intros d.
    unfold bend in *. simpl. lia.
  - apply absorb_sorted; [by apply IH |].
    assert (Forall (λ d, bend c ≤ d.1 ∧ 1 ≤ d.2) (insert_block b L)) as Hx.
    { apply insert_Forall; [apply joins_above | unfold apart, bend in *; lia | done]. }
    eapply Forall_impl; [exact Hx |]. simpl. lia.
Qed.

(** The predecessor [p] of the new block takes part in the joining, the blocks before it do not. *)
Lemma insert_at l0 p l2 b : StronglySorted before (l0 ++ p :: l2) → Forall (λ c, 0 ≤ c.2 ∧ bend c ≤ b.1) (l0 ++ [p]) →
  Forall (λ c, bend b ≤ c.1) l2 → 1 ≤ b.2 → insert_block b (l0 ++ p :: l2) = l0 ++ absorb p (absorb b l2).
Proof.
  intros Hs Hl Hr Hb. assert (∀ c L, 0 ≤ c.2 → bend c ≤ b.1 → insert_block b (c :: L) = absorb c (insert_block b L)) as Hstep.
  { intros c L Hc Hcb. cbn [insert_block]. rewrite (proj2 (Z.leb_gt _ _)); [done |]. unfold bend in *. lia. }
  induction l0 as [| c l0 IH]; simpl app in *.
  - apply Forall_singleton in Hl as [Hp0 Hp]. rewrite Hstep by done. destruct l2 as [| c l2]; [done |].
    apply Forall_cons in Hr as [Hc _]. cbn [insert_block]. by rewrite (proj2 (Z.leb_le _ _)).
  - apply Forall_cons in Hl as [[Hc0 Hc] Hl]. apply StronglySorted_inv in Hs as [Hs Hcs].
    rewrite Hstep, (IH Hs Hl) by done. unfold absorb at 1. 
    assert (∃ d l', l0 ++ absorb p (absorb b l2) = d :: l' ∧ bend c ≠ d.1) as (d & l' & -> & Hne).
    { destruct l0 as [| d l0]; simpl in *.
      - destruct (absorb_head p (absorb b l2)) as (n & l' & -> & _). do 2 eexists. split; [done |].
        apply Forall_cons in Hcs as [Hcp _]. unfold before in Hcp. simpl. lia.
      - do 2 eexists. split; [done |]. apply Forall_cons in Hcs as [Hcp _]. unfold before in Hcp. lia. }
    by rewrite (proj2 (Z.eqb_neq _ _)).
Qed.

(** The new block is part of one of the result. *)
Lemma insert_room b L : Forall (λ c, 0 ≤ c.2) L → 0 ≤ b.2 → ∃ c, c ∈ insert_block b L ∧ b.2 ≤ c.2.
Proof.
  intros Hl Hb. induction Hl as [| c L Hc Hl IH]; cbn [insert_block]; [exists b; split; [by constructor | done] |].
  destruct (_ <=? _).
  - unfold absorb. destruct (_ =? _); eexists; (split; [by constructor |]); simpl; lia.
  - destruct IH as (d & Hd & Hle). unfold absorb. destruct (insert_block b L) as [| e X]; [by apply elem_of_nil in Hd |].
    destruct (_ =? _); [| exists d; split; [by constructor | done]].
    apply elem_of_cons in Hd as [-> | Hd]; eexists; [split; [by constructor | simpl; lia] | split; [by constructor | done]].
Qed.

(** ** The heap *)

Section heap.
Context (base lo : Z).

(** The free blocks, sorted and not adjacent, and the blocks in use. *)
Record heap_ok (s : ust) (L : list block) (A : gmap Z Z) : Prop := {
  hk_base : 0 < base ∧ base + 16 ≤ lo;
  hk_mem : mem_ok (u_mem s);
  hk_brk : lo ≤ u_brk s ≤ 2 ^ 36;
  hk_ring : seg (u_mem s) ((base, 0) :: L) base;
  hk_sorted : StronglySorted before L;
  hk_free : Forall (sized lo (u_brk s)) L;
  hk_freep : u_freep s ∈ base :: L.*1;
  hk_live : ∀ a n, A !! a = Some n → hsize (u_mem s) a = n ∧ sized lo (u_brk s) (a, n);
  hk_live_free : ∀ a n b, A !! a = Some n → b ∈ L → apart (a, n) b;
  hk_live_live : ∀ a n a' n', A !! a = Some n → A !! a' = Some n' → a ≠ a' → apart (a, n) (a', n');
}.

(** *** The ring *)

#[local] Abbreviation nodes L := ((base, 0) :: L).

(** A byte of the heap in no free block. *)
Definition untouched (L : list block) (i : Z) : Prop := lo ≤ i ∧ Forall (λ c, i < c.1 ∨ bend c ≤ i) L.

Section free.
Context (s : ust) (L : list block) (A : gmap Z Z) (b : block).
Hypothesis Hok : heap_ok s L A.
Hypothesis Hsize : hsize (u_mem s) b.1 = b.2.
Hypothesis Hb : sized lo (u_brk s) b.
Hypothesis Hfree : Forall (apart b) L.

Lemma nodes_sized : Forall (λ c, 0 ≤ c.2 ∧ 0 < c.1 ∧ bend c ≤ u_brk s) (nodes L).
Proof.
  destruct (hk_base _ _ _ Hok) as [H1 H2]. pose proof (hk_brk _ _ _ Hok).
  constructor; [unfold bend; simpl; lia |]. eapply Forall_impl; [apply Hok |]. intros c. unfold sized. lia.
Qed.

Lemma nodes_sorted : StronglySorted before (nodes L).
Proof.
  constructor; [apply Hok |]. eapply Forall_impl; [apply Hok |]. intros c. pose proof (hk_base _ _ _ Hok).
  unfold sized, before, bend. simpl. lia.
Qed.

Lemma nodes_gap c d : before c d → c ∈ nodes L → d ∈ nodes L → c.1 + 16 ≤ d.1.
Proof.
  intros Hcd [-> | Hc]%elem_of_cons [-> | Hd]%elem_of_cons; pose proof (hk_base _ _ _ Hok); pose proof (hk_free _ _ _ Hok) as Hf;
    rewrite Forall_forall in Hf; unfold before, bend in Hcd; simpl in *.
  - lia.
  - specialize (Hf d Hd). unfold sized in Hf. lia.
  - specialize (Hf c Hc). unfold sized in Hf. lia.
  - specialize (Hf c Hc). unfold sized in Hf. lia.
Qed.

Lemma nodes_base c : c ∈ nodes L → base ≤ c.1.
Proof.
  intros [-> | Hc]%elem_of_cons; [done |]. pose proof (hk_free _ _ _ Hok) as Hf. rewrite Forall_forall in Hf. specialize (Hf c Hc).
  pose proof (hk_base _ _ _ Hok). unfold sized in Hf. lia.
Qed.

Lemma node_untouched d i : d ∈ nodes L → untouched L i → i < d.1 ∨ d.1 + 16 ≤ i.
Proof.
  intros Hd [Hi Ha]. apply elem_of_cons in Hd as [-> | Hd]; [pose proof (hk_base _ _ _ Hok); simpl; lia |].
  pose proof (hk_free _ _ _ Hok) as Hf. rewrite Forall_forall in Ha, Hf. specialize (Ha d Hd). specialize (Hf d Hd).
  unfold sized, bend in *. lia.
Qed.

(** The place of the block in the ring. *)
Lemma place : ∃ l0 p l2, nodes L = l0 ++ p :: l2 ∧ Forall (λ c, bend c ≤ b.1 ∧ c.1 + 16 ≤ b.1) (l0 ++ [p]) ∧
  Forall (λ c, bend b ≤ c.1) l2.
Proof.
  destruct (sorted_split L b) as (l1 & l2 & E & H1 & H2); [apply Hok | | done |].
  { eapply Forall_impl; [apply Hok |]. intros c. unfold sized. lia. }
  assert (∀ c, c ∈ (base, 0) :: l1 → bend c ≤ b.1 ∧ c.1 + 16 ≤ b.1) as Hl.
  { intros c [-> | Hc]%elem_of_cons; [pose proof (hk_base _ _ _ Hok); unfold sized, bend in *; simpl; lia |].
    pose proof (hk_free _ _ _ Hok) as Hf. rewrite E, Forall_app in Hf. destruct Hf as [Hf _]. rewrite Forall_forall in H1, Hf.
    specialize (H1 c Hc). specialize (Hf c Hc). unfold sized, bend in *. lia. }
  destruct (@exists_last _ ((base, 0) :: l1)) as (l0 & p & E0); [done |].
  exists l0, p, l2. rewrite E. change (nodes (l1 ++ l2)) with (nodes l1 ++ l2). rewrite E0, <-app_assoc. split; [done |].
  split; [| done]. apply Forall_forall. rewrite <-E0. exact Hl.
Qed.

Lemma nodes_length : (length (nodes L) * 2 + 2 ≤ rounds s)%nat.
Proof.
  pose proof (sorted_length L lo (u_brk s) (hk_sorted _ _ _ Hok) (hk_free _ _ _ Hok)) as Hl. pose proof (hk_brk _ _ _ Hok).
  pose proof (hk_base _ _ _ Hok). specialize (Hl ltac:(lia)). unfold rounds. change HEADER with 16. simpl length.
  assert (Z.of_nat (length L) ≤ u_brk s / 16) by (apply Z.div_le_lower_bound; lia). lia.
Qed.

(** The search ends at the predecessor. *)
Lemma find_place l0 p l2 : nodes L = l0 ++ p :: l2 → Forall (λ c, bend c ≤ b.1 ∧ c.1 + 16 ≤ b.1) (l0 ++ [p]) →
  Forall (λ c, bend b ≤ c.1) l2 → free_find (rounds s) (u_mem s) b.1 (u_freep s) = Some p.1.
Proof.
  intros E Hl Hr. pose proof nodes_length as Hlen. pose proof (hk_ring _ _ _ Hok) as Hring. pose proof nodes_sorted as Hso.
  pose proof nodes_sized as Hsz. pose proof (hk_base _ _ _ Hok) as Hbase.
  pose proof (hk_freep _ _ _ Hok) as Hin. change (base :: L.*1) with ((nodes L).*1) in Hin. rewrite E in *.
  assert (first (l0 ++ p :: l2) base = base) as Hfirst by (by rewrite <-E).
  apply seg_app in Hring as [R0 (R1 & R2 & R3)]. cbn [first] in R0.
  pose proof (sorted_increasing _ Hso ltac:(eapply Forall_impl; [exact Hsz |]; simpl; lia)) as Hinc.
  pose proof (proj1 (StronglySorted_app _ _ _) Hinc) as (I1 & I2 & [I3 I4]%StronglySorted_inv).
  apply Forall_app in Hl as [Hl0 [Hp _]%Forall_cons].
  assert (base ≤ p.1) as Hbp by (apply nodes_base; rewrite E; set_solver).
  assert (∀ fuel, free_find (S fuel) (u_mem s) b.1 p.1 = Some p.1) as Hstop.
  { intros fuel. cbn [free_find]. rewrite R2. destruct l2 as [| c l2]; cbn [first].
    - rewrite (proj2 (Z.leb_le base p.1)), (proj2 (Z.ltb_lt p.1 b.1)) by (done || lia). by case_match.
    - apply Forall_cons in Hr as [Hc _]. unfold sized, bend in Hb, Hc. rewrite (proj2 (Z.ltb_lt p.1 b.1)), (proj2 (Z.ltb_lt b.1 c.1)) by lia. done. }
  apply list_elem_of_fmap in Hin as (f & Hf & Hin). rewrite Hf. rewrite !length_app in Hlen. cbn [length] in Hlen.
  apply elem_of_app in Hin as [Hin | [-> | Hin]%elem_of_cons].
  - apply list_elem_of_split in Hin as (l & l' & ->). apply seg_app in R0 as [_ R0]. apply StronglySorted_app_1_r in I2.
    rewrite length_app in Hlen. cbn [length] in Hlen. change f.1 with (first (f :: l') p.1).
    replace (rounds s) with (length (f :: l') + S (rounds s - S (length (f :: l'))))%nat by (cbn [length]; lia).
    rewrite find_low; [apply Hstop | done | done | | lia]. apply Forall_forall. intros c Hc. apply I1; [set_solver | by constructor].
  - replace (rounds s) with (S (rounds s - 1)) by lia. apply Hstop.
  - apply list_elem_of_split in Hin as (l & l' & ->). apply seg_app in R3 as [_ R3]. apply StronglySorted_app_1_r in I3.
    rewrite length_app in Hlen. cbn [length] in Hlen. change f.1 with (first (f :: l') base).
    set (k := length l0). replace (rounds s) with (length (f :: l') + (k + S (rounds s - S (length (f :: l') + k))))%nat by (unfold k; cbn [length]; lia).
    rewrite find_high; [| done | done | | unfold sized in Hb; lia]; cycle 1.
    { apply Forall_app in Hr as [_ Hr]. eapply Forall_impl; [exact Hr |]. intros c. unfold sized, bend in *. lia. }
    rewrite <-Hfirst, first_app. cbn [first]. unfold k. rewrite find_low; [apply Hstop | done | done | | lia].
    apply Forall_forall. intros c Hc. apply I1; [done | by constructor].
Qed.

(** The memory after the block has been linked in. *)
Definition linked_mem (p : Z) : gmap Z Z := join (join (u_mem s) b.1 (hptr (u_mem s) p)) p b.1.

Lemma insert_nodes : insert_block b (nodes L) = nodes (insert_block b L).
Proof.
  pose proof (hk_base _ _ _ Hok). cbn [insert_block]. rewrite (proj2 (Z.leb_gt _ _)) by (unfold sized, bend in *; simpl; lia).
  assert (Forall (λ c, lo ≤ c.1 ∧ 1 ≤ c.2) (insert_block b L)) as Hi.
  { apply insert_Forall; [apply joins_above | unfold sized in Hb; lia |]. eapply Forall_impl; [apply Hok |]. intros c. unfold sized. lia. }
  destruct (insert_block b L) as [| c X]; [done |]. apply Forall_cons in Hi as [Hc _]. cbn [absorb].
  by rewrite (proj2 (Z.eqb_neq _ _)) by (unfold bend; simpl; lia).
Qed.

Lemma insert_place l0 p l2 : nodes L = l0 ++ p :: l2 → Forall (λ c, bend c ≤ b.1 ∧ c.1 + 16 ≤ b.1) (l0 ++ [p]) →
  Forall (λ c, bend b ≤ c.1) l2 → nodes (insert_block b L) = l0 ++ absorb p (absorb b l2).
Proof.
  intros E Hl Hr. pose proof nodes_sized as Hsz. pose proof nodes_sorted as Hso. rewrite <-insert_nodes, E in *.
  apply insert_at; [done | | done | unfold sized in Hb; lia].
  rewrite cons_middle, app_assoc, Forall_app in Hsz. destruct Hsz as [Hsz _]. apply Forall_forall. intros c Hc.
  rewrite Forall_forall in Hsz, Hl. specialize (Hsz c Hc). specialize (Hl c Hc). lia.
Qed.

Lemma linked_ring l0 p l2 : nodes L = l0 ++ p :: l2 → Forall (λ c, bend c ≤ b.1 ∧ c.1 + 16 ≤ b.1) (l0 ++ [p]) →
  Forall (λ c, bend b ≤ c.1) l2 → seg (linked_mem p.1) (nodes (insert_block b L)) base.
Proof.
  intros E Hl Hr. pose proof (hk_base _ _ _ Hok) as Hbase. pose proof (hk_brk _ _ _ Hok) as Hbrk. pose proof nodes_sized as Hsz.
  pose proof nodes_sorted as Hso. pose proof (hk_ring _ _ _ Hok) as Hring. pose proof (hk_mem _ _ _ Hok) as Hm.
  pose proof (λ c, nodes_gap c p) as Hgap. rewrite (insert_place l0 p l2 E Hl Hr). rewrite E in *.
  apply seg_app in Hring as [R0 (R1 & R2 & R3)]. cbn [first] in R0.
  apply Forall_app in Hl as [Hl0 [Hp _]%Forall_cons]. apply Forall_app in Hsz as [Hz0 [Hzp Hz2]%Forall_cons].
  unfold linked_mem. rewrite R2. pose proof (join_same (u_mem s) b.1 (first l2 base)) as J1. set (m1 := join (u_mem s) b.1 (first l2 base)) in *.
  assert (seg m1 (absorb b l2) base) as S1.
  { apply join_done; try done; [unfold sized in Hb; lia | intros _; unfold sized, bend in *; lia | lia |].
    apply Forall_forall. intros c Hc. rewrite Forall_forall in Hr, Hz2. specialize (Hr c Hc). specialize (Hz2 c Hc).
    unfold sized, bend in *. lia. }
  assert (Forall (λ c, bend p ≤ c.1 ∧ p.1 + 16 ≤ c.1 ∧ 0 ≤ c.2 ∧ bend c ≤ u_brk s) (absorb b l2)) as Q.
  { apply absorb_Forall; [intros c d; unfold bend; simpl; lia | unfold sized, bend in *; lia |]. apply Forall_forall. intros c Hc.
    rewrite Forall_forall in Hr, Hz2. specialize (Hr c Hc). specialize (Hz2 c Hc). unfold sized, bend in *. lia. }
  pose proof (join_same m1 p.1 b.1) as J2.
  apply seg_app. split.
  - rewrite first_absorb. eapply (seg_same p.1 m1); [exact J2 | | eapply (seg_same b.1); [exact J1 | | exact R0]].
    + apply Forall_forall. intros c Hc. left. apply Hgap; [| set_solver | set_solver].
      apply (StronglySorted_app_1_elem_of _ _ _ c p Hso Hc). by constructor.
    + eapply Forall_impl; [exact Hl0 |]. simpl. lia.
  - rewrite <-(first_absorb b l2 base) at 1. apply join_done; [rewrite (hsize_same b.1 (u_mem s)); [done | done | lia] | done | lia | by apply join_ok | | lia |].
    + intros Ha. exfalso. by destruct (absorb_head b l2) as (? & ? & Eh & _); rewrite Ha in Eh.
    + eapply Forall_impl; [exact Q |]. intros c. unfold sized, bend in *. simpl. lia.
Qed.

Hypothesis Hlive : ∀ a n, A !! a = Some n → apart b (a, n).

Lemma free_done : ∃ s', free (b.1 + HEADER) s = Some s' ∧ heap_ok s' (insert_block b L) A ∧ u_brk s' = u_brk s ∧
  (∀ i, untouched L i → i < b.1 ∨ bend b ≤ i → mread (u_mem s') i = mread (u_mem s) i).
Proof.
  destruct place as (l0 & p & l2 & E & Hl & Hr). pose proof (find_place l0 p l2 E Hl Hr) as Hfind.
  pose proof (linked_ring l0 p l2 E Hl Hr) as Hring. pose proof (hk_base _ _ _ Hok) as Hbase.
  assert (p ∈ nodes L) as Hp by (rewrite E; set_solver).
  assert (p.1 + 16 ≤ b.1) as Hpb by (apply Forall_app in Hl as [_ [Hl _]%Forall_cons]; lia).
  assert (∀ i, untouched L i → i < b.1 ∨ bend b ≤ i →
    mread (linked_mem p.1) i = mread (u_mem s) i) as Hframe.
  { intros i Hi Hbi. unfold linked_mem. rewrite (join_same _ p.1), (join_same _ b.1); [done | unfold sized, bend in *; lia | by apply node_untouched]. }
  exists (s <| u_mem := linked_mem p.1 |> <| u_freep := p.1 |>). split; [| split; [| split; [done | done]]].
  - unfold free. replace (b.1 + HEADER - HEADER) with b.1 by lia. rewrite Hfind. cbn [mbind option_bind]. unfold linked_mem, join.
    rewrite (hptr_same b.1 (u_mem s) (set_hsize _ _ _) p.1) by (apply same_but_set_hsize || lia). done.
  - assert (Forall (λ c, 1 ≤ c.2) L) as Hone by (eapply Forall_impl; [apply Hok |]; intros c; unfold sized; lia).
    split; simpl; [apply Hok | | apply Hok | done | | | | | | apply Hok].
    + apply join_ok, join_ok, Hok.
    + apply insert_sorted; [apply Hok | unfold sized in Hb; lia | done | done].
    + apply insert_Forall; [apply joins_sized | done | apply Hok].
    + change (base :: (insert_block b L).*1) with ((nodes (insert_block b L)).*1). rewrite (insert_place l0 p l2 E Hl Hr).
      destruct (absorb_head p (absorb b l2)) as (n & l' & -> & _). rewrite fmap_app. set_solver.
    + intros a n Ha. destruct (hk_live _ _ _ Hok a n Ha) as [H1 H2]. split; [| done]. rewrite <-H1. unfold hsize. f_equal.
      apply mload_ext. intros i Hi. pose proof (Hlive a n Ha) as Hba. apply Hframe; [| unfold apart, sized, bend in *; simpl in *; lia].
      split; [unfold sized in H2; simpl in H2; lia |]. apply Forall_forall. intros c Hc. pose proof (hk_live_free _ _ _ Hok a n c Ha Hc). unfold apart, sized, bend in *. simpl in *. lia.
    + intros a n c Ha Hc. destruct (hk_live _ _ _ Hok a n Ha) as [_ H2].
      assert (Forall (apart (a, n)) (insert_block b L)) as Hall; [| rewrite Forall_forall in Hall; by apply Hall].
      apply insert_Forall; [apply joins_apart; unfold sized in H2; simpl in *; lia | specialize (Hlive a n Ha); unfold apart in *; lia |].
      apply Forall_forall. intros d Hd. by apply (hk_live_free _ _ _ Hok a n).
Qed.
End free.

(** *** Other changes to the memory *)

Lemma seg_mem m m' l next : (∀ c i, c ∈ l → c.1 ≤ i < c.1 + 16 → mread m' i = mread m i) → seg m l next → seg m' l next.
Proof.
  intros H. induction l as [| c l IH]; [done |]. intros (H1 & H2 & H3). split; [| split].
  - rewrite <-H1. unfold hsize. f_equal. apply mload_ext. intros i Hi. apply (H c); [by constructor | lia].
  - rewrite <-H2. unfold hptr, load64. f_equal. apply mload_ext. intros i Hi. apply (H c); [by constructor | lia].
  - apply IH; [| done]. intros d i Hd. apply H. by constructor.
Qed.

(** Bytes that are in no header. *)
Lemma heap_ok_mem s L A m' : heap_ok s L A → mem_ok m' →
  (∀ i, (∃ c, c ∈ nodes L ∧ c.1 ≤ i < c.1 + 16) ∨ (∃ a, is_Some (A !! a) ∧ a ≤ i < a + 16) → mread m' i = mread (u_mem s) i) →
  heap_ok (s <| u_mem := m' |>) L A.
Proof.
  intros [H1 H2 H3 H4 H5 H6 H7 H8 H9 H10] Hm Hsame. split; try done.
  - eapply seg_mem; [| exact H4]. intros c i Hc Hi. apply Hsame. left. eauto.
  - intros a n Ha. destruct (H8 a n Ha) as [E Hz]. split; [| done]. simpl. rewrite <-E. unfold hsize. f_equal. apply mload_ext.
    intros i Hi. apply Hsame. right. exists a. split; [eauto | lia].
Qed.

Lemma heap_ok_brk s L A k : heap_ok s L A → u_brk s ≤ k ≤ 2 ^ 36 → heap_ok (s <| u_brk := k |>) L A.
Proof.
  intros [H1 H2 H3 H4 H5 H6 H7 H8 H9 H10] Hk. split; try done; simpl.
  - lia.
  - eapply Forall_impl; [exact H6 |]. intros c. unfold sized. lia.
  - intros a n Ha. destruct (H8 a n Ha) as [E Hz]. split; [done |]. unfold sized in *. lia.
Qed.

(** ** malloc *)

Context (grow : Z → Z → bool).
Hypothesis Hgrow : ∀ k n, grow k n = true → k + n ≤ 2 ^ 36.

(** What [malloc] does not change, other than its own records. *)
Definition kept (s : ust) (L : list block) (s' : ust) : Prop :=
  ∀ i, untouched L i → i < u_brk s → mread (u_mem s') i = mread (u_mem s) i.

Lemma morecore_done s L A nu : heap_ok s L A → 1 ≤ nu → nu * 16 < 2 ^ 31 →
  (morecore grow nu s = Some (0, s) ∧ grow (u_brk s) (Z.max nu 4096 * 16) = false) ∨
  ∃ s' b, morecore grow nu s = Some (u_freep s', s') ∧ b.1 = u_brk s ∧ nu ≤ b.2 ∧ heap_ok s' (insert_block b L) A ∧
    u_brk s' = u_brk s + Z.max nu 4096 * 16 ∧ kept s L s'.
Proof.
  intros Hok H1 H2. set (nu' := Z.max nu 4096). pose proof (hk_brk _ _ _ Hok) as Hbrk. pose proof (hk_base _ _ _ Hok) as Hbase.
  assert (morecore grow nu s = let '(p, s) := sbrk grow (nu' * 16) s in
    if p =? SBRK_ERROR then Some (0, s)
    else s ← free (p + HEADER) (s <| u_mem ::= λ m, set_hsize m p nu' |>); Some (u_freep s, s)) as E.
  { unfold morecore. replace (if nu <? 4096 then 4096 else nu) with nu' by (unfold nu'; destruct (Z.ltb_spec nu 4096); lia).
    rewrite i32_small by (change HEADER with 16; unfold nu'; lia). done. }
  rewrite E. unfold sbrk. rewrite (proj2 (Z.ltb_lt 0 _)) by (unfold nu'; lia).
  destruct (grow (u_brk s) (nu' * 16)) eqn:Eg; [right | by left].
  specialize (Hgrow _ _ Eg). rewrite (proj2 (Z.eqb_neq (u_brk s) _)) by (unfold SBRK_ERROR; lia).
  set (s1 := s <| u_brk := u_brk s + nu' * 16 |>). set (b := (u_brk s, nu')).
  set (s2 := s1 <| u_mem ::= λ m, set_hsize m (u_brk s) nu' |>).
  assert (same_but (u_brk s) (u_mem s) (u_mem s2)) as Hsame by apply same_but_set_hsize.
  assert (heap_ok s2 L A) as Hok2.
  { apply (heap_ok_mem s1); [apply heap_ok_brk; [done | unfold nu' in *; lia] | apply mem_ok_set_hsize, Hok |].
    intros i Hi. apply Hsame. left. pose proof (hk_free _ _ _ Hok) as Hf. rewrite Forall_forall in Hf.
    destruct Hi as [(c & [-> | Hc]%elem_of_cons & Hi) | (a & [n Ha] & Hi)]; simpl in *; [lia | |].
    - specialize (Hf c Hc). unfold sized, bend in Hf. lia.
    - destruct (hk_live _ _ _ Hok a n Ha) as [_ Hz]. unfold sized, bend in Hz. simpl in Hz. lia. }
  destruct (free_done s2 L A b) as (s3 & R & Hok3 & Hb3 & Hfr); [done | apply (hsize_set _ _ nu'); unfold nu'; lia | | | |].
  - unfold sized, bend, nu'. simpl. lia.
  - eapply Forall_impl; [apply (hk_free _ _ _ Hok) |]. intros c. unfold sized, apart. simpl. lia.
  - intros a n Ha. destruct (hk_live _ _ _ Hok a n Ha) as [_ Hz]. unfold sized in Hz. unfold apart. simpl. lia.
  - exists s3, b. change (u_brk s + HEADER) with (b.1 + HEADER). rewrite R. split; [done |]. split; [done |].
    split; [unfold b, nu'; simpl; lia |]. split; [done |]. split; [done |].
    intros i Hi Hlt. rewrite Hfr by (done || (simpl; lia)). apply Hsame. by left.
Qed.

(** *** Taking a block *)

Definition carve (nunits prevp p : Z) (s : ust) : Z * ust :=
  let m := u_mem s in
  let '(p, m) :=
    if hsize m p =? nunits then (p, set_hptr m prevp (hptr m p))
    else
      let m := set_hsize m p (u32 (hsize m p - nunits)) in
      let p := p + HEADER * hsize m p in
      (p, set_hsize m p nunits) in
  (p + HEADER, s <| u_mem := m |> <| u_freep := prevp |>).

Section carve.
Context (s : ust) (L : list block) (A : gmap Z Z) (pv : Z) (c : block) (nu : Z).
Hypothesis Hok : heap_ok s L A.
Hypothesis Hc : c ∈ nodes L.
Hypothesis Hnu : 1 ≤ nu ≤ c.2.
Hypothesis Hpv : pv ∈ (nodes L).*1.
Hypothesis Hnext : hptr (u_mem s) pv = c.1.

(** The block is not [base], and [pv] is the one before it. *)
Lemma carve_place : ∃ x q y, nodes L = x ++ q :: c :: y ∧ q.1 = pv.
Proof.
  pose proof nodes_sorted s L A Hok as Hso. pose proof (hk_ring _ _ _ Hok) as Hr. pose proof (hk_base _ _ _ Hok) as Hbase.
  apply list_elem_of_fmap in Hpv as (q & -> & Hq). apply list_elem_of_split in Hq as (x & y & E). rewrite E in *.
  apply seg_app in Hr as [_ (_ & Hp & _)]. rewrite Hnext in Hp.
  assert (c.1 ≠ base) as Hcb.
  { rewrite <-E in Hc. apply elem_of_cons in Hc as [-> | Hin]; [simpl in Hnu; lia |]. pose proof (hk_free _ _ _ Hok) as Hf.
    rewrite Forall_forall in Hf. specialize (Hf c Hin). unfold sized in Hf. lia. }
  destruct y as [| d y]; [done |]. simpl in Hp. exists x, q, y. split; [| done].
  assert (d = c) as ->; [| done].
  assert (∀ e, e ∈ nodes L → 0 ≤ e.2) as Hz.
  { pose proof (nodes_sized s L A Hok) as Hz. rewrite Forall_forall in Hz. intros e He. apply Hz. done. }
  pose proof (sorted_increasing _ Hso) as Hinc. rewrite <-E in Hinc.
  specialize (Hinc ltac:(apply Forall_forall; exact Hz)). rewrite <-E in Hc. assert (d ∈ nodes L) as Hd by (rewrite E; set_solver).
  apply list_elem_of_split in Hd as (u & v & Eu). rewrite Eu in Hinc, Hc. apply StronglySorted_app in Hinc as (I1 & _ & [_ I2]%StronglySorted_inv).
  apply elem_of_app in Hc as [Hin | [-> | Hin]%elem_of_cons]; [| done |].
  - specialize (I1 c d Hin ltac:(by constructor)). simpl in I1. lia.
  - rewrite Forall_forall in I2. specialize (I2 c Hin). simpl in I2. lia.
Qed.

Lemma carve_split : ∃ l1 x q y, L = l1 ++ c :: y ∧ (base, 0) :: l1 = x ++ [q] ∧ q.1 = pv.
Proof.
  destruct carve_place as (x & q & y & E & Hq). rewrite cons_middle, app_assoc in E.
  destruct (x ++ [q]) as [| d l1] eqn:E1; [by apply app_nil in E1 as [_ [=]] |]. injection E as <- ->.
  by exists l1, x, q, y.
Qed.

Lemma carve_sized : sized lo (u_brk s) c.
Proof.
  destruct carve_split as (l1 & x & q & y & E & _). pose proof (hk_free _ _ _ Hok) as Hf. rewrite E in Hf.
  by apply Forall_app in Hf as [_ [Hf _]%Forall_cons].
Qed.

(** The state with block [a] of [nu] units taken from the end of [c]. *)
Lemma carve_ok m' L' a : bend (a, nu) = bend c → c.1 ≤ a → mem_ok m' → seg m' (nodes L') base → StronglySorted before L' →
  Forall (sized lo (u_brk s)) L' → pv ∈ (nodes L').*1 → hsize m' a = nu → Forall (apart (a, nu)) L' →
  (∀ d, d ∈ L' → d ∈ L ∨ d.1 = c.1 ∧ bend d ≤ bend c) → (∀ i, untouched L i → mread m' i = mread (u_mem s) i) →
  heap_ok (s <| u_mem := m' |> <| u_freep := pv |>) L' (<[a := nu]> A).
Proof.
  intros He Ha Hm Hring Hso Hsz Hpv' Hsa Hap HL Hfr. pose proof carve_sized as Hcs. destruct carve_split as (l1 & x & q & y & E & _).
  assert (c ∈ L) as Hin by (rewrite E; set_solver).
  assert (∀ a' n', A !! a' = Some n' → a' ≠ a ∧ apart (a', n') (a, nu) ∧ apart (a', n') c) as Hnew.
  { intros a' n' Ha'. pose proof (hk_live_free _ _ _ Hok a' n' c Ha' Hin) as Hx. destruct (hk_live _ _ _ Hok a' n' Ha') as [_ Hz].
    unfold apart, sized, bend in *. simpl in *. split_and!; lia. }
  split; simpl; [apply Hok | done | apply Hok | done | done | done | done | | |].
  - intros a' n' [[<- <-] | [Hne Ha']]%lookup_insert_Some.
    + split; [done |]. unfold sized, bend in *. simpl in *. lia.
    + destruct (hk_live _ _ _ Hok a' n' Ha') as [H1 H2]. split; [| done]. rewrite <-H1. unfold hsize. f_equal. apply mload_ext.
      intros i Hi. apply Hfr. split; [unfold sized in H2; simpl in *; lia |]. apply Forall_forall. intros d Hd.
      pose proof (hk_live_free _ _ _ Hok a' n' d Ha' Hd). unfold apart, sized, bend in *. simpl in *. lia.
  - intros a' n' d [[<- <-] | [Hne Ha']]%lookup_insert_Some Hd; [rewrite Forall_forall in Hap; by apply Hap |].
    destruct (HL d Hd) as [Hd' | Hd']; [by apply (hk_live_free _ _ _ Hok a' n') |].
    destruct (Hnew a' n' Ha') as (_ & _ & Hx). unfold apart, bend in *. simpl in *. lia.
  - intros a1 n1 a2 n2 [[<- <-] | [N1 A1]]%lookup_insert_Some [[<- <-] | [N2 A2]]%lookup_insert_Some Hne; [done | | |].
    + destruct (Hnew a2 n2 A2) as (_ & Hx & _). unfold apart in *. lia.
    + by apply Hnew.
    + by apply (hk_live_live _ _ _ Hok a1 n1).
Qed.

(** The rest of the ring, seen from the block. *)
Lemma carve_rest l1 y : L = l1 ++ c :: y → StronglySorted before (l1 ++ y) ∧
  (∀ d, d ∈ nodes l1 → bend d < c.1 ∧ d.1 + 16 ≤ c.1) ∧ (∀ d, d ∈ y → bend c < d.1) ∧ Forall (sized lo (u_brk s)) (l1 ++ y).
Proof.
  intros E. pose proof (hk_sorted _ _ _ Hok) as Hso. pose proof (hk_free _ _ _ Hok) as Hf. pose proof carve_sized as Hcs.
  pose proof (hk_base _ _ _ Hok) as Hbase. rewrite E in Hso, Hf.
  apply StronglySorted_app in Hso as (I1 & I2 & [I3 I4]%StronglySorted_inv). apply Forall_app in Hf as [F1 [_ F2]%Forall_cons].
  rewrite Forall_forall in I4. split; [| split; [| split]].
  - apply StronglySorted_app_2; [| done | done]. intros d e Hd He. apply I1; [done | by constructor].
  - intros d [-> | Hd]%elem_of_cons; [unfold sized, bend in *; simpl; lia |]. specialize (I1 d c Hd ltac:(by constructor)).
    rewrite Forall_forall in F1. specialize (F1 d Hd). unfold before, sized, bend in *. lia.
  - intros d Hd. by apply I4.
  - by apply Forall_app.
Qed.

Lemma carve_exact l1 x q y : L = l1 ++ c :: y → (base, 0) :: l1 = x ++ [q] → q.1 = pv → c.2 = nu →
  heap_ok (s <| u_mem := set_hptr (u_mem s) pv (hptr (u_mem s) c.1) |> <| u_freep := pv |>) (l1 ++ y) (<[c.1 := nu]> A).
Proof.
  intros E Ex Hq Hn. destruct (carve_rest l1 y E) as (Hso & H1 & H2 & Hsz). pose proof (hk_ring _ _ _ Hok) as Hring.
  pose proof (hk_mem _ _ _ Hok) as Hm. pose proof carve_sized as Hcs. pose proof (nodes_sorted s L A Hok) as Hns.
  assert (∀ d, d ∈ l1 → apart (c.1, nu) d) as A1 by (intros d Hd; specialize (H1 d ltac:(by constructor)); unfold apart; simpl; lia).
  assert (∀ d, d ∈ y → apart (c.1, nu) d) as A2 by (intros d Hd; specialize (H2 d Hd); unfold apart, bend in *; simpl; lia).
  assert (q ∈ nodes L) as Hqn.
  { rewrite E. change (nodes (l1 ++ c :: y)) with (nodes l1 ++ c :: y). rewrite Ex. set_solver. }
  set (m' := set_hptr (u_mem s) pv (hptr (u_mem s) c.1)). assert (same_but q.1 (u_mem s) m') as Hsm by (rewrite Hq; apply same_but_set_hptr).
  apply carve_ok; [unfold bend; simpl; lia | lia | by apply mem_ok_set_hptr | | done | done | | | | |].
  - change (nodes (l1 ++ y)) with (nodes l1 ++ y). rewrite E in Hring, Hns.
    change (nodes (l1 ++ c :: y)) with (nodes l1 ++ c :: y) in Hring, Hns.
    rewrite Ex, <-app_assoc in Hring, Hns |- *. apply seg_app in Hring as [R1 (R2 & R3 & R4 & R5 & R6)].
    apply StronglySorted_app in Hns as (J1 & _ & [J2 J3]%StronglySorted_inv). cbn [app].
    assert (∀ d, d ∈ x → d.1 + 16 ≤ q.1) as Gx.
    { intros d Hd. apply (nodes_gap s L A Hok); [apply J1; [done | by constructor] | | done].
      rewrite E. change (nodes (l1 ++ c :: y)) with (nodes l1 ++ c :: y). rewrite Ex. set_solver. }
    specialize (H1 q ltac:(rewrite Ex; set_solver)). unfold sized, bend in Hcs.
    apply seg_app. split; [eapply (seg_same q.1); [exact Hsm | | exact R1]; apply Forall_forall; intros d Hd; left; by apply Gx |].
    split; [unfold m'; by rewrite <-Hq, hsize_set_hptr |]. split.
    + unfold m'. rewrite Hq, hptr_set; [done |]. by apply load64_range.
    + eapply (seg_same q.1); [exact Hsm | | exact R6]. apply Forall_forall. intros d Hd. specialize (H2 d Hd). unfold bend in H2. lia.
  - change (nodes (l1 ++ y)) with (nodes l1 ++ y). rewrite Ex, <-Hq, fmap_app, fmap_app. set_solver.
  - rewrite <-Hn. unfold m'. specialize (H1 q ltac:(rewrite Ex; set_solver)). rewrite (hsize_same q.1 (u_mem s)) by (done || lia).
    rewrite E in Hring. change (nodes (l1 ++ c :: y)) with (nodes l1 ++ c :: y) in Hring. by apply seg_app in Hring as [_ (? & _)].
  - apply Forall_forall. intros d [Hd | Hd]%elem_of_app; auto.
  - intros d Hd. left. rewrite E. set_solver.
  - intros j Hj. apply Hsm. by apply (node_untouched s L A Hok).
Qed.

Lemma carve_part l1 x q y k : L = l1 ++ c :: y → (base, 0) :: l1 = x ++ [q] → q.1 = pv → k = c.2 - nu → 0 < k →
  heap_ok (s <| u_mem := set_hsize (set_hsize (u_mem s) c.1 k) (c.1 + 16 * k) nu |> <| u_freep := pv |>)
    (l1 ++ (c.1, k) :: y) (<[c.1 + 16 * k := nu]> A).
Proof.
  intros E Ex Hq Hk H0. destruct (carve_rest l1 y E) as (Hso & H1 & H2 & Hsz). pose proof (hk_ring _ _ _ Hok) as Hring.
  pose proof (hk_mem _ _ _ Hok) as Hm. pose proof carve_sized as Hcs. pose proof (hk_brk _ _ _ Hok) as Hbrk. pose proof (hk_base _ _ _ Hok) as Hbase.
  set (a := c.1 + 16 * k). set (m1 := set_hsize (u_mem s) c.1 k). set (m2 := set_hsize m1 a nu).
  assert (same_but c.1 (u_mem s) m1) as S1 by apply same_but_set_hsize.
  assert (same_but a m1 m2) as S2 by apply same_but_set_hsize.
  assert (bend (a, nu) = bend c) as He by (unfold bend, a; simpl; lia). unfold sized, bend in Hcs.
  apply carve_ok; [done | unfold a; lia | by apply mem_ok_set_hsize, mem_ok_set_hsize | | | | | | | |].
  - change (nodes (l1 ++ (c.1, k) :: y)) with (nodes l1 ++ (c.1, k) :: y). rewrite E in Hring.
    change (nodes (l1 ++ c :: y)) with (nodes l1 ++ c :: y) in Hring. apply seg_app in Hring as [R1 (R2 & R3 & R4)].
    eapply (seg_same a m1); [exact S2 | |].
    + apply Forall_app. split; [| constructor; [unfold a; simpl; lia |]]; apply Forall_forall; intros d Hd.
      * specialize (H1 d Hd). unfold a. lia.
      * specialize (H2 d Hd). unfold bend in *. unfold a in *. lia.
    + apply seg_app. split; [eapply (seg_same c.1); [exact S1 | | exact R1]; apply Forall_forall; intros d Hd; left; by apply H1 |].
      split; [apply (hsize_set _ _ k); lia |]. split; [unfold m1; rewrite hptr_set_hsize; exact R3 |].
      eapply (seg_same c.1); [exact S1 | | exact R4]. apply Forall_forall. intros d Hd. specialize (H2 d Hd). unfold bend in H2. lia.
  - apply StronglySorted_app in Hso as (J1 & J2 & J3). apply StronglySorted_app_2; [| done |].
    + intros d e Hd [-> | He']%elem_of_cons; [| by apply J1]. destruct (H1 d ltac:(by constructor)). done.
    + constructor; [done |]. apply Forall_forall. intros d Hd. specialize (H2 d Hd). unfold before, bend in *. simpl. lia.
  - apply Forall_app in Hsz as [Z1 Z2]. apply Forall_app. split; [done |]. constructor; [| done]. unfold sized, bend. simpl. lia.
  - change (nodes (l1 ++ (c.1, k) :: y)) with (nodes l1 ++ (c.1, k) :: y). rewrite Ex, <-Hq, fmap_app, fmap_app. set_solver.
  - apply hsize_set. lia.
  - apply Forall_app. split; [| constructor; [right; unfold bend, a; simpl; lia |]]; apply Forall_forall; intros d Hd.
    + specialize (H1 d ltac:(by constructor)). right. unfold bend, a in *. simpl. lia.
    + specialize (H2 d Hd). left. rewrite He. unfold bend in *. lia.
  - intros d [Hd | [-> | Hd]%elem_of_cons]%elem_of_app; [left; rewrite E; set_solver | | left; rewrite E; set_solver].
    right. split; [done |]. unfold bend. simpl. lia.
  - intros j [Hj Hall]. rewrite Forall_forall in Hall. specialize (Hall c ltac:(rewrite E; set_solver)). unfold bend in Hall.
    rewrite S2, S1; [done | lia | unfold a; lia].
Qed.

Lemma carve_done : ∃ a s' L', carve nu pv c.1 s = (a + HEADER, s') ∧ heap_ok s' L' (<[a := nu]> A) ∧ A !! a = None ∧
  u_brk s' = u_brk s ∧ kept s L s'.
Proof.
  assert (∀ a, c.1 ≤ a < bend c → A !! a = None) as Hnone.
  { intros a Ha. destruct (A !! a) as [n |] eqn:En; [| done]. destruct carve_split as (l1 & x & q & y & E & _).
    pose proof (hk_live_free _ _ _ Hok a n c En ltac:(rewrite E; set_solver)). destruct (hk_live _ _ _ Hok a n En) as [_ Hz].
    unfold apart, sized, bend in *. simpl in *. lia. }
  pose proof carve_sized as Hcs. pose proof (hk_brk _ _ _ Hok) as Hbrk. pose proof (hk_base _ _ _ Hok) as Hbase.
  destruct carve_split as (l1 & x & q & y & E & Ex & Hq). pose proof (hk_ring _ _ _ Hok) as Hring. rewrite E in Hring.
  change (nodes (l1 ++ c :: y)) with (nodes l1 ++ c :: y) in Hring. apply seg_app in Hring as [_ (R2 & _)].
  unfold carve. rewrite R2. destruct (Z.eqb_spec c.2 nu) as [En | En].
  - exists c.1, (s <| u_mem := set_hptr (u_mem s) pv (hptr (u_mem s) c.1) |> <| u_freep := pv |>), (l1 ++ y).
    split; [done |]. split; [by eapply carve_exact |]. split; [apply Hnone; unfold sized, bend in *; lia |]. split; [done |].
    intros j Hj _. apply (same_but_set_hptr pv), (node_untouched s L A Hok (pv, q.2)); [| done].
    rewrite <-Hq, E. change (nodes (l1 ++ c :: y)) with (nodes l1 ++ c :: y). rewrite Ex. destruct q. set_solver.
  - set (k := c.2 - nu). unfold sized, bend in Hcs. rewrite u32_small by (unfold k; lia). rewrite hsize_set by lia.
    exists (c.1 + 16 * k). do 2 eexists. split; [reflexivity |]. split; [eapply (carve_part l1 x q y k); try done; unfold k; lia |].
    split; [apply Hnone; unfold bend, k; lia |]. split; [done |].
    intros j [_ Hall] _. rewrite Forall_forall in Hall. specialize (Hall c ltac:(rewrite E; set_solver)). unfold bend in Hall.
    transitivity (mread (set_hsize (u_mem s) c.1 k) j); [apply (same_but_set_hsize (c.1 + 16 * k)) | apply (same_but_set_hsize c.1)]; unfold k; lia.
Qed.
End carve.

(** *** The search for a block *)

(** What the loop does when it is back at [freep]. *)
Definition more (fuel : nat) (nu : Z) (s : ust) : option (Z * ust) :=
  r ← morecore grow nu s;
  let '(p, s) := r in
  if p =? 0 then Some (0, s) else malloc_loop grow fuel nu p (hptr (u_mem s) p) s.

Lemma search_from s L nu f next R : ∀ pv fuel,
  seg (u_mem s) (R ++ [f]) next → (∀ c, c ∈ R ++ [f] → c ∈ nodes L) → f.1 = u_freep s → Forall (λ c, c.1 ≠ u_freep s) R →
  pv ∈ (nodes L).*1 → hptr (u_mem s) pv = first (R ++ [f]) next → (length R < fuel)%nat →
  (∃ pv' c, c ∈ nodes L ∧ nu ≤ c.2 ∧ pv' ∈ (nodes L).*1 ∧ hptr (u_mem s) pv' = c.1 ∧
    malloc_loop grow fuel nu pv (first (R ++ [f]) next) s = Some (carve nu pv' c.1 s)) ∨
  (Forall (λ c, c.2 < nu) (R ++ [f]) ∧
    malloc_loop grow fuel nu pv (first (R ++ [f]) next) s = more (fuel - S (length R)) nu s).
Proof.
  assert (∀ fuel pv c, hsize (u_mem s) c.1 = c.2 → nu ≤ c.2 → malloc_loop grow (S fuel) nu pv c.1 s = Some (carve nu pv c.1 s)) as Hfound.
  { intros fuel pv c Hc Hle. cbn [malloc_loop]. unfold carve. rewrite Hc, (proj2 (Z.leb_le _ _)) by done. by case_match. }
  induction R as [| c R IH]; intros pv [| fuel] Hseg Hin Hf Hne Hpv Hp Hfuel; simpl in Hfuel; [lia | | lia |].
  - simpl in *. destruct Hseg as (S1 & S2 & _). destruct (decide (nu ≤ f.2)) as [Hle | Hlt].
    + left. exists pv, f. split; [apply Hin; by constructor |]. split; [done |]. split; [done |]. split; [done |]. by apply Hfound.
    + right. split; [by apply Forall_singleton; lia |]. cbn [malloc_loop]. rewrite S1, (proj2 (Z.leb_gt _ _)), Hf, Z.eqb_refl by lia.
      by rewrite Nat.sub_0_r.
  - cbn [app first seg] in *. destruct Hseg as (S1 & S2 & S3). apply Forall_cons in Hne as [Hc Hne]. destruct (decide (nu ≤ c.2)) as [Hle | Hlt].
    + left. exists pv, c. split; [apply Hin; by constructor |]. split; [done |]. split; [done |]. split; [done |]. by apply Hfound.
    + assert (malloc_loop grow (S fuel) nu pv c.1 s = malloc_loop grow fuel nu c.1 (first (R ++ [f]) next) s) as ->.
      { cbn [malloc_loop]. rewrite S1, (proj2 (Z.leb_gt _ _)), (proj2 (Z.eqb_neq _ _)), S2 by (done || lia). done. }
      destruct (IH c.1 fuel) as [(pv' & d & Hd) | [Hall Hrun]]; try done; [intros d Hd; apply Hin; by constructor | | lia | | ].
      * apply list_elem_of_fmap. exists c. split; [done |]. apply Hin. by constructor.
      * left. by exists pv', d.
      * right. split; [constructor; [lia | done] |]. exact Hrun.
Qed.

(** From [freep] once round the ring. *)
Lemma search_ring s L A nu fuel : heap_ok s L A → (length (nodes L) ≤ fuel)%nat →
  let run := malloc_loop grow fuel nu (u_freep s) (hptr (u_mem s) (u_freep s)) s in
  (∃ pv c, c ∈ nodes L ∧ nu ≤ c.2 ∧ pv ∈ (nodes L).*1 ∧ hptr (u_mem s) pv = c.1 ∧ run = Some (carve nu pv c.1 s)) ∨
  (Forall (λ c, c.2 < nu) (nodes L) ∧ run = more (fuel - length (nodes L)) nu s).
Proof.
  intros Hok Hfuel run. pose proof (hk_freep _ _ _ Hok) as Hin. change (base :: L.*1) with ((nodes L).*1) in Hin.
  pose proof Hin as (f & Hf & Hfn)%list_elem_of_fmap. apply list_elem_of_split in Hfn as (k1 & k2 & E).
  pose proof (hk_ring _ _ _ Hok) as Hr. pose proof (nodes_sized s L A Hok) as Hz.
  pose proof (sorted_increasing _ (nodes_sorted s L A Hok) ltac:(eapply Forall_impl; [exact Hz |]; simpl; lia)) as Hinc.
  assert (first (nodes L) base = base) as Hfb by done. rewrite E in Hr, Hinc, Hfb.
  apply seg_app in Hr as [R1 (R2 & R3 & R4)]. apply StronglySorted_app in Hinc as (I1 & _ & [_ I2]%StronglySorted_inv).
  assert (first (k1 ++ [f]) base = base) as Hfb' by (destruct k1; [exact Hfb | exact Hfb]).
  assert (first ((k2 ++ k1) ++ [f]) (first k2 base) = first k2 base) as Hfirst.
  { rewrite <-app_assoc, first_app. destruct k2; [by destruct k1 | done]. }
  assert (length (nodes L) = S (length (k2 ++ k1))) as Hlen by (rewrite E, !length_app; simpl; lia).
  unfold run. rewrite Hlen in *. rewrite Hf, R3, <-Hfirst.
  destruct (search_from s L nu f (first k2 base) (k2 ++ k1) f.1 fuel) as [Hl | [Hall Hrun]].
  - rewrite <-app_assoc. apply seg_app. split.
    + replace (first (k1 ++ [f]) (first k2 base)) with base; [done |]. destruct k1; simpl in *; congruence.
    + apply seg_app. split; [exact R1 |]. simpl. rewrite R3. split; [done | split; [| done]]. done.
  - intros c Hc. rewrite E. set_solver.
  - done.
  - rewrite Hf. apply Forall_forall. intros c [Hc | Hc]%elem_of_app.
    + rewrite Forall_forall in I2. specialize (I2 c Hc). simpl in I2. lia.
    + specialize (I1 c f Hc ltac:(by constructor)). simpl in I1. lia.
  - by rewrite <-Hf.
  - by rewrite R3, Hfirst.
  - lia.
  - by left.
  - right. split; [| exact Hrun]. rewrite E. apply Forall_forall. intros c Hc. rewrite Forall_forall in Hall. apply Hall. set_solver.
Qed.

Lemma malloc_loop_done s L A nu : heap_ok s L A → 1 ≤ nu → nu * 16 < 2 ^ 31 →
  ∃ r s', malloc_loop grow (S (rounds s)) nu (u_freep s) (hptr (u_mem s) (u_freep s)) s = Some (r, s') ∧
    ((r = 0 ∧ s' = s ∧ grow (u_brk s) (Z.max nu 4096 * 16) = false) ∨
     ∃ a L', r = a + 16 ∧ A !! a = None ∧ heap_ok s' L' (<[a := nu]> A) ∧ u_brk s ≤ u_brk s' ∧ kept s L s').
Proof.
  intros Hok H1 H2. pose proof (nodes_length s L A Hok) as Hlen. pose proof (hk_base _ _ _ Hok) as Hbase.
  destruct (search_ring s L A nu (S (rounds s)) Hok) as [(pv & c & Hc & Hn & Hpv & Hp & ->) | [_ ->]]; [lia | |].
  { destruct (carve_done s L A pv c nu Hok Hc ltac:(lia) Hpv Hp) as (a & s' & L' & -> & Hok' & Hnone & Hb & Hk).
    exists (a + 16), s'. split; [done |]. right. exists a, L'. split_and!; try done. lia. }
  unfold more. destruct (morecore_done s L A nu Hok H1 H2) as [[-> Hg] | (s1 & b & -> & Hb1 & Hb2 & Hok1 & Hbrk1 & Hk1)].
  { exists 0, s. split; [done |]. by left. }
  cbn [mbind option_bind]. pose proof (hk_freep _ _ _ Hok1) as Hf1. pose proof (nodes_sized s1 _ A Hok1) as Hz1. rewrite Forall_forall in Hz1.
  assert (u_freep s1 ≠ 0) as Hf0.
  { change (base :: (insert_block b L).*1) with ((nodes (insert_block b L)).*1) in Hf1. apply list_elem_of_fmap in Hf1 as (f & -> & Hf).
    specialize (Hz1 f Hf). lia. }
  rewrite (proj2 (Z.eqb_neq _ _)) by done. pose proof (insert_length b L) as Hil.
  destruct (search_ring s1 (insert_block b L) A nu (S (rounds s) - length (nodes L)) Hok1)
    as [(pv & c & Hc & Hn & Hpv & Hp & ->) | [Hall _]]; [simpl in *; lia | |].
  - destruct (carve_done s1 _ A pv c nu Hok1 Hc ltac:(lia) Hpv Hp) as (a & s' & L' & -> & Hok' & Hnone & Hb & Hk).
    exists (a + 16), s'. split; [done |]. right. exists a, L'. split_and!; try done; [lia |].
    intros i [Hi Ha] Hlt. rewrite Hk, Hk1; [done | done | done | | lia]. split; [done |].
    apply insert_Forall; [apply joins_outside | lia | done].
  - exfalso. destruct (insert_room b L) as (c & Hc & Hle); [| lia |].
    { eapply Forall_impl; [apply (hk_free _ _ _ Hok) |]. intros d. unfold sized. lia. }
    rewrite Forall_forall in Hall. specialize (Hall c ltac:(by constructor)). simpl in Hall. lia.
Qed.
End heap.
