(* ===== verification/UmallocTop.v ===== *)
(** * The heap that malloc and free provide (user/umalloc.c)

    A program calls malloc, free and sbrk and writes into the blocks it was given.
    In every state it can reach, its blocks are disjoint and hold what it wrote in
    them, and every call returns. *)

From S2P Require Import Prelude Machine Umalloc UmallocSpec.

(** ** A program that uses the heap *)

Inductive uop :=
  | OMalloc (n : Z)
  | OFree (ap : Z)
  | OWrite (ap : Z) (off : nat) (bs : list Z)
  | OSbrk (n : Z).

Definition urun (base : Z) (grow : Z → Z → bool) (op : uop) (s : ust) : option (Z * ust) :=
  match op with
  | OMalloc n => malloc base grow n s
  | OFree ap => s ← free ap s; Some (0, s)
  | OWrite ap off bs => Some (0, s <| u_mem ::= λ m, mstore m (ap + Z.of_nat off) bs |>)
  | OSbrk n => Some (sbrk grow n s)
  end.

(** The blocks of the program: their addresses and what was stored in them. *)
Abbreviation blocks := (gmap Z (list Z)).

(** The calls that a correct program makes; a request is below 2 GB. *)
Definition allowed (V : blocks) (op : uop) : Prop :=
  match op with
  | OMalloc n => 0 ≤ n ≤ 2 ^ 31 - 32
  | OFree ap => is_Some (V !! ap)
  | OWrite ap off bs => ∃ c, V !! ap = Some c ∧ (off + length bs ≤ length c)%nat ∧ Forall is_byte bs
  | OSbrk n => 0 ≤ n
  end.

(** The blocks after a call that returned [r]. *)
Definition after (V : blocks) (op : uop) (r : Z) (s' : ust) : blocks :=
  match op with
  | OMalloc n => if r =? 0 then V else <[r := mload (u_mem s') r (Z.to_nat n)]> V
  | OFree ap => delete ap V
  | OWrite ap off bs => alter (λ c, splice c off bs) ap V
  | OSbrk n => V
  end.

Section top.
Context (base lo : Z) (grow : Z → Z → bool).

Inductive reach : ust → blocks → Prop :=
  | reach_start m : mem_ok m → reach (mkUst m 0 lo) ∅
  | reach_step s V op r s' : reach s V → allowed V op → urun base grow op s = Some (r, s') →
      reach s' (after V op r s').

Hypothesis Hbase : 0 < base ∧ base + 16 ≤ lo ≤ 2 ^ 36.
Hypothesis Hgrow : ∀ k n, grow k n = true → k + n ≤ 2 ^ 36.

(** The bytes that a request of [n] bytes asks the kernel for. *)
Definition request (n : Z) : Z := Z.max ((n + 15) / 16 + 1) 4096 * 16.

(** ** The invariant *)

(** Before the first call of malloc there is no ring. *)
Definition heap_state (s : ust) (A : gmap Z Z) : Prop :=
  (u_freep s = 0 ∧ A = ∅ ∧ mem_ok (u_mem s) ∧ lo ≤ u_brk s ≤ 2 ^ 36) ∨ ∃ L, heap_ok base lo s L A.

(** Block [r] of the program is inside a block in use and holds [c]. *)
Definition stored (s : ust) (A : gmap Z Z) (r : Z) (c : list Z) : Prop :=
  ∃ n, A !! (r - 16) = Some n ∧ 16 + Z.of_nat (length c) ≤ 16 * n ∧ mload (u_mem s) r (length c) = c.

Definition heap_inv (s : ust) (V : blocks) : Prop :=
  ∃ A, heap_state s A ∧ ∀ r c, V !! r = Some c → stored s A r c.

(** The bytes of a block in use are in no free block. *)
Lemma live_untouched s L A a n i : heap_ok base lo s L A → A !! a = Some n → a ≤ i < a + 16 * n → untouched lo L i ∧ i < u_brk s.
Proof.
  intros Hok Ha Hi. destruct (hk_live _ _ _ _ _ Hok a n Ha) as [_ Hz]. unfold sized, bend in Hz. simpl in Hz. split; [| lia].
  split; [lia |]. apply Forall_forall. intros c Hc. pose proof (hk_live_free _ _ _ _ _ Hok a n c Ha Hc). unfold apart, bend in *. simpl in *. lia.
Qed.

Lemma stored_kept s L A A' s' r c : heap_ok base lo s L A → (∀ a n, A !! a = Some n → A' !! a = Some n) → kept lo s L s' →
  stored s A r c → stored s' A' r c.
Proof.
  intros Hok HA Hk (n & H1 & H2 & H3). exists n. split; [by apply HA |]. split; [done |]. rewrite <-H3 at 2. apply mload_ext.
  intros i Hi. destruct (live_untouched s L A (r - 16) n i Hok H1) as [Hu Hb]; [lia |]. by apply Hk.
Qed.

(** The first call makes a ring of [base] alone. *)
Lemma first_malloc s : mem_ok (u_mem s) → lo ≤ u_brk s ≤ 2 ^ 36 →
  heap_ok base lo (s <| u_mem ::= λ m, set_hsize (set_hptr m base base) base 0 |> <| u_freep := base |>) [] ∅.
Proof.
  intros Hm Hb. split; simpl; try done.
  - lia.
  - by apply mem_ok_set_hsize, mem_ok_set_hptr.
  - split; [by apply hsize_set |]. split; [| done]. rewrite hptr_set_hsize. apply hptr_set. lia.
  - constructor.
  - by constructor.
Qed.

Lemma malloc_done s V n : heap_inv s V → 0 ≤ n ≤ 2 ^ 31 - 32 →
  ∃ r s', malloc base grow n s = Some (r, s') ∧ heap_inv s' (after V (OMalloc n) r s') ∧
    (r = 0 → grow (u_brk s) (request n) = false) ∧ (r ≠ 0 → V !! r = None).
Proof.
  intros (A & Hst & HV) Hn. set (nu := u32 ((n + HEADER - 1) / HEADER + 1)).
  assert (nu = (n + 15) / 16 + 1 ∧ 1 ≤ nu ∧ nu * 16 < 2 ^ 31 ∧ 16 + n ≤ 16 * nu) as (Enu & N1 & N2 & N3).
  { unfold nu. change HEADER with 16. replace (n + 16 - 1) with (n + 15) by lia.
    rewrite u32_small by (Z.to_euclidean_division_equations; lia). Z.to_euclidean_division_equations; lia. }
  assert (∃ s1 L, heap_ok base lo s1 L A ∧ u_brk s1 = u_brk s ∧ (∀ r c, V !! r = Some c → stored s1 A r c) ∧
    malloc base grow n s = malloc_loop grow (S (rounds s1)) nu (u_freep s1) (hptr (u_mem s1) (u_freep s1)) s1) as (s1 & L & Hok & Hb1 & HV1 & ->).
  { unfold malloc. destruct Hst as [(Hf & -> & Hm & Hb) | [L Hok]].
    - rewrite Hf, Z.eqb_refl. do 2 eexists. split; [by apply first_malloc |]. split; [done |]. split; [| done].
      intros r c Hr. by destruct (HV r c Hr) as (? & [=] & _).
    - exists s, L. rewrite (proj2 (Z.eqb_neq _ _)); [by split_and! |]. pose proof (hk_freep _ _ _ _ _ Hok) as Hin.
      pose proof (nodes_base base lo s L A Hok) as Hnb. change (base :: L.*1) with (((base, 0) :: L).*1) in Hin.
      apply list_elem_of_fmap in Hin as (f & -> & Hf). specialize (Hnb f Hf). lia. }
  destruct (malloc_loop_done base lo grow Hgrow s1 L A nu Hok N1 N2) as (r & s' & Hrun & [(-> & -> & Hg) | (a & L' & -> & Hnone & Hok' & Hbrk & Hk)]).
  - exists 0, s1. split; [done |]. split; [| split; [intros _; unfold request; by rewrite <-Hb1, <-Enu | done]].
    exists A. split; [right; by exists L | done].
  - exists (a + 16), s'. split; [done |]. destruct (hk_live _ _ _ _ _ Hok' a nu ltac:(by rewrite lookup_insert_eq)) as [_ Hz].
    unfold sized, bend in Hz. simpl in Hz. split; [| split; [lia |]].
    + exists (<[a := nu]> A). split; [right; by exists L' |]. unfold after. rewrite (proj2 (Z.eqb_neq _ _)) by lia.
      intros r c [[<- <-] | [Hne Hr]]%lookup_insert_Some.
      * exists nu. rewrite length_mload. replace (a + 16 - 16) with a by lia. rewrite lookup_insert_eq. split; [done |]. split; [lia | done].
      * eapply (stored_kept s1 L A); [done | | done | by apply HV1]. intros a' n' Ha'. rewrite lookup_insert_ne; [done |]. by intros ->; rewrite Hnone in Ha'.
    + intros _. destruct (V !! (a + 16)) as [c |] eqn:E; [| done]. destruct (HV1 _ _ E) as (n' & Hn' & _).
      replace (a + 16 - 16) with a in Hn' by lia. by rewrite Hnone in Hn'.
Qed.

Lemma heap_ok_delete s L A a : heap_ok base lo s L A → heap_ok base lo s L (delete a A).
Proof.
  intros [H1 H2 H3 H4 H5 H6 H7 H8 H9 H10]. split; try done.
  - intros a' n [_ Ha]%lookup_delete_Some. by apply H8.
  - intros a' n c [_ Ha]%lookup_delete_Some. by apply H9.
  - intros a1 n1 a2 n2 [_ A1]%lookup_delete_Some [_ A2]%lookup_delete_Some. by apply H10.
Qed.

Lemma free_call s V ap : heap_inv s V → is_Some (V !! ap) → ∃ s', free ap s = Some s' ∧ heap_inv s' (delete ap V).
Proof.
  intros (A & Hst & HV) [c Hc]. destruct (HV ap c Hc) as (n & Hn & _ & _).
  destruct Hst as [(_ & -> & _) | [L Hok]]; [done |]. pose proof (heap_ok_delete s L A (ap - 16) Hok) as Hok1.
  destruct (hk_live _ _ _ _ _ Hok _ _ Hn) as [Hs Hz].
  destruct (free_done base lo s L (delete (ap - 16) A) (ap - 16, n)) as (s' & Hrun & Hok' & _ & Hk); [done | done | done | | |].
  - apply Forall_forall. intros d Hd. by apply (hk_live_free _ _ _ _ _ Hok _ _ d Hn).
  - intros a' n' [Hne Ha']%lookup_delete_Some. by apply (hk_live_live _ _ _ _ _ Hok _ _ _ _ Hn Ha').
  - exists s'. change ((ap - 16, n).1 + HEADER) with (ap - 16 + 16) in Hrun. replace (ap - 16 + 16) with ap in Hrun by lia.
    split; [done |]. exists (delete (ap - 16) A). split; [right; by eexists |]. intros r d [Hne Hd]%lookup_delete_Some.
    destruct (HV r d Hd) as (n' & H1 & H2 & H3). exists n'. rewrite lookup_delete_ne by lia. split; [done |]. split; [done |].
    rewrite <-H3 at 2. apply mload_ext. intros i Hi. destruct (live_untouched s L A (r - 16) n' i Hok H1) as [Hu _]; [lia |].
    apply Hk; [done |]. pose proof (hk_live_live _ _ _ _ _ Hok _ _ _ _ Hn H1 ltac:(lia)). unfold apart, bend in *. simpl in *. lia.
Qed.

Lemma write_call s V ap off bs c : heap_inv s V → V !! ap = Some c → (off + length bs ≤ length c)%nat → Forall is_byte bs →
  heap_inv (s <| u_mem ::= λ m, mstore m (ap + Z.of_nat off) bs |>) (alter (λ c, splice c off bs) ap V).
Proof.
  intros (A & Hst & HV) Hc Hl Hb. destruct (HV ap c Hc) as (n & Hn & Hn' & Hm).
  destruct Hst as [(_ & -> & _) | [L Hok]]; [done |]. destruct (hk_live _ _ _ _ _ Hok _ _ Hn) as [Hs Hz]. unfold sized, bend in Hz. simpl in Hz.
  assert (∀ i, i < ap ∨ ap - 16 + 16 * n ≤ i → mread (mstore (u_mem s) (ap + Z.of_nat off) bs) i = mread (u_mem s) i) as Hout
    by (intros i Hi; apply mread_mstore_out; lia).
  exists A. split; [right; exists L; apply heap_ok_mem; [done | apply mem_ok_mstore; [apply Hok | done] |] |].
  - intros i Hi. apply Hout. destruct Hi as [(d & [-> | Hd]%elem_of_cons & Hi) | (a & [n' Ha] & Hi)].
    + pose proof (hk_base _ _ _ _ _ Hok). simpl in Hi. lia.
    + pose proof (hk_live_free _ _ _ _ _ Hok _ _ d Hn Hd) as Hx. pose proof (hk_free _ _ _ _ _ Hok) as Hf. rewrite Forall_forall in Hf.
      specialize (Hf d Hd). unfold apart, sized, bend in *. simpl in *. lia.
    + destruct (decide (a = ap - 16)) as [-> | Hne]; [lia |]. destruct (hk_live _ _ _ _ _ Hok _ _ Ha) as [_ Hza].
      pose proof (hk_live_live _ _ _ _ _ Hok _ _ _ _ Hn Ha ltac:(done)). unfold apart, sized, bend in *. simpl in *. lia.
  - intros r d Hr. destruct (decide (r = ap)) as [-> | Hne].
    + rewrite lookup_alter_eq, Hc in Hr. injection Hr as <-. exists n. rewrite length_splice by done. split; [done |]. split; [done |].
      simpl. rewrite mload_mstore_in by done. by rewrite Hm.
    + rewrite lookup_alter_ne in Hr by done. destruct (HV r d Hr) as (n' & H1 & H2 & H3). exists n'. split; [done |]. split; [done |].
      rewrite <-H3 at 2. apply mload_ext. intros i Hi. apply Hout.
      pose proof (hk_live_live _ _ _ _ _ Hok _ _ _ _ Hn H1 ltac:(lia)). unfold apart, bend in *. simpl in *. lia.
Qed.

Lemma sbrk_call s V n : heap_inv s V → 0 ≤ n → heap_inv (sbrk grow n s).2 V.
Proof.
  intros (A & Hst & HV) Hn. unfold sbrk. destruct (Z.ltb_spec 0 n) as [H0 | H0]; [| rewrite (proj2 (Z.ltb_ge n 0)) by lia; by exists A].
  destruct (grow (u_brk s) n) eqn:Eg; [| by exists A]. apply Hgrow in Eg. exists A. split; [| done].
  destruct Hst as [(H1 & H2 & H3 & H4) | [L Hok]]; [left; split_and!; simpl; done || lia |]. right. exists L.
  apply heap_ok_brk; [done | lia].
Qed.

Lemma reach_inv s V : reach s V → heap_inv s V.
Proof.
  induction 1 as [m Hm | s V op r s' _ IH Hal Hrun].
  { exists ∅. split; [left; split_and!; simpl; done || lia |]. intros r c [=]. }
  destruct op as [n | ap | ap off bs | n]; simpl in Hal, Hrun |- *.
  - destruct (malloc_done s V n IH Hal) as (r' & s'' & Hr & Hi & _). rewrite Hr in Hrun. injection Hrun as <- <-. exact Hi.
  - destruct (free_call s V ap IH Hal) as (s'' & Hr & Hi). rewrite Hr in Hrun. injection Hrun as <- <-. exact Hi.
  - destruct Hal as (c & Hc & Hl & Hb). injection Hrun as <- <-. by eapply write_call.
  - injection Hrun as E. pose proof (sbrk_call s V n IH Hal) as Hi. by rewrite E in Hi.
Qed.

(** C19: a program that frees only blocks it was given, writes only inside them and
    asks for less than 2 GB at a time sees a heap.  Its blocks lie in its memory, never
    overlap, and hold what it wrote in them, whatever malloc, free and sbrk did
    since; each of its calls returns, and malloc gives a new block unless the kernel
    refuses the memory. *)
Theorem malloc_provides_heap s V : reach s V →
  (∀ r c, V !! r = Some c → lo ≤ r ∧ r + Z.of_nat (length c) ≤ u_brk s ∧ mload (u_mem s) r (length c) = c) ∧
  (∀ r c r' c', V !! r = Some c → V !! r' = Some c' → r ≠ r' →
    r + Z.of_nat (length c) ≤ r' ∨ r' + Z.of_nat (length c') ≤ r) ∧
  (∀ op, allowed V op → ∃ r s', urun base grow op s = Some (r, s') ∧
    match op with
    | OMalloc n => if r =? 0 then grow (u_brk s) (request n) = false else V !! r = None
    | _ => True
    end).
Proof.
  intros Hr. pose proof (reach_inv s V Hr) as Hinv. pose proof Hinv as (A & Hst & HV). split; [| split].
  - intros r c Hc. destruct (HV r c Hc) as (n & H1 & H2 & H3). destruct Hst as [(_ & -> & _) | [L Hok]]; [done |].
    destruct (hk_live _ _ _ _ _ Hok _ _ H1) as [_ Hz]. unfold sized, bend in Hz. simpl in Hz. split_and!; done || lia.
  - intros r c r' c' Hc Hc' Hne. destruct (HV r c Hc) as (n & H1 & H2 & _), (HV r' c' Hc') as (n' & H1' & H2' & _).
    destruct Hst as [(_ & -> & _) | [L Hok]]; [done |]. pose proof (hk_live_live _ _ _ _ _ Hok _ _ _ _ H1 H1' ltac:(lia)).
    unfold apart, bend in *. simpl in *. lia.
  - intros [n | ap | ap off bs | n] Hal.
    + destruct (malloc_done s V n Hinv Hal) as (r & s' & Hrun & _ & H0 & H1). exists r, s'. split; [done |].
      destruct (Z.eqb_spec r 0) as [-> | Hne]; [by apply H0 | by apply H1].
    + destruct (free_call s V ap Hinv Hal) as (s' & Hrun & _). exists 0, s'. split; [| done]. unfold urun. by rewrite Hrun.
    + by eexists _, _.
    + simpl. by destruct (sbrk grow n s) as [r s'] eqn:E; exists r, s'.
Qed.
End top.

(** A process of five pages in a machine with memory for 16 more. *)
Definition some_memory (k n : Z) : bool := k + n <=? 21 * 4096.
Definition small : ust := mkUst ∅ 0 20480.
Definition small_malloc : Z * ust := default (0, small) (malloc 4096 some_memory 100 small).

Lemma malloc_provides_heap_witness :
  ∃ c, (∀ op, allowed (after ∅ (OMalloc 100) small_malloc.1 small_malloc.2) op →
      ∃ r s', urun 4096 some_memory op small_malloc.2 = Some (r, s')) ∧
    after ∅ (OMalloc 100) small_malloc.1 small_malloc.2 !! small_malloc.1 = Some c ∧ length c = 100%nat.
Proof.
  assert (reach 4096 20480 some_memory small_malloc.2 (after ∅ (OMalloc 100) small_malloc.1 small_malloc.2)) as Hr.
  { apply (reach_step 4096 20480 some_memory small ∅ (OMalloc 100)).
    - apply reach_start. intros a. unfold mread. rewrite lookup_empty. unfold is_byte. simpl. lia.
    - simpl. lia.
    - vm_compute. reflexivity. }
  destruct (malloc_provides_heap 4096 20480 some_memory ltac:(lia)
    ltac:(intros k n H; unfold some_memory in H; lia) _ _ Hr) as (_ & _ & H).
  eexists. split; [| split; [vm_compute; reflexivity | reflexivity]].
  intros op Hop. destruct (H op Hop) as (r & s' & Hrun & _). by exists r, s'.
Defined.

(** The size passed to sbrk is truncated to an int.  A request for 2^32 - 1
    bytes makes the process 16 bytes larger, malloc reports success, and the block
    it returns begins where the memory ends. *)
Theorem huge_malloc_has_no_room : ∃ r s', malloc 4096 some_memory (2 ^ 32 - 1) small = Some (r, s') ∧
  r = 20496 ∧ u_brk s' = r.
Proof. eexists _, _. split; [vm_compute; reflexivity |]. split; [reflexivity | vm_compute; reflexivity]. Qed.
