(* ===== verification/Mkfs.v ===== *)
(** * The file system image builder (mkfs/mkfs.c)

    The program writes an image sector by sector.  The state is the image file, a
    list of sectors, and the two counters of the program; the host's files are
    arguments, each as the pieces its [read] calls return.  The host is little
    endian, as the code assumes where it uses the super block it has written. *)

From S2P Require Import Prelude Machine Kstate Strings Fs.

(** ** A state monad with exit *)

Record mkst := mkMk {
  mk_img : list (list Z);
  mk_freeinode : Z;
  mk_freeblock : Z;
}.
#[global] Instance mkst_settable : Settable mkst := λ s, mkMk (mk_img s) (mk_freeinode s) (mk_freeblock s).

Inductive mkres (A : Type) :=
  | MOk (a : A) (s : mkst)
  | MDie (msg : string).
#[global] Arguments MOk {A} a s.
#[global] Arguments MDie {A} msg.

Definition Mk (A : Type) : Type := mkst → mkres A.
#[global] Instance Mk_ret : MRet Mk := λ A a s, MOk a s.
#[global] Instance Mk_bind : MBind Mk := λ A B f m s,
  match m s with MOk a s' => f a s' | MDie msg => MDie msg end.

Definition die {A} (msg : string) : Mk A := λ _, MDie msg.
(** The C macro, which ends the program. *)
Definition massert (b : bool) : Mk unit := if b then mret tt else die "assert".

(** ** Byte order *)

Definition xshort (x : Z) : Z := le_val [u8 x; u8 (Z.shiftr x 8)].
Definition xint (x : Z) : Z :=
  le_val [u8 x; u8 (Z.shiftr x 8); u8 (Z.shiftr x 16); u8 (Z.shiftr x 24)].

(** ** The layout *)

Definition NINODES : Z := 200.
Definition nbitmap : Z := FSSIZE / BPB + 1.
Definition ninodeblocks : Z := NINODES / IPB + 1.
Definition nlog : Z := Z.of_nat LOGBLOCKS + 1.
Definition nmeta : Z := 2 + nlog + ninodeblocks + nbitmap.
Definition nblocks : Z := FSSIZE - nmeta.

Definition mksb : superblock :=
  mkSuperblock FSMAGIC (xint FSSIZE) (xint nblocks) (xint NINODES) (xint nlog) (xint 2)
    (xint (2 + nlog)) (xint (2 + nlog + ninodeblocks)).

Definition encode_superblock (sb : superblock) : list Z :=
  bytes_of_words [sb_magic sb; sb_size sb; sb_nblocks sb; sb_ninodes sb; sb_nlog sb; sb_logstart sb;
    sb_inodestart sb; sb_bmapstart sb].

Definition zeroes : list Z := replicate (Z.to_nat BSIZE) 0.

(** ** Sectors *)

(** A write past the end of the file fills the gap with zeros. *)
Definition wsect (sec : Z) (buf : list Z) : Mk unit := λ s,
  let img := mk_img s in
  let n := Z.to_nat sec in
  MOk tt (s <| mk_img :=
    if (n <? length img)%nat then <[n := buf]> img
    else img ++ replicate (n - length img) zeroes ++ [buf] |>).

Definition rsect (sec : Z) : Mk (list Z) := λ s,
  match mk_img s !! Z.to_nat sec with
  | Some buf => MOk buf s
  | None => MDie "read"
  end.

(** ** Inodes *)

Definition winode (inum : Z) (ip : dinode) : Mk unit :=
  let bn := IBLOCK inum mksb in
  buf ← rsect bn;
  wsect bn (splice buf (dinode_off inum) (encode_dinode ip)).

Definition rinode (inum : Z) : Mk dinode :=
  let bn := IBLOCK inum mksb in
  buf ← rsect bn;
  mret (decode_dinode (slice buf (dinode_off inum) (Z.to_nat DINODE_SIZE))).

Definition ialloc (type : Z) : Mk Z :=
  inum ← (λ s, MOk (mk_freeinode s) (s <| mk_freeinode := u32 (mk_freeinode s + 1) |>));
  winode inum (mkDinode (i16 (xshort type)) 0 0 (i16 (xshort 1)) (xint 0) (replicate (S NDIRECT) 0));;
  mret inum.

(** [freeblock++] *)
Definition nextblock : Mk Z := λ s,
  MOk (mk_freeblock s) (s <| mk_freeblock := u32 (mk_freeblock s + 1) |>).

Definition addr (d : dinode) (n : nat) : Z := nth n (d_addrs d) 0.
Definition with_addr (d : dinode) (n : nat) (v : Z) : dinode :=
  mkDinode (d_type d) (d_major d) (d_minor d) (d_nlink d) (d_size d) (<[n := v]> (d_addrs d)).
Definition with_size (d : dinode) (v : Z) : dinode :=
  mkDinode (d_type d) (d_major d) (d_minor d) (d_nlink d) v (d_addrs d).

(** The block of the file with number [fbn], allocated if it is missing. *)
Definition iappend_block (din : dinode) (fbn : Z) : Mk (dinode * Z) :=
  if fbn <? Z.of_nat NDIRECT then
    let n := Z.to_nat fbn in
    din ← (if xint (addr din n) =? 0 then b ← nextblock; mret (with_addr din n (xint b)) else mret din);
    mret (din, xint (addr din n))
  else
    let n := Z.to_nat (fbn - Z.of_nat NDIRECT) in
    din ← (if xint (addr din NDIRECT) =? 0
           then b ← nextblock; mret (with_addr din NDIRECT (xint b)) else mret din);
    indirect ← rsect (xint (addr din NDIRECT));
    indirect ← (if ind_word indirect n =? 0 then
                  b ← nextblock;
                  let indirect := set_ind_word indirect n (xint b) in
                  wsect (xint (addr din NDIRECT)) indirect;;
                  mret indirect
                else mret indirect);
    mret (din, xint (ind_word indirect n)).

(** The loop of [iappend]; every round takes at least one byte of [p]. *)
Fixpoint iappend_loop (fuel : nat) (din : dinode) (off : Z) (p : list Z) : Mk (dinode * Z) :=
  match p, fuel with
  | [], _ => mret (din, off)
  | _, O => die "iappend: no progress"
  | _, S fuel =>
      let fbn := off / BSIZE in
      massert (fbn <? Z.of_nat MAXFILE);;
      r ← iappend_block din fbn;
      let '(din, x) := r in
      let n1 := Z.min (Z.of_nat (length p)) ((fbn + 1) * BSIZE - off) in
      buf ← rsect x;
      wsect x (splice buf (Z.to_nat (off - fbn * BSIZE)) (take (Z.to_nat n1) p));;
      iappend_loop fuel din (u32 (off + n1)) (drop (Z.to_nat n1) p)
  end.

Definition iappend (inum : Z) (p : list Z) : Mk unit :=
  din ← rinode inum;
  r ← iappend_loop (length p) din (xint (d_size din)) p;
  let '(din, off) := r in
  winode inum (with_size din (xint off)).

(** ** The bitmap *)

Definition balloc (used : Z) : Mk unit :=
  massert (used <? BPB);;
  wsect (sb_bmapstart mksb) (foldl set_bit zeroes (seq 0 (Z.to_nat used))).

(** ** main *)

(** The bytes of a directory entry: a name copied into a zeroed structure. *)
Definition mkfs_dirent (inum : Z) (name : list Z) : list Z :=
  encode_dirent (mkDirent (xshort inum) (take DIRSIZ (name ++ replicate DIRSIZ 0))).

(** The name of a file without "user/", and then without a leading underscore. *)
Definition strip_user (name : list Z) : list Z :=
  if bool_decide (take 5 name = bytes_of_string "user/") then drop 5 name else name.
Definition strip_underscore (name : list Z) : list Z :=
  match name with
  | c :: rest => if c =? chr "_" then rest else name
  | [] => []
  end.

(** One file of the command line: its name and what [open] and [read] give. *)
Definition mkfs_file (rootino : Z) (f : list Z * option (list (list Z))) : Mk unit :=
  let '(name, chunks) := f in
  let shortname := strip_user name in
  massert (negb (bool_decide (SLASH ∈ shortname)));;
  match chunks with
  | None => die "open"
  | Some chunks =>
      let shortname := strip_underscore shortname in
      massert (length shortname <=? DIRSIZ)%nat;;
      inum ← ialloc T_FILE;
      iappend rootino (mkfs_dirent inum shortname);;
      foldr (λ chunk k, iappend inum chunk;; k) (mret tt) chunks
  end.

Definition mkfs (files : list (list Z * option (list (list Z)))) : Mk unit :=
  foldr (λ i k, wsect (Z.of_nat i) zeroes;; k) (mret tt) (seq 0 (Z.to_nat FSSIZE));;
  wsect 1 (splice zeroes 0 (encode_superblock mksb));;
  rootino ← ialloc T_DIR;
  massert (rootino =? ROOTINO);;
  iappend rootino (mkfs_dirent rootino (bytes_of_string "."));;
  iappend rootino (mkfs_dirent rootino (bytes_of_string ".."));;
  foldr (λ f k, mkfs_file rootino f;; k) (mret tt) files;;
  din ← rinode rootino;
  let off := xint (d_size din) in
  let off := u32 ((off / BSIZE + 1) * BSIZE) in
  winode rootino (with_size din (xint off));;
  used ← (λ s, MOk (mk_freeblock s) s);
  balloc used.

(** The program starts with an empty image. *)
Definition mkfs_start : mkst := mkMk [] 1 nmeta.
