(* ===== verification/MkfsSpec.v ===== *)
(** * What the image builder builds

    The files of an image are read back from its sectors with the formats of the
    kernel (Fs.v).  The builder is shown to produce an image in which the root
    directory names every file given to it and every file holds its bytes. *)

From S2P Require Import Prelude Machine Kstate Strings Fs FsData Mkfs.

(** ** Reading an image *)

Definition sector (img : list (list Z)) (b : Z) : list Z := default [] (img !! Z.to_nat b).

Definition inode_of (img : list (list Z)) (inum : Z) : dinode :=
  decode_dinode (slice (sector img (IBLOCK inum mksb)) (dinode_off inum) (Z.to_nat DINODE_SIZE)).

(** Block [f] of a file. *)
Definition blk (img : list (list Z)) (d : dinode) (f : nat) : Z :=
  if (f <? NDIRECT)%nat then addr d f else ind_word (sector img (addr d NDIRECT)) (f - NDIRECT).

Definition byte_at (img : list (list Z)) (d : dinode) (i : nat) : Z :=
  nth (i mod Z.to_nat BSIZE) (sector img (blk img d (i / Z.to_nat BSIZE))) 0.

(** The bytes of a file. *)
Definition contents (img : list (list Z)) (d : dinode) : list Z :=
  byte_at img d <$> seq 0 (Z.to_nat (d_size d)).

(** ** Sectors *)

Definition img_ok (img : list (list Z)) : Prop :=
  length img = Z.to_nat FSSIZE ∧ Forall (λ s, length s = Z.to_nat BSIZE ∧ Forall is_byte s) img.

Lemma sector_ok img b : img_ok img → 0 ≤ b < FSSIZE →
  img !! Z.to_nat b = Some (sector img b) ∧ length (sector img b) = Z.to_nat BSIZE ∧ Forall is_byte (sector img b).
Proof.
  intros [Hl Hf] Hb. destruct (lookup_lt_is_Some_2 img (Z.to_nat b)) as [s Hs]; [lia |].
  unfold sector. rewrite Hs. simpl. split; [done |]. by apply (Forall_lookup_1 _ _ _ _ Hf Hs).
Qed.

Lemma rsect_done sec s : img_ok (mk_img s) → 0 ≤ sec < FSSIZE → rsect sec s = MOk (sector (mk_img s) sec) s.
Proof. intros Hok Hb. unfold rsect. by rewrite (proj1 (sector_ok _ _ Hok Hb)). Qed.

(** The image with one sector replaced. *)
Definition put (img : list (list Z)) (b : Z) (buf : list Z) : list (list Z) := <[Z.to_nat b := buf]> img.

Lemma wsect_done sec buf s : img_ok (mk_img s) → 0 ≤ sec < FSSIZE →
  wsect sec buf s = MOk tt (s <| mk_img := put (mk_img s) sec buf |>).
Proof.
  intros [Hl _] Hb. unfold wsect. rewrite Hl. destruct (Nat.ltb_spec (Z.to_nat sec) (Z.to_nat FSSIZE)); [done | lia].
Qed.

Lemma put_ok img b buf : img_ok img → length buf = Z.to_nat BSIZE → Forall is_byte buf → img_ok (put img b buf).
Proof. intros [Hl Hf] H1 H2. unfold put. split; [by rewrite length_insert |]. by apply Forall_insert. Qed.

Lemma sector_put img b buf b' : img_ok img → 0 ≤ b < FSSIZE → 0 ≤ b' →
  sector (put img b buf) b' = if decide (b' = b) then buf else sector img b'.
Proof.
  intros [Hl _] Hb Hb'. unfold sector, put. case_decide as Hd.
  - subst. rewrite list_lookup_insert_eq by lia. done.
  - rewrite list_lookup_insert_ne by lia. done.
Qed.

(** ** Words of an indirect block *)

Lemma ind_word_set data n v m : length data = Z.to_nat BSIZE → (n < NINDIRECT)%nat → (m < NINDIRECT)%nat → is_u32 v →
  ind_word (set_ind_word data n v) m = if decide (m = n) then v else ind_word data m.
Proof.
  intros Hl Hn Hm Hv. unfold ind_word, set_ind_word. rewrite u32_small by apply Hv.
  assert (length (le_bytes 4 v) = 4%nat) as E by apply length_le_bytes.
  assert (4 * NINDIRECT = Z.to_nat BSIZE)%nat by done. case_decide as Hd.
  - subst. rewrite <-E at 4. rewrite slice_splice by lia. by apply le_val_le_bytes.
  - rewrite slice_splice_other by lia. done.
Qed.

Lemma length_set_ind_word data n v : length data = Z.to_nat BSIZE → (n < NINDIRECT)%nat →
  length (set_ind_word data n v) = Z.to_nat BSIZE.
Proof.
  intros Hl Hn. unfold set_ind_word. rewrite length_splice; [done |]. rewrite length_le_bytes.
  assert (4 * NINDIRECT = Z.to_nat BSIZE)%nat by done. lia.
Qed.

Lemma splice_byte l off bs : Forall is_byte l → Forall is_byte bs → Forall is_byte (splice l off bs).
Proof. intros H1 H2. unfold splice. rewrite !Forall_app. auto using Forall_take, Forall_drop. Qed.

Lemma ind_word_range data n : Forall is_byte data → length data = Z.to_nat BSIZE → (n < NINDIRECT)%nat → is_u32 (ind_word data n).
Proof.
  intros Hb Hl Hn. unfold ind_word. apply (slice_range _ _ 4); [done |].
  assert (4 * NINDIRECT = Z.to_nat BSIZE)%nat by done. lia.
Qed.

Lemma zeroes_ok : length zeroes = Z.to_nat BSIZE ∧ Forall is_byte zeroes.
Proof. split; [apply length_replicate |]. apply Forall_replicate. done. Qed.

Lemma ind_word_zeroes n : ind_word zeroes n = 0.
Proof.
  unfold ind_word, slice, zeroes. rewrite drop_replicate, take_replicate.
  generalize (min 4 (Z.to_nat BSIZE - 4 * n)). intros k. induction k as [|k IH]; [done |]. cbn [replicate le_val]. lia.
Qed.

Lemma xint_id x : is_u32 x → xint x = x.
Proof.
  intros Hx. transitivity (le_val (le_bytes 4 x)); [| by apply le_val_le_bytes].
  unfold xint, u8. rewrite !Z.shiftr_div_pow2 by lia. cbn [le_bytes].
  rewrite !Z.div_div by lia. done.
Qed.

Lemma xshort_id x : 0 ≤ x < 2 ^ 16 → xshort x = x.
Proof.
  intros Hx. transitivity (le_val (le_bytes 2 x)); [| by apply le_val_le_bytes].
  unfold xshort, u8. rewrite !Z.shiftr_div_pow2 by lia. done.
Qed.

(** ** A file and its blocks *)

(** The sectors a file of [n] blocks takes. *)
Definition blocks_of (img : list (list Z)) (d : dinode) (n : nat) : list Z :=
  (blk img d <$> seq 0 n) ++ (if (NDIRECT <? n)%nat then [addr d NDIRECT] else []).

(** Their number. *)
Definition cost (n : nat) : nat := if (NDIRECT <? n)%nat then S n else n.

(** A file of [n] blocks below [fb], the rest of its places empty. *)
Record struct_ok (img : list (list Z)) (fb : Z) (d : dinode) (n : nat) : Prop := {
  so_dinode : dinode_ok d;
  so_max : (n ≤ MAXFILE)%nat;
  so_range : Forall (λ b, nmeta ≤ b < fb) (blocks_of img d n);
  so_nodup : NoDup (blocks_of img d n);
  so_direct : ∀ f, (n ≤ f < NDIRECT)%nat → addr d f = 0;
  so_noind : (n ≤ NDIRECT)%nat → addr d NDIRECT = 0;
  so_ind : (NDIRECT < n)%nat → ∀ f, (n ≤ f < MAXFILE)%nat → blk img d f = 0;
}.

(** Sectors from [fb] on have not been used. *)
Definition fresh (img : list (list Z)) (fb : Z) : Prop := ∀ b, fb ≤ b < FSSIZE → sector img b = zeroes.

Lemma elem_of_blocks img d n b : b ∈ blocks_of img d n ↔
  (∃ f, (f < n)%nat ∧ b = blk img d f) ∨ (NDIRECT < n)%nat ∧ b = addr d NDIRECT.
Proof.
  unfold blocks_of. rewrite elem_of_app, list_elem_of_fmap. split.
  - intros [(f & -> & Hf%elem_of_seq) | H]; [left; exists f; split; [lia | done] | right].
    destruct (Nat.ltb_spec NDIRECT n); [by apply list_elem_of_singleton in H | by apply elem_of_nil in H].
  - intros [(f & Hf & ->) | [H ->]]; [left; exists f; split; [done | apply elem_of_seq; lia] | right].
    destruct (Nat.ltb_spec NDIRECT n); [by apply list_elem_of_singleton | lia].
Qed.

Lemma so_blk img fb d n f : struct_ok img fb d n → (f < n)%nat → nmeta ≤ blk img d f < fb.
Proof.
  intros H Hf. pose proof (so_range _ _ _ _ H) as Hr. rewrite Forall_forall in Hr. apply Hr, elem_of_blocks. left. eauto.
Qed.

Lemma so_indirect img fb d n : struct_ok img fb d n → (NDIRECT < n)%nat → nmeta ≤ addr d NDIRECT < fb.
Proof.
  intros H Hn. pose proof (so_range _ _ _ _ H) as Hr. rewrite Forall_forall in Hr. apply Hr, elem_of_blocks. by right.
Qed.

(** A data block is not the indirect block, nor another data block. *)
Lemma so_blk_ne img fb d n f : struct_ok img fb d n → (f < n)%nat → (NDIRECT < n)%nat → blk img d f ≠ addr d NDIRECT.
Proof.
  intros H Hf Hn E. pose proof (so_nodup _ _ _ _ H) as Hd. unfold blocks_of in Hd.
  rewrite (proj2 (Nat.ltb_lt _ _) Hn) in Hd. apply NoDup_app in Hd as (_ & Hd & _).
  apply (Hd (addr d NDIRECT)); [| by apply list_elem_of_singleton]. apply list_elem_of_fmap. exists f.
  split; [done | apply elem_of_seq; lia].
Qed.

Lemma so_blk_inj img fb d n f f' : struct_ok img fb d n → (f < n)%nat → (f' < n)%nat → blk img d f = blk img d f' → f = f'.
Proof.
  intros H Hf Hf' E. pose proof (so_nodup _ _ _ _ H) as Hd. unfold blocks_of in Hd.
  apply NoDup_app in Hd as (Hd & _ & _). rewrite NoDup_alt in Hd. apply (Hd f f' (blk img d f)).
  - rewrite list_lookup_fmap, lookup_seq_lt by done. done.
  - rewrite list_lookup_fmap, lookup_seq_lt by done. simpl. by rewrite E.
Qed.

Lemma blk_same img img' d f : sector img' (addr d NDIRECT) = sector img (addr d NDIRECT) → blk img' d f = blk img d f.
Proof. intros H. unfold blk. by rewrite H. Qed.

Lemma blocks_of_same img img' d n : ((NDIRECT < n)%nat → sector img' (addr d NDIRECT) = sector img (addr d NDIRECT)) →
  blocks_of img' d n = blocks_of img d n.
Proof.
  intros H. unfold blocks_of. f_equal. apply list_fmap_ext. intros i f [-> Hf]%lookup_seq. simpl.
  destruct (decide (NDIRECT < n)%nat) as [Hn | Hn]; [by apply blk_same, H |]. unfold blk.
  by rewrite (proj2 (Nat.ltb_lt _ _)) by lia.
Qed.

(** What happens to other sectors does not matter to a file. *)
Lemma struct_frame img img' fb fb' d n : struct_ok img fb d n → fb ≤ fb' →
  ((NDIRECT < n)%nat → sector img' (addr d NDIRECT) = sector img (addr d NDIRECT)) → struct_ok img' fb' d n.
Proof.
  intros H Hfb Hs. pose proof (blocks_of_same img img' d n Hs) as E. destruct H as [H1 H2 H3 H4 H5 H6 H7].
  split; rewrite ?E; try done.
  - eapply Forall_impl; [exact H3 |]. simpl. lia.
  - intros Hn f Hf. rewrite (blk_same img) by (by apply Hs). by apply H7.
Qed.

(** ** Allocating a block *)

Definition same_meta (d d' : dinode) : Prop :=
  d_type d' = d_type d ∧ d_major d' = d_major d ∧ d_minor d' = d_minor d ∧ d_nlink d' = d_nlink d ∧ d_size d' = d_size d.

Lemma addr_with_addr d n v m : (n < length (d_addrs d))%nat → addr (with_addr d n v) m = if decide (m = n) then v else addr d m.
Proof.
  intros Hn. unfold addr, with_addr. simpl. rewrite !nth_lookup. case_decide as Hd.
  - subst. by rewrite list_lookup_insert_eq.
  - by rewrite list_lookup_insert_ne.
Qed.

Lemma with_addr_ok d n v : dinode_ok d → is_u32 v → dinode_ok (with_addr d n v).
Proof.
  intros [H1 H2 H3 H4 H5 [H6 H7]] Hv. split; simpl; try done. split; [by rewrite length_insert | by apply Forall_insert].
Qed.

Lemma seq_S_fmap {A} (g h : nat → A) n : (∀ f, (f < n)%nat → g f = h f) → g <$> seq 0 (S n) = (h <$> seq 0 n) ++ [g n].
Proof.
  intros H. rewrite seq_S, fmap_app. simpl. f_equal. apply list_fmap_ext. intros i f [-> Hf]%lookup_seq. apply H. lia.
Qed.

(** One more block, and with the thirteenth the indirect block. *)
Lemma blocks_S img img' d d' n : (∀ f, (f < n)%nat → blk img' d' f = blk img d f) →
  ((NDIRECT < n)%nat → addr d' NDIRECT = addr d NDIRECT) →
  blocks_of img' d' (S n) ≡ₚ
    (if decide (n = NDIRECT) then [addr d' NDIRECT] else []) ++ blk img' d' n :: blocks_of img d n.
Proof.
  intros Hb Ha. unfold blocks_of. rewrite (seq_S_fmap _ _ _ Hb).
  destruct (Nat.ltb_spec NDIRECT (S n)), (Nat.ltb_spec NDIRECT n).
  - rewrite decide_False, Ha by lia. simpl. by rewrite <-!app_assoc, Permutation_middle.
  - rewrite decide_True by lia. rewrite app_nil_r, (Permutation_app_comm _ [addr d' NDIRECT]), (Permutation_app_comm _ [blk img' d' n]). done.
  - lia.
  - rewrite decide_False by lia. rewrite !app_nil_r, (Permutation_app_comm _ [blk img' d' n]). done.
Qed.

(** The state of the builder while it works on one file. *)
Record working (s : mkst) (d : dinode) (n : nat) : Prop := {
  wk_img : img_ok (mk_img s);
  wk_fb : nmeta ≤ mk_freeblock s ≤ FSSIZE;
  wk_fresh : fresh (mk_img s) (mk_freeblock s);
  wk_struct : struct_ok (mk_img s) (mk_freeblock s) d n;
}.

(** What the allocation of block [fbn] leaves alone. *)
Record allocated (s : mkst) (d : dinode) (n : nat) (s' : mkst) (d' : dinode) (n' : nat) : Prop := {
  al_work : working s' d' n';
  al_inode : mk_freeinode s' = mk_freeinode s;
  al_blocks : mk_freeblock s' + Z.of_nat (cost n) = mk_freeblock s + Z.of_nat (cost n');
  al_blk : ∀ f, (f < n)%nat → blk (mk_img s') d' f = blk (mk_img s) d f;
  al_sector : ∀ b, 0 ≤ b < mk_freeblock s → ((NDIRECT < n)%nat → b ≠ addr d NDIRECT) →
    sector (mk_img s') b = sector (mk_img s) b;
  al_ind : (NDIRECT < n)%nat → addr d' NDIRECT = addr d NDIRECT;
  al_fresh : ∀ b, b ∈ blocks_of (mk_img s') d' n' → b ∈ blocks_of (mk_img s) d n ∨ mk_freeblock s ≤ b;
  al_zero : ∀ f, (n ≤ f < n')%nat → sector (mk_img s') (blk (mk_img s') d' f) = zeroes;
  al_meta : same_meta d d';
}.

Lemma allocated_refl s d n : working s d n → allocated s d n s d n.
Proof. intros H. split; try done; [by left | lia]. Qed.

(** The blocks of the longer file are those of the shorter one and new ones. *)
Lemma fresh_S img img' d d' n fb b : (∀ f, (f < n)%nat → blk img' d' f = blk img d f) →
  ((NDIRECT < n)%nat → addr d' NDIRECT = addr d NDIRECT) →
  fb ≤ blk img' d' n → (n = NDIRECT → fb ≤ addr d' NDIRECT) →
  b ∈ blocks_of img' d' (S n) → b ∈ blocks_of img d n ∨ fb ≤ b.
Proof.
  intros Hb Ha Hx Hi. rewrite (blocks_S img img' d d' n Hb Ha), elem_of_app, elem_of_cons.
  intros [H | [-> | ?]]; [| by right | by left]. destruct (decide (n = NDIRECT)) as [E |]; [| by apply elem_of_nil in H].
  apply list_elem_of_singleton in H as ->. right. by apply Hi.
Qed.

Lemma nextblock_done s : nmeta ≤ mk_freeblock s < FSSIZE →
  nextblock s = MOk (mk_freeblock s) (s <| mk_freeblock := mk_freeblock s + 1 |>).
Proof. intros H. unfold nextblock. assert (0 < nmeta ∧ FSSIZE < 2 ^ 32) by done. by rewrite u32_small by lia. Qed.

Lemma MOk_bind {A B} (m : Mk A) (f : A → Mk B) s a s' : m s = MOk a s' → (m ≫= f) s = f a s'.
Proof. intros H. unfold mbind, Mk_bind. by rewrite H. Qed.

(** The structure with the next block. *)
Lemma struct_S img img' fb fb' d d' n : struct_ok img fb d n → dinode_ok d' → (n < MAXFILE)%nat → nmeta ≤ fb →
  (∀ f, (f < n)%nat → blk img' d' f = blk img d f) →
  ((NDIRECT < n)%nat → addr d' NDIRECT = addr d NDIRECT) →
  fb ≤ blk img' d' n < fb' →
  (n = NDIRECT → fb ≤ addr d' NDIRECT < fb' ∧ addr d' NDIRECT ≠ blk img' d' n) →
  (∀ f, (S n ≤ f < NDIRECT)%nat → addr d' f = 0) → ((S n ≤ NDIRECT)%nat → addr d' NDIRECT = 0) →
  ((NDIRECT < S n)%nat → ∀ f, (S n ≤ f < MAXFILE)%nat → blk img' d' f = 0) →
  struct_ok img' fb' d' (S n).
Proof.
  intros Hs Hd Hn Hfb Hb Ha Hx Hi H1 H2 H3. pose proof (blocks_S img img' d d' n Hb Ha) as Hp.
  pose proof (so_range _ _ _ _ Hs) as Hr. pose proof (so_nodup _ _ _ _ Hs) as Hnd.
  assert (∀ b, fb ≤ b → b ∉ blocks_of img d n) as Hfresh.
  { intros b Hb' Hin. rewrite Forall_forall in Hr. specialize (Hr _ Hin). simpl in Hr. lia. }
  assert (Forall (λ b, nmeta ≤ b < fb') (blocks_of img d n)) as Hr' by (eapply Forall_impl; [exact Hr |]; simpl; lia).
  split; [done | lia | | | done | done | done].
  - rewrite Hp. destruct (decide (n = NDIRECT)) as [E |]; simpl.
    + destruct (Hi E). constructor; [lia |]. constructor; [lia | done].
    + constructor; [lia | done].
  - rewrite Hp. destruct (decide (n = NDIRECT)) as [E |]; simpl.
    + destruct (Hi E) as [? Hne]. apply NoDup_cons. split; [| apply NoDup_cons; split; [apply Hfresh; lia | done]].
      apply not_elem_of_cons. split; [done | apply Hfresh; lia].
    + apply NoDup_cons. split; [apply Hfresh; lia | done].
Qed.

Lemma block_u32 b fb : nmeta ≤ b < fb → fb ≤ FSSIZE → xint b = b ∧ (b =? 0) = false.
Proof.
  intros Hb Hfb. assert (0 < nmeta ∧ FSSIZE < 2 ^ 32) by done. split; [apply xint_id; unfold is_u32; lia | lia].
Qed.

Lemma block_existing s d n fbn : working s d n → (fbn < n)%nat →
  iappend_block d (Z.of_nat fbn) s = MOk (d, blk (mk_img s) d fbn) s.
Proof.
  intros [Hi Hfb _ Hs] Hf. pose proof (so_blk _ _ _ _ fbn Hs Hf) as Hb. unfold iappend_block, blk in *.
  destruct (Nat.ltb_spec fbn NDIRECT).
  - rewrite (proj2 (Z.ltb_lt _ _)), Nat2Z.id by lia. destruct (block_u32 _ _ Hb) as [Eb Eb']; [lia |].
    rewrite Eb, Eb'. rewrite (MOk_bind _ _ s d s) by done. by rewrite Eb.
  - rewrite (proj2 (Z.ltb_ge _ _)) by lia. rewrite <-Nat2Z.inj_sub, Nat2Z.id by lia.
    pose proof (so_indirect _ _ _ _ Hs ltac:(lia)) as Ha. destruct (block_u32 _ _ Ha) as [Ea Ea']; [lia |].
    rewrite Ea, Ea'. cbn [mret]. assert (0 < nmeta) by done.
    rewrite (MOk_bind _ _ s d s) by done. rewrite Ea.
    rewrite (MOk_bind _ _ _ _ _ (rsect_done (addr d NDIRECT) s Hi ltac:(lia))). destruct (block_u32 _ _ Hb) as [Eb ->]; [lia |].
    rewrite (MOk_bind _ _ s (sector (mk_img s) (addr d NDIRECT)) s) by done. by rewrite Eb.
Qed.

Lemma fresh_le img fb fb' : fresh img fb → fb ≤ fb' → fresh img fb'.
Proof. intros H Hle b Hb. apply H. lia. Qed.

(** A new direct block. *)
Lemma block_direct s d n : working s d n → (n < NDIRECT)%nat → mk_freeblock s < FSSIZE →
  ∃ d' s', iappend_block d (Z.of_nat n) s = MOk (d', blk (mk_img s') d' n) s' ∧ allocated s d n s' d' (S n).
Proof.
  intros [Hi Hfb Hfr Hs] Hn Hroom. assert (0 < nmeta ∧ FSSIZE < 2 ^ 32) by done. set (fb := mk_freeblock s) in *.
  pose proof (so_dinode _ _ _ _ Hs) as Hd. pose proof (dok_addrs _ Hd) as [Hl _].
  assert (xint fb = fb) as Ex by (apply xint_id; unfold is_u32; lia).
  assert (∀ m, addr (with_addr d n fb) m = if decide (m = n) then fb else addr d m) as Ha by (intros m; apply addr_with_addr; lia).
  assert (∀ img f, (f < n)%nat → blk img (with_addr d n fb) f = blk img d f) as Hblk.
  { intros img f Hf. unfold blk. rewrite (proj2 (Nat.ltb_lt f NDIRECT)), Ha, decide_False by lia. done. }
  assert (∀ img, blk img (with_addr d n fb) n = fb) as Hnew.
  { intros img. unfold blk. by rewrite (proj2 (Nat.ltb_lt n NDIRECT)), Ha, decide_True by lia. }
  exists (with_addr d n fb), (s <| mk_freeblock := fb + 1 |>). split.
  - unfold iappend_block. rewrite (proj2 (Z.ltb_lt _ _)), Nat2Z.id by lia.
    rewrite (so_direct _ _ _ _ Hs) by lia. rewrite (xint_id 0) by done. cbn [Z.eqb].
    erewrite MOk_bind by (erewrite MOk_bind by (apply nextblock_done; fold fb; lia); reflexivity).
    fold fb. rewrite Ex, Ha, decide_True by done. rewrite Ex. simpl. by rewrite Hnew.
  - split; simpl; [split; simpl | done | | by apply Hblk | done | lia | | | done].
    + done.
    + fold fb. lia.
    + eapply fresh_le; [exact Hfr |]. lia.
    + eapply struct_S; [exact Hs | apply with_addr_ok; [done | unfold is_u32; lia] | unfold MAXFILE; lia | lia | apply Hblk | lia | | lia | | |].
      * rewrite Hnew. lia.
      * intros f Hf. rewrite Ha, decide_False by lia. apply (so_direct _ _ _ _ Hs). lia.
      * intros _. rewrite Ha, decide_False by lia. apply (so_noind _ _ _ _ Hs). lia.
      * lia.
    + unfold cost. rewrite (proj2 (Nat.ltb_ge _ n)), (proj2 (Nat.ltb_ge _ (S n))) by lia. fold fb. lia.
    + intros b. apply fresh_S; [apply Hblk | lia | rewrite Hnew; fold fb; lia | lia].
    + intros f Hf. assert (f = n) as -> by lia. rewrite Hnew. apply Hfr. fold fb. lia.
Qed.

(** The blocks of a file after an entry of its indirect block is set. *)
Lemma blk_put img a d data n b f : img_ok img → 0 ≤ a < FSSIZE → addr d NDIRECT = a → length data = Z.to_nat BSIZE →
  (NDIRECT ≤ n < MAXFILE)%nat → is_u32 b → (f < MAXFILE)%nat →
  blk (put img a (set_ind_word data (n - NDIRECT) b)) d f =
    if decide (f = n) then b else if (f <? NDIRECT)%nat then addr d f else ind_word data (f - NDIRECT).
Proof.
  intros Hi Ha Ea Hl Hn Hb Hf. unfold MAXFILE in *. unfold blk. destruct (Nat.ltb_spec f NDIRECT).
  - by rewrite decide_False by lia.
  - rewrite Ea, sector_put, decide_True by (done || lia). rewrite ind_word_set by (done || lia).
    case_decide; case_decide; done || lia.
Qed.

Lemma put_set_ok img a data k b : img_ok img → length data = Z.to_nat BSIZE → Forall is_byte data → (k < NINDIRECT)%nat →
  img_ok (put img a (set_ind_word data k b)).
Proof.
  intros Hi Hl Hb Hk. apply put_ok; [done | by apply length_set_ind_word |]. apply splice_byte; [done | apply le_bytes_byte].
Qed.

(** A new block behind the indirect block. *)
Lemma block_indirect s d n : working s d n → (NDIRECT < n < MAXFILE)%nat → mk_freeblock s < FSSIZE →
  ∃ d' s', iappend_block d (Z.of_nat n) s = MOk (d', blk (mk_img s') d' n) s' ∧ allocated s d n s' d' (S n).
Proof.
  intros [Hi Hfb Hfr Hs] Hn Hroom. assert (0 < nmeta ∧ FSSIZE < 2 ^ 32) by done. set (fb := mk_freeblock s) in *.
  pose proof (so_indirect _ _ _ _ Hs ltac:(lia)) as Ha. destruct (block_u32 _ _ Ha) as [Ea Ea']; [lia |].
  set (a := addr d NDIRECT) in *. destruct (sector_ok _ a Hi ltac:(lia)) as (_ & Hl & Hby).
  assert (ind_word (sector (mk_img s) a) (n - NDIRECT) = 0) as Ez.
  { pose proof (so_ind _ _ _ _ Hs ltac:(lia) n ltac:(lia)) as Hz. unfold blk in Hz.
    by rewrite (proj2 (Nat.ltb_ge n NDIRECT)) in Hz by lia. }
  set (img' := put (mk_img s) a (set_ind_word (sector (mk_img s) a) (n - NDIRECT) fb)).
  assert (is_u32 fb) as Hu by (unfold is_u32; lia).
  assert (∀ f, (f < MAXFILE)%nat → blk img' d f = if decide (f = n) then fb else blk (mk_img s) d f) as Hblk.
  { intros f Hf. unfold img'. rewrite blk_put by (done || lia). done. }
  exists d, (mkMk img' (mk_freeinode s) (fb + 1)). split.
  - unfold iappend_block. rewrite (proj2 (Z.ltb_ge _ _)) by lia. rewrite <-Nat2Z.inj_sub, Nat2Z.id by lia. fold a.
    rewrite Ea, Ea'. rewrite (MOk_bind _ _ s d s) by done. fold a. rewrite Ea.
    rewrite (MOk_bind _ _ _ _ _ (rsect_done a s Hi ltac:(lia))). rewrite Ez. cbn [Z.eqb].
    erewrite MOk_bind; cycle 1.
    { erewrite MOk_bind by (apply nextblock_done; fold fb; lia). fold fb. rewrite xint_id by done. cbv zeta.
      erewrite MOk_bind by (apply wsect_done; simpl; [done | lia]). reflexivity. }
    simpl. rewrite ind_word_set, decide_True by (done || unfold MAXFILE in *; lia).
    rewrite xint_id, Hblk, decide_True by (done || lia). done.
  - split; simpl; [split; simpl | done | | | | done | | | done].
    + unfold img'. apply put_set_ok; try done. unfold MAXFILE in *; lia.
    + lia.
    + intros b Hb. unfold img'. rewrite sector_put, decide_False by (done || lia). apply Hfr. fold fb. lia.
    + eapply struct_S; [exact Hs | apply Hs | lia | lia | | done | | lia | lia | lia |].
      * intros f Hf. rewrite Hblk, decide_False by lia. done.
      * rewrite Hblk, decide_True by lia. fold fb. lia.
      * intros _ f Hf. rewrite Hblk, decide_False by lia. apply (so_ind _ _ _ _ Hs); lia.
    + unfold cost. rewrite (proj2 (Nat.ltb_lt _ n)), (proj2 (Nat.ltb_lt _ (S n))) by lia. fold fb. lia.
    + intros f Hf. rewrite Hblk, decide_False by lia. done.
    + intros b Hb Hne. unfold img'. rewrite sector_put, decide_False by (done || lia || (apply Hne; lia)). done.
    + intros b. apply fresh_S; [| done | rewrite Hblk, decide_True by lia; fold fb; lia | lia].
      intros f Hf. rewrite Hblk, decide_False by lia. done.
    + intros f Hf. rewrite Hblk, decide_True by lia. unfold img'. rewrite sector_put, decide_False by (done || lia).
      apply Hfr. fold fb. lia.
Qed.

(** The first block behind the indirect block, which is new as well. *)
Lemma block_first_indirect s d : working s d NDIRECT → mk_freeblock s + 1 < FSSIZE →
  ∃ d' s', iappend_block d (Z.of_nat NDIRECT) s = MOk (d', blk (mk_img s') d' NDIRECT) s' ∧
    allocated s d NDIRECT s' d' (S NDIRECT).
Proof.
  intros [Hi Hfb Hfr Hs] Hroom. assert (0 < nmeta ∧ FSSIZE < 2 ^ 32 ∧ (S NDIRECT < MAXFILE)%nat) as (? & ? & ?) by (split_and!; done || (unfold MAXFILE, NINDIRECT, NDIRECT; lia)).
  set (fb := mk_freeblock s) in *. pose proof (so_dinode _ _ _ _ Hs) as Hd. pose proof (dok_addrs _ Hd) as [Hl _].
  set (d' := with_addr d NDIRECT fb).
  assert (∀ m, addr d' m = if decide (m = NDIRECT) then fb else addr d m) as Ha by (intros m; apply addr_with_addr; lia).
  assert (is_u32 fb ∧ is_u32 (fb + 1)) as [Hu Hu1] by (unfold is_u32; lia).
  set (img' := put (mk_img s) fb (set_ind_word zeroes 0 (fb + 1))). destruct zeroes_ok as [Hzl Hzb].
  assert (∀ f, (f < MAXFILE)%nat → blk img' d' f =
    if decide (f = NDIRECT) then fb + 1 else if (f <? NDIRECT)%nat then addr d f else 0) as Hblk.
  { intros f Hf. unfold img'. rewrite (blk_put _ _ _ _ NDIRECT); [| done | lia | by rewrite Ha, decide_True | done | lia | done | done].
    rewrite ind_word_zeroes. case_decide; [done |]. destruct (Nat.ltb_spec f NDIRECT); [| done]. by rewrite Ha, decide_False by lia. }
  exists d', (mkMk img' (mk_freeinode s) (fb + 1 + 1)). split.
  - unfold iappend_block. rewrite (proj2 (Z.ltb_ge _ _)) by lia. rewrite Z.sub_diag. change (Z.to_nat 0) with 0%nat.
    rewrite (so_noind _ _ _ _ Hs) by lia. rewrite (xint_id 0) by done. cbn [Z.eqb].
    erewrite MOk_bind by (erewrite MOk_bind by (apply nextblock_done; fold fb; lia); reflexivity).
    fold fb. rewrite (xint_id fb) by done. fold d'. rewrite Ha, decide_True, (xint_id fb) by done.
    erewrite MOk_bind by (apply rsect_done; simpl; [done | lia]). simpl (mk_img _).
    assert (sector (mk_img s) fb = zeroes) as Ez by (apply Hfr; fold fb; lia). rewrite Ez.
    rewrite ind_word_zeroes. cbn [Z.eqb].
    erewrite MOk_bind; cycle 1.
    { erewrite MOk_bind by (apply nextblock_done; simpl; lia). simpl (mk_freeblock _). rewrite (xint_id (fb + 1)) by done. cbv zeta.
      erewrite MOk_bind by (apply wsect_done; simpl; [done | lia]). reflexivity. }
    unfold mret, Mk_ret. cbn [mk_img]. rewrite ?Ez, ind_word_set, decide_True by (done || unfold NINDIRECT; lia).
    rewrite xint_id, Hblk, decide_True by (done || lia). done.
  - split; simpl; [split; simpl | done | | | | lia | | | done].
    + unfold img'. apply put_set_ok; try done. unfold NINDIRECT; lia.
    + lia.
    + intros b Hb. unfold img'. rewrite sector_put, decide_False by (done || lia). apply Hfr. fold fb. lia.
    + eapply struct_S; [exact Hs | by apply with_addr_ok | lia | lia | | lia | | | lia | lia |].
      * intros f Hf. rewrite Hblk, decide_False, (proj2 (Nat.ltb_lt f NDIRECT)) by lia. unfold blk.
        by rewrite (proj2 (Nat.ltb_lt f NDIRECT)) by lia.
      * rewrite Hblk, decide_True by lia. fold fb. lia.
      * intros _. rewrite Ha, decide_True, Hblk, decide_True by (done || lia). fold fb. lia.
      * intros _ f Hf. rewrite Hblk, decide_False, (proj2 (Nat.ltb_ge f NDIRECT)) by lia. done.
    + unfold cost. rewrite Nat.ltb_irrefl, (proj2 (Nat.ltb_lt _ (S NDIRECT))) by lia. fold fb. lia.
    + intros f Hf. rewrite Hblk, decide_False, (proj2 (Nat.ltb_lt f NDIRECT)) by lia. unfold blk.
      by rewrite (proj2 (Nat.ltb_lt f NDIRECT)) by lia.
    + intros b Hb _. unfold img'. rewrite sector_put, decide_False by (done || lia). done.
    + intros b. apply fresh_S; [| lia | rewrite Hblk, decide_True by lia; fold fb; lia | rewrite Ha, decide_True by done; fold fb; lia].
      intros f Hf. rewrite Hblk, decide_False, (proj2 (Nat.ltb_lt f NDIRECT)) by lia. unfold blk.
      by rewrite (proj2 (Nat.ltb_lt f NDIRECT)) by lia.
    + intros f Hf. rewrite Hblk, decide_True by lia. unfold img'. rewrite sector_put, decide_False by (done || lia).
      apply Hfr. fold fb. lia.
Qed.

Lemma iappend_block_done s d n fbn : working s d n → (fbn ≤ n)%nat → (fbn < MAXFILE)%nat →
  mk_freeblock s + Z.of_nat (cost (n `max` S fbn)) ≤ FSSIZE + Z.of_nat (cost n) →
  ∃ d' s', iappend_block d (Z.of_nat fbn) s = MOk (d', blk (mk_img s') d' fbn) s' ∧
    allocated s d n s' d' (n `max` S fbn).
Proof.
  intros Hw Hf Hmax Hroom. destruct (decide (fbn = n)) as [-> | Hne].
  - replace (n `max` S n)%nat with (S n) in * by lia. unfold cost in Hroom.
    destruct (Nat.lt_trichotomy n NDIRECT) as [Hn | [-> | Hn]].
    + apply block_direct; [done | done |]. rewrite (proj2 (Nat.ltb_ge _ n)), (proj2 (Nat.ltb_ge _ (S n))) in Hroom by lia. lia.
    + apply block_first_indirect; [done |]. rewrite Nat.ltb_irrefl, (proj2 (Nat.ltb_lt _ (S NDIRECT))) in Hroom by lia. lia.
    + apply block_indirect; [done | done |]. rewrite (proj2 (Nat.ltb_lt _ n)), (proj2 (Nat.ltb_lt _ (S n))) in Hroom by lia. lia.
  - replace (n `max` S fbn)%nat with n by lia. exists d, s. split; [apply (block_existing s d n); [done | lia] | by apply allocated_refl].
Qed.

(** ** Appending bytes *)

(** The file holds the bytes [c], and zeros in the rest of its last block. *)
Definition holds (img : list (list Z)) (d : dinode) (c : list Z) : Prop :=
  ∀ i, (i < nblk (length c) * Z.to_nat BSIZE)%nat → byte_at img d i = nth i c 0.

(** One write of the loop: the bytes [p] fit the rest of block [|c| / BSIZE]. *)
Section write_block.
Context (s : mkst) (d : dinode) (n : nat) (c p : list Z) (s1 : mkst) (d1 : dinode).
#[local] Abbreviation B := (Z.to_nat BSIZE).
#[local] Abbreviation fbn := (length c / B)%nat.
#[local] Abbreviation off := (length c mod B)%nat.
#[local] Abbreviation n1 := (n `max` S fbn)%nat.
Hypothesis Hw : working s d n.
Hypothesis Hn : (length c ≤ n * B)%nat.
Hypothesis Hal : allocated s d n s1 d1 n1.
Hypothesis Hp : Forall is_byte p.
Hypothesis Hfit : (length c + length p ≤ S fbn * B)%nat.

#[local] Abbreviation x := (blk (mk_img s1) d1 fbn).
Definition written : mkst := s1 <| mk_img := put (mk_img s1) x (splice (sector (mk_img s1) x) off p) |>.

Lemma B_value : B = 1024%nat.
Proof. done. Qed.

Lemma off_fbn : length c = (B * fbn + off)%nat ∧ (off < B)%nat.
Proof. split; [apply Nat.div_mod_eq | apply Nat.mod_upper_bound; by rewrite B_value]. Qed.

Lemma x_range : 0 ≤ x < FSSIZE ∧ nmeta ≤ x < mk_freeblock s1.
Proof.
  destruct (al_work _ _ _ _ _ _ Hal) as [_ Hfb _ Hs]. pose proof (so_blk _ _ _ _ fbn Hs ltac:(lia)). assert (0 < nmeta) by done. lia.
Qed.

Lemma x_sector : length (sector (mk_img s1) x) = B ∧ Forall is_byte (sector (mk_img s1) x).
Proof. destruct x_range as [Hx _]. apply (sector_ok _ _ (wk_img _ _ _ (al_work _ _ _ _ _ _ Hal)) Hx). Qed.

Lemma off_fits : (off + length p ≤ length (sector (mk_img s1) x))%nat.
Proof. destruct x_sector as [-> _], off_fbn. lia. Qed.

Lemma written_sector b : 0 ≤ b → sector (mk_img written) b =
  if decide (b = x) then splice (sector (mk_img s1) x) off p else sector (mk_img s1) b.
Proof.
  intros Hb. destruct x_range as [Hx _]. apply sector_put; [apply (al_work _ _ _ _ _ _ Hal) | done | done].
Qed.

Lemma written_blk f : (f < n1)%nat → blk (mk_img written) d1 f = blk (mk_img s1) d1 f.
Proof.
  intros Hf. pose proof (wk_struct _ _ _ (al_work _ _ _ _ _ _ Hal)) as Hs.
  destruct (decide (NDIRECT < n1)%nat) as [Hlt | Hge].
  - apply blk_same. pose proof (so_indirect _ _ _ _ Hs Hlt). assert (0 < nmeta) by done.
    rewrite written_sector, decide_False; [done | | lia]. intros E. symmetry in E. revert E.
    apply (so_blk_ne _ _ _ _ _ Hs); [lia | done].
  - unfold blk. by rewrite (proj2 (Nat.ltb_lt f NDIRECT)) by lia.
Qed.

Lemma written_working : working written d1 n1.
Proof.
  destruct (al_work _ _ _ _ _ _ Hal) as [Hi Hfb Hfr Hs]. destruct x_range as [Hx Hx'], x_sector as [Hl Hb]. pose proof off_fits.
  split; simpl.
  - apply put_ok; [done | by rewrite length_splice | by apply splice_byte].
  - done.
  - intros b Hb'. rewrite written_sector, decide_False by lia. by apply Hfr.
  - apply (struct_frame (mk_img s1) _ (mk_freeblock s1)); [done | lia |]. intros Hlt.
    pose proof (so_indirect _ _ _ _ Hs Hlt). assert (0 < nmeta) by done.
    rewrite written_sector, decide_False; [done | | lia]. intros E. symmetry in E. revert E.
    apply (so_blk_ne _ _ _ _ _ Hs); [lia | done].
Qed.

Lemma written_other b : 0 ≤ b < mk_freeblock s → b ∉ blocks_of (mk_img s) d n → sector (mk_img written) b = sector (mk_img s) b.
Proof.
  intros Hb Hnin. rewrite written_sector by lia. rewrite decide_False.
  - apply (al_sector _ _ _ _ _ _ Hal); [done |]. intros Hlt ->. apply Hnin, elem_of_blocks. by right.
  - intros ->. destruct (al_fresh _ _ _ _ _ _ Hal x) as [Hin | Hin]; [| done | lia].
    apply elem_of_blocks. left. exists fbn. split; [lia | done].
Qed.

Lemma written_blocks b : b ∈ blocks_of (mk_img written) d1 n1 → b ∈ blocks_of (mk_img s) d n ∨ mk_freeblock s ≤ b.
Proof.
  intros Hb. apply (al_fresh _ _ _ _ _ _ Hal). revert Hb. rewrite !elem_of_blocks.
  intros [(f & Hf & ->) | ?]; [left | by right]. exists f. split; [done |]. by apply written_blk.
Qed.

(** Blocks that were there keep their bytes while the next one is allocated. *)
Lemma old_byte i : (i / B < n)%nat → byte_at (mk_img s1) d1 i = byte_at (mk_img s) d i.
Proof.
  intros Hf. assert (0 < nmeta) by done. unfold byte_at. rewrite (al_blk _ _ _ _ _ _ Hal) by done. f_equal.
  pose proof (wk_struct _ _ _ Hw) as Hs. pose proof (so_blk _ _ _ _ _ Hs Hf).
  apply (al_sector _ _ _ _ _ _ Hal); [lia |]. intros Hlt. by apply (so_blk_ne _ _ _ _ _ Hs).
Qed.

Hypothesis Hnb : n = nblk (length c).

(** The bytes of the block written before. *)
Lemma block_before i : holds (mk_img s) d c → (i / B ≤ fbn)%nat → byte_at (mk_img s1) d1 i = nth i c 0.
Proof.
  intros Hh Hi. pose proof B_value as EB. pose proof off_fbn as [Hc Hlt].
  pose proof (Nat.div_mod_eq i B) as Hdm. pose proof (Nat.mod_upper_bound i B ltac:(lia)) as Hmb.
  destruct (decide (i / B < n)%nat) as [Hin | Hout].
  - rewrite old_byte by done. apply Hh. rewrite <-Hnb. nia.
  - unfold byte_at. rewrite (al_zero _ _ _ _ _ _ Hal) by lia. unfold zeroes.
    rewrite (nth_overflow c) by nia. rewrite nth_lookup. destruct (replicate _ _ !! _) eqn:E; [| done].
    by apply lookup_replicate in E as [-> _].
Qed.

Lemma written_holds : holds (mk_img s) d c → holds (mk_img written) d1 (c ++ p).
Proof.
  intros Hh i. rewrite length_app. intros Hi. assert (0 < nmeta) by done. pose proof off_fbn as [Hc Hlt]. pose proof B_value as EB.
  pose proof (wk_struct _ _ _ (al_work _ _ _ _ _ _ Hal)) as Hs1. pose proof off_fits as Hfits.
  pose proof (Nat.div_mod_eq i B) as Hdm. pose proof (Nat.mod_upper_bound i B ltac:(lia)) as Hmb.
  destruct (nblk_spec (length c + length p)) as (_ & Hnb1 & _).
  assert (i / B ≤ fbn)%nat as Hf by nia. assert (i / B < n1)%nat as Hf1 by lia.
  pose proof (block_before i Hh Hf) as Hold. unfold byte_at in Hold |- *. rewrite written_blk by done.
  pose proof (so_blk _ _ _ _ _ Hs1 Hf1). rewrite written_sector by lia. destruct (decide (i / B = fbn)%nat) as [E | E].
  - rewrite E, decide_True, nth_lookup by done. rewrite E, nth_lookup in Hold.
    destruct (decide (off ≤ i mod B < off + length p)%nat) as [Hin | Hout].
    + replace (i mod B)%nat with (off + (i - length c))%nat by lia. rewrite lookup_splice_in, nth_lookup by (done || lia).
      by rewrite lookup_app_r by lia.
    + rewrite lookup_splice_out, Hold, !nth_lookup by (done || lia).
      destruct (decide (i < length c)%nat) as [Hic | Hic]; [by rewrite lookup_app_l |].
      by rewrite !lookup_ge_None_2 by (rewrite ?length_app; lia).
  - rewrite decide_False by (intros E'; apply E; by eapply so_blk_inj; [exact Hs1 | | lia | exact E']).
    rewrite Hold, !nth_lookup, lookup_app_l by nia. done.
Qed.
End write_block.
