(* ===== verification/MkfsImage.v ===== *)
(** * The image that mkfs builds (mkfs/mkfs.c)

    A file system under construction is a list of files, each a type and its
    bytes.  [ialloc] adds an empty file to the list and [iappend] bytes to one of
    them; the program therefore leaves an image whose inodes, blocks, directory
    and bitmap describe the files of its command line. *)

From S2P Require Import Prelude Machine Kstate Strings Fs FsData Mkfs MkfsSpec.

#[local] Abbreviation B := (Z.to_nat BSIZE).

(** ** Appending to one file *)

(** What appending keeps, other than the bytes of the file. *)
Record extends (s : mkst) (d : dinode) (n : nat) (s' : mkst) (d' : dinode) (n' : nat) : Prop := {
  ex_work : working s' d' n';
  ex_inode : mk_freeinode s' = mk_freeinode s;
  ex_blocks : mk_freeblock s' + Z.of_nat (cost n) = mk_freeblock s + Z.of_nat (cost n');
  ex_grow : mk_freeblock s ≤ mk_freeblock s';
  ex_other : ∀ b, 0 ≤ b < mk_freeblock s → b ∉ blocks_of (mk_img s) d n → sector (mk_img s') b = sector (mk_img s) b;
  ex_fresh : ∀ b, b ∈ blocks_of (mk_img s') d' n' → b ∈ blocks_of (mk_img s) d n ∨ mk_freeblock s ≤ b;
  ex_meta : same_meta d d';
}.

Lemma extends_refl s d n : working s d n → extends s d n s d n.
Proof. intros H. split; try done; by left. Qed.

Lemma extends_trans s d n s1 d1 n1 s2 d2 n2 :
  extends s d n s1 d1 n1 → extends s1 d1 n1 s2 d2 n2 → extends s d n s2 d2 n2.
Proof.
  intros [H1 H2 H3 Hg H4 H5 (H6 & H7 & H8 & H9 & H10)] [G1 G2 G3 Gg G4 G5 (G6 & G7 & G8 & G9 & G10)].
  split; [done | congruence | lia | lia | | | repeat split; congruence].
  - intros b Hb Hnin. rewrite G4, H4; [done | done | done | lia |]. intros Hin. destruct (H5 _ Hin); [done | lia].
  - intros b Hin. destruct (G5 b Hin) as [Hin1 | ?]; [by apply H5 | right; lia].
Qed.

Lemma cost_mono n m : (n ≤ m)%nat → (cost n ≤ cost m)%nat.
Proof. intros H. unfold cost. destruct (Nat.ltb_spec NDIRECT n), (Nat.ltb_spec NDIRECT m); lia. Qed.

Lemma nblk_mono n m : (n ≤ m)%nat → (nblk n ≤ nblk m)%nat.
Proof. intros H. unfold nblk. apply Nat.Div0.div_le_mono. lia. Qed.

(** A position inside the block after the last full one. *)
Lemma nblk_step c k : (0 < k)%nat → (c + k ≤ S (c / B) * B)%nat → nblk (c + k) = S (c / B).
Proof.
  intros Hk Hle. assert (B = 1024%nat) as E by done. destruct (nblk_spec (c + k)) as (H1 & H2 & H3).
  pose proof (Nat.div_mod_eq c B). fold B in *. rewrite E in *. nia.
Qed.

(** One round of the loop. *)
Lemma append_round s d c p : let n := nblk (length c) in
  working s d n → holds (mk_img s) d c → Forall is_byte p → p ≠ [] →
  (length c + length p ≤ S (length c / B) * B)%nat → (length c < MAXFILE * B)%nat →
  mk_freeblock s + Z.of_nat (cost (nblk (length c + length p))) ≤ FSSIZE + Z.of_nat (cost n) →
  ∃ s1 d1 s', iappend_block d (Z.of_nat (length c / B)) s = MOk (d1, blk (mk_img s1) d1 (length c / B)) s1 ∧
    rsect (blk (mk_img s1) d1 (length c / B)) s1 = MOk (sector (mk_img s1) (blk (mk_img s1) d1 (length c / B))) s1 ∧
    wsect (blk (mk_img s1) d1 (length c / B))
      (splice (sector (mk_img s1) (blk (mk_img s1) d1 (length c / B))) (length c mod B) p) s1 = MOk tt s' ∧
    extends s d n s' d1 (nblk (length c + length p)) ∧ holds (mk_img s') d1 (c ++ p).
Proof.
  intros n Hw Hh Hp Hne Hfit Hmax Hroom. destruct (nblk_spec (length c)) as (N1 & N2 & N3). fold n in N1, N2, N3.
  assert (0 < length p)%nat as Hp0 by (destruct p; [done | apply Nat.lt_0_succ]).
  rewrite (nblk_step _ _ Hp0 Hfit) in *.
  assert (n `max` S (length c / B) = S (length c / B))%nat as En by lia.
  destruct (iappend_block_done s d n (length c / B)) as (d1 & s1 & Hrun & Hal);
    [done | lia | apply Nat.Div0.div_lt_upper_bound; lia | rewrite En; lia |].
  destruct (x_range s d n c p s1 d1 N1 Hal Hfit) as [Hx _].
  exists s1, d1, (written c p s1 d1). split; [done |].
  pose proof (wk_img _ _ _ (al_work _ _ _ _ _ _ Hal)) as Hi.
  split; [by apply rsect_done |]. split; [by apply wsect_done |].
  rewrite <-En. split; [| exact (written_holds s d n c p s1 d1 Hw N1 Hal Hfit eq_refl Hh)].
  pose proof (cost_mono n (n `max` S (length c / B)) ltac:(lia)). pose proof (al_blocks _ _ _ _ _ _ Hal).
  split; [exact (written_working s d n c p s1 d1 N1 Hal Hp Hfit) | apply Hal | apply Hal | simpl; lia | | | apply Hal].
  - exact (written_other s d n c p s1 d1 N1 Hal Hfit).
  - exact (written_blocks s d n c p s1 d1 N1 Hal Hfit).
Qed.

Lemma iappend_loop_done fuel : ∀ s d c p, let n := nblk (length c) in
  (length p ≤ fuel)%nat → working s d n → holds (mk_img s) d c → Forall is_byte p →
  (length c + length p ≤ MAXFILE * B)%nat →
  mk_freeblock s + Z.of_nat (cost (nblk (length c + length p))) ≤ FSSIZE + Z.of_nat (cost n) →
  ∃ s' d', iappend_loop fuel d (Z.of_nat (length c)) p s = MOk (d', Z.of_nat (length c + length p)) s' ∧
    extends s d n s' d' (nblk (length c + length p)) ∧ holds (mk_img s') d' (c ++ p).
Proof.
  assert (B = 1024%nat ∧ Z.of_nat B = BSIZE ∧ MAXFILE = 268%nat) as (EB & EZ & EM) by done.
  induction fuel as [| fuel IH]; intros s d c p n Hfuel Hw Hh Hp Hmax Hroom.
  { apply Nat.le_0_r, nil_length_inv in Hfuel as ->. exists s, d. rewrite app_nil_r, Nat.add_0_r.
    split; [done |]. split; [by apply extends_refl | done]. }
  destruct (decide (p = [])) as [-> | Hne].
  { exists s, d. rewrite app_nil_r, Nat.add_0_r. split; [done |]. split; [by apply extends_refl | done]. }
  assert (0 < length p)%nat as Hp0 by (destruct p; [done | apply Nat.lt_0_succ]).
  pose proof (Nat.div_mod_eq (length c) B) as Hdm. pose proof (Nat.mod_upper_bound (length c) B ltac:(lia)) as Hmb.
  set (fbn := (length c / B)%nat) in *. set (k := (length p `min` (B - length c mod B))%nat).
  set (q := take k p). assert (length q = k) as Hq by (unfold q; rewrite length_take; lia).
  assert (length (c ++ q) + length (drop k p) = length c + length p)%nat as Hrest
    by (rewrite length_app, length_drop, Hq; lia).
  assert (c ++ p = (c ++ q) ++ drop k p) as Happ by (unfold q; by rewrite <-app_assoc, take_drop).
  pose proof (cost_mono _ _ (nblk_mono (length c + k) (length c + length p) ltac:(lia))) as Hcost.
  destruct (append_round s d c q) as (s1 & d1 & s2 & R1 & R2 & R3 & Hex & Hh2);
    [done | done | by apply Forall_take | intros E; rewrite E in Hq; simpl in Hq; lia | fold fbn; lia | lia | rewrite Hq; fold n; lia |].
  fold fbn in R1, R2, R3.
  rewrite <-length_app in Hex. pose proof (ex_blocks _ _ _ _ _ _ Hex) as Hfb.
  destruct (IH s2 d1 (c ++ q) (drop k p)) as (s3 & d3 & Hrun & Hex3 & Hh3);
    [rewrite length_drop; lia | apply Hex | done | by apply Forall_drop | lia | fold n in Hfb; rewrite Hrest; lia |].
  exists s3, d3. rewrite Hrest in Hrun, Hex3. rewrite Happ. split; [| split; [by eapply extends_trans | done]].
  destruct p as [| p0 p']; [done |]. cbn [iappend_loop]. set (p := p0 :: p') in *.
  rewrite <-EZ, <-Nat2Z.inj_div. fold fbn. unfold massert.
  rewrite (proj2 (Z.ltb_lt (Z.of_nat fbn) (Z.of_nat MAXFILE))) by (apply Nat2Z.inj_lt; nia).
  erewrite MOk_bind by done. erewrite MOk_bind by exact R1. cbv beta iota zeta.
  erewrite MOk_bind by exact R2.
  replace (Z.to_nat (Z.min (Z.of_nat (length p)) ((Z.of_nat fbn + 1) * Z.of_nat B - Z.of_nat (length c)))) with k by lia.
  replace (Z.to_nat (Z.of_nat (length c) - Z.of_nat fbn * Z.of_nat B)) with (length c mod B)%nat by lia.
  erewrite MOk_bind by exact R3.
  rewrite u32_small by lia. rewrite <-Hrun. f_equal. rewrite length_app, Hq. lia.
Qed.

(** ** Inodes *)

(** The number of inodes that the inode blocks hold. *)
Definition inode_room : Z := ninodeblocks * IPB.

Lemma IBLOCK_range i : 0 ≤ i < inode_room →
  IBLOCK i mksb = 2 + nlog + i / 16 ∧ 2 + nlog ≤ IBLOCK i mksb < 2 + nlog + ninodeblocks.
Proof.
  intros Hi. assert (inode_room = 208 ∧ sb_inodestart mksb = 33 ∧ IPB = 16 ∧ nlog = 31 ∧ ninodeblocks = 13)
    as (E1 & E2 & E3 & E4 & E5) by done.
  unfold IBLOCK. rewrite E2, E3. rewrite E1 in Hi. rewrite E4, E5, u32_small by (Z.to_euclidean_division_equations; lia).
  Z.to_euclidean_division_equations; lia.
Qed.

Lemma dinode_off_range i : (dinode_off i + 64 ≤ B)%nat.
Proof.
  unfold dinode_off. change IPB with 16. change DINODE_SIZE with 64. change B with 1024%nat.
  Z.to_euclidean_division_equations; lia.
Qed.

(** Different inodes are in different places. *)
Lemma dinode_off_apart i j : 0 ≤ i < inode_room → 0 ≤ j < inode_room → i ≠ j → IBLOCK i mksb = IBLOCK j mksb →
  (dinode_off i + 64 ≤ dinode_off j ∨ dinode_off j + 64 ≤ dinode_off i)%nat.
Proof.
  intros Hi Hj Hne. rewrite (proj1 (IBLOCK_range i Hi)), (proj1 (IBLOCK_range j Hj)). unfold dinode_off.
  change IPB with 16. change DINODE_SIZE with 64. Z.to_euclidean_division_equations; lia.
Qed.

Lemma bytes_of_words_props ws : length (bytes_of_words ws) = (4 * length ws)%nat ∧ Forall is_byte (bytes_of_words ws).
Proof.
  induction ws as [| w ws [IH1 IH2]]; [done |]. unfold bytes_of_words in *. rewrite fmap_cons. cbn [concat].
  rewrite length_app, IH1, length_le_bytes. split; [cbn [length]; lia |]. apply Forall_app. split; [apply le_bytes_byte | done].
Qed.

Lemma encode_dinode_props d : dinode_ok d → length (encode_dinode d) = 64%nat ∧ Forall is_byte (encode_dinode d).
Proof.
  intros [_ _ _ _ _ [H _]]. destruct (bytes_of_words_props (d_addrs d)) as [Hl Hb]. unfold encode_dinode. split.
  - rewrite !length_app, !length_le_bytes, Hl, H. done.
  - repeat (apply Forall_app; split; [apply le_bytes_byte |]). done.
Qed.

Lemma rinode_done s i : img_ok (mk_img s) → 0 ≤ i < inode_room → rinode i s = MOk (inode_of (mk_img s) i) s.
Proof.
  intros Hok Hi. unfold rinode. pose proof (IBLOCK_range i Hi) as [_ H].
  assert (0 ≤ nlog ∧ 2 + nlog + ninodeblocks < FSSIZE) by done. erewrite MOk_bind by (apply rsect_done; [done | lia]). done.
Qed.

(** Storing an inode changes that inode and nothing outside the inode blocks. *)
Record inode_put (i : Z) (d : dinode) (s s' : mkst) : Prop := {
  ip_img : img_ok (mk_img s');
  ip_counters : mk_freeinode s' = mk_freeinode s ∧ mk_freeblock s' = mk_freeblock s;
  ip_this : inode_of (mk_img s') i = d;
  ip_other : ∀ j, 0 ≤ j < inode_room → j ≠ i → inode_of (mk_img s') j = inode_of (mk_img s) j;
  ip_sector : ∀ b, 0 ≤ b → (b < 2 + nlog ∨ 2 + nlog + ninodeblocks ≤ b) → sector (mk_img s') b = sector (mk_img s) b;
}.

Lemma winode_done s i d : img_ok (mk_img s) → 0 ≤ i < inode_room → dinode_ok d →
  ∃ s', winode i d s = MOk tt s' ∧ inode_put i d s s'.
Proof.
  intros Hok Hi Hd. pose proof (IBLOCK_range i Hi) as [_ Hr]. assert (0 ≤ nlog ∧ 2 + nlog + ninodeblocks < FSSIZE) as Hc by done.
  destruct (encode_dinode_props d Hd) as [Hl Hb]. pose proof (dinode_off_range i) as Hoff.
  assert (0 ≤ IBLOCK i mksb < FSSIZE) as Hib by lia. destruct (sector_ok _ _ Hok Hib) as (_ & Hsl & Hsb).
  eexists. split; [unfold winode; erewrite MOk_bind by (by apply rsect_done); by apply wsect_done |].
  assert (∀ b, 0 ≤ b → sector (put (mk_img s) (IBLOCK i mksb) (splice (sector (mk_img s) (IBLOCK i mksb)) (dinode_off i) (encode_dinode d))) b =
    if decide (b = IBLOCK i mksb) then splice (sector (mk_img s) (IBLOCK i mksb)) (dinode_off i) (encode_dinode d)
    else sector (mk_img s) b) as Hsec by (intros b Hb0; by apply sector_put).
  split; [| done | | |].
  - apply put_ok; [done | rewrite length_splice; [done | lia] | by apply splice_byte].
  - unfold inode_of. cbn. rewrite Hsec, decide_True by (done || lia). change (Z.to_nat DINODE_SIZE) with 64%nat.
    rewrite <-Hl, slice_splice by lia. by apply decode_encode_dinode.
  - intros j Hj Hne. pose proof (IBLOCK_range j Hj) as [_ Hrj]. unfold inode_of. cbn. rewrite Hsec by lia.
    case_decide as He; [| done]. change (Z.to_nat DINODE_SIZE) with 64%nat. rewrite He.
    rewrite slice_splice_other; [done | lia |]. rewrite Hl. by apply dinode_off_apart.
  - intros b Hb0 Hout. cbn. rewrite Hsec, decide_False by lia. done.
Qed.

(** ** The files of an image *)

(** A type and the bytes. *)
Abbreviation fdata := (Z * list Z)%type.

Definition fblocks (f : fdata) : nat := nblk (length f.2).
(** The sectors the files take. *)
Definition used (F : list fdata) : nat := sum_list_with (λ f, cost (fblocks f)) F.

(** Inode [i] describes the file [f]. *)
Record file_ok (img : list (list Z)) (fb : Z) (d : dinode) (f : fdata) : Prop := {
  fo_struct : struct_ok img fb d (fblocks f);
  fo_type : d_type d = f.1;
  fo_dev : d_major d = 0 ∧ d_minor d = 0;
  fo_nlink : d_nlink d = 1;
  fo_size : d_size d = Z.of_nat (length f.2);
  fo_holds : holds img d f.2;
}.

(** The inode of file [k] of the list. *)
Definition nth_inode (img : list (list Z)) (k : nat) : dinode := inode_of img (Z.of_nat (S k)).
Definition nth_blocks (img : list (list Z)) (k : nat) (f : fdata) : list Z := blocks_of img (nth_inode img k) (fblocks f).

(** What is below the inode blocks. *)
Definition low_sector (b : Z) : list Z := if b =? 1 then splice zeroes 0 (encode_superblock mksb) else zeroes.

Record fs_ok (s : mkst) (F : list fdata) : Prop := {
  fk_img : img_ok (mk_img s);
  fk_fb : mk_freeblock s = nmeta + Z.of_nat (used F);
  fk_room : mk_freeblock s ≤ FSSIZE;
  fk_inode : mk_freeinode s = Z.of_nat (S (length F));
  fk_fresh : fresh (mk_img s) (mk_freeblock s);
  fk_file : ∀ k f, F !! k = Some f → file_ok (mk_img s) (mk_freeblock s) (nth_inode (mk_img s) k) f;
  fk_apart : ∀ k f k' f' b, F !! k = Some f → F !! k' = Some f' → k ≠ k' →
    b ∈ nth_blocks (mk_img s) k f → b ∉ nth_blocks (mk_img s) k' f';
  fk_free : ∀ i, 0 ≤ i < inode_room → i = 0 ∨ Z.of_nat (length F) < i → d_type (inode_of (mk_img s) i) = 0;
  fk_low : ∀ b, 0 ≤ b < 2 + nlog → sector (mk_img s) b = low_sector b;
}.

Lemma fk_count s F : fs_ok s F → nmeta ≤ mk_freeblock s ≤ FSSIZE.
Proof. intros H. pose proof (fk_room _ _ H). rewrite (fk_fb _ _ H) in *. lia. Qed.

Lemma blocks_range img fb d n b : struct_ok img fb d n → b ∈ blocks_of img d n → nmeta ≤ b < fb.
Proof. intros H Hb. pose proof (so_range _ _ _ _ H) as Hr. rewrite Forall_forall in Hr. by apply Hr. Qed.

(** A file depends on its own blocks only. *)
Lemma blocks_frame img img' d n :
  (∀ b, b ∈ blocks_of img d n → sector img' b = sector img b) → blocks_of img' d n = blocks_of img d n.
Proof. intros H. apply blocks_of_same. intros Hn. apply H, elem_of_blocks. by right. Qed.

Lemma holds_frame img img' d c : 
  (∀ b, b ∈ blocks_of img d (nblk (length c)) → sector img' b = sector img b) → holds img d c → holds img' d c.
Proof.
  intros H Hh i Hi. rewrite <-(Hh i Hi). unfold byte_at. assert (B ≠ 0)%nat by done.
  assert (i / B < nblk (length c))%nat as Hf by (apply Nat.Div0.div_lt_upper_bound; lia).
  assert (blk img' d (i / B) = blk img d (i / B)) as ->.
  { unfold blk. destruct (Nat.ltb_spec (i / B) NDIRECT); [done |]. rewrite H; [done |]. apply elem_of_blocks. right. split; [lia | done]. }
  rewrite H; [done |]. apply elem_of_blocks. left. eauto.
Qed.

Lemma file_frame img img' fb fb' d f : file_ok img fb d f → fb ≤ fb' →
  (∀ b, b ∈ blocks_of img d (fblocks f) → sector img' b = sector img b) → file_ok img' fb' d f.
Proof.
  intros [H1 H2 H3 H4 H5 H6] Hfb Hs. split; try done.
  - apply (struct_frame img img' fb); [done | done |]. intros Hn. apply Hs, elem_of_blocks. by right.
  - by apply (holds_frame img).
Qed.

(** The size field plays no part in where the blocks are. *)
Lemma struct_with_size img fb d n v : struct_ok img fb d n → is_u32 v → struct_ok img fb (with_size d v) n.
Proof. intros [[H1 H2 H3 H4 H5 H6] G2 G3 G4 G5 G6 G7] Hv. split; try done. Qed.

Lemma holds_with_size img d c v : holds img d c → holds img (with_size d v) c.
Proof. done. Qed.

(** One file changes, or is added, in sectors of its own and in its inode. *)
Record one_file (s : mkst) (F : list fdata) (k : nat) (old : list Z) (s' : mkst) (F' : list fdata) (f' : fdata) : Prop := {
  of_here : F' !! k = Some f';
  of_there : ∀ k', k' ≠ k → F' !! k' = F !! k';
  of_length : length F' = (length F `max` S k)%nat;
  of_old : ∀ k' g b, F !! k' = Some g → k' ≠ k → b ∈ nth_blocks (mk_img s) k' g → b ∉ old;
  of_img : img_ok (mk_img s');
  of_fb : mk_freeblock s' = nmeta + Z.of_nat (used F') ∧ mk_freeblock s ≤ mk_freeblock s' ≤ FSSIZE;
  of_inode : mk_freeinode s' = Z.of_nat (S (length F'));
  of_fresh : fresh (mk_img s') (mk_freeblock s');
  of_inodes : ∀ j, 0 ≤ j < inode_room → j ≠ Z.of_nat (S k) → inode_of (mk_img s') j = inode_of (mk_img s) j;
  of_sector : ∀ b, 0 ≤ b < mk_freeblock s → b < 2 + nlog ∨ nmeta ≤ b → b ∉ old →
    sector (mk_img s') b = sector (mk_img s) b;
  of_file : file_ok (mk_img s') (mk_freeblock s') (nth_inode (mk_img s') k) f';
  of_blocks : ∀ b, b ∈ nth_blocks (mk_img s') k f' → b ∈ old ∨ mk_freeblock s ≤ b;
}.

Section one_file.
Context (s : mkst) (F : list fdata) (k : nat) (old : list Z) (s' : mkst) (F' : list fdata) (f' : fdata).
Hypothesis Hfs : fs_ok s F.
Hypothesis H : one_file s F k old s' F' f'.
Hypothesis Hroom : Z.of_nat (length F') < inode_room.
Hypothesis Hold : Forall (λ b, nmeta ≤ b) old.

Lemma one_file_inode k' g : F !! k' = Some g → k' ≠ k → nth_inode (mk_img s') k' = nth_inode (mk_img s) k'.
Proof.
  intros Hg Hne. apply (of_inodes _ _ _ _ _ _ _ H); [| lia]. pose proof (lookup_lt_Some _ _ _ Hg).
  rewrite (of_length _ _ _ _ _ _ _ H) in Hroom. lia.
Qed.

Lemma one_file_sector k' g b : F !! k' = Some g → k' ≠ k → b ∈ nth_blocks (mk_img s) k' g →
  sector (mk_img s') b = sector (mk_img s) b.
Proof.
  intros Hg Hne Hb. pose proof (blocks_range _ _ _ _ b (fo_struct _ _ _ _ (fk_file _ _ Hfs _ _ Hg)) Hb). assert (0 < nmeta) by done.
  apply (of_sector _ _ _ _ _ _ _ H); [lia | lia |]. by eapply (of_old _ _ _ _ _ _ _ H).
Qed.

Lemma one_file_blocks k' g : F !! k' = Some g → k' ≠ k → nth_blocks (mk_img s') k' g = nth_blocks (mk_img s) k' g.
Proof.
  intros Hg Hne. unfold nth_blocks. rewrite (one_file_inode k' g) by done. apply blocks_frame. intros b Hb. by eapply one_file_sector.
Qed.

(** The changed file stays clear of the others. *)
Lemma one_file_clear k' g b : F !! k' = Some g → k' ≠ k →
  b ∈ nth_blocks (mk_img s') k f' → b ∉ nth_blocks (mk_img s') k' g.
Proof.
  intros Hg Hne Hb Hb'. rewrite (one_file_blocks k' g) in Hb' by done. destruct (of_blocks _ _ _ _ _ _ _ H b Hb) as [Ho | Ho].
  - by eapply (of_old _ _ _ _ _ _ _ H).
  - pose proof (blocks_range _ _ _ _ b (fo_struct _ _ _ _ (fk_file _ _ Hfs _ _ Hg)) Hb'). lia.
Qed.

Lemma one_file_ok : fs_ok s' F'.
Proof.
  pose proof (fk_count _ _ Hfs) as Hc. destruct (of_fb _ _ _ _ _ _ _ H) as [Hfb Hle].
  pose proof (of_there _ _ _ _ _ _ _ H) as Ht. pose proof (of_here _ _ _ _ _ _ _ H) as Hk.
  split; [apply H | done | lia | apply H | apply H | | | |].
  - intros k' g Hg. destruct (decide (k' = k)) as [-> | Hne].
    + rewrite Hk in Hg. injection Hg as <-. apply H.
    + rewrite Ht in Hg by done. rewrite (one_file_inode k' g) by done.
      apply (file_frame (mk_img s) _ (mk_freeblock s)); [by apply Hfs | lia |]. intros b Hb. by eapply one_file_sector.
  - intros k1 f1 k2 f2 b H1 H2 Hne Hb. destruct (decide (k1 = k)) as [-> | N1], (decide (k2 = k)) as [-> | N2].
    + done.
    + rewrite Hk in H1. injection H1 as <-. rewrite Ht in H2 by done. by apply one_file_clear.
    + rewrite Hk in H2. injection H2 as <-. rewrite Ht in H1 by done. intros Hb'. by eapply one_file_clear.
    + rewrite Ht in H1, H2 by done. rewrite (one_file_blocks k1 f1) in Hb by done. rewrite (one_file_blocks k2 f2) by done. by eapply (fk_apart _ _ Hfs k1 f1 k2 f2).
  - intros i Hi Hout. rewrite (of_length _ _ _ _ _ _ _ H) in Hout. rewrite (of_inodes _ _ _ _ _ _ _ H) by lia.
    apply (fk_free _ _ Hfs); [done | lia].
  - intros b Hb. assert (2 + nlog < nmeta) by done. rewrite <-(fk_low _ _ Hfs) by done.
    apply (of_sector _ _ _ _ _ _ _ H); [lia | left; lia |]. intros Hin. rewrite Forall_forall in Hold. specialize (Hold _ Hin). lia.
Qed.
End one_file.

Lemma used_app F G : used (F ++ G) = (used F + used G)%nat.
Proof. apply sum_list_with_app. Qed.

Lemma used_insert F k f f' : F !! k = Some f →
  (used (<[k := f']> F) + cost (fblocks f) = used F + cost (fblocks f'))%nat.
Proof.
  revert k. induction F as [| g F IH]; intros [| k] Hk; simpl in *; [done | done | |].
  - injection Hk as ->. unfold used. simpl. lia.
  - specialize (IH k Hk). unfold used in *. simpl. lia.
Qed.

Lemma nth_zeros f m : nth f (replicate m 0) 0 = 0.
Proof.
  rewrite nth_lookup. destruct (replicate m 0 !! f) eqn:E; [| done]. by apply lookup_replicate in E as [-> _].
Qed.

(** [ialloc] adds an empty file. *)
Lemma ialloc_done s F ty : fs_ok s F → Z.of_nat (S (length F)) < inode_room → 0 ≤ ty < 2 ^ 15 →
  ∃ s', ialloc ty s = MOk (Z.of_nat (S (length F))) s' ∧ fs_ok s' (F ++ [(ty, [])]).
Proof.
  intros Hfs Hroom Hty. set (i := Z.of_nat (S (length F))) in *.
  set (d := mkDinode ty 0 0 1 0 (replicate (S NDIRECT) 0)).
  assert (mkDinode (i16 (xshort ty)) 0 0 (i16 (xshort 1)) (xint 0) (replicate (S NDIRECT) 0) = d) as Ed.
  { rewrite xshort_id by lia. unfold d. f_equal. unfold i16. rewrite Z.mod_small; lia. }
  assert (dinode_ok d) as Hd.
  { split; cbn [d d_type d_major d_minor d_nlink d_size d_addrs]; try lia; [done |]. split; [done | by apply Forall_replicate]. }
  set (s1 := s <| mk_freeinode := i + 1 |>).
  destruct (winode_done s1 i d) as (s2 & Hrun & [P1 [P2 P2'] P3 P4 P5]); [apply Hfs | lia | done |].
  exists s2. split.
  { unfold ialloc. assert (inode_room = 208) by done. erewrite MOk_bind by done. rewrite (fk_inode _ _ Hfs), Ed. fold i.
    rewrite u32_small by lia. fold s1. by erewrite MOk_bind by exact Hrun. }
  pose proof (fk_count _ _ Hfs) as Hc. assert (0 < 2 + nlog + ninodeblocks < nmeta) as Hm by done.
  change (mk_freeblock s1) with (mk_freeblock s) in P2'. change (mk_img s1) with (mk_img s) in *.
  eapply (one_file_ok s F (length F) []); [done | | rewrite length_app; simpl; lia | done].
  split; [by rewrite list_lookup_middle | | rewrite length_app; simpl; lia | | done | | | | done | | | ].
  - intros k' Hk'. destruct (decide (k' < length F)%nat); [by rewrite lookup_app_l |].
    rewrite !lookup_ge_None_2; [done | lia | rewrite length_app; simpl; lia].
  - intros k' g b _ _ _. apply not_elem_of_nil.
  - rewrite used_app, P2', (fk_fb _ _ Hfs). rewrite (fk_fb _ _ Hfs) in Hc. change (used [(ty, [])]) with 0%nat. lia.
  - rewrite P2, length_app. change (mk_freeinode s1) with (i + 1). unfold i. simpl. lia.
  - intros b Hb. rewrite P2' in Hb. rewrite P5 by lia. by apply (fk_fresh _ _ Hfs).
  - intros b Hb Hout _. apply P5; lia.
  - unfold nth_inode. fold i. rewrite P3.
    split; try done; [| intros j Hj; by apply Nat.nlt_0_r in Hj]. change (fblocks (ty, [])) with 0%nat.
    split; [done | lia | apply Forall_nil_2 | apply NoDup_nil_2 | intros f _; apply nth_zeros | done | lia].
  - intros b Hb. by apply elem_of_nil in Hb.
Qed.

(** The two stages of [iappend]: the blocks, then the inode. *)
Lemma append_one_file s F k ty c p s1 d1 s2 : let d := nth_inode (mk_img s) k in let f' := (ty, c ++ p) in
  fs_ok s F → F !! k = Some (ty, c) → nmeta + Z.of_nat (used (<[k := f']> F)) ≤ FSSIZE →
  is_u32 (Z.of_nat (length (c ++ p))) →
  extends s d (nblk (length c)) s1 d1 (fblocks f') → holds (mk_img s1) d1 (c ++ p) →
  inode_put (Z.of_nat (S k)) (with_size d1 (Z.of_nat (length (c ++ p)))) s1 s2 →
  one_file s F k (blocks_of (mk_img s) d (nblk (length c))) s2 (<[k := f']> F) f'.
Proof.
  intros d f' Hfs Hk Hspace H32 Hex Hh [P1 [P2 P2'] P3 P4 P5]. pose proof (lookup_lt_Some _ _ _ Hk) as Hlt.
  pose proof (fk_count _ _ Hfs) as Hc. pose proof (fk_file _ _ Hfs _ _ Hk) as Hf. fold d in Hf.
  assert (0 < 2 + nlog ∧ 0 ≤ ninodeblocks ∧ 2 + nlog + ninodeblocks < nmeta) as Hm by done.
  destruct Hex as [[W1 W2 W3 W4] E1 E2 E3 E4 E5 (M1 & M2 & M3 & M4 & M5)].
  assert (∀ b, nmeta ≤ b → sector (mk_img s2) b = sector (mk_img s1) b) as Hup by (intros b Hb; apply P5; lia).
  assert (∀ b, b ∈ blocks_of (mk_img s) d (nblk (length c)) → nmeta ≤ b) as Hmine
    by (intros b Hb; apply (blocks_range _ _ _ _ b (fo_struct _ _ _ _ Hf) Hb)).
  assert (nth_inode (mk_img s2) k = with_size d1 (Z.of_nat (length (c ++ p)))) as Hd2 by exact P3.
  pose proof (used_insert F k _ f' Hk) as Hu. unfold fblocks at 1 in Hu. cbn [snd] in Hu.
  split; [by apply list_lookup_insert_eq | intros; by apply list_lookup_insert_ne | rewrite length_insert; lia | | done | | | | | | |].
  - intros k' g b Hg Hne Hb. by apply (fk_apart _ _ Hfs _ _ _ _ _ Hg Hk Hne).
  - rewrite P2'. rewrite (fk_fb _ _ Hfs) in *. lia.
  - rewrite P2, E1, (fk_inode _ _ Hfs), length_insert. done.
  - intros b Hb. rewrite P2' in Hb. rewrite Hup by lia. by apply W3.
  - intros j Hj Hne. rewrite P4 by done. pose proof (IBLOCK_range j Hj) as [_ Hr]. unfold inode_of.
    rewrite E4; [done | lia |]. intros Hin. specialize (Hmine _ Hin). lia.
  - intros b Hb Hout Hnin. rewrite P5 by lia. by apply E4.
  - rewrite Hd2, P2'. apply (file_frame (mk_img s1) _ (mk_freeblock s1)); [| lia |].
    + split; [by apply struct_with_size | | | | done | done]; unfold with_size; simpl;
        [rewrite M1; apply Hf | rewrite M2, M3; apply Hf | rewrite M4; apply Hf].
    + intros b Hb. apply Hup. by apply (blocks_range _ _ _ _ b W4).
  - intros b. unfold nth_blocks. rewrite Hd2, (blocks_frame (mk_img s1)); [apply E5 |].
    intros b' Hb'. apply Hup. by apply (blocks_range _ _ _ _ b' W4).
Qed.

(** [iappend] adds bytes at the end of a file. *)
Lemma iappend_done s F k ty c p : fs_ok s F → F !! k = Some (ty, c) → Z.of_nat (length F) < inode_room →
  Forall is_byte p → (length c + length p ≤ MAXFILE * B)%nat →
  nmeta + Z.of_nat (used (<[k := (ty, c ++ p)]> F)) ≤ FSSIZE →
  ∃ s', iappend (Z.of_nat (S k)) p s = MOk tt s' ∧ fs_ok s' (<[k := (ty, c ++ p)]> F).
Proof.
  intros Hfs Hk Hroom Hp Hmax Hspace. pose proof (lookup_lt_Some _ _ _ Hk) as Hlt. set (i := Z.of_nat (S k)).
  assert (0 ≤ i < inode_room) as Hi by (unfold i; lia). pose proof (fk_count _ _ Hfs) as Hc.
  pose proof (fk_file _ _ Hfs _ _ Hk) as Hf. set (d := nth_inode (mk_img s) k) in *.
  pose proof (used_insert F k _ (ty, c ++ p) Hk) as Hu. unfold fblocks in Hu. cbn [snd] in Hu. rewrite length_app in Hu.
  assert (fblocks (ty, c) = nblk (length c)) as En by done.
  destruct (iappend_loop_done (length p) s d c p) as (s1 & d1 & Hrun & Hex & Hh);
    [done | split; [apply Hfs | done | apply Hfs | apply Hf] | apply Hf | done | done | rewrite (fk_fb _ _ Hfs); lia |].
  pose proof (ex_work _ _ _ _ _ _ Hex) as [W1 W2 W3 W4]. set (m := (length c + length p)%nat) in *.
  assert (is_u32 (Z.of_nat m)) as Hm32 by (pose proof maxfile_bytes; unfold is_u32; lia).
  pose proof (struct_with_size _ _ _ _ (Z.of_nat m) W4 Hm32) as Hs.
  destruct (winode_done s1 i (with_size d1 (Z.of_nat m))) as (s2 & Hrun2 & [P1 [P2 P2'] P3 P4 P5]); [done | done | apply Hs |].
  exists s2. split.
  { unfold iappend. erewrite MOk_bind by (apply rinode_done; [apply Hfs | done]). fold d.
    change (inode_of (mk_img s) i) with d. rewrite (fo_size _ _ _ _ Hf). cbn [snd].
    rewrite xint_id by (unfold is_u32 in *; lia).
    erewrite MOk_bind by exact Hrun. cbv beta iota. by rewrite xint_id. }
  unfold m in *. rewrite <-length_app in *. eapply one_file_ok; [done | by apply (append_one_file s F k ty c p s1 d1) | by rewrite length_insert |].
  apply Forall_forall. intros b Hb. apply (blocks_range _ _ _ _ b (fo_struct _ _ _ _ Hf) Hb).
Qed.
