(* ===== verification/MkfsMain.v ===== *)
(** * mkfs builds the file system it is asked for (mkfs/mkfs.c)

    The main program: the zeroed image and its super block, the root directory, one
    file per argument, the size of the root directory and the bitmap. *)

From S2P Require Import Prelude Machine Kstate Strings Fs FsData Mkfs MkfsSpec MkfsImage.

#[local] Abbreviation B := (Z.to_nat BSIZE).

(** ** The files asked for *)

(** An argument: its name and the pieces that reading it gives. *)
Abbreviation argument := (list Z * option (list (list Z)))%type.

Definition shortname (name : list Z) : list Z := strip_underscore (strip_user name).
Definition data_of (f : argument) : list Z := concat (default [] f.2).

(** The entries of the root directory, and its bytes. *)
Definition entries (files : list argument) : list (Z * list Z) :=
  (ROOTINO, bytes_of_string ".") :: (ROOTINO, bytes_of_string "..") ::
  imap (λ k f, (Z.of_nat (k + 2), shortname f.1)) files.
Definition root_data (files : list argument) : list Z := concat ((λ e, mkfs_dirent e.1 e.2) <$> entries files).

Definition tree (files : list argument) : list fdata :=
  (T_DIR, root_data files) :: ((λ f, (T_FILE, data_of f)) <$> files).

(** An argument that mkfs accepts. *)
Record fits_file (f : argument) : Prop := {
  ft_slash : SLASH ∉ strip_user f.1;
  ft_name : (length (shortname f.1) ≤ DIRSIZ)%nat ∧ Forall is_byte f.1;
  ft_open : is_Some f.2;
  ft_bytes : Forall (Forall is_byte) (default [] f.2);
  ft_size : (length (data_of f) ≤ MAXFILE * B)%nat;
}.

(** The inodes of the image, and its blocks, are enough. *)
Record fits (files : list argument) : Prop := {
  fi_files : Forall fits_file files;
  fi_inodes : Z.of_nat (length files) + 2 ≤ NINODES;
  fi_blocks : nmeta + Z.of_nat (used (tree files)) ≤ FSSIZE;
}.

Lemma mkfs_dirent_props inum name : Forall is_byte name →
  length (mkfs_dirent inum name) = 16%nat ∧ Forall is_byte (mkfs_dirent inum name).
Proof.
  intros Hn. unfold mkfs_dirent, encode_dirent. cbn [de_inum de_name]. split.
  - rewrite length_app, length_le_bytes, length_take, length_app, length_replicate. unfold DIRSIZ. lia.
  - apply Forall_app. split; [apply le_bytes_byte |]. apply Forall_take, Forall_app. split; [done | by apply Forall_replicate].
Qed.

Lemma shortname_bytes name : Forall is_byte name → Forall is_byte (shortname name).
Proof.
  intros H. assert (Forall is_byte (strip_user name)) as Hs by (unfold strip_user; case_bool_decide; [by apply Forall_drop | done]).
  unfold shortname, strip_underscore. destruct Hs; [done |]. case_match; [done | by constructor].
Qed.

Lemma root_data_snoc files f : root_data (files ++ [f]) =
  root_data files ++ mkfs_dirent (Z.of_nat (length files + 2)) (shortname f.1).
Proof.
  unfold root_data. change (entries (files ++ [f])) with
    ((ROOTINO, bytes_of_string ".") :: (ROOTINO, bytes_of_string "..") ::
      imap (λ k f, (Z.of_nat (k + 2), shortname f.1)) (files ++ [f])).
  rewrite imap_app, !app_comm_cons, fmap_app, concat_app. cbn [imap fmap list_fmap concat fst snd].
  by rewrite app_nil_r, Nat.add_0_r.
Qed.

Lemma root_data_length files : Forall fits_file files → length (root_data files) = (16 * (length files + 2))%nat.
Proof.
  induction files as [| f files IH] using rev_ind; [done |]. intros [Hfs Hf]%Forall_app. inversion_clear Hf as [| ? ? Hf' _].
  rewrite root_data_snoc, length_app, IH, length_app by done.
  rewrite (proj1 (mkfs_dirent_props _ _ (shortname_bytes _ (proj2 (ft_name _ Hf'))))). simpl. lia.
Qed.

(** ** One argument *)

Lemma append_chunks chunks : ∀ s G ty c, fs_ok s (G ++ [(ty, c)]) → Z.of_nat (S (length G)) < inode_room →
  Forall (Forall is_byte) chunks → (length c + length (concat chunks) ≤ MAXFILE * B)%nat →
  nmeta + Z.of_nat (used (G ++ [(ty, c ++ concat chunks)])) ≤ FSSIZE →
  ∃ s', foldr (λ chunk k, iappend (Z.of_nat (S (length G))) chunk;; k) (mret tt) chunks s = MOk tt s' ∧
    fs_ok s' (G ++ [(ty, c ++ concat chunks)]).
Proof.
  induction chunks as [| p chunks IH]; intros s G ty c Hfs Hroom Hb Hmax Hsp.
  { exists s. cbn [concat foldr]. rewrite app_nil_r. done. }
  apply Forall_cons in Hb as [Hp Hb]. cbn [concat foldr] in *. rewrite length_app in Hmax.
  assert (<[length G := (ty, c ++ p)]> (G ++ [(ty, c)]) = G ++ [(ty, c ++ p)]) as Hins
    by (rewrite insert_app_r_alt, Nat.sub_diag by done; done).
  assert (used (G ++ [(ty, c ++ p)]) ≤ used (G ++ [(ty, c ++ p ++ concat chunks)]))%nat as Hle.
  { rewrite !used_app. apply Nat.add_le_mono_l. unfold used. simpl. rewrite !Nat.add_0_r. apply cost_mono, nblk_mono. simpl.
    rewrite !length_app. lia. }
  destruct (iappend_done s (G ++ [(ty, c)]) (length G) ty c p) as (s1 & Hrun & Hfs1);
    [done | by rewrite list_lookup_middle | rewrite length_app; simpl; lia | done | lia | rewrite Hins; lia |].
  rewrite Hins in Hfs1. rewrite app_assoc in Hsp |- *.
  destruct (IH s1 G ty (c ++ p)) as (s2 & Hrun2 & Hfs2); [done | done | done | rewrite length_app; lia | done |].
  exists s2. split; [| done]. by erewrite MOk_bind by exact Hrun.
Qed.

Lemma root_data_prefix pre rest : root_data pre `prefix_of` root_data (pre ++ rest).
Proof.
  induction rest as [| f rest IH] using rev_ind; [by rewrite app_nil_r |].
  rewrite app_assoc, root_data_snoc. by apply prefix_app_r.
Qed.

Lemma used_cons ty c F : used ((ty, c) :: F) = (cost (nblk (length c)) + used F)%nat.
Proof. done. Qed.

Lemma used_tree_app pre rest : (used (tree pre) ≤ used (tree (pre ++ rest)))%nat.
Proof.
  unfold tree. rewrite !used_cons, fmap_app, used_app.
  pose proof (cost_mono _ _ (nblk_mono _ _ (prefix_length _ _ (root_data_prefix pre rest)))). lia.
Qed.

Lemma length_tree files : length (tree files) = S (length files).
Proof. unfold tree. simpl. by rewrite length_fmap. Qed.

Lemma mkfs_file_done s pre f rest : fs_ok s (tree pre) → fits (pre ++ f :: rest) →
  ∃ s', mkfs_file ROOTINO f s = MOk tt s' ∧ fs_ok s' (tree (pre ++ [f])).
Proof.
  intros Hfs [Hall Hnum Hsp]. rewrite length_app in Hnum. cbn [length] in Hnum. rewrite cons_middle, app_assoc in Hsp.
  apply Forall_app in Hall as [Hpre [Hf _]%Forall_cons].
  assert (NINODES = 200 ∧ inode_room = 208) as [EN ER] by done. pose proof (used_tree_app (pre ++ [f]) rest) as Hle.
  assert (Forall fits_file (pre ++ [f])) as Hpf by (apply Forall_app; split; [done | by apply Forall_singleton]).
  set (G := (T_DIR, root_data (pre ++ [f])) :: ((λ f, (T_FILE, data_of f)) <$> pre)).
  assert (tree (pre ++ [f]) = G ++ [(T_FILE, data_of f)]) as Et by (unfold tree, G; by rewrite fmap_app).
  assert (length G = S (length pre)) as HG by (unfold G; cbn [length]; by rewrite length_fmap).
  destruct (ialloc_done s (tree pre) T_FILE) as (s1 & R1 & F1); [done | rewrite length_tree; lia | done |].
  rewrite length_tree, <-HG in R1.
  pose proof (shortname_bytes _ (proj2 (ft_name _ Hf))) as Hsb.
  destruct (mkfs_dirent_props (Z.of_nat (S (length G))) _ Hsb) as [Hdl Hdb].
  assert (<[0%nat := (T_DIR, root_data pre ++ mkfs_dirent (Z.of_nat (S (length G))) (shortname f.1))]>
    (tree pre ++ [(T_FILE, [])]) = G ++ [(T_FILE, [])]) as Hins.
  { rewrite HG. unfold G. rewrite root_data_snoc. replace (length pre + 2)%nat with (S (S (length pre))) by lia. done. }
  assert (used (G ++ [(T_FILE, [])]) ≤ used (G ++ [(T_FILE, data_of f)]))%nat as Hle2.
  { rewrite !used_app. apply Nat.add_le_mono_l. apply Nat.le_0_l. }
  rewrite Et in Hle |- *. pose proof maxfile_bytes.
  destruct (iappend_done s1 (tree pre ++ [(T_FILE, [])]) 0 T_DIR (root_data pre)
    (mkfs_dirent (Z.of_nat (S (length G))) (shortname f.1))) as (s2 & R2 & F2);
    [done | done | rewrite length_app, length_tree; simpl; lia | done | rewrite root_data_length, Hdl by done; lia | rewrite Hins; lia |].
  rewrite Hins in F2.
  destruct (append_chunks (default [] f.2) s2 G T_FILE []) as (s3 & R3 & F3);
    [done | lia | apply Hf | apply Hf | change ([] ++ concat (default [] f.2)) with (data_of f); lia |].
  exists s3. split; [| done]. destruct f as [name chunks]. destruct (ft_open _ Hf) as [cs Hcs]. simpl in Hcs. subst chunks.
  unfold mkfs_file. rewrite bool_decide_false by apply Hf. erewrite MOk_bind by done. fold (shortname name).
  rewrite (proj2 (Nat.leb_le _ _)) by apply Hf. erewrite MOk_bind by done.
  erewrite MOk_bind by exact R1. erewrite MOk_bind by exact R2. exact R3.
Qed.

Lemma mkfs_files_done rest : ∀ s pre, fs_ok s (tree pre) → fits (pre ++ rest) →
  ∃ s', foldr (λ f k, mkfs_file ROOTINO f;; k) (mret tt) rest s = MOk tt s' ∧ fs_ok s' (tree (pre ++ rest)).
Proof.
  induction rest as [| f rest IH]; intros s pre Hfs Hfit; [exists s; by rewrite app_nil_r |].
  destruct (mkfs_file_done s pre f rest Hfs Hfit) as (s1 & R1 & F1). rewrite cons_middle, app_assoc in Hfit |- *.
  destruct (IH s1 (pre ++ [f]) F1 Hfit) as (s2 & R2 & F2). exists s2. split; [| done].
  cbn [foldr]. by erewrite MOk_bind by exact R1.
Qed.

(** ** The empty image *)

Lemma wsect_zeroes n : ∀ i a b,
  foldr (λ i k, wsect (Z.of_nat i) zeroes;; k) (mret tt) (seq i n) (mkMk (replicate i zeroes) a b) =
  MOk tt (mkMk (replicate (i + n) zeroes) a b).
Proof.
  induction n as [| n IH]; intros i a b; [by rewrite Nat.add_0_r |]. cbn [seq foldr].
  erewrite MOk_bind; cycle 1.
  { unfold wsect. cbn [mk_img]. rewrite Nat2Z.id, length_replicate, Nat.ltb_irrefl, Nat.sub_diag. reflexivity. }
  rewrite <-Nat.add_succ_comm, <-IH. unfold zeroes. cbn. by rewrite <-replicate_S_end.
Qed.

Lemma slice_zeroes off n : (off + n ≤ B)%nat → slice zeroes off n = replicate n 0.
Proof.
  intros H. unfold slice, zeroes. rewrite drop_replicate, take_replicate. f_equal. lia.
Qed.

(** The image before the root directory. *)
Definition blank : mkst :=
  mkMk (put (replicate (Z.to_nat FSSIZE) zeroes) 1 (splice zeroes 0 (encode_superblock mksb))) 1 nmeta.

Lemma blank_run : wsect 1 (splice zeroes 0 (encode_superblock mksb)) (mkMk (replicate (Z.to_nat FSSIZE) zeroes) 1 nmeta) = MOk tt blank.
Proof.
  rewrite wsect_done; [reflexivity | | done]. cbn [mk_img]. split; [apply length_replicate |].
  apply Forall_replicate. exact zeroes_ok.
Qed.

Lemma blank_sector b : 0 ≤ b < FSSIZE → sector (mk_img blank) b = low_sector b.
Proof.
  intros Hb. unfold sector, blank, low_sector, put. cbn [mk_img]. destruct (Z.eqb_spec b 1) as [-> | Hne].
  - rewrite list_lookup_insert_eq; [done |]. rewrite length_replicate. lia.
  - rewrite list_lookup_insert_ne by lia. rewrite lookup_replicate_2 by lia. done.
Qed.

Lemma super_props : length (encode_superblock mksb) = 32%nat ∧ Forall is_byte (encode_superblock mksb).
Proof. destruct (bytes_of_words_props [sb_magic mksb; sb_size mksb; sb_nblocks mksb; sb_ninodes mksb; sb_nlog mksb; sb_logstart mksb;
    sb_inodestart mksb; sb_bmapstart mksb]) as [H1 H2]. split; [exact H1 | exact H2]. Qed.

Lemma blank_ok : fs_ok blank [].
Proof.
  destruct zeroes_ok as [Zl Zb]. destruct super_props as [Hl Hb]. assert (0 < nlog ∧ 0 < ninodeblocks ∧ 2 + nlog + ninodeblocks < nmeta < FSSIZE) as Hc by done.
  split; try done.
  - unfold blank. cbn [mk_img]. apply put_ok.
    + split; [by rewrite length_replicate |]. by apply Forall_replicate.
    + rewrite length_splice; [done |]. rewrite Zl, Hl. by apply Nat.leb_le.
    + by apply splice_byte.
  - intros b Hb'. cbn [blank mk_freeblock] in Hb'. rewrite blank_sector by lia. unfold low_sector.
    by rewrite (proj2 (Z.eqb_neq b 1)) by lia.
  - intros i Hi _. pose proof (IBLOCK_range i Hi) as [_ Hr]. unfold inode_of. rewrite blank_sector by lia. unfold low_sector.
    rewrite (proj2 (Z.eqb_neq _ 1)) by lia. change (Z.to_nat DINODE_SIZE) with 64%nat. rewrite slice_zeroes by apply dinode_off_range.
    vm_compute. done.
  - intros b Hb'. apply blank_sector. lia.
Qed.

(** ** The bitmap *)

Definition bitmap (n : nat) : list Z := foldl set_bit zeroes (seq 0 n).

Lemma bitmap_spec n : (n ≤ 8 * B)%nat →
  length (bitmap n) = B ∧ (∀ b, (b < 8 * B)%nat → bit_clear (bitmap n) b = bool_decide (n ≤ b)%nat).
Proof.
  induction n as [| n IH]; intros Hn.
  - split; [apply zeroes_ok |]. intros b _. unfold bitmap, bit_clear, zeroes. cbn [seq foldl].
    rewrite nth_zeros, bool_decide_true by lia. done.
  - destruct IH as [Hl Hb]; [lia |]. unfold bitmap in *. rewrite seq_S, foldl_app, Nat.add_0_l. cbn [foldl].
    assert (n / 8 < B)%nat by (apply Nat.Div0.div_lt_upper_bound; lia).
    split; [unfold set_bit; by rewrite length_insert |].
    intros b Hlt. rewrite bit_clear_set_bit, Hb by (rewrite ?Hl; done). case_decide as Hd.
    + subst. by rewrite bool_decide_false by lia.
    + apply bool_decide_ext. lia.
Qed.

(** ** The result *)

(** Entry [k] of the root directory. *)
Definition root_entry (img : list (list Z)) (k : nat) : dirent :=
  decode_dirent (slice (contents img (inode_of img ROOTINO)) (16 * k) 16).

Record built (files : list argument) (s : mkst) : Prop := {
  bl_size : length (mk_img s) = Z.to_nat FSSIZE ∧ Forall (λ sec, length sec = B) (mk_img s);
  bl_super : decode_superblock (sector (mk_img s) 1) = mksb;
  bl_log : sector (mk_img s) (sb_logstart mksb) = zeroes;
  bl_root : let d := inode_of (mk_img s) ROOTINO in d_type d = T_DIR ∧ d_nlink d = 1 ∧
    d_size d = (16 * (Z.of_nat (length files) + 2) / BSIZE + 1) * BSIZE;
  bl_entry : ∀ k i name, entries files !! k = Some (i, name) →
    root_entry (mk_img s) k = mkDirent i (take DIRSIZ (name ++ replicate DIRSIZ 0));
  bl_end : ∀ k, (length files + 2 ≤ k)%nat → 16 * Z.of_nat k < d_size (inode_of (mk_img s) ROOTINO) →
    de_inum (root_entry (mk_img s) k) = 0;
  bl_file : ∀ k name chunks, files !! k = Some (name, Some chunks) → let d := inode_of (mk_img s) (Z.of_nat (k + 2)) in
    d_type d = T_FILE ∧ d_nlink d = 1 ∧ d_size d = Z.of_nat (length (concat chunks)) ∧ contents (mk_img s) d = concat chunks;
  bl_free : ∀ i, Z.of_nat (length files) + 2 ≤ i < NINODES → d_type (inode_of (mk_img s) i) = 0;
  bl_room : mk_freeblock s ≤ FSSIZE;
  bl_blocks : ∀ k f b, tree files !! k = Some f → b ∈ nth_blocks (mk_img s) k f → nmeta ≤ b < mk_freeblock s;
  bl_apart : ∀ k f k' f' b, tree files !! k = Some f → tree files !! k' = Some f' → k ≠ k' →
    b ∈ nth_blocks (mk_img s) k f → b ∉ nth_blocks (mk_img s) k' f';
  bl_bitmap : ∀ b, 0 ≤ b < FSSIZE →
    bit_clear (sector (mk_img s) (BBLOCK b mksb)) (Z.to_nat (b mod BPB)) = bool_decide (mk_freeblock s ≤ b);
}.

(** The last two steps: the size of the root directory and the bitmap. *)
Definition padded (n : nat) : Z := (16 * (Z.of_nat n + 2) / BSIZE + 1) * BSIZE.

Record finished (n : nat) (s s' : mkst) : Prop := {
  fn_length : length (mk_img s') = Z.to_nat FSSIZE ∧ Forall (λ sec, length sec = B) (mk_img s');
  fn_fb : mk_freeblock s' = mk_freeblock s;
  fn_root : inode_of (mk_img s') ROOTINO = with_size (inode_of (mk_img s) ROOTINO) (padded n);
  fn_inodes : ∀ j, 0 ≤ j < inode_room → j ≠ ROOTINO → inode_of (mk_img s') j = inode_of (mk_img s) j;
  fn_sector : ∀ b, 0 ≤ b → b < 2 + nlog ∨ nmeta ≤ b → sector (mk_img s') b = sector (mk_img s) b;
  fn_bitmap : sector (mk_img s') (sb_bmapstart mksb) = bitmap (Z.to_nat (mk_freeblock s));
}.

Lemma finish_done s files : fs_ok s (tree files) → fits files →
  ∃ s', (din ← rinode ROOTINO;
    winode ROOTINO (with_size din (xint (u32 ((xint (d_size din) / BSIZE + 1) * BSIZE))));;
    used ← (λ s, MOk (mk_freeblock s) s); balloc used) s = MOk tt s' ∧ finished (length files) s s'.
Proof.
  intros Hfs [Hall Hnum _]. assert (0 ≤ ROOTINO < inode_room) as Hi by done. pose proof (fk_count _ _ Hfs) as Hc.
  assert (NINODES = 200 ∧ BSIZE = 1024 ∧ BPB = 8192 ∧ FSSIZE = 2000) as (EN & EB & EP & EF) by done.
  pose proof (fk_file _ _ Hfs 0 _ eq_refl) as Hf. change (nth_inode _ 0) with (inode_of (mk_img s) ROOTINO) in Hf.
  set (d := inode_of (mk_img s) ROOTINO) in *. pose proof (fo_size _ _ _ _ Hf) as Hsz. cbn [snd] in Hsz.
  rewrite root_data_length in Hsz by done. assert (0 ≤ padded (length files) < 2 ^ 32) as Hp.
  { unfold padded. rewrite EB. Z.to_euclidean_division_equations; lia. }
  assert (xint (u32 ((xint (d_size d) / BSIZE + 1) * BSIZE)) = padded (length files)) as Ev.
  { rewrite (xint_id (d_size d)) by (unfold is_u32; lia). rewrite Hsz.
    replace (Z.of_nat (16 * (length files + 2))) with (16 * (Z.of_nat (length files) + 2)) by lia.
    fold (padded (length files)). rewrite u32_small by done. by apply xint_id. }
  destruct (winode_done s ROOTINO (with_size d (padded (length files)))) as (s1 & R1 & [P1 [P2 P2'] P3 P4 P5]);
    [apply Hfs | done | by apply (struct_with_size _ _ _ _ _ (fo_struct _ _ _ _ Hf)) |].
  assert (sb_bmapstart mksb = 2 + nlog + ninodeblocks ∧ 0 < nlog ∧ 0 < ninodeblocks ∧ 2 + nlog + ninodeblocks < nmeta ∧ nmeta < FSSIZE) as (Eb & Hb1 & Hb2 & Hb3 & Hb4) by done.
  eexists. split.
  { erewrite MOk_bind by (apply rinode_done; [apply Hfs | done]). fold d. rewrite Ev.
    erewrite MOk_bind by exact R1. erewrite MOk_bind by done. rewrite P2'. unfold balloc, massert.
    rewrite (proj2 (Z.ltb_lt _ _)) by lia. erewrite MOk_bind by done. apply wsect_done; [done | lia]. }
  assert (∀ b, 0 ≤ b → sector (put (mk_img s1) (sb_bmapstart mksb) (bitmap (Z.to_nat (mk_freeblock s)))) b =
    if decide (b = sb_bmapstart mksb) then bitmap (Z.to_nat (mk_freeblock s)) else sector (mk_img s1) b) as Hput
    by (intros b Hb; apply sector_put; [done | lia | done]).
  fold (bitmap (Z.to_nat (mk_freeblock s))). split; [| exact P2' | | | |]; cbn.
  - unfold put. rewrite length_insert. split; [apply P1 |]. apply Forall_insert.
    + eapply Forall_impl; [apply P1 |]. by intros sec [? _].
    + assert (8 * B = Z.to_nat 8192)%nat as E8 by (change B with (Z.to_nat 1024); lia). apply bitmap_spec. lia.
  - pose proof (IBLOCK_range ROOTINO Hi) as [_ Hr]. unfold inode_of in P3 |- *. rewrite Hput, decide_False by lia. exact P3.
  - intros j Hj Hne. rewrite <-P4 by done. pose proof (IBLOCK_range j Hj) as [_ Hr]. unfold inode_of.
    rewrite Hput, decide_False by lia. done.
  - intros b Hb Hout. rewrite Hput, decide_False by lia. apply P5; lia.
  - rewrite Hput, decide_True by (done || lia). done.
Qed.

(** The bytes of a file whose size may go past its data, up to [m], all zeros there. *)
Lemma contents_spec img d c m : (∀ i, (i < m)%nat → byte_at img d i = nth i c 0) → (length c ≤ m)%nat →
  d_size d = Z.of_nat m → contents img d = c ++ replicate (m - length c) 0.
Proof.
  intros Hb Hm Hs. apply list_eq. intros i. unfold contents. rewrite Hs, Nat2Z.id.
  rewrite list_lookup_fmap. destruct (decide (i < m)%nat) as [Hi | Hi].
  - rewrite lookup_seq_lt by done. simpl. rewrite Hb, nth_lookup by done. destruct (decide (i < length c)%nat) as [Hc | Hc].
    + rewrite lookup_app_l by done. by destruct (lookup_lt_is_Some_2 c i Hc) as [x ->].
    + rewrite lookup_app_r, lookup_replicate_2 by lia. by rewrite (lookup_ge_None_2 c) by lia.
  - rewrite lookup_seq_ge by lia. simpl. symmetry. apply lookup_ge_None_2. rewrite length_app, length_replicate. lia.
Qed.

Lemma holds_contents img fb d f : file_ok img fb d f → contents img d = f.2.
Proof.
  intros [_ _ _ _ Hs Hh]. rewrite (contents_spec img d f.2 (length f.2)); [by rewrite Nat.sub_diag, app_nil_r | | done | done].
  intros i Hi. apply Hh. destruct (nblk_spec (length f.2)) as [H _]. lia.
Qed.

(** Where an element is in a concatenation of lists of one length. *)
Lemma slice_concat m ls k x z : Forall (λ l, length l = m) ls → ls !! k = Some x → slice (concat ls ++ z) (m * k) m = x.
Proof.
  intros Hl. revert k. induction Hl as [| l ls Hlen Hl IH]; intros [| k] Hk; simpl in Hk; [done | done | |].
  - injection Hk as ->. rewrite Nat.mul_0_r. unfold slice. simpl. rewrite <-app_assoc. by apply take_app_length'.
  - rewrite Nat.mul_succ_r, Nat.add_comm. unfold slice. simpl. rewrite <-app_assoc, <-drop_drop, (drop_app_length' _ _ m) by done.
    by apply IH.
Qed.

Section finished.
Context (files : list argument) (s s' : mkst).
Hypothesis Hfit : fits files.
Hypothesis Hfs : fs_ok s (tree files).
Hypothesis Hfin : finished (length files) s s'.

(** The root directory as it was before its size was changed. *)
#[local] Abbreviation root := (inode_of (mk_img s) ROOTINO).

Lemma fin_low b : 0 ≤ b < 2 + nlog → sector (mk_img s') b = low_sector b.
Proof. intros Hb. rewrite (fn_sector _ _ _ Hfin) by lia. by apply Hfs. Qed.

Lemma fin_sector k f b : tree files !! k = Some f → b ∈ nth_blocks (mk_img s) k f → sector (mk_img s') b = sector (mk_img s) b.
Proof.
  intros Hk Hb. pose proof (blocks_range _ _ _ _ b (fo_struct _ _ _ _ (fk_file _ _ Hfs _ _ Hk)) Hb). assert (0 < nmeta) by done.
  apply (fn_sector _ _ _ Hfin); lia.
Qed.

Lemma fin_inode k f : tree files !! k = Some f → k ≠ 0%nat → nth_inode (mk_img s') k = nth_inode (mk_img s) k.
Proof.
  intros Hk Hne. apply lookup_lt_Some in Hk. rewrite length_tree in Hk. pose proof (fi_inodes _ Hfit).
  assert (NINODES < inode_room ∧ ROOTINO = 1) as [? E] by done. apply (fn_inodes _ _ _ Hfin); rewrite ?E; lia.
Qed.

Lemma fin_file k f : tree files !! k = Some f → k ≠ 0%nat → file_ok (mk_img s') (mk_freeblock s) (nth_inode (mk_img s') k) f.
Proof.
  intros Hk Hne. rewrite (fin_inode k f) by done. apply (file_frame (mk_img s) _ (mk_freeblock s)); [by apply Hfs | lia |].
  intros b Hb. by apply (fin_sector k f).
Qed.

Lemma fin_blocks k f : tree files !! k = Some f → nth_blocks (mk_img s') k f = nth_blocks (mk_img s) k f.
Proof.
  intros Hk. transitivity (blocks_of (mk_img s') (nth_inode (mk_img s) k) (fblocks f)).
  - unfold nth_blocks. destruct (decide (k = 0%nat)) as [-> | Hne]; [| by rewrite (fin_inode k f)].
    change (nth_inode (mk_img s') 0) with (inode_of (mk_img s') ROOTINO). by rewrite (fn_root _ _ _ Hfin).
  - apply blocks_frame. intros b Hb. by apply (fin_sector k f).
Qed.

(** A block that is not there is block 0, which is empty. *)
Lemma fin_hole i : (length (root_data files) ≤ i)%nat → (fblocks (T_DIR, root_data files) ≤ i / B < NDIRECT)%nat →
  byte_at (mk_img s') root i = 0.
Proof.
  intros Hi Hf. pose proof (fk_file _ _ Hfs 0 _ eq_refl) as Hroot. assert (0 < nlog) by done.
  pose proof (so_direct _ _ _ _ (fo_struct _ _ _ _ Hroot) (i / B) Hf) as Hz.
  change (nth_inode (mk_img s) 0) with root in Hz. unfold byte_at, blk. rewrite (proj2 (Nat.ltb_lt _ NDIRECT)), Hz by lia.
  rewrite fin_low by lia. apply nth_zeros.
Qed.

Lemma fin_root_byte i : (i < Z.to_nat (padded (length files)))%nat →
  byte_at (mk_img s') (inode_of (mk_img s') ROOTINO) i = nth i (root_data files) 0.
Proof.
  intros Hi. rewrite (fn_root _ _ _ Hfin). change (byte_at (mk_img s') root i = nth i (root_data files) 0).
  pose proof (root_data_length files (fi_files _ Hfit)) as HL. pose proof (fi_inodes _ Hfit) as Hnum.
  assert (NINODES = 200 ∧ BSIZE = 1024 ∧ B = 1024%nat ∧ NDIRECT = 12%nat) as (EN & EB & EB' & ED) by done.
  destruct (nblk_spec (length (root_data files))) as (N1 & N2 & N3). rewrite EB' in *. unfold padded in Hi. rewrite EB in Hi.
  destruct (decide (i < nblk (length (root_data files)) * 1024)%nat) as [Hin | Hout].
  - assert (holds (mk_img s) root (root_data files)) as Hh by apply (fo_holds _ _ _ _ (fk_file _ _ Hfs 0 _ eq_refl)).
    refine (holds_frame _ (mk_img s') _ _ _ Hh i _); [| by rewrite EB'].
    intros b Hb. by apply (fin_sector 0 (T_DIR, root_data files)).
  - rewrite (nth_overflow (root_data files)) by lia. apply fin_hole; [lia |]. unfold fblocks. cbn [snd]. rewrite EB', ED.
    pose proof (Nat.div_mod_eq i 1024). pose proof (Nat.mod_upper_bound i 1024 ltac:(lia)).
    pose proof (Nat.div_mod_eq (length (root_data files)) 1024).
    Z.to_euclidean_division_equations. lia.
Qed.

Lemma fin_root_contents : contents (mk_img s') (inode_of (mk_img s') ROOTINO) =
  root_data files ++ replicate (Z.to_nat (padded (length files)) - length (root_data files)) 0.
Proof.
  pose proof (root_data_length files (fi_files _ Hfit)) as HL. assert (BSIZE = 1024) as EB by done.
  assert (16 * (Z.of_nat (length files) + 2) ≤ padded (length files)) by (unfold padded; rewrite EB; Z.to_euclidean_division_equations; lia).
  apply contents_spec; [exact fin_root_byte | lia |]. rewrite (fn_root _ _ _ Hfin). unfold with_size. cbn [d_size]. lia.
Qed.

Lemma entries_bytes : Forall (λ e, Forall is_byte e.2 ∧ 0 ≤ e.1 < 2 ^ 16) (entries files).
Proof.
  pose proof (fi_inodes _ Hfit) as Hn. assert (NINODES = 200) as EN by done.
  do 2 (constructor; [split; [by repeat constructor | done] |]). apply Forall_lookup. intros k e.
  rewrite list_lookup_imap. intros ([name ch] & Hk & ->)%fmap_Some. cbn [fst snd].
  pose proof (Forall_lookup_1 _ _ _ _ (fi_files _ Hfit) Hk) as Hf. pose proof (lookup_lt_Some _ _ _ Hk).
  split; [apply shortname_bytes, Hf | lia].
Qed.

Lemma fin_entry k i name : entries files !! k = Some (i, name) →
  root_entry (mk_img s') k = mkDirent i (take DIRSIZ (name ++ replicate DIRSIZ 0)).
Proof.
  intros Hk. pose proof entries_bytes as He. destruct (Forall_lookup_1 _ _ _ _ He Hk) as [Hb Hi]. cbn [fst snd] in Hb, Hi.
  unfold root_entry. rewrite fin_root_contents. unfold root_data at 1. erewrite slice_concat; cycle 1.
  - apply Forall_fmap. eapply Forall_impl; [exact He |]. intros [j nm] [Hnm _]. by apply mkfs_dirent_props.
  - rewrite list_lookup_fmap, Hk. reflexivity.
  - cbn [fst snd]. unfold mkfs_dirent. rewrite xshort_id by lia. apply decode_encode_dirent; cbn [de_inum de_name]; [lia |].
    rewrite length_take, length_app, length_replicate. lia.
Qed.

Lemma fin_end k : (length files + 2 ≤ k)%nat → 16 * Z.of_nat k < padded (length files) → de_inum (root_entry (mk_img s') k) = 0.
Proof.
  intros Hk Hlt. unfold root_entry. rewrite fin_root_contents. unfold slice, decode_dirent. cbn [de_inum]. unfold slice.
  pose proof (root_data_length files (fi_files _ Hfit)) as HL. rewrite drop_app_ge by lia.
  rewrite drop_replicate, take_replicate, drop_0, take_replicate. 
  assert (padded (length files) mod 16 = 0) as Hm by (unfold padded; change BSIZE with (64 * 16); rewrite Z.mul_assoc; by apply Z.mod_mul).
  replace (2 `min` _)%nat with 2%nat; [done |]. Z.to_euclidean_division_equations. lia.
Qed.

Lemma fin_bitmap b : 0 ≤ b < FSSIZE →
  bit_clear (sector (mk_img s') (BBLOCK b mksb)) (Z.to_nat (b mod BPB)) = bool_decide (mk_freeblock s' ≤ b).
Proof.
  intros Hb. pose proof (fk_count _ _ Hfs) as Hc. assert (FSSIZE = 2000 ∧ BPB = 8192 ∧ sb_bmapstart mksb = 46 ∧ 0 < nmeta) as (EF & EP & Eb & Hm) by done.
  unfold BBLOCK. rewrite EP, Z.div_small, Z.mod_small by lia. rewrite u32_small by (rewrite Eb; lia).
  rewrite Z.add_0_l, (fn_bitmap _ _ _ Hfin), (fn_fb _ _ _ Hfin). assert (8 * B = Z.to_nat 8192)%nat as E8 by (change B with (Z.to_nat 1024); lia).
  destruct (bitmap_spec (Z.to_nat (mk_freeblock s))) as [_ Hbit]; [lia |]. rewrite Hbit by lia. apply bool_decide_ext. lia.
Qed.

Lemma finished_built : built files s'.
Proof.
  assert (0 < nlog ∧ ROOTINO = 1 ∧ NINODES < inode_room) as (Hlog & ER & HN) by done.
  pose proof (fk_file _ _ Hfs 0 _ eq_refl) as Hroot. change (nth_inode (mk_img s) 0) with root in Hroot.
  split; [apply Hfin | | | | exact fin_entry | | | | rewrite (fn_fb _ _ _ Hfin); apply Hfs | | | exact fin_bitmap].
  - rewrite fin_low by lia. by vm_compute.
  - by rewrite fin_low by done.
  - rewrite (fn_root _ _ _ Hfin). split; [apply Hroot | split; [apply Hroot | done]].
  - rewrite (fn_root _ _ _ Hfin). apply fin_end.
  - intros k name chunks Hk. assert (tree files !! S k = Some (T_FILE, concat chunks)) as Ht
      by (unfold tree; simpl; by rewrite list_lookup_fmap, Hk).
    pose proof (fin_file (S k) _ Ht ltac:(lia)) as Hf. unfold nth_inode in Hf. rewrite Nat.add_comm.
    split; [apply Hf | split; [apply Hf | split; [apply Hf |]]]; by apply (holds_contents _ (mk_freeblock s) _ (T_FILE, concat chunks)).
  - intros i Hi. rewrite (fn_inodes _ _ _ Hfin) by lia. apply (fk_free _ _ Hfs); [lia |]. rewrite length_tree. lia.
  - intros k f b Hk Hb. rewrite (fin_blocks k f) in Hb by done. rewrite (fn_fb _ _ _ Hfin).
    exact (blocks_range _ _ _ _ b (fo_struct _ _ _ _ (fk_file _ _ Hfs _ _ Hk)) Hb).
  - intros k f k' f' b Hk Hk' Hne. rewrite (fin_blocks k f), (fin_blocks k' f') by done. by apply (fk_apart _ _ Hfs).
Qed.
End finished.

Lemma mkfs_built files : fits files → ∃ s, mkfs files mkfs_start = MOk tt s ∧ built files s.
Proof.
  intros Hfit.
  destruct (ialloc_done blank [] T_DIR blank_ok) as (s1 & R1 & F1); [done | done |].
  pose proof maxfile_bytes as HM.
  destruct (iappend_done s1 [(T_DIR, [])] 0 T_DIR [] (mkfs_dirent ROOTINO (bytes_of_string "."))) as (s2 & R2 & F2);
    [done | done | done | by apply mkfs_dirent_props; repeat constructor | change (length _ + length _)%nat with 16%nat; lia | done |].
  destruct (iappend_done s2 [(T_DIR, mkfs_dirent ROOTINO (bytes_of_string "."))] 0 T_DIR
    (mkfs_dirent ROOTINO (bytes_of_string ".")) (mkfs_dirent ROOTINO (bytes_of_string ".."))) as (s3 & R3 & F3);
    [done | done | done | by apply mkfs_dirent_props; repeat constructor | change (length _ + length _)%nat with 32%nat; lia | done |].
  destruct (mkfs_files_done files s3 []) as (s4 & R4 & F4); [exact F3 | done |].
  destruct (finish_done s4 files F4 Hfit) as (s5 & R5 & Hfin).
  exists s5. split; [| by apply (finished_built files s4)].
  unfold mkfs, mkfs_start. erewrite MOk_bind by exact (wsect_zeroes (Z.to_nat FSSIZE) 0 1 nmeta). rewrite Nat.add_0_l.
  rewrite (MOk_bind _ _ _ _ _ blank_run). erewrite MOk_bind by exact R1. erewrite MOk_bind by done. erewrite MOk_bind by exact R2.
  erewrite MOk_bind by exact R3. erewrite MOk_bind by exact R4. exact R5.
Qed.

(** C10: for every list of arguments that fits (names without a slash and short
    enough, files that open, inodes and blocks enough) mkfs ends without an error and
    leaves the image asked for: the super block the kernel reads back, an empty log,
    a root directory with one entry per file after dot and dot-dot and zeros after
    them, each file's inode with exactly its bytes, no sector in two files, the other
    inodes free, and the bitmap marking exactly the sectors in use. *)
Theorem mkfs_builds_image files : fits files → ∃ s, mkfs files mkfs_start = MOk tt s ∧ built files s.
Proof. apply mkfs_built. Qed.

(** A program and a text file, the first read in two pieces. *)
Definition two_files : list argument :=
  [(bytes_of_string "user/_cat", Some [replicate 1024 7; [1; 2; 3]]); (bytes_of_string "README", Some [bytes_of_string "xv6"])].

Lemma two_files_fit : fits two_files.
Proof.
  pose proof maxfile_bytes. split; [| done | by vm_compute].
  assert (∀ f, f ∈ two_files → bool_decide (SLASH ∉ strip_user f.1) && (length (shortname f.1) <=? DIRSIZ)%nat &&
    forallb (λ x, (0 <=? x) && (x <? 256)) f.1 && forallb (forallb (λ x, (0 <=? x) && (x <? 256))) (default [] f.2) &&
    bool_decide (is_Some f.2) && (Z.of_nat (length (data_of f)) <=? 274432) = true) as Hall.
  { intros f [-> | [-> | []%elem_of_nil]%elem_of_cons]%elem_of_cons; by vm_compute. }
  assert (∀ l, forallb (λ x, (0 <=? x) && (x <? 256)) l = true → Forall is_byte l) as Hby.
  { intros l Hl. apply Forall_forall. intros x Hx%list_elem_of_In. rewrite forallb_forall in Hl. specialize (Hl x Hx). unfold is_byte. lia. }
  apply Forall_forall. intros f Hf. specialize (Hall f Hf). rewrite !andb_true_iff in Hall.
  destruct Hall as (((((H1 & H2) & H3) & H4) & H5) & H6). split.
  - by apply bool_decide_eq_true in H1.
  - split; [by apply Nat.leb_le | by apply Hby].
  - by apply bool_decide_eq_true in H5.
  - apply Forall_forall. intros l Hl%list_elem_of_In. apply Hby. rewrite forallb_forall in H4. by apply H4.
  - apply Z.leb_le in H6. lia.
Qed.

Lemma mkfs_builds_image_witness : ∃ s, mkfs two_files mkfs_start = MOk tt s ∧ built two_files s.
Proof. apply (mkfs_builds_image two_files). exact two_files_fit. Defined.
