(* ===== verification/MkfsBoot.v ===== *)
(** * The kernel on an image of mkfs

    The image that mkfs builds is mounted by [fsinit], and the kernel finds in it
    the files mkfs was given. *)

From S2P Require Import Prelude Machine Kstate Logic Strings Sched Kalloc Vm Printf Bio BioSpec BlockStore Log LogData LogSpec Fs FsData FsRead FsInode FsPath Mount Mkfs MkfsSpec MkfsImage MkfsMain.

#[local] Abbreviation B := (Z.to_nat BSIZE).

(** The disk with the sectors of an image. *)
Definition disk_of (img : list (list Z)) : gmap Z (list Z) := map_seqZ 0 img.

(** The files of an image: the root directory and one file per argument. *)
Definition image_tree (files : list argument) (img : list (list Z)) : gmap Z (Z * list Z) :=
  <[ROOTINO := (T_DIR, contents img (inode_of img ROOTINO))]> (map_seqZ 2 ((λ f, (T_FILE, data_of f)) <$> files)).

(** A name that a path can have. *)
Definition good_name (name : list Z) : Prop := name ≠ [] ∧ Forall (λ c, c ≠ 0 ∧ c ≠ SLASH ∧ is_byte c) name ∧ (length name ≤ DIRSIZ)%nat.

(** Arguments with proper, distinct names; and not so many that the directory
    ends with a block (mkfs rounds its size up to a block that is not there). *)
Record proper (files : list argument) : Prop := {
  pr_fits : fits files;
  pr_names : Forall (λ f, good_name (shortname f.1)) files;
  pr_distinct : NoDup (entries files).*2;
  pr_partial : (Z.of_nat (length files) + 2) mod 64 ≠ 0;
}.

(** ** Names in directory entries *)

Lemma cstr_padded nm n z : Forall (λ c, c ≠ 0) nm → (length nm ≤ n)%nat → cstr (take n (nm ++ replicate z 0)) = nm.
Proof.
  intros Hnm. revert n. induction Hnm as [|c nm Hc _ IH]; intros n Hn.
  - simpl. rewrite take_replicate. by destruct (n `min` z)%nat.
  - destruct n as [|n]; simpl in Hn; [lia |]. simpl. rewrite (proj2 (Z.eqb_neq _ _)) by done. by rewrite IH by lia.
Qed.

(** A name that fits an entry, as in [good_name] or a dot. *)
Definition entry_name (nm : list Z) : Prop := Forall (λ c, c ≠ 0 ∧ is_byte c) nm ∧ (length nm ≤ DIRSIZ)%nat.

Lemma matches_name i nm name : i ≠ 0 → entry_name nm → entry_name name →
  matches name (mkDirent i (take DIRSIZ (nm ++ replicate DIRSIZ 0))) = bool_decide (name = nm).
Proof.
  intros Hi [H1 H2] [H3 H4]. unfold matches, namecmp. cbn [de_inum de_name]. rewrite (proj2 (Z.eqb_neq _ _)) by done. cbn [negb andb].
  assert (Forall (λ c, c ≠ 0) nm ∧ Forall (λ c, c ≠ 0) name) as [N1 N2] by (split; eapply Forall_impl; [exact H1 | naive_solver | exact H3 | naive_solver]).
  pose proof (strncmp_0 name (take DIRSIZ (nm ++ replicate DIRSIZ 0)) DIRSIZ) as Hc. rewrite (cstr_padded nm), (cstr_id name), (take_ge name), (take_ge nm) in Hc by done.
  assert (strncmp name (take DIRSIZ (nm ++ replicate DIRSIZ 0)) DIRSIZ = 0 ↔ name = nm) as Hiff.
  { apply Hc; [eapply Forall_impl; [exact H3 | naive_solver] |]. apply Forall_take, Forall_app. split; [eapply Forall_impl; [exact H1 | naive_solver] |].
    apply Forall_replicate. unfold is_byte. lia. }
  destruct (Z.eqb_spec (strncmp name (take DIRSIZ (nm ++ replicate DIRSIZ 0)) DIRSIZ) 0); symmetry; [apply bool_decide_true | apply bool_decide_false]; tauto.
Qed.

Lemma good_entry_name nm : good_name nm → entry_name nm.
Proof. intros (_ & H & Hl). split; [| done]. eapply Forall_impl; [exact H |]. naive_solver. Qed.

Section image.
Context (files : list argument) (m : mkst) (V : gmap Z (list Z)).
Hypotheses (Hp : proper files) (Hb : built files m).
Hypothesis HV : ∀ b, 2 + nlog ≤ b < FSSIZE → V !! b = Some (sector (mk_img m) b).

#[local] Abbreviation img := (mk_img m).

Lemma V_content b : 2 + nlog ≤ b < FSSIZE → content V b = sector img b ∧ ∃ d, V !! b = Some d ∧ length d = B.
Proof.
  intros H. unfold content. rewrite HV by done. split; [done |]. eexists. split; [done |]. destruct (bl_size _ _ Hb) as [Hl Hs].
  assert (0 < nlog) by done. destruct (lookup_lt_is_Some_2 img (Z.to_nat b)) as [sec Hsec]; [lia |].
  unfold sector. rewrite Hsec. simpl. by apply (Forall_lookup_1 _ _ _ _ Hs Hsec).
Qed.

Lemma V_inode i : 0 ≤ i < inode_room → disk_inode V mksb i = inode_of img i ∧ is_Some (V !! IBLOCK i mksb).
Proof.
  intros Hi. pose proof (IBLOCK_range i Hi) as [_ Hr]. assert (2 + nlog + ninodeblocks < FSSIZE) by done.
  unfold disk_inode, inode_of. destruct (V_content (IBLOCK i mksb)) as (-> & d & Hd & _); [lia |]. eauto.
Qed.

(** A file of the image as the kernel reads it. *)
Lemma V_file k f (d := nth_inode img k) : tree files !! k = Some f → (nblk (Z.to_nat (d_size d)) ≤ fblocks f)%nat → 0 ≤ d_size d →
  d_size d ≤ 274432 → file_in V (d_addrs d) (contents img d).
Proof.
  intros Hk Hn Hs0 Hs. assert (length (contents img d) = Z.to_nat (d_size d)) as Hl by (unfold contents; by rewrite length_fmap, length_seq).
  assert (∀ b, b ∈ nth_blocks img k f → 2 + nlog ≤ b < FSSIZE ∧ b ≠ 0) as Hbl.
  { intros b Hin. pose proof (bl_blocks _ _ Hb _ _ _ Hk Hin). pose proof (bl_room _ _ Hb). assert (2 + nlog < nmeta ∧ 0 < nlog) by done. lia. }
  assert (∀ g, (g < fblocks f)%nat → fblk V (d_addrs d) g = blk img d g ∧ blk img d g ∈ nth_blocks img k f) as Hblk.
  { intros g Hg. split; [| apply elem_of_blocks; left; eauto]. unfold fblk, blk, addr. destruct (Nat.ltb_spec g NDIRECT); [done |].
    f_equal. apply V_content, Hbl, elem_of_blocks. right. split; [lia | done]. }
  pose proof maxfile_bytes as HM. split; rewrite ?Hl.
  - apply length_words_of_bytes.
  - lia.
  - intros Hlt. destruct (Hbl (addr d NDIRECT)) as [H1 H2]; [apply elem_of_blocks; right; split; [lia | done] |].
    split; [done |]. destruct (V_content _ H1) as (_ & sec & Hsec & _). unfold addr in Hsec. eauto.
  - intros g Hg. destruct (Hblk g ltac:(lia)) as [-> Hin]. destruct (Hbl _ Hin) as [H1 H2]. split; [done |]. by apply V_content.
  - intros i Hi. destruct (nblk_spec (Z.to_nat (d_size d))) as (N1 & _ & _).
    assert (i / B < nblk (Z.to_nat (d_size d)))%nat as Hg by (apply Nat.Div0.div_lt_upper_bound; lia).
    destruct (Hblk (i / B)%nat ltac:(lia)) as [-> Hin]. destruct (Hbl _ Hin) as [H1 _]. rewrite (proj1 (V_content _ H1)).
    unfold contents. rewrite (nth_lookup (byte_at img d <$> _)), list_lookup_fmap, lookup_seq_lt by lia. done.
Qed.

Lemma lookup_image_tree k x : image_tree files img !! k = Some x →
  k = ROOTINO ∧ x = (T_DIR, contents img (inode_of img ROOTINO)) ∨
  ∃ j f, files !! j = Some f ∧ k = Z.of_nat (j + 2) ∧ x = (T_FILE, data_of f).
Proof.
  unfold image_tree. destruct (decide (k = ROOTINO)) as [-> | Hne]; [rewrite lookup_insert_eq; intros [= <-]; by left |].
  rewrite lookup_insert_ne by done. intros [Hk (f & Hf & Hx)%list_lookup_fmap_Some]%lookup_map_seqZ_Some.
  right. exists (Z.to_nat (k - 2)), f. split; [done |]. split; [lia | done].
Qed.

Lemma image_tree_file j f : files !! j = Some f → image_tree files img !! Z.of_nat (j + 2) = Some (T_FILE, data_of f).
Proof.
  intros Hf. unfold image_tree. assert (ROOTINO = 1) as -> by done. rewrite lookup_insert_ne by lia. apply lookup_map_seqZ_Some. split; [lia |].
  rewrite list_lookup_fmap. replace (Z.to_nat (Z.of_nat (j + 2) - 2)) with j by lia. by rewrite Hf.
Qed.

Lemma image_root : d_type (inode_of img ROOTINO) = T_DIR ∧ d_nlink (inode_of img ROOTINO) = 1 ∧
  disk_file V mksb ROOTINO (contents img (inode_of img ROOTINO)) ∧ (length (contents img (inode_of img ROOTINO)) mod DE = 0)%nat.
Proof.
  destruct (bl_root _ _ Hb) as (Hty & Hnl & Hsz). set (d := inode_of img ROOTINO) in *. split; [done |]. split; [done |].
  assert (BSIZE = 1024 ∧ DE = 16%nat ∧ NINODES = 200 ∧ B = 1024%nat) as (EB & ED & EN & EB') by done. rewrite EB in Hsz.
  pose proof (fi_inodes _ (pr_fits _ Hp)) as Hnum. pose proof (pr_partial _ Hp) as Hpart.
  assert (length (contents img d) = Z.to_nat (d_size d)) as Hl by (unfold contents; by rewrite length_fmap, length_seq).
  assert (16 * (Z.of_nat (length files) + 2) / 1024 = (Z.of_nat (length files) + 2) / 64) as Hq by (Z.to_euclidean_division_equations; lia).
  assert (0 ≤ d_size d ≤ 274432) as Hrg by (rewrite Hsz; Z.to_euclidean_division_equations; lia).
  destruct (V_inode ROOTINO) as [Ei Hblk]; [done |]. fold d in Ei. split.
  - split; [done | by rewrite Ei, Hty | rewrite Ei, Hl; lia |]. rewrite Ei. apply (V_file 0 (T_DIR, root_data files)); [done | | |]; change (nth_inode img 0) with d; [| lia | lia].
    unfold fblocks, nblk. cbn [snd]. rewrite (root_data_length files (fi_files _ (pr_fits _ Hp))), EB', Hsz.
    rewrite Hq. apply Nat2Z.inj_le. rewrite !Nat2Z.inj_div, !Nat2Z.inj_add, Z2Nat.id by lia. Z.to_euclidean_division_equations. lia.
  - rewrite Hl, Hsz, ED. apply Nat2Z.inj. rewrite Nat2Z.inj_mod, Z2Nat.id by lia. Z.to_euclidean_division_equations. lia.
Qed.

Lemma image_file j f : files !! j = Some f → d_type (inode_of img (Z.of_nat (j + 2))) = T_FILE ∧ d_nlink (inode_of img (Z.of_nat (j + 2))) = 1 ∧
  disk_file V mksb (Z.of_nat (j + 2)) (data_of f).
Proof.
  intros Hf. pose proof (Forall_lookup_1 _ _ _ _ (fi_files _ (pr_fits _ Hp)) Hf) as Hff. destruct (ft_open _ Hff) as [chunks Hch].
  destruct f as [name ch]. cbn [snd] in Hch. subst ch. destruct (bl_file _ _ Hb _ _ _ Hf) as (Hty & Hnl & Hsz & Hc). cbv zeta in *.
  split; [done |]. split; [done |]. pose proof (lookup_lt_Some _ _ _ Hf) as Hlt. pose proof (fi_inodes _ (pr_fits _ Hp)) as Hnum.
  assert (NINODES < inode_room) by done. destruct (V_inode (Z.of_nat (j + 2))) as [Ei Hblk]; [lia |].
  pose proof (ft_size _ Hff) as Hmx. pose proof maxfile_bytes as HM. change (data_of (name, Some chunks)) with (concat chunks) in *.
  split; [done | by rewrite Ei, Hty | by rewrite Ei |]. rewrite Ei, <-Hc.
  replace (Z.of_nat (j + 2)) with (Z.of_nat (S (S j))) in * by lia.
  apply (V_file (S j) (T_FILE, concat chunks)); unfold nth_inode; [| rewrite Hsz, Nat2Z.id; done | lia | lia].
  unfold tree. simpl. by rewrite list_lookup_fmap, Hf.
Qed.

(** ** The root directory *)

Lemma entries_good k i nm : entries files !! k = Some (i, nm) → entry_name nm ∧ i ≠ 0 ∧ is_Some (image_tree files img !! i).
Proof.
  unfold entries. assert (is_Some (image_tree files img !! ROOTINO)) as Hr by (unfold image_tree; rewrite lookup_insert_eq; eauto).
  destruct k as [|[|k]]; simpl; [intros [= <- <-] | intros [= <- <-] |].
  - split; [| done]. split; [| unfold DIRSIZ; simpl; lia]. repeat constructor; done.
  - split; [| done]. split; [| unfold DIRSIZ; simpl; lia]. repeat constructor; done.
  - rewrite list_lookup_imap. intros (f & Hf & [= -> ->])%fmap_Some. rewrite (image_tree_file _ _ Hf).
    split; [| split; [lia | eauto]]. apply good_entry_name. exact (Forall_lookup_1 _ _ _ _ (pr_names _ Hp) Hf).
Qed.

#[local] Abbreviation root := (contents img (inode_of img ROOTINO)).

Lemma root_size : (length (entries files) ≤ length root / DE)%nat ∧ ∀ k, (length (entries files) ≤ k < length root / DE)%nat → de_inum (entry_at root k) = 0.
Proof.
  destruct (bl_root _ _ Hb) as (_ & _ & Hsz). assert (BSIZE = 1024 ∧ DE = 16%nat) as (EB & ED) by done.
  assert (length root = Z.to_nat (d_size (inode_of img ROOTINO))) as Hl by (unfold contents; by rewrite length_fmap, length_seq).
  assert (length (entries files) = (length files + 2)%nat) as He by (unfold entries; simpl; rewrite length_imap; lia).
  assert (Z.of_nat (length root / DE) = d_size (inode_of img ROOTINO) / 16) as Hd.
  { rewrite Hl, ED, Nat2Z.inj_div, Z2Nat.id; [done |]. rewrite Hsz, EB. Z.to_euclidean_division_equations. lia. }
  rewrite He. split.
  - rewrite Hsz, EB in Hd. Z.to_euclidean_division_equations. lia.
  - intros k Hk. apply (bl_end _ _ Hb k); [lia |]. Z.to_euclidean_division_equations. lia.
Qed.

Lemma root_match k name : entry_name name → (k < length root / DE)%nat →
  matches name (entry_at root k) = bool_decide (snd <$> entries files !! k = Some name).
Proof.
  intros Hn Hk. destruct (entries files !! k) as [[i nm]|] eqn:Ek; cbn [fmap option_fmap option_map snd].
  - pose proof (bl_entry _ _ Hb _ _ _ Ek) as He. change (root_entry img k) with (entry_at root k) in He. rewrite He.
    destruct (entries_good _ _ _ Ek) as (Hg & Hi & _). rewrite matches_name by done. apply bool_decide_ext. naive_solver.
  - apply lookup_ge_None in Ek. unfold matches. rewrite (proj2 root_size) by lia. done.
Qed.

Lemma find_entry_some c name k n i : find_entry c name k n = Some i → (k ≤ i < k + n)%nat ∧ matches name (entry_at c i) = true ∧
  ∀ j, (k ≤ j < i)%nat → matches name (entry_at c j) = false.
Proof.
  revert k. induction n as [|n IH]; intros k; simpl; [done |]. destruct (matches name (entry_at c k)) eqn:Em.
  - intros [= <-]. split; [lia |]. split; [done | lia].
  - intros (H1 & H2 & H3)%IH. split; [lia |]. split; [done |]. intros j Hj. destruct (decide (j = k)) as [-> |]; [done | apply H3; lia].
Qed.

(** The directory has exactly the names mkfs was given. *)
Lemma root_lookup_some k i name : entries files !! k = Some (i, name) → dir_lookup root name = Some i.
Proof.
  intros Hk. destruct (entries_good _ _ _ Hk) as (Hn & Hi & _). pose proof (lookup_lt_Some _ _ _ Hk) as Hlt. pose proof (proj1 root_size) as Hsz.
  assert (find_entry root name 0 (length root / DE) = Some k) as Hf.
  { replace (length root / DE)%nat with (k + S (length root / DE - S k))%nat by lia. rewrite find_entry_skip.
    - simpl. rewrite root_match by (done || lia). rewrite Hk. by rewrite bool_decide_true.
    - intros j Hj. rewrite root_match by (done || lia). apply bool_decide_false. intros ((i', nm) & Hj' & Hnm)%fmap_Some. cbn [snd] in Hnm. subst nm.
      assert (j = k); [| lia]. eapply (NoDup_lookup _ j k name (pr_distinct _ Hp)); by rewrite list_lookup_fmap, ?Hk, ?Hj'. }
  unfold dir_lookup. rewrite Hf. cbn [mbind option_bind]. pose proof (bl_entry _ _ Hb _ _ _ Hk) as He. change (root_entry img k) with (entry_at root k) in He. by rewrite He.
Qed.
Lemma root_lookup_none name : entry_name name → name ∉ (entries files).*2 → dir_lookup root name = None.
Proof.
  intros Hn Hno. unfold dir_lookup. destruct (find_entry root name 0 (length root / DE)) as [k|] eqn:Ek; [| done].
  apply find_entry_some in Ek as (Hk & Hm & _). rewrite root_match in Hm by (done || lia). apply bool_decide_eq_true in Hm as (e & He & ->)%fmap_Some.
  destruct Hno. apply list_elem_of_fmap. exists e. split; [done |]. by eapply list_elem_of_lookup_2.
Qed.

Lemma root_closed name j : dir_lookup root name = Some j → is_Some (image_tree files img !! j).
Proof.
  unfold dir_lookup. destruct (find_entry root name 0 (length root / DE)) as [k|] eqn:Ek; [| done]. cbn [mbind option_bind]. intros Hj.
  assert (j = de_inum (entry_at root k)) as -> by congruence. clear Hj. apply find_entry_some in Ek as (Hk & Hm & _). destruct (entries files !! k) as [[i nm]|] eqn:Ee.
  - pose proof (bl_entry _ _ Hb _ _ _ Ee) as He. change (root_entry img k) with (entry_at root k) in He. rewrite He. destruct (entries_good _ _ _ Ee) as (_ & _ & H). exact H.
  - apply lookup_ge_None in Ee. unfold matches in Hm. rewrite (proj2 root_size) in Hm by lia. done.
Qed.

(** The image is a tree of files. *)
Lemma image_disk_tree : disk_tree V mksb (image_tree files img).
Proof.
  destruct image_root as (R1 & R2 & R3 & R4). assert (NINODES < inode_room) as HN by done. pose proof (fi_inodes _ (pr_fits _ Hp)) as Hnum.
  assert (∀ k, 0 ≤ k < inode_room → disk_inode V mksb k = inode_of img k) as Hi by (intros k Hk; by apply V_inode).
  split.
  - intros k ty c [[-> [= -> ->]] | (j & f & Hf & -> & [= -> ->])]%lookup_image_tree; [done | by apply image_file].
  - intros k ty c [[-> [= -> ->]] | (j & f & Hf & -> & [= -> ->])]%lookup_image_tree; [rewrite Hi, R1, R2 by done; done |].
    pose proof (lookup_lt_Some _ _ _ Hf). destruct (image_file j f Hf) as (F1 & F2 & _). rewrite Hi, F1, F2 by lia. done.
  - intros k c [[-> [= ->]] | (j & f & Hf & -> & [=])]%lookup_image_tree. done.
  - intros k c name j [[-> [= ->]] | (j' & f & Hf & -> & [=])]%lookup_image_tree. apply root_closed.
Qed.
End image.

(** ** The kernel *)

(** A machine that has just started, with the image on its disk. *)
Record cold (pid : Z) (img : list (list Z)) (s : kstate) : Prop := {
  cd_quiet : quiet pid s;
  cd_cache : ∃ C, cache (k_bufs s) C ∧ ∀ i x, C !! i = Some x → zeroed x;
  cd_disk : k_disk s = disk_of img;
  cd_log : length (lh_block (log_lh (k_log s))) = LOGBLOCKS;
  cd_panic : k_panicking s = 0 ∧ k_panicked s = 0;
  cd_table : length (k_itable s) = NINODE ∧ Forall (λ x, i_ref x = 0 ∧ sl_locked (i_lock x) = 0) (k_itable s);
}.

Lemma disk_of_sector files m b : built files m → 0 ≤ b < FSSIZE → disk_of (mk_img m) !! b = Some (sector (mk_img m) b).
Proof.
  intros Hb Hr. destruct (bl_size _ _ Hb) as [Hl _]. unfold disk_of. rewrite lookup_map_seqZ_0 by lia.
  unfold sector. destruct (lookup_lt_is_Some_2 (mk_img m) (Z.to_nat b)) as [sec ->]; [lia | done].
Qed.

(** The image can be mounted. *)
Lemma image_mountable files m : proper files → built files m → mountable mksb 2 (disk_of (mk_img m)).
Proof.
  intros Hp Hb. assert (sb_logstart mksb = 2 ∧ sb_magic mksb = FSMAGIC ∧ sb_ninodes mksb = 200 ∧ nlog = 31 ∧ FSSIZE = 2000 ∧ LOGBLOCKS = 30%nat ∧
    inode_room = 208 ∧ ninodeblocks = 13 ∧ NINODES = 200 ∧ ROOTINO = 1) as (E1 & E2 & E3 & E4 & E5 & E6 & E7 & E8 & E9 & E10) by done.
  pose proof (disk_of_sector files m) as Hd. pose proof (bl_log _ _ Hb) as Hlog. rewrite E1 in Hlog.
  assert (disk_of (mk_img m) !! 2 = Some zeroes) as Hh by (rewrite Hd by (done || lia); by rewrite Hlog).
  assert (hdr_n zeroes = 0) as Hn by done.
  split.
  - eexists. split; [by apply Hd | apply Hb].
  - done.
  - by rewrite E1.
  - rewrite E6. lia.
  - exists zeroes. split; [done | apply zeroes_ok | by rewrite Hn | by unfold hdr_blocks; rewrite Hn; constructor | |].
    + intros b. unfold hdr_blocks. rewrite Hn. by intros ?%elem_of_nil.
    + intros b Hr. unfold in_log in Hr. rewrite Hd; [eauto | done | lia].
  - rewrite E3. intros i Hi. pose proof (IBLOCK_range i ltac:(lia)) as [_ Hr]. split; [unfold in_log; lia |].
    split; [rewrite Hd; [eauto | done | lia] |]. rewrite (replay_empty 2 _ zeroes) by done.
    destruct (V_inode files m (disk_of (mk_img m)) Hb) with (i := i) as [-> _]; [intros b ?; apply Hd; [done | lia] | lia |].
    destruct (decide (i = ROOTINO)) as [-> | Hne]; [right; by destruct (bl_root _ _ Hb) as (_ & -> & _) |].
    destruct (decide (i < Z.of_nat (length files) + 2)) as [Hlt | Hge]; [right | left; apply (bl_free _ _ Hb); lia].
    destruct (lookup_lt_is_Some_2 files (Z.to_nat (i - 2))) as [f Hf]; [lia |].
    destruct (image_file files m (disk_of (mk_img m)) Hp Hb) with (j := Z.to_nat (i - 2)) (f := f) as (_ & Hnl & _); [intros b ?; apply Hd; [done | lia] | done |].
    replace i with (Z.of_nat (Z.to_nat (i - 2) + 2)) by lia. by rewrite Hnl.
Qed.

Lemma empty_table dev pid sb V tbl : length tbl = NINODE → Forall (λ x, i_ref x = 0 ∧ sl_locked (i_lock x) = 0) tbl →
  itable dev pid sb V (λ _, 0) NINODE None tbl.
Proof.
  intros Hl Hf. rewrite Forall_lookup in Hf. split; try done.
  - intros i x [Hx _]%Hf. lia.
  - intros i x [Hx _]%Hf. lia.
  - intros i j x y [Hx _]%Hf. lia.
  - intros i x [_ Hx]%Hf. done.
  - intros i x [Hx _]%Hf. lia.
  - unfold free_entries. rewrite list_filter_all; [done |]. apply Forall_lookup. intros i x [Hx _]%Hf. done.
Qed.

Lemma path_elems_one name : name ≠ [] → Forall (λ c, c ≠ SLASH) name → path_elems (SLASH :: name) = [name].
Proof.
  intros Hne Hn. assert (split_slash name = [name]) as Hs.
  { clear Hne. induction Hn as [|c name Hc _ IH]; [done |]. cbn [split_slash]. rewrite (proj2 (Z.eqb_neq _ _)) by done. by rewrite IH. }
  unfold path_elems. cbn [split_slash]. rewrite Z.eqb_refl, Hs, filter_cons_False by naive_solver. by rewrite filter_cons_True.
Qed.

(** After mounting. *)
Lemma image_mounts {L : Layout} {E : Env} files pid m s : proper files → built files m → cold pid (mk_img m) s →
  wp (fsinit ROOTDEV) (λ _ s1, ∃ t, readable t ∧ fs_is ROOTDEV pid t (λ _, 0) NINODE None s1 ∧ k_sb s1 = mksb ∧
    ∀ b, 2 + nlog ≤ b < FSSIZE → st_view t !! b = Some (sector (mk_img m) b)) s.
Proof.
  intros Hp Hb [Hq (C & HC & Hz) Hd Hlh Hpan [Htl Htf]]. pose proof (fresh_stored ROOTDEV pid C s ltac:(done) Hq HC Hz) as Hs.
  pose proof (image_mountable _ _ Hp Hb) as Hm.
  eapply wp_mono; [apply (fsinit_wp ROOTDEV pid (fresh_store s) mksb 2 (disk_of (mk_img m))); try done |].
  { split; [done | unfold fresh_store, NBUF, MAXOPBLOCKS; simpl; lia | simpl; set_solver]. }
  { unfold fresh_store, NBUF, MAXOPBLOCKS. simpl. lia. }
  intros _ s1 ([Hfr _] & _ & Hsd & t & Hs1 & Hr & Hv & Hdt & Hf). exists t. split; [done |]. split; [| split; [by rewrite Hfr |]].
  - split; [done |]. rewrite Hfr. simpl. by apply empty_table.
  - intros b Hbr. assert (nlog = 31 ∧ LOGBLOCKS = 30%nat) as [E1 E2] by done. rewrite Hv, Hsd by (unfold in_log; lia).
    destruct (mt_log _ _ _ Hm) as [h Hlog]. pose proof (lv_header _ _ _ Hlog) as Hh. rewrite (replay_empty 2 _ h).
    + apply (disk_of_sector files); [done | lia].
    + done.
    + rewrite (disk_of_sector files) in Hh by done. pose proof (bl_log _ _ Hb) as Hl0. change (sb_logstart mksb) with 2 in Hl0. rewrite Hl0 in Hh. by injection Hh as <-.
Qed.

(** ** Theorems *)

(** C11: the kernel reads what mkfs wrote.  Take any arguments that mkfs accepts
    with proper, distinct names (and a directory that does not end with a block),
    and start the kernel with the image mkfs makes of them on its disk.  [fsinit]
    mounts it: the super block is accepted, the empty log replayed and no inode
    reclaimed.  Then, through path lookup, the inode table, the buffer cache and
    the block map, the path of every file yields exactly the bytes given to mkfs,
    and any other name in the root directory yields nothing. *)
Theorem kernel_reads_mkfs_image {L : Layout} {E : Env} files pid m s :
  proper files → mkfs files mkfs_start = MOk tt m → cold pid (mk_img m) s →
  ∃ s1, fsinit ROOTDEV s = Done tt s1 ∧
    (∀ k name chunks, files !! k = Some (name, Some chunks) →
       ∃ s2, load_file (SLASH :: shortname name) s1 = Done (Some (concat chunks)) s2) ∧
    (∀ name, good_name name → name ∉ (entries files).*2 → ∃ s2, load_file (SLASH :: name) s1 = Done None s2).
Proof.
  intros Hp Hmk Hc. destruct (mkfs_built files (pr_fits _ Hp)) as (m' & Hmk' & Hb). assert (m' = m) as -> by congruence. clear Hmk Hmk'.
  destruct (wp_elim _ _ _ (image_mounts files pid m s Hp Hb Hc)) as ([] & s1 & Hrun & t & Hr & Hfs & Hsb & HV). exists s1. split; [done |].
  pose proof (image_disk_tree files m (st_view t) Hp Hb HV) as Htr. rewrite <-Hsb in Htr.
  assert (∀ name, good_name name → wp (load_file (SLASH :: name)) (λ r s', r = (j ← dir_lookup (contents (mk_img m) (inode_of (mk_img m) ROOTINO)) name;
    snd <$> image_tree files (mk_img m) !! j)) s1) as Hload.
  { intros name (Hne & Hn & Hl). eapply wp_mono; [apply (load_file_wp ROOTDEV pid t (λ _, 0) NINODE _ _ ROOTINO s1 Hr Hfs ltac:(unfold NINODE; lia) Htr) |].
    - constructor; [done |]. eapply Forall_impl; [exact Hn |]. naive_solver.
    - unfold starts_at. cbn [deref]. rewrite Z.eqb_refl. split; reflexivity.
    - unfold image_tree. rewrite lookup_insert_eq. eauto.
    - intros r s' [-> _]. rewrite path_elems_one by (done || (eapply Forall_impl; [exact Hn | naive_solver])). cbn [resolve].
      assert (image_tree files (mk_img m) !! ROOTINO = Some (T_DIR, contents (mk_img m) (inode_of (mk_img m) ROOTINO))) as HR by apply lookup_insert_eq.
      rewrite HR, Z.eqb_refl, take_ge by done. by destruct (dir_lookup _ name). }
  split.
  - intros k name chunks Hk. pose proof (Forall_lookup_1 _ _ _ _ (pr_names _ Hp) Hk) as Hn. cbn [fst] in Hn.
    assert (entries files !! S (S k) = Some (Z.of_nat (k + 2), shortname name)) as He by (unfold entries; simpl; by rewrite list_lookup_imap, Hk).
    destruct (wp_elim _ _ _ (Hload _ Hn)) as (r & s2 & Hrun2 & ->). exists s2. rewrite Hrun2.
    rewrite (root_lookup_some files m Hp Hb _ _ _ He). cbn [mbind option_bind]. by rewrite (image_tree_file files m _ _ Hk).
  - intros name Hn Hno. destruct (wp_elim _ _ _ (Hload _ Hn)) as (r & s2 & Hrun2 & ->). exists s2. rewrite Hrun2.
    by rewrite (root_lookup_none files m Hp Hb _ (good_entry_name _ Hn) Hno).
Qed.
