(* ===== verification/Grep.v ===== *)
(** * grep (user/grep.c)

    The matcher of Kernighan and Pike for the operators ^ . * $, with the language
    of a pattern as its meaning, and the loop that cuts the input into lines in
    a buffer of 1024 bytes while [read] returns pieces of any size. *)

From S2P Require Import Prelude.

(** ** The program *)

Definition STAR : Z := 42.
Definition DOT : Z := 46.
Definition CARET : Z := 94.
Definition DOLLAR : Z := 36.
Definition NL : Z := 10.

(** [matchstar]; [mh] is the call [matchhere(re, .)]. *)
Fixpoint matchstar (c : Z) (mh : list Z → bool) (text : list Z) : bool :=
  if mh text then true
  else match text with
       | [] => false
       | t :: text1 =>
           if negb (t =? 0) && ((t =? c) || (c =? DOT)) then matchstar c mh text1 else false
       end.

Fixpoint matchhere (re text : list Z) {struct re} : bool :=
  match re with
  | [] => true
  | c :: re1 =>
      if c =? 0 then true
      else
        let one :=
          if (c =? DOLLAR) && (deref re1 =? 0) then deref text =? 0
          else match text with
               | [] => false
               | t :: text1 =>
                   if negb (t =? 0) && ((c =? DOT) || (c =? t)) then matchhere re1 text1 else false
               end in
        match re1 with
        | [] => one
        | s :: re2 => if s =? STAR then matchstar c (matchhere re2) text else one
        end
  end.

Fixpoint match_from (re text : list Z) : bool :=
  if matchhere re text then true
  else match text with
       | [] => false
       | t :: text1 => if negb (t =? 0) then match_from re text1 else false
       end.

Definition match_ (re text : list Z) : bool :=
  if deref re =? CARET then matchhere (tail re) text else match_from re text.

(** [strchr] of user/ulib.c: the offset of the first [c] before the NUL. *)
Fixpoint strchr (s : list Z) (c : Z) : option nat :=
  match s with
  | [] => None
  | x :: s => if x =? 0 then None else if x =? c then Some O else S <$> strchr s c
  end.

(** The inner loop on the bytes from [p] on; it gives the rest and the output.
    Every round moves [p], so more rounds than bytes are not needed. *)
Fixpoint grep_lines (fuel : nat) (pattern p out : list Z) : option (list Z * list Z) :=
  match fuel with
  | O => None
  | S fuel =>
      match strchr p NL with
      | None => Some (p, out)
      | Some q =>
          let out := if match_ pattern (take q p) then out ++ take (S q) p else out in
          grep_lines fuel pattern (drop (S q) p) out
      end
  end.

Section grep.
(** [read]: what the file gives when it holds [rest] and the buffer has room
    for [room] bytes. *)
Context (rd : list Z → nat → list Z).

Fixpoint grep_from (fuel : nat) (pattern b rest out : list Z) : option (list Z) :=
  match fuel with
  | O => None
  | S fuel =>
      let data := rd rest (1024 - length b - 1) in
      match data with
      | [] => Some out
      | _ :: _ =>
          let b := b ++ data in
          '(p, out) ← grep_lines (S (length b)) pattern b out;
          grep_from fuel pattern p (drop (length data) rest) out
      end
  end.
Definition grep (pattern file : list Z) : option (list Z) :=
  grep_from (S (length file)) pattern [] file [].
End grep.

(** ** The meaning of a pattern *)

Inductive item := One (c : Z) | Many (c : Z).

(** A pattern is a list of items, with or without the end mark. *)
Fixpoint items (re : list Z) : list item * bool :=
  match re with
  | [] => ([], false)
  | c :: re1 =>
      let one := if (c =? DOLLAR) && bool_decide (re1 = []) then ([], true)
                 else let '(l, e) := items re1 in (One c :: l, e) in
      match re1 with
      | [] => one
      | s :: re2 => if s =? STAR then let '(l, e) := items re2 in (Many c :: l, e) else one
      end
  end.

Definition sym (c a : Z) : Prop := c = DOT ∨ a = c.

(** The strings an item list stands for. *)
Inductive lang : list item → list Z → Prop :=
  | lang_nil : lang [] []
  | lang_one c a l s : sym c a → lang l s → lang (One c :: l) (a :: s)
  | lang_many c l s1 s2 : Forall (sym c) s1 → lang l s2 → lang (Many c :: l) (s1 ++ s2).

(** [re] matches at the beginning of [text]. *)
Definition matches_here (re text : list Z) : Prop :=
  ∃ s rest, text = s ++ rest ∧ lang (items re).1 s ∧ ((items re).2 = true → rest = []).

(** [re] matches somewhere in [text]. *)
Definition matches (re text : list Z) : Prop :=
  match re with
  | c :: re1 => if c =? CARET then matches_here re1 text
                else ∃ before after, text = before ++ after ∧ matches_here re after
  | [] => True
  end.

(** ** The matcher *)

Lemma matchstar_spec c mh text : nonul text →
  matchstar c mh text = true ↔ ∃ s1 s2, text = s1 ++ s2 ∧ Forall (sym c) s1 ∧ mh s2 = true.
Proof.
  induction 1 as [| t text Ht Hn IH]; simpl.
  - destruct (mh []) eqn:E; split; try done.
    + intros _. by exists [], [].
    + intros (s1 & s2 & Hs & _ & H). symmetry in Hs. apply app_nil in Hs as [-> ->]. congruence.
  - destruct (mh (t :: text)) eqn:E.
    { split; [intros _ | done]. by exists [], (t :: text). }
    rewrite (proj2 (Z.eqb_neq _ _) Ht). simpl.
    destruct ((t =? c) || (c =? DOT)) eqn:Ec; [rewrite IH |]; split; try done.
    + intros (s1 & s2 & -> & Hs & Hm). exists (t :: s1), s2. split_and!; [done | | done].
      constructor; [| done]. unfold sym. lia.
    + intros (s1 & s2 & Hs & Hf & Hm). destruct s1 as [| a s1]; [simpl in Hs; congruence |].
      injection Hs as -> ->. exists s1, s2. by apply Forall_cons in Hf as [_ Hf].
    + intros (s1 & s2 & Hs & Hf & Hm). destruct s1 as [| a s1]; [simpl in Hs; congruence |].
      injection Hs as -> ->. apply Forall_cons in Hf as [Ha _]. unfold sym in Ha. lia.
Qed.

Lemma here_one re re1 c text : items re = (One c :: (items re1).1, (items re1).2) →
  matches_here re text ↔ ∃ a t1, text = a :: t1 ∧ sym c a ∧ matches_here re1 t1.
Proof.
  intros E. unfold matches_here. rewrite E. simpl. split.
  - intros (s & rest & -> & Hl & He). inversion Hl as [| ? a ? s' Ha Hs' |]; subst. exists a, (s' ++ rest). naive_solver.
  - intros (a & t1 & -> & Ha & s & rest & -> & Hl & He). exists (a :: s), rest. split_and!; [done | by constructor | done].
Qed.

Lemma here_many re re2 c text : items re = (Many c :: (items re2).1, (items re2).2) →
  matches_here re text ↔ ∃ s1 s2, text = s1 ++ s2 ∧ Forall (sym c) s1 ∧ matches_here re2 s2.
Proof.
  intros E. unfold matches_here. rewrite E. simpl. split.
  - intros (s & rest & -> & Hl & He). inversion Hl as [| | ? ? s1 s2 Hs1 Hs2]; subst.
    exists s1, (s2 ++ rest). rewrite app_assoc. naive_solver.
  - intros (s1 & s2 & -> & Hs & s & rest & -> & Hl & He). exists (s1 ++ s), rest.
    split_and!; [apply app_assoc | by constructor | done].
Qed.

Lemma here_end re text : items re = ([], true) → matches_here re text ↔ text = [].
Proof.
  intros E. unfold matches_here. rewrite E. simpl. split.
  - intros (s & rest & -> & Hl & He). inversion Hl; subst. by rewrite He.
  - intros ->. exists [], []. split_and!; [done | constructor | done].
Qed.

Lemma deref_nonul s : nonul s → (deref s =? 0) = bool_decide (s = []).
Proof.
  destruct 1 as [| a s Ha _]; [done |]. simpl. by rewrite (proj2 (Z.eqb_neq _ _) Ha).
Qed.

(** The case of a pattern whose first character stands for itself. *)
Lemma matchhere_one c re1 text : nonul (c :: re1) → nonul text →
  (∀ t, nonul t → matchhere re1 t = true ↔ matches_here re1 t) →
  items (c :: re1) = (if (c =? DOLLAR) && bool_decide (re1 = []) then ([], true)
                      else let '(l, e) := items re1 in (One c :: l, e)) →
  (if (c =? DOLLAR) && (deref re1 =? 0) then deref text =? 0
   else match text with
        | [] => false
        | t :: text1 => if negb (t =? 0) && ((c =? DOT) || (c =? t)) then matchhere re1 text1 else false
        end) = true ↔ matches_here (c :: re1) text.
Proof.
  intros [Hc Hre]%Forall_cons Ht IH E. rewrite deref_nonul by done.
  destruct ((c =? DOLLAR) && bool_decide (re1 = [])).
  - rewrite (here_end _ _ E), deref_nonul by done. by rewrite bool_decide_eq_true.
  - rewrite (here_one _ re1 c) by (rewrite E; by destruct (items re1)).
    destruct Ht as [| t text Ht0 Ht]; [split; [done | naive_solver] |].
    rewrite (proj2 (Z.eqb_neq _ _) Ht0). cbn [negb andb].
    destruct ((c =? DOT) || (c =? t)) eqn:Ec.
    + rewrite IH by done. split; [intros H; exists t, text; split_and!; [done | unfold sym; lia | done] |].
      by intros (a & t1 & [= -> ->] & _ & H).
    + split; [done |]. intros (a & t1 & [= -> ->] & Ha & _). unfold sym in Ha. lia.
Qed.

Lemma matchhere_spec n : ∀ re text, (length re <= n)%nat → nonul re → nonul text →
  matchhere re text = true ↔ matches_here re text.
Proof.
  induction n as [| n IH]; intros re text Hn Hre Ht; destruct re as [| c re1]; simpl in Hn; try lia.
  1,2: split; [intros _ | done]; exists [], text; split_and!; [done | constructor | done].
  pose proof Hre as [Hc Hre1]%Forall_cons.
  assert (∀ t, nonul t → matchhere re1 t = true ↔ matches_here re1 t) as IH1 by (intros; apply IH; done || lia).
  cbn [matchhere]. rewrite (proj2 (Z.eqb_neq _ _) Hc). destruct re1 as [| s re2].
  - by apply matchhere_one.
  - destruct (s =? STAR) eqn:Es.
    + apply Forall_cons in Hre1 as [_ Hre2]. simpl in Hn. rewrite matchstar_spec by done.
      rewrite (here_many _ re2 c) by (cbn [items]; rewrite Es; by destruct (items re2)).
      split; intros (s1 & s2 & -> & Hs & H); exists s1, s2; (split_and!; [done | done |]);
        apply Forall_app in Ht as [_ Ht2]; apply (IH re2 s2); done || lia.
    + apply matchhere_one; [done.. |]. cbn [items]. by rewrite Es.
Qed.

Lemma match_from_spec re text : nonul re → nonul text →
  match_from re text = true ↔ ∃ before after, text = before ++ after ∧ matches_here re after.
Proof.
  intros Hre. induction 1 as [| t text Ht Hn IH]; cbn [match_from].
  - pose proof (matchhere_spec _ re [] (le_n _) Hre ltac:(constructor)) as H.
    destruct (matchhere re []); split; try done.
    + intros _. exists [], []. naive_solver.
    + intros (b & a & Hs & Ha). symmetry in Hs. apply app_nil in Hs as [-> ->]. by apply H.
  - pose proof (matchhere_spec _ re (t :: text) (le_n _) Hre ltac:(by constructor)) as H.
    destruct (matchhere re (t :: text)).
    + split; [intros _ | done]. exists [], (t :: text). naive_solver.
    + rewrite (proj2 (Z.eqb_neq _ _) Ht). cbn [negb]. rewrite IH. split.
      * intros (b & a & -> & Ha). by exists (t :: b), a.
      * intros (b & a & Hs & Ha). destruct b as [| x b]; [simpl in Hs; subst; by apply H in Ha |].
        injection Hs as -> ->. by exists b, a.
Qed.

(** C32: the matcher decides the language of its pattern.  [match_] answers whether
    a string that the pattern stands for occurs in the text: a character for
    itself, a dot for any character, a star for any number of repetitions of the
    character before it, and only at the beginning or at the end with a leading
    caret or a trailing dollar sign.  It terminates on every input. *)
Theorem grep_match_correct re text : nonul re → nonul text → match_ re text = true ↔ matches re text.
Proof.
  intros Hre Ht. unfold match_, matches. destruct re as [| c re1]; cbn [deref tail].
  - change (0 =? CARET) with false. cbv iota. split; [done | intros _]. destruct text; done.
  - destruct (c =? CARET) eqn:E; [| by apply match_from_spec].
    apply Forall_cons in Hre as [_ Hre]. by eapply matchhere_spec.
Qed.

(** ** The lines of a file *)

Definition text_of (ls : list (list Z)) : list Z := mjoin ((λ l, l ++ [NL]) <$> ls).
Definition chosen (pattern : list Z) (ls : list (list Z)) : list Z :=
  mjoin ((λ l, if match_ pattern l then l ++ [NL] else []) <$> ls).
Definition is_line (l : list Z) : Prop := nonul l ∧ NL ∉ l.

Lemma text_of_cons l ls t : text_of (l :: ls) ++ t = l ++ NL :: text_of ls ++ t.
Proof. unfold text_of. simpl. by rewrite <- !app_assoc. Qed.

Lemma text_of_app ls1 ls2 : text_of (ls1 ++ ls2) = text_of ls1 ++ text_of ls2.
Proof. unfold text_of. by rewrite fmap_app, list.join_app. Qed.

Lemma chosen_app pattern ls1 ls2 : chosen pattern (ls1 ++ ls2) = chosen pattern ls1 ++ chosen pattern ls2.
Proof. unfold chosen. by rewrite fmap_app, list.join_app. Qed.

Lemma strchr_line l t : is_line l → strchr (l ++ NL :: t) NL = Some (length l).
Proof.
  intros [Hn Hl]. induction Hn as [| a l Ha Hn IH]; simpl; [done |].
  apply not_elem_of_cons in Hl as [Hne Hl].
  rewrite (proj2 (Z.eqb_neq _ _) Ha), (proj2 (Z.eqb_neq _ _) (not_eq_sym Hne)). by rewrite IH.
Qed.

Lemma strchr_none t : NL ∉ t → strchr t NL = None.
Proof.
  induction t as [| a t IH]; intros Ht; simpl; [done |]. apply not_elem_of_cons in Ht as [Hne Ht].
  destruct (a =? 0); [done |]. rewrite (proj2 (Z.eqb_neq _ _) (not_eq_sym Hne)). by rewrite IH.
Qed.

(** The inner loop handles the complete lines of the buffer. *)
Lemma grep_lines_spec pattern ls t : Forall is_line ls → NL ∉ t → ∀ fuel out, (length ls < fuel)%nat →
  grep_lines fuel pattern (text_of ls ++ t) out = Some (t, out ++ chosen pattern ls).
Proof.
  intros Hls Ht. induction Hls as [| l ls Hl Hls IH]; intros [| fuel] out Hf; simpl in Hf; try lia; cbn [grep_lines].
  - unfold text_of, chosen. simpl. by rewrite strchr_none, app_nil_r.
  - rewrite text_of_cons, strchr_line by done.
    replace (S (length l)) with (length (l ++ [NL])) by (rewrite length_app; simpl; lia).
    rewrite take_app_length. replace (l ++ NL :: text_of ls ++ t) with ((l ++ [NL]) ++ text_of ls ++ t)
      by (by rewrite <- app_assoc). rewrite take_app_length, drop_app_length.
    destruct (match_ pattern l) eqn:E; rewrite IH by lia; do 2 f_equal; unfold chosen; simpl; rewrite E;
      [by rewrite <- !app_assoc | done].
Qed.

Lemma length_text_of ls : (length ls <= length (text_of ls))%nat.
Proof. induction ls as [| l ls IH]; [done |]. change (l :: ls) with ([l] ++ ls). rewrite text_of_app, length_app.
  unfold text_of at 1. simpl. rewrite !length_app. simpl. lia. Qed.

(** A cut through a file leaves complete lines and the beginning of one. *)
Lemma split_lines ls t : Forall is_line ls → NL ∉ t → ∀ x y, x ++ y = text_of ls ++ t →
  ∃ ls1 ls2 p, ls = ls1 ++ ls2 ∧ x = text_of ls1 ++ p ∧ (NL ∉ p) ∧ p ++ y = text_of ls2 ++ t.
Proof.
  intros Hls Ht. induction Hls as [| l ls [Hl0 Hl] Hls IH]; intros x y E.
  - exists [], [], x. split_and!; try done. simpl in E. rewrite <- E in Ht. set_solver.
  - rewrite text_of_cons in E. apply app_eq_inv in E as [(k & Hx & Hy) | (k & Hx & Hy)].
    + destruct k as [| a k].
      * exists [], (l :: ls), l. rewrite text_of_cons. simpl in Hy. rewrite app_nil_r in Hx. subst. done.
      * injection Hy as <- Hy. destruct (IH k y) as (ls1 & ls2 & p & -> & -> & Hp & E); [done |].
        exists (l :: ls1), ls2, p. split_and!; [done | | done | done]. by rewrite text_of_cons, Hx.
    + exists [], (l :: ls), x. rewrite text_of_cons. subst. split_and!; [done | done | set_solver | by rewrite <- app_assoc].
Qed.

Section reading.
Context (rd : list Z → nat → list Z) (pattern : list Z).
Hypothesis rd_prefix : ∀ rest room, rd rest room `prefix_of` rest ∧ (length (rd rest room) <= room)%nat.
Hypothesis rd_progress : ∀ rest room, rest ≠ [] → (0 < room)%nat → rd rest room ≠ [].

Definition fits (l : list Z) : Prop := (length l < 1023)%nat.

(** A full buffer has no line that fits. *)
Lemma full_no_line b rest l ls t : NL ∉ b → fits l → b ++ rest = text_of (l :: ls) ++ t → (1023 <= length b)%nat → False.
Proof.
  unfold fits. intros Hb Hl E Hf. rewrite text_of_cons in E.
  apply app_eq_inv in E as [(k & Hx & Hy) | (k & Hx & Hy)].
  - destruct k as [| a k]; [rewrite app_nil_r in Hx; subst; lia |]. injection Hy as <- Hy. subst. set_solver.
  - subst. rewrite length_app in Hl. lia.
Qed.

Lemma grep_from_spec ls t : Forall is_line ls → Forall fits ls → NL ∉ t → ∀ fuel b rest out,
  b ++ rest = text_of ls ++ t → NL ∉ b → (length rest < fuel)%nat →
  grep_from rd fuel pattern b rest out = Some (out ++ chosen pattern ls).
Proof.
  intros Hls Hfit Ht fuel. revert ls Hls Hfit. induction fuel as [| fuel IH]; intros ls Hls Hfit b rest out E Hb Hf; [lia |].
  cbn [grep_from]. destruct (rd_prefix rest (1024 - length b - 1)) as [[rest' Hr] Hroom].
  destruct (rd rest _) as [| a data] eqn:Ed.
  - destruct ls as [| l ls]; [unfold chosen; simpl; by rewrite app_nil_r |]. exfalso.
    apply Forall_cons in Hfit as [Hl _]. destruct (decide (1023 <= length b)%nat) as [Hfull | Hroom'].
    + by eapply full_no_line.
    + apply (rd_progress rest (1024 - length b - 1)); [| lia | done]. intros ->. rewrite app_nil_r in E.
      rewrite text_of_cons in E. rewrite E in Hb. set_solver.
  - cbv zeta. rewrite Hr, app_assoc in E.
    destruct (split_lines _ _ Hls Ht _ _ E) as (ls1 & ls2 & p & -> & E1 & Hp & E2).
    apply Forall_app in Hls as [Hls1 Hls2]. apply Forall_app in Hfit as [_ Hfit2].
    rewrite E1. rewrite grep_lines_spec by (done || (rewrite length_app; pose proof (length_text_of ls1); lia)).
    cbn [mbind option_bind]. rewrite Hr, drop_app_length. rewrite (IH ls2); [| done | done | done | done |].
    + by rewrite chosen_app, app_assoc.
    + rewrite Hr, length_app in Hf. simpl in Hf. lia.
Qed.

(** Grep prints exactly the matching lines, in order.  For a file of lines
    without NUL that fit the buffer, followed by text without a newline, and
    however [read] cuts the file into pieces, the output is the lines that
    match, each with its newline; an unfinished last line is not looked at. *)
Theorem grep_prints_matching_lines ls t : Forall is_line ls → Forall fits ls → NL ∉ t →
  grep rd pattern (text_of ls ++ t) = Some (chosen pattern ls).
Proof.
  intros Hls Hfit Ht. unfold grep. rewrite (grep_from_spec ls t); [done.. | set_solver | lia].
Qed.
End reading.

(** A file whose first line does not fit ends the search: nothing is printed,
    not even the matching lines after it. *)
Theorem grep_gives_up_on_long_lines pattern l rest : NL ∉ l → (1023 <= length l)%nat →
  grep (λ rest room, take room rest) pattern (l ++ NL :: rest) = Some [].
Proof.
  intros Hl Hlen. unfold grep. set (f := l ++ NL :: rest).
  assert (take 1023 f = take 1023 l) as E by (unfold f; rewrite take_app_le by lia; done).
  assert (length (take 1023 l) = 1023%nat) as E' by (rewrite length_take; lia).
  destruct (length f) as [| [| n]] eqn:Hn; [unfold f in Hn; rewrite length_app in Hn; simpl in Hn; lia.. |].
  cbn [grep_from]. change (1024 - length [] - 1)%nat with 1023%nat. rewrite E. rewrite app_nil_l.
  destruct (take 1023 l) as [| a l1] eqn:El; [done |]. rewrite <- El.
  cbn [grep_lines]. rewrite strchr_none by (intros H; apply Hl; rewrite <- (take_drop 1023 l); set_solver).
  cbn [mbind option_bind]. rewrite El, E'. done.
Qed.

(** ** Examples *)

Definition three_bytes (rest : list Z) (room : nat) : list Z := take (Nat.min 3 room) rest.

Lemma is_line_dec s : forallb (λ c, negb (c =? 0) && negb (c =? NL)) s = true → is_line s.
Proof.
  rewrite forallb_forall. intros H. assert (∀ c, c ∈ s → c ≠ 0 ∧ c ≠ NL) as H'.
  { intros c Hc%list_elem_of_In. specialize (H c Hc). lia. }
  split; [apply Forall_forall; intros c Hc; by apply H' | intros Hc; by apply H' in Hc as []].
Qed.

Lemma grep_match_correct_witness :
  matches (bytes_of_string "^ca*.$") (bytes_of_string "caat") ∧ ¬ matches (bytes_of_string "^a*$") (bytes_of_string "aab").
Proof.
  split.
  - apply (grep_match_correct (bytes_of_string "^ca*.$") (bytes_of_string "caat"));
      [apply nonul_dec; reflexivity | apply nonul_dec; reflexivity | reflexivity].
  - intros H. apply (grep_match_correct (bytes_of_string "^a*$") (bytes_of_string "aab")) in H;
      [discriminate H | apply nonul_dec; reflexivity | apply nonul_dec; reflexivity].
Defined.

Lemma grep_prints_matching_lines_witness :
  grep three_bytes (bytes_of_string "b.*t")
    (text_of [bytes_of_string "boat"; bytes_of_string "car"; bytes_of_string "rabbit"] ++ bytes_of_string "bat") =
  Some (text_of [bytes_of_string "boat"; bytes_of_string "rabbit"]).
Proof.
  refine (grep_prints_matching_lines three_bytes (bytes_of_string "b.*t") _ _
    [bytes_of_string "boat"; bytes_of_string "car"; bytes_of_string "rabbit"] (bytes_of_string "bat") _ _ _).
  - intros rest room. unfold three_bytes. split; [exists (drop (Nat.min 3 room) rest); symmetry; apply take_drop |].
    rewrite length_take. lia.
  - intros rest room Hr Hroom. unfold three_bytes. destruct rest as [| a rest]; [done |].
    destruct room as [| room]; [lia | done].
  - repeat (constructor; [apply is_line_dec; reflexivity |]). constructor.
  - repeat (constructor; [unfold fits; simpl; lia |]). constructor.
  - simpl. unfold NL. set_solver by lia.
Defined.
