(* ===== verification/User.v ===== *)
(** * User programs (user/ulib.c, printf.c and the commands)

    A program is an interaction tree over the system calls of user/usys.pl: it
    calls, waits for the answer and goes on, possibly forever.  Memory that a
    call fills (the buffer of read, struct stat, the descriptors of pipe) is part
    of its answer. *)

From ITree Require Import ITree.
From S2P Require Import Prelude Machine Kstate Printf Fs Text Grep.

(** ** System calls *)

Record ustat := mkStat { st_dev : Z; st_ino : Z; st_type : Z; st_nlink : Z; st_size : Z }.

Inductive userE : Type → Type :=
  | Fork : userE Z
  | Exit (status : Z) : userE Empty_set
  | Wait : userE (Z * Z)                            (* pid, status *)
  | Pipe : userE (Z * (Z * Z))                      (* result, p[0], p[1] *)
  | Read (fd n : Z) : userE (Z * list Z)            (* result, bytes stored *)
  | Write (fd : Z) (bs : list Z) : userE Z
  | Close (fd : Z) : userE Z
  | Kill (pid : Z) : userE Z
  | Exec (path : list Z) (argv : list (list Z)) : userE Z
  | Open (path : list Z) (mode : Z) : userE Z
  | Mknod (path : list Z) (major minor : Z) : userE Z
  | Unlink (path : list Z) : userE Z
  | Fstat (fd : Z) : userE (Z * ustat)
  | Link (old new : list Z) : userE Z
  | Mkdir (path : list Z) : userE Z
  | Chdir (path : list Z) : userE Z
  | Dup (fd : Z) : userE Z
  | Getpid : userE Z
  | Uptime : userE Z
  | Setfilter (mask : Z) : userE Z
  | Getfilter : userE Z
  | Setfilter_child (mask : Z) : userE Z
  | Setaudit (on : Z) : userE Z
  | Setstrict (on : Z) : userE Z
  | Sbrk (n : Z) : userE Z
  | Stuck (why : string) : userE Empty_set.         (* undefined behaviour of C *)

Abbreviation uprog := (itree userE).

#[global] Instance uprog_ret : MRet uprog := λ A a, Ret a.
#[global] Instance uprog_bind : MBind uprog := λ A B f t, ITree.bind t f.

Definition call {A} (e : userE A) : uprog A := ITree.trigger e.
Definition exit {A} (status : Z) : uprog A := x ← call (Exit status); match (x : Empty_set) with end.
Definition stuck {A} (why : string) : uprog A := x ← call (Stuck why); match (x : Empty_set) with end.

(** [while] with the loop variables [I]: go on with [inl], leave with [inr]. *)
Definition while {I A} (body : I → uprog (I + A)) (i : I) : uprog A := ITree.iter body i.

Fixpoint for_args {A} (l : list A) (body : A → uprog unit) : uprog unit :=
  match l with
  | [] => mret tt
  | x :: l => body x;; for_args l body
  end.

Definition O_RDONLY : Z := 0x000.
Definition O_RDWR : Z := 0x002.

(** ** user/printf.c *)

Definition udigits : list Z := bytes_of_string "0123456789ABCDEF".

Definition putc (fd c : Z) : uprog unit := call (Write fd [u8 c]);; mret tt.

Definition puts (fd : Z) (bs : list Z) : uprog unit := for_args bs (putc fd).

(** The digits of [x], least significant first. *)
Fixpoint udigits_of (fuel : nat) (x base : Z) : list Z :=
  match fuel with
  | O => []
  | S fuel =>
      nth (Z.to_nat (x mod base)) udigits 0 ::
      (if x / base =? 0 then [] else udigits_of fuel (x / base) base)
  end.

(** The bytes in [char buf[20]]. *)
Definition uprintint_buf (xx base : Z) (sgn : bool) : list Z :=
  let neg := sgn && (xx <? 0) in
  let x := if neg then u64 (- xx) else u64 xx in
  udigits_of 64 x base ++ (if neg then [chr "-"] else []).

Definition uprintint (fd xx base : Z) (sgn : bool) : uprog unit := puts fd (rev (uprintint_buf xx base sgn)).

Fixpoint uptr_digits (n : nat) (x : Z) : list Z :=
  match n with
  | O => []
  | S n => nth (Z.to_nat (Z.shiftr x 60)) udigits 0 :: uptr_digits n (u64 (Z.shiftl x 4))
  end.
Definition uprintptr (fd x : Z) : uprog unit :=
  putc fd (chr "0");; putc fd (chr "x");; puts fd (uptr_digits 16 x).

Definition va_int (ap : list varg) : uprog (Z * list varg) :=
  match ap with VZ z :: ap => mret (z, ap) | _ => stuck "va_arg" end.
Definition va_str (ap : list varg) : uprog (list Z * list varg) :=
  match ap with
  | VS (Some s) :: ap => mret (s, ap)
  | VS None :: ap => mret (bytes_of_string "(null)", ap)
  | _ => stuck "va_arg"
  end.

(** [state] is 0 or '%'. *)
Fixpoint vprintf (fd : Z) (fmt : list Z) (ap : list varg) (state : bool) : uprog unit :=
  match fmt with
  | [] => mret tt
  | c0 :: fmt1 =>
      if c0 =? 0 then mret tt
      else if negb state then
        if c0 =? chr "%" then vprintf fd fmt1 ap true else putc fd c0;; vprintf fd fmt1 ap false
      else
        let c1 := deref fmt1 in
        let c2 := if c1 =? 0 then 0 else deref (tail fmt1) in
        if c0 =? chr "d" then
          '(z, ap) ← va_int ap; uprintint fd (i32 z) 10 true;; vprintf fd fmt1 ap false
        else if (c0 =? chr "l") && (c1 =? chr "d") then
          '(z, ap) ← va_int ap; uprintint fd (i64 z) 10 true;;
          match fmt1 with _ :: fmt2 => vprintf fd fmt2 ap false | [] => mret tt end
        else if (c0 =? chr "l") && (c1 =? chr "l") && (c2 =? chr "d") then
          '(z, ap) ← va_int ap; uprintint fd (i64 z) 10 true;;
          match fmt1 with _ :: _ :: fmt3 => vprintf fd fmt3 ap false | _ => mret tt end
        else if c0 =? chr "u" then
          '(z, ap) ← va_int ap; uprintint fd (u32 z) 10 false;; vprintf fd fmt1 ap false
        else if (c0 =? chr "l") && (c1 =? chr "u") then
          '(z, ap) ← va_int ap; uprintint fd (i64 z) 10 false;;
          match fmt1 with _ :: fmt2 => vprintf fd fmt2 ap false | [] => mret tt end
        else if (c0 =? chr "l") && (c1 =? chr "l") && (c2 =? chr "u") then
          '(z, ap) ← va_int ap; uprintint fd (i64 z) 10 false;;
          match fmt1 with _ :: _ :: fmt3 => vprintf fd fmt3 ap false | _ => mret tt end
        else if c0 =? chr "x" then
          '(z, ap) ← va_int ap; uprintint fd (u32 z) 16 false;; vprintf fd fmt1 ap false
        else if (c0 =? chr "l") && (c1 =? chr "x") then
          '(z, ap) ← va_int ap; uprintint fd (i64 z) 16 false;;
          match fmt1 with _ :: fmt2 => vprintf fd fmt2 ap false | [] => mret tt end
        else if (c0 =? chr "l") && (c1 =? chr "l") && (c2 =? chr "x") then
          '(z, ap) ← va_int ap; uprintint fd (i64 z) 16 false;;
          match fmt1 with _ :: _ :: fmt3 => vprintf fd fmt3 ap false | _ => mret tt end
        else if c0 =? chr "p" then
          '(z, ap) ← va_int ap; uprintptr fd (u64 z);; vprintf fd fmt1 ap false
        else if c0 =? chr "c" then
          '(z, ap) ← va_int ap; putc fd (u32 z);; vprintf fd fmt1 ap false
        else if c0 =? chr "s" then
          '(str, ap) ← va_str ap; puts fd (cstr str);; vprintf fd fmt1 ap false
        else if c0 =? chr "%" then putc fd (chr "%");; vprintf fd fmt1 ap false
        else putc fd (chr "%");; putc fd c0;; vprintf fd fmt1 ap false
  end.

Definition fprintf (fd : Z) (fmt : string) (ap : list varg) : uprog unit := vprintf fd (bytes_of_string fmt) ap false.
Definition uprintf (fmt : string) (ap : list varg) : uprog unit := vprintf 1 (bytes_of_string fmt) ap false.
Arguments fprintf _ _%_string _ : simpl never.
Arguments uprintf _%_string _ : simpl never.

(** ** user/ulib.c *)

(** [strcmp]: the difference of the first bytes that differ. *)
Fixpoint strcmp (p q : list Z) : Z :=
  match p, q with
  | c :: p, d :: q => if negb (c =? 0) && (c =? d) then strcmp p q else c - d
  | c :: _, [] => c
  | [], _ => - deref q
  end.

(** [gets(buf, max)]: the string in [buf]. *)
Definition gets_round (max : nat) (buf : list Z) : uprog (list Z + list Z) :=
  if (S (length buf) <? max)%nat then
    '(cc, bs) ← call (Read 0 1);
    if cc <? 1 then mret (inr buf)
    else
      let c := hd 0 bs in
      let buf := buf ++ [c] in
      if (c =? 10) || (c =? 13) then mret (inr buf) else mret (inl buf)
  else mret (inr buf).
Definition gets (max : nat) : uprog (list Z) := while (gets_round max) [].

Definition stat (n : list Z) : uprog (Z * ustat) :=
  fd ← call (Open n O_RDONLY);
  if fd <? 0 then mret (-1, mkStat 0 0 0 0 0)
  else
    '(r, st) ← call (Fstat fd);
    call (Close fd);;
    mret (r, st).

(** [start]: main, then exit with its result. *)
Definition start (main : uprog Z) : uprog Empty_set := r ← main; exit r.
