(* ===== verification/Commands.v ===== *)
(** * The commands (user/cat.c, wc.c, echo.c, kill.c, ln.c, mkdir.c, rm.c, hello.c,
    ls.c, grep.c, init.c)

    [argv] holds the arguments, [argv[0]] included. *)

From ITree Require Import ITree.
From S2P Require Import Prelude Machine Kstate Printf Fs Text Grep User.

(** ** cat *)

Definition BUF : Z := 512.

(** One round of the loop of [cat]: [inr n] is the last result of read. *)
Definition cat_round (fd : Z) (_ : unit) : uprog (unit + Z) :=
  '(n, buf) ← call (Read fd BUF);
  if 0 <? n then
    r ← call (Write 1 (take (Z.to_nat n) buf));
    if negb (r =? n) then fprintf 2 "cat: write error
" [];; exit 1
    else mret (inl tt)
  else mret (inr n).

Definition cat (fd : Z) : uprog unit :=
  n ← while (cat_round fd) tt;
  if n <? 0 then fprintf 2 "cat: read error
" [];; exit 1
  else mret tt.

(** The body of the loop over the arguments. *)
Definition cat_arg (arg : list Z) : uprog unit :=
  fd ← call (Open arg O_RDONLY);
  if fd <? 0 then fprintf 2 "cat: cannot open %s
" [VS (Some arg)];; exit 1
  else cat fd;; call (Close fd);; mret tt.

Definition cat_main (argv : list (list Z)) : uprog Z :=
  if (length argv <=? 1)%nat then cat 0;; exit 0
  else for_args (tail argv) cat_arg;; exit 0.

(** ** wc *)

(** The counters [l], [w], [c] and [inword]. *)
Record counts := mkCounts { n_l : Z; n_w : Z; n_c : Z; inword : bool }.

(** [strchr(" \r\t\n\v", b)]; the NUL at the end of the string is not found. *)
Definition is_space (b : Z) : bool := existsb (Z.eqb b) [32; 13; 9; 10; 11].

Definition count_byte (x : counts) (b : Z) : counts :=
  let l := if b =? 10 then i32 (n_l x + 1) else n_l x in
  if is_space b then mkCounts l (n_w x) (i32 (n_c x + 1)) false
  else if negb (inword x) then mkCounts l (i32 (n_w x + 1)) (i32 (n_c x + 1)) true
  else mkCounts l (n_w x) (i32 (n_c x + 1)) true.

Definition wc_round (fd : Z) (x : counts) : uprog (counts + counts * Z) :=
  '(n, buf) ← call (Read fd BUF);
  if 0 <? n then mret (inl (foldl count_byte x (take (Z.to_nat n) buf)))
  else mret (inr (x, n)).

Definition wc (fd : Z) (name : list Z) : uprog unit :=
  '(x, n) ← while (wc_round fd) (mkCounts 0 0 0 false);
  if n <? 0 then uprintf "wc: read error
" [];; exit 1
  else uprintf "%d %d %d %s
" [VZ (n_l x); VZ (n_w x); VZ (n_c x); VS (Some name)].

Definition wc_arg (arg : list Z) : uprog unit :=
  fd ← call (Open arg O_RDONLY);
  if fd <? 0 then uprintf "wc: cannot open %s
" [VS (Some arg)];; exit 1
  else wc fd arg;; call (Close fd);; mret tt.

Definition wc_main (argv : list (list Z)) : uprog Z :=
  if (length argv <=? 1)%nat then wc 0 [];; exit 0
  else for_args (tail argv) wc_arg;; exit 0.

(** ** echo, hello *)

Fixpoint echo_args (l : list (list Z)) : uprog unit :=
  match l with
  | [] => mret tt
  | x :: l =>
      call (Write 1 (cstr x));;
      call (Write 1 (match l with [] => [10] | _ => [32] end));;
      echo_args l
  end.
Definition echo_main (argv : list (list Z)) : uprog Z := echo_args (tail argv);; exit 0.

Definition hello_main : uprog Z := call (Write 1 (bytes_of_string "hello
"));; exit 0.

(** ** kill, ln, mkdir, rm *)

Definition kill_main (argv : list (list Z)) : uprog Z :=
  if (length argv <? 2)%nat then fprintf 2 "usage: kill pid...
" [];; exit 1
  else
    for_args (tail argv) (λ arg,
      match atoi (cstr arg) with
      | Some pid => call (Kill pid);; mret tt
      | None => stuck "atoi"
      end);;
    exit 0.

Definition ln_main (argv : list (list Z)) : uprog Z :=
  match argv with
  | [_; old; new] =>
      r ← call (Link old new);
      (if r <? 0 then fprintf 2 "link %s %s: failed
" [VS (Some old); VS (Some new)] else mret tt);;
      exit 0
  | _ => fprintf 2 "Usage: ln old new
" [];; exit 1
  end.

(** The loops of mkdir and rm stop at the first failure. *)
Fixpoint until_failure (l : list (list Z)) (f : list Z → userE Z) (msg : string) : uprog unit :=
  match l with
  | [] => mret tt
  | x :: l =>
      r ← call (f x);
      if r <? 0 then fprintf 2 msg [VS (Some x)] else until_failure l f msg
  end.

Definition mkdir_main (argv : list (list Z)) : uprog Z :=
  if (length argv <? 2)%nat then fprintf 2 "Usage: mkdir files...
" [];; exit 1
  else until_failure (tail argv) Mkdir "mkdir: %s failed to create
";; exit 0.

Definition rm_main (argv : list (list Z)) : uprog Z :=
  if (length argv <? 2)%nat then fprintf 2 "Usage: rm files...
" [];; exit 1
  else until_failure (tail argv) Unlink "rm: %s failed to delete
";; exit 0.

(** ** ls *)

(** The part of the path after its last slash. *)
Definition last_elem (path : list Z) : list Z :=
  foldl (λ acc c, if c =? SLASH then [] else acc ++ [c]) [] (cstr path).

Definition fmtname (path : list Z) : list Z :=
  let p := last_elem path in
  if (DIRSIZ <=? length p)%nat then p else p ++ replicate (DIRSIZ - length p) 32.

Definition ls_line (name : list Z) (st : ustat) : uprog unit :=
  uprintf "%s %d %d %d
" [VS (Some name); VZ (st_type st); VZ (st_ino st); VZ (i32 (st_size st))].

Definition ls_round (path : list Z) (fd : Z) (_ : unit) : uprog (unit + unit) :=
  '(r, bs) ← call (Read fd DIRENT_SIZE);
  if negb (r =? DIRENT_SIZE) then mret (inr tt)
  else
    let de := decode_dirent bs in
    if de_inum de =? 0 then mret (inl tt)
    else
      let buf := cstr path ++ [SLASH] ++ cstr (de_name de) in
      '(r, st) ← stat buf;
      if r <? 0 then uprintf "ls: cannot stat %s
" [VS (Some buf)];; mret (inl tt)
      else ls_line (fmtname buf) st;; mret (inl tt).

Definition ls (path : list Z) : uprog unit :=
  fd ← call (Open path O_RDONLY);
  if fd <? 0 then fprintf 2 "ls: cannot open %s
" [VS (Some path)]
  else
    '(r, st) ← call (Fstat fd);
    if r <? 0 then
      fprintf 2 "ls: cannot stat %s
" [VS (Some path)];;
      call (Close fd);; mret tt
    else
      (if (st_type st =? T_DEVICE) || (st_type st =? T_FILE) then ls_line (fmtname path) st
       else if st_type st =? T_DIR then
         if (512 <? length (cstr path) + 1 + DIRSIZ + 1)%nat then uprintf "ls: path too long
" []
         else while (ls_round path fd) tt
       else mret tt);;
      call (Close fd);; mret tt.

Definition ls_main (argv : list (list Z)) : uprog Z :=
  if (length argv <? 2)%nat then ls (bytes_of_string ".");; exit 0
  else for_args (tail argv) ls;; exit 0.

(** ** grep *)

(** The inner loop on the bytes from [p] on: matching lines are written, the
    rest is kept. *)
Fixpoint grep_writes (fuel : nat) (pattern p : list Z) : uprog (list Z) :=
  match fuel with
  | O => stuck "grep"
  | S fuel =>
      match strchr p NL with
      | None => mret p
      | Some q =>
          (if match_ pattern (take q p) then call (Write 1 (take (S q) p));; mret tt else mret tt);;
          grep_writes fuel pattern (drop (S q) p)
      end
  end.

Definition grep_round (pattern : list Z) (fd : Z) (b : list Z) : uprog (list Z + unit) :=
  '(n, data) ← call (Read fd (1024 - Z.of_nat (length b) - 1));
  if 0 <? n then
    let b := b ++ take (Z.to_nat n) data in
    p ← grep_writes (S (length b)) pattern b;
    mret (inl p)
  else mret (inr tt).

Definition ugrep (pattern : list Z) (fd : Z) : uprog unit := while (grep_round pattern fd) [].

Definition grep_arg (pattern arg : list Z) : uprog unit :=
  fd ← call (Open arg O_RDONLY);
  if fd <? 0 then uprintf "grep: cannot open %s
" [VS (Some arg)];; exit 1
  else ugrep pattern fd;; call (Close fd);; mret tt.

Definition grep_main (argv : list (list Z)) : uprog Z :=
  match argv with
  | _ :: pattern :: files =>
      match files with
      | [] => ugrep pattern 0;; exit 0
      | _ => for_args files (grep_arg pattern);; exit 0
      end
  | _ => fprintf 2 "usage: grep pattern [file ...]
" [];; exit 1
  end.

(** ** init *)

Definition CONSOLE : Z := 1.

(** Waiting until the shell [pid] has exited; other children are orphans. *)
Definition init_wait (pid : Z) : uprog unit :=
  while (λ _ : unit,
    '(wpid, _) ← call Wait;
    if wpid =? pid then mret (inr tt)
    else if wpid <? 0 then uprintf "init: wait returned an error
" [];; exit 1
    else mret (inl tt)) tt.

Definition init_main : uprog Z :=
  fd ← call (Open (bytes_of_string "console") O_RDWR);
  (if fd <? 0 then
     call (Mknod (bytes_of_string "console") CONSOLE 0);;
     call (Open (bytes_of_string "console") O_RDWR);;
     mret tt
   else mret tt);;
  call (Dup 0);;
  call (Dup 0);;
  while (λ _ : unit,
    uprintf "init: starting sh
" [];;
    pid ← call Fork;
    if pid <? 0 then uprintf "init: fork failed
" [];; exit 1
    else if pid =? 0 then
      call (Exec (bytes_of_string "sh") [bytes_of_string "sh"]);;
      uprintf "init: exec sh failed
" [];;
      exit 1
    else init_wait pid;; mret (inl tt)) tt.
