(* ===== verification/UserIo.v ===== *)
(** * Commands that read and write files

    The environment of a command: open input, output and the files it may open.
    A read returns any number of the bytes that are left, at least one until the
    end.  [must] is total correctness: whatever the environment answers, the
    program ends, and in the given way. *)

From ITree Require Import ITree.
From stdpp Require Import pretty.
From S2P Require Import Prelude Machine Kstate Printf Fs Text Grep User Commands.

(** ** The environment *)

Record world := mkWorld {
  w_in : gmap Z (list Z);            (* open for reading, with the bytes left *)
  w_out : gmap Z (list Z);           (* open for writing, with the bytes written *)
  w_files : gmap (list Z) (list Z);  (* what can be opened *)
}.
#[global] Instance eta_world : Settable world := λ w, mkWorld (w_in w) (w_out w) (w_files w).

(** What a call may answer, and the world after it. *)
Definition step {A} (e : userE A) (w : world) : (A → world → Prop) → Prop :=
  match e in userE A return (A → world → Prop) → Prop with
  | Read fd n => λ P,
      match w_in w !! fd with
      | Some data => ∀ k, Z.of_nat k ≤ n → (k ≤ length data)%nat → (k = 0%nat → data = []) →
          P (Z.of_nat k, take k data) (w <| w_in ::= <[fd := drop k data]> |>)
      | None => P (-1, []) w
      end
  | Write fd bs => λ P,
      match w_out w !! fd with
      | Some o => P (Z.of_nat (length bs)) (w <| w_out ::= <[fd := o ++ bs]> |>)
      | None => P (-1) w
      end
  | Open path mode => λ P,
      match w_files w !! path with
      | Some data => ∀ fd, 0 ≤ fd → w_in w !! fd = None → P fd (w <| w_in ::= <[fd := data]> |>)
      | None => P (-1) w
      end
  | Close fd => λ P, P 0 (w <| w_in ::= delete fd |>)
  | _ => λ _, False
  end.

(** How a program ends: it returns, or it exits. *)
Inductive ending (A : Type) := Returned (a : A) | Exited (status : Z).
Arguments Returned {A} _.
Arguments Exited {A} _.

Inductive must {A} (Q : ending A → world → Prop) : uprog A → world → Prop :=
  | must_ret' t a w : observe t = RetF a → Q (Returned a) w → must Q t w
  | must_tau' t t' w : observe t = TauF t' → must Q t' w → must Q t w
  | must_exit' t st k w : observe t = VisF (Exit st) k → Q (Exited st) w → must Q t w
  | must_call' t X (e : userE X) k P w : observe t = VisF e k → step e w P →
      (∀ a w', P a w' → must Q (k a) w') → must Q t w.

(** ** Rules *)

Lemma must_ret {A} (Q : ending A → world → Prop) a w : Q (Returned a) w → must Q (mret a) w.
Proof. by apply must_ret'. Qed.

Lemma observe_bind {A B} (t : uprog A) (f : A → uprog B) : observe (ITree.bind t f) =
  match observe t with RetF a => observe (f a) | TauF t => TauF (ITree.bind t f) | VisF e k => VisF e (λ x, ITree.bind (k x) f) end.
Proof. unfold ITree.bind, ITree.subst. simpl. by destruct (observe t). Qed.

Lemma observe_iter {I A} (body : I → uprog (I + A)) i : observe (ITree.iter body i) =
  observe (ITree.bind (body i) (λ r, match r with inl i => Tau (ITree.iter body i) | inr a => Ret a end)).
Proof. reflexivity. Qed.

Lemma observe_call {A B} (e : userE A) (f : A → uprog B) : observe (call e ≫= f) = VisF e (λ a, ITree.bind (Ret a) f).
Proof. unfold mbind, uprog_bind, call, ITree.bind, ITree.subst, ITree.trigger. reflexivity. Qed.

Lemma must_bind {A B} (Q : ending B → world → Prop) (t : uprog A) (f : A → uprog B) w :
  must (λ r w', match r with Returned a => must Q (f a) w' | Exited st => Q (Exited st) w' end) t w → must Q (t ≫= f) w.
Proof.
  unfold mbind, uprog_bind. induction 1 as [t a w Ht H | t t' w Ht _ IH | t st k w Ht H | t X e k P w Ht Hs _ IH].
  - inversion H as [u b v Hu HQ | u u' v Hu HQ | u st k v Hu HQ | u X e k P v Hu Hs HQ]; subst.
    + eapply must_ret'; [| exact HQ]. by rewrite observe_bind, Ht.
    + eapply must_tau'; [| exact HQ]. by rewrite observe_bind, Ht.
    + eapply must_exit'; [| exact HQ]. by rewrite observe_bind, Ht.
    + eapply must_call'; [| exact Hs | exact HQ]. by rewrite observe_bind, Ht.
  - eapply must_tau'; [| exact IH]. by rewrite observe_bind, Ht.
  - eapply must_exit'; [| exact H]. by rewrite observe_bind, Ht.
  - eapply must_call'; [| exact Hs | exact IH]. by rewrite observe_bind, Ht.
Qed.

Lemma must_mono {A} (Q Q' : ending A → world → Prop) t w :
  must Q t w → (∀ r w', Q r w' → Q' r w') → must Q' t w.
Proof.
  induction 1 as [t a w Ht H | t t' w Ht _ IH | t st k w Ht H | t X e k P w Ht Hs _ IH]; intros HQ.
  - eapply must_ret'; eauto.
  - eapply must_tau'; eauto.
  - eapply must_exit'; eauto.
  - eapply must_call'; eauto.
Qed.

Lemma must_call {A B} (Q : ending B → world → Prop) (e : userE A) (f : A → uprog B) w :
  step e w (λ a w', must Q (f a) w') → must Q (call e ≫= f) w.
Proof.
  intros H. apply (must_call' _ _ _ e _ _ _ (observe_call e f) H). intros a w' Hm.
  apply (must_bind Q (Ret a) f), (must_ret _ a), Hm.
Qed.

Lemma must_exit {A} (Q : ending A → world → Prop) st w : Q (Exited st) w → must Q (exit st) w.
Proof. intros H. exact (must_exit' _ _ st _ _ (observe_call _ _) H). Qed.

(** A loop whose rounds lower a measure. *)
Lemma must_while {I A} (Inv : I → world → Prop) (size : I → world → nat) (Q : ending A → world → Prop) body :
  (∀ i w, Inv i w → must (λ r w', match r with
     | Returned (inl i') => Inv i' w' ∧ (size i' w' < size i w)%nat
     | Returned (inr a) => Q (Returned a) w'
     | Exited st => Q (Exited st) w'
     end) (body i) w) →
  ∀ i w, Inv i w → must Q (while body i) w.
Proof.
  intros Hbody i w. remember (size i w) as n eqn:Hn. revert i w Hn.
  induction (lt_wf n) as [n _ IH]. intros i w -> HI.
  assert (must Q (body i ≫= λ r, match r with inl i => Tau (while body i) | inr a => Ret a end) w) as H.
  { apply must_bind. eapply must_mono; [exact (Hbody i w HI) |]. intros [[i'|a]|st] w' H; [| by apply must_ret' with a | exact H].
    destruct H as [HI' Hlt]. eapply must_tau'; [reflexivity |]. by apply (IH (size i' w')). }
  inversion H as [u a v Hu HQ | u u' v Hu HQ | u st k v Hu HQ | u X e k P v Hu Hs HQ]; subst.
  - by eapply must_ret'.
  - by eapply must_tau'.
  - by eapply must_exit'.
  - by eapply must_call'.
Qed.

(** ** Output *)

(** [t] writes [bs] to [fd], byte by byte, and returns, whatever the writes
    return. *)
Inductive emits (fd : Z) : uprog unit → list Z → Prop :=
  | emits_ret' t : observe t = RetF tt → emits fd t []
  | emits_write' t b k bs : observe t = VisF (Write fd [b]) k → (∀ r, emits fd (k r) bs) → emits fd t (b :: bs).

Lemma emits_ret fd : emits fd (mret tt) [].
Proof. by apply emits_ret'. Qed.

Lemma emits_observe fd t u bs : observe t = observe u → emits fd t bs → emits fd u bs.
Proof. intros E H. destruct H; rewrite E in *; [by eapply emits_ret' | by eapply emits_write']. Qed.

Lemma emits_bind fd t u bs cs : emits fd t bs → emits fd u cs → emits fd (t;; u) (bs ++ cs).
Proof.
  intros Ht Hu. unfold mbind, uprog_bind. induction Ht as [t Ht | t b k bs Ht _ IH]; cbn [app].
  - revert Hu. apply emits_observe. by rewrite observe_bind, Ht.
  - eapply emits_write'; [by rewrite observe_bind, Ht | exact IH].
Qed.

Lemma emits_putc fd c : emits fd (putc fd c) [u8 c].
Proof.
  eapply emits_write'; [apply observe_call |]. intros r. apply (emits_observe fd (mret tt)); [| apply emits_ret].
  by rewrite observe_bind.
Qed.

Lemma emits_puts fd bs : emits fd (puts fd bs) (u8 <$> bs).
Proof. induction bs as [|b bs IH]; [apply emits_ret |]. exact (emits_bind _ _ _ [u8 b] _ (emits_putc fd b) IH). Qed.

(** On an open output the bytes arrive. *)
Lemma emits_must fd t bs : emits fd t bs →
  ∀ w o, w_out w !! fd = Some o → must (λ r w', r = Returned tt ∧ w' = w <| w_out ::= <[fd := o ++ bs]> |>) t w.
Proof.
  induction 1 as [t Ht | t b k bs Ht _ IH]; intros w o Ho.
  - eapply must_ret'; [exact Ht |]. split; [done |]. rewrite app_nil_r. destruct w as [i u f]. cbn in *. by rewrite insert_id.
  - eapply (must_call' _ _ _ _ _ (λ _ w', w' = w <| w_out ::= <[fd := o ++ [b]]> |>)); [exact Ht | cbn; by rewrite Ho |].
    intros r w' ->. eapply must_mono; [apply (IH r _ (o ++ [b])); cbn; by rewrite lookup_insert_eq |].
    intros r' w' [-> ->]. split; [done |]. destruct w as [i u f]. cbn. by rewrite insert_insert_eq, <-app_assoc.
Qed.

Lemma must_emits {A} (Q : ending A → world → Prop) fd t bs f w o :
  w_out w !! fd = Some o → emits fd t bs → must Q (f tt) (w <| w_out ::= <[fd := o ++ bs]> |>) → must Q (t ≫= f) w.
Proof. intros Ho Ht Hf. apply must_bind. eapply must_mono; [by apply (emits_must fd t bs) |]. by intros r w' [-> ->]. Qed.

(** Formats: text without %, then a conversion, and so on. *)
Definition plain (c : Z) : bool := (0 <? c) && (c <? 256) && negb (c =? chr "%").

Lemma cstr_plain l : forallb plain l = true → cstr l = l.
Proof.
  intros H. apply cstr_id, Forall_forall. intros c Hc. rewrite forallb_forall in H.
  apply list_elem_of_In, H in Hc. unfold plain in Hc. lia.
Qed.

Lemma emits_end fd ap : emits fd (vprintf fd [] ap false) [].
Proof. apply emits_ret. Qed.

Lemma emits_text fd s fmt ap bs :
  forallb plain s = true → emits fd (vprintf fd fmt ap false) bs → emits fd (vprintf fd (s ++ fmt) ap false) (s ++ bs).
Proof.
  intros Hs Hf. induction s as [|c s IH]; [done |]. cbn [forallb] in Hs.
  apply andb_true_iff in Hs as [[[H0 H1]%andb_true_iff H2]%andb_true_iff Hs].
  assert (c = u8 c) as Hc by (unfold u8; rewrite Z.mod_small; lia).
  cbn [app vprintf]. replace (c =? 0) with false by lia. cbn [negb]. apply negb_true_iff in H2. rewrite H2.
  rewrite Hc at 2. apply (emits_bind _ _ _ [u8 c]); [apply emits_putc | by apply IH].
Qed.

Lemma emits_plain fd l ap : forallb plain l = true → emits fd (vprintf fd l ap false) l.
Proof. intros Hl. rewrite <-(app_nil_r l). apply emits_text; [done | apply emits_end]. Qed.

Lemma emits_pure {A} fd (a : A) f bs : emits fd (f a) bs → emits fd (mret a ≫= f) bs.
Proof. apply emits_observe. symmetry. unfold mbind, uprog_bind. by rewrite observe_bind. Qed.

Lemma emits_s fd a fmt ap bs : emits fd (vprintf fd fmt ap false) bs →
  emits fd (vprintf fd (chr "%" :: chr "s" :: fmt) (VS (Some a) :: ap) false) ((u8 <$> cstr a) ++ bs).
Proof.
  intros H. apply (emits_pure fd (a, ap) (λ '(str, ap), puts fd (cstr str);; vprintf fd fmt ap false)).
  exact (emits_bind _ _ _ _ _ (emits_puts fd (cstr a)) H).
Qed.

Lemma u8_bytes s : u8 <$> bytes_of_string s = bytes_of_string s.
Proof.
  induction s as [|c s IH]; [done |]. cbn [bytes_of_string]. rewrite fmap_cons, IH. f_equal.
  unfold u8. pose proof (Ascii.N_ascii_bounded c). rewrite Z.mod_small; lia.
Qed.

Lemma emits_str fd str fmt ap bs : forallb plain (bytes_of_string str) = true → emits fd (vprintf fd fmt ap false) bs →
  emits fd (vprintf fd (chr "%" :: chr "s" :: fmt) (VS (Some (bytes_of_string str)) :: ap) false) (bytes_of_string str ++ bs).
Proof. intros Hs H. apply (emits_s fd (bytes_of_string str)) in H. by rewrite cstr_plain, u8_bytes in H. Qed.

Lemma emits_d fd z fmt ap bs : emits fd (vprintf fd fmt ap false) bs →
  emits fd (vprintf fd (chr "%" :: chr "d" :: fmt) (VZ z :: ap) false) ((u8 <$> rev (uprintint_buf (i32 z) 10 true)) ++ bs).
Proof.
  intros H. apply (emits_pure fd (z, ap) (λ '(z, ap), uprintint fd (i32 z) 10 true;; vprintf fd fmt ap false)).
  exact (emits_bind _ _ _ _ _ (emits_puts fd _) H).
Qed.

Lemma emits_cat_open a : emits 2 (fprintf 2 "cat: cannot open %s
" [VS (Some a)]) (bytes_of_string "cat: cannot open " ++ (u8 <$> cstr a) ++ [10]).
Proof.
  apply (emits_text 2 (bytes_of_string "cat: cannot open ")); [done |].
  apply (emits_s 2 a [10]). by apply (emits_plain 2 [10]).
Qed.

Lemma emits_x fd z fmt ap bs : emits fd (vprintf fd fmt ap false) bs →
  emits fd (vprintf fd (chr "%" :: chr "x" :: fmt) (VZ z :: ap) false) ((u8 <$> rev (uprintint_buf (u32 z) 16 false)) ++ bs).
Proof.
  intros H. apply (emits_pure fd (z, ap) (λ '(z, ap), uprintint fd (u32 z) 16 false;; vprintf fd fmt ap false)).
  exact (emits_bind _ _ _ _ _ (emits_puts fd _) H).
Qed.

(** ** cat *)

Lemma must_cat fd w o data :
  w_in w !! fd = Some data → w_out w !! 1 = Some o →
  must (λ r w', r = Returned tt ∧ w' = w <| w_in ::= <[fd := []]> |> <| w_out ::= <[1 := o ++ data]> |>) (cat fd) w.
Proof.
  intros Hi Ho. apply must_bind.
  apply (must_while (λ _ v, ∃ a b, data = a ++ b ∧ v = w <| w_in ::= <[fd := b]> |> <| w_out ::= <[1 := o ++ a]> |>)
    (λ _ v, length (default [] (w_in v !! fd)))).
  - intros [] v (a & b & Hab & ->). apply must_call. cbn. rewrite lookup_insert_eq. intros k Hk Hlen Hend.
    destruct (Z.ltb_spec 0 (Z.of_nat k)) as [Hpos|Hz]; [| apply must_ret].
    + apply must_call. cbn. rewrite lookup_insert_eq, Nat2Z.id, take_take, length_take, !Nat.min_id, Nat.min_l by done.
      rewrite Z.eqb_refl. cbn. apply must_ret. split.
      * exists (a ++ take k b), (drop k b). rewrite <-app_assoc, take_drop. split; [done |].
        destruct w as [i u f]. cbn. by rewrite !insert_insert_eq, app_assoc.
      * cbn. rewrite !lookup_insert_eq. cbn. rewrite length_drop. lia.
    + replace (Z.of_nat k <? 0) with false by lia. apply must_ret. split; [done |].
      rewrite (Hend ltac:(lia)), app_nil_r in *. destruct w as [i u f]. cbn. by rewrite drop_nil, insert_insert_eq, Hab.
  - exists [], data. split; [done |]. destruct w as [i u f]. cbn in *. by rewrite app_nil_r, !insert_id.
Qed.

(** What cat prints for its arguments, on both outputs, and its status. *)
Fixpoint cat_args (F : gmap (list Z) (list Z)) (args : list (list Z)) : list Z * list Z * Z :=
  match args with
  | [] => ([], [], 0)
  | a :: args =>
      match F !! a with
      | None => ([], bytes_of_string "cat: cannot open " ++ (u8 <$> cstr a) ++ [10], 1)
      | Some data => let '(out, err, st) := cat_args F args in (data ++ out, err, st)
      end
  end.
Definition cat_result (w : world) (argv : list (list Z)) : list Z * list Z * Z :=
  match tail argv with
  | [] =>
      match w_in w !! 0 with
      | Some data => (data, [], 0)
      | None => ([], bytes_of_string "cat: read error
", 1)
      end
  | args => cat_args (w_files w) args
  end.

Lemma must_cat_arg a w o e :
  w_out w !! 1 = Some o → w_out w !! 2 = Some e →
  must (λ r w', match w_files w !! a with
    | Some data => r = Returned tt ∧ w' = w <| w_out ::= <[1 := o ++ data]> |>
    | None => r = Exited 1 ∧ w' = w <| w_out ::= <[2 := e ++ bytes_of_string "cat: cannot open " ++ (u8 <$> cstr a) ++ [10]]> |>
    end) (cat_arg a) w.
Proof.
  intros Ho He. apply must_call. cbn. destruct (w_files w !! a) as [data|] eqn:Ha.
  - intros fd Hfd Hfree. replace (fd <? 0) with false by lia. apply must_bind.
    eapply must_mono; [eapply must_cat; [cbn; by rewrite lookup_insert_eq | done] |]. intros r w' [-> ->].
    apply must_call. cbn. apply must_ret. split; [done |]. destruct w as [i u f]. cbn in *.
    by rewrite delete_insert_eq, delete_insert_eq, delete_id.
  - eapply must_emits; [done | apply emits_cat_open | by apply must_exit].
Qed.

Lemma must_cat_args args w o e :
  w_out w !! 1 = Some o → w_out w !! 2 = Some e → let '(out, err, st) := cat_args (w_files w) args in
  must (λ r w', w' = w <| w_out ::= λ u, <[2 := e ++ err]> (<[1 := o ++ out]> u) |> ∧
    r = (if st =? 0 then Returned tt else Exited st)) (for_args args cat_arg) w.
Proof.
  revert w o. induction args as [|a args IH]; intros w o Ho He; cbn [cat_args for_args].
  { apply must_ret. split; [| done]. destruct w as [i u f]. cbn in *. by rewrite !app_nil_r, !insert_id; rewrite ?lookup_insert_ne. }
  pose proof (must_cat_arg a w o e Ho He) as Ha. destruct (w_files w !! a) as [data|] eqn:Hd.
  - specialize (IH (w <| w_out ::= <[1 := o ++ data]> |>) (o ++ data)). cbn in IH.
    rewrite lookup_insert_eq, lookup_insert_ne in IH by done. specialize (IH eq_refl He).
    destruct (cat_args (w_files w) args) as [[out err] st]. apply must_bind. eapply must_mono; [exact Ha |].
    intros r w' [-> ->]. eapply must_mono; [exact IH |]. intros r w' [-> ->]. split; [| done].
    destruct w as [i u f]. cbn. by rewrite insert_insert_eq, app_assoc.
  - apply must_bind. eapply must_mono; [exact Ha |]. intros r w' [-> ->]. split; [| done].
    destruct w as [i u f]. cbn in *. by rewrite app_nil_r, (insert_id u 1).
Qed.

(** ** Decimal numbers *)

Lemma decimal_char d : 0 ≤ d < 10 → Z.of_N (Ascii.N_of_ascii (pretty_N_char (Z.to_N d))) = nth (Z.to_nat d) udigits 0.
Proof.
  intros Hd. assert (d = 0 ∨ d = 1 ∨ d = 2 ∨ d = 3 ∨ d = 4 ∨ d = 5 ∨ d = 6 ∨ d = 7 ∨ d = 8 ∨ d = 9) as H by lia.
  by destruct_or! H; subst d.
Qed.

(** The buffer of the code has the last digit first. *)
Lemma udigits_pretty fuel x s :
  0 < x < 2 ^ Z.of_nat fuel →
  bytes_of_string (pretty_N_go (Z.to_N x) s) = rev (udigits_of fuel x 10) ++ bytes_of_string s.
Proof.
  revert x s. induction fuel as [|fuel IH]; intros x s Hx; [rewrite Z.pow_0_r in Hx; lia |].
  rewrite Nat2Z.inj_succ, Z.pow_succ_r in Hx by lia. cbn [udigits_of rev].
  pose proof (Z.mod_pos_bound x 10 ltac:(lia)). pose proof (Z.div_mod x 10 ltac:(lia)).
  rewrite pretty_N_go_step by lia. replace (Z.to_N x `div` 10)%N with (Z.to_N (x / 10)) by (by rewrite Z2N.inj_div by lia).
  replace (Z.to_N x `mod` 10)%N with (Z.to_N (x mod 10)) by (by rewrite Z2N.inj_mod by lia).
  destruct (Z.eqb_spec (x / 10) 0) as [Hz|Hz].
  - rewrite Hz, pretty_N_go_0. cbn [bytes_of_string rev app]. by rewrite decimal_char.
  - rewrite IH by lia. rewrite <-app_assoc. cbn [bytes_of_string app]. by rewrite decimal_char.
Qed.

Lemma bytes_of_string_app a b : bytes_of_string (a +:+ b) = bytes_of_string a ++ bytes_of_string b.
Proof. induction a as [|c a IH]; [done |]. cbn [bytes_of_string app]. by rewrite <-IH. Qed.

(** printint writes the decimal representation of every 64-bit integer. *)
Lemma uprintint_pretty z : - 2 ^ 63 ≤ z < 2 ^ 63 → rev (uprintint_buf z 10 true) = bytes_of_string (pretty z).
Proof.
  intros Hz. unfold uprintint_buf. cbn [andb]. destruct z as [|p|p]; [done | |].
  - change (Z.pos p <? 0) with false. cbn iota beta. rewrite app_nil_r. unfold u64. rewrite Z.mod_small by lia.
    change (pretty (Z.pos p)) with (pretty_N_go (Z.to_N (Z.pos p)) ""). rewrite (udigits_pretty 64) by (change (Z.of_nat 64) with 64; lia).
    by rewrite app_nil_r.
  - change (Z.neg p <? 0) with true. cbn iota beta. rewrite rev_app_distr. unfold u64. rewrite Z.mod_small by lia.
    change (pretty (Z.neg p)) with ("-" +:+ pretty_N_go (Z.to_N (Z.pos p)) "").
    rewrite bytes_of_string_app, (udigits_pretty 64) by (change (Z.of_nat 64) with 64; lia). by rewrite app_nil_r.
Qed.

(** ** wc *)

(** The runs of bytes between white space, empty ones included. *)
Fixpoint fields (data : list Z) : list Z * list (list Z) :=
  match data with
  | [] => ([], [])
  | b :: data =>
      let '(f, fs) := fields data in
      if is_space b then ([], f :: fs) else (b :: f, fs)
  end.
Definition nonempty (l : list (list Z)) : Z := Z.of_nat (length (filter (λ f, f ≠ []) l)).
Definition word_count (data : list Z) : Z := let '(f, fs) := fields data in nonempty (f :: fs).
Definition line_count (data : list Z) : Z := Z.of_nat (length (filter (λ b, b = 10) data)).

Lemma nonempty_cons f fs : nonempty (f :: fs) = (if decide (f = []) then 0 else 1) + nonempty fs.
Proof. unfold nonempty. rewrite filter_cons. do 2 destruct (decide _); try done; cbn [length]; lia. Qed.

(** The loop over the bytes from any state of the counters. *)
Lemma count_bytes data x :
  0 ≤ n_l x ≤ n_c x → 0 ≤ n_w x ≤ n_c x → n_c x + Z.of_nat (length data) ≤ INT_MAX →
  let x' := foldl count_byte x data in
  n_l x' = n_l x + line_count data ∧ n_c x' = n_c x + Z.of_nat (length data) ∧
  n_w x' = n_w x + (if inword x then let '(_, fs) := fields data in nonempty fs else word_count data).
Proof.
  unfold INT_MAX. revert x. induction data as [|b data IH]; intros x Hl Hw Hc.
  { assert (line_count [] = 0 ∧ word_count [] = 0 ∧ nonempty [] = 0) as (? & ? & ?) by done.
    cbn [foldl length fields]. destruct (inword x); lia. }
  cbn [foldl length] in *. rewrite Nat2Z.inj_succ in *. assert (n_c (count_byte x b) = n_c x + 1) as Hc1.
  { unfold count_byte. destruct (is_space b), (inword x); cbn; apply i32_small; lia. }
  assert (n_l (count_byte x b) = n_l x + (if decide (b = 10) then 1 else 0)) as Hl1.
  { unfold count_byte. destruct (Z.eqb_spec b 10), (decide (b = 10)), (is_space b), (inword x); cbn; try done; rewrite ?i32_small; lia. }
  assert (n_w (count_byte x b) = n_w x + (if is_space b || inword x then 0 else 1)) as Hw1.
  { unfold count_byte. destruct (is_space b), (inword x); cbn; rewrite ?i32_small; lia. }
  assert (inword (count_byte x b) = negb (is_space b)) as Hi1.
  { unfold count_byte. by destruct (is_space b), (inword x). }
  destruct (IH (count_byte x b)) as (E1 & E2 & E3); [case_decide; lia | destruct (is_space b || inword x); lia | lia |].
  rewrite E1, E2, E3, Hl1, Hc1, Hw1, Hi1. unfold line_count, word_count. rewrite filter_cons. cbn [fields].
  split; [destruct (decide (b = 10)); cbn [length]; lia |]. split; [lia |].
  destruct (fields data) as [f fs]. destruct (is_space b), (inword x); cbn [orb negb];
    rewrite ?nonempty_cons; repeat case_decide; try done; lia.
Qed.

Definition decimal (z : Z) : list Z := bytes_of_string (pretty z).

(** The line wc prints for a file. *)
Definition wc_line (data name : list Z) : list Z :=
  decimal (line_count data) ++ [32] ++ decimal (word_count data) ++ [32] ++
  decimal (Z.of_nat (length data)) ++ [32] ++ (u8 <$> cstr name) ++ [10].

Lemma emits_decimal fd z fmt ap bs : - 2 ^ 31 ≤ z < 2 ^ 31 → emits fd (vprintf fd fmt ap false) bs →
  emits fd (vprintf fd (chr "%" :: chr "d" :: fmt) (VZ z :: ap) false) (decimal z ++ bs).
Proof.
  intros Hz H. pose proof (emits_d fd z fmt ap bs H) as Hd.
  by rewrite i32_small, uprintint_pretty, u8_bytes in Hd by lia.
Qed.

Lemma emits_wc l w c name :
  - 2 ^ 31 ≤ l < 2 ^ 31 → - 2 ^ 31 ≤ w < 2 ^ 31 → - 2 ^ 31 ≤ c < 2 ^ 31 →
  emits 1 (uprintf "%d %d %d %s
" [VZ l; VZ w; VZ c; VS (Some name)]) (decimal l ++ [32] ++ decimal w ++ [32] ++ decimal c ++ [32] ++ (u8 <$> cstr name) ++ [10]).
Proof.
  intros Hl Hw Hc. apply (emits_decimal 1 l); [done |]. apply (emits_text 1 [32]); [done |].
  apply (emits_decimal 1 w); [done |]. apply (emits_text 1 [32]); [done |].
  apply (emits_decimal 1 c); [done |]. apply (emits_text 1 [32]); [done |].
  apply (emits_s 1 name [10]). by apply (emits_plain 1 [10]).
Qed.

Lemma emits_wc_open a : emits 1 (uprintf "wc: cannot open %s
" [VS (Some a)]) (bytes_of_string "wc: cannot open " ++ (u8 <$> cstr a) ++ [10]).
Proof.
  apply (emits_text 1 (bytes_of_string "wc: cannot open ")); [done |].
  apply (emits_s 1 a [10]). by apply (emits_plain 1 [10]).
Qed.

Lemma nonempty_nonneg l : 0 ≤ nonempty l.
Proof. unfold nonempty. lia. Qed.

Lemma word_count_le data : word_count data ≤ Z.of_nat (length data).
Proof.
  unfold word_count. induction data as [|b data IH]; [done |]. cbn [fields length]. destruct (fields data) as [f fs].
  rewrite Nat2Z.inj_succ. pose proof (nonempty_nonneg fs).
  destruct (is_space b); rewrite !nonempty_cons in *; repeat case_decide; try done; lia.
Qed.

Lemma line_count_le data : line_count data ≤ Z.of_nat (length data).
Proof. unfold line_count. pose proof (length_filter (λ b, b = 10) data). lia. Qed.

Lemma must_wc fd name w o data :
  w_in w !! fd = Some data → w_out w !! 1 = Some o → Z.of_nat (length data) ≤ INT_MAX →
  must (λ r w', r = Returned tt ∧ w' = w <| w_in ::= <[fd := []]> |> <| w_out ::= <[1 := o ++ wc_line data name]> |>) (wc fd name) w.
Proof.
  intros Hi Ho Hlen. apply must_bind.
  apply (must_while (λ x v, ∃ a b, data = a ++ b ∧ x = foldl count_byte (mkCounts 0 0 0 false) a ∧ v = w <| w_in ::= <[fd := b]> |>)
    (λ _ v, length (default [] (w_in v !! fd)))).
  - intros x v (a & b & Hab & -> & ->). apply must_call. cbn. rewrite lookup_insert_eq. intros k Hk Hb Hend.
    destruct (Z.ltb_spec 0 (Z.of_nat k)) as [Hpos|Hz]; apply must_ret.
    + split; [| cbn; rewrite !lookup_insert_eq; cbn; rewrite length_drop; lia].
      exists (a ++ take k b), (drop k b). rewrite <-app_assoc, take_drop. split; [done |].
      rewrite Nat2Z.id, take_take, Nat.min_id, foldl_app. split; [done |]. destruct w as [i u f]. cbn. by rewrite insert_insert_eq.
    + replace (Z.of_nat k <? 0) with false by lia. rewrite (Hend ltac:(lia)), app_nil_r in *. subst a.
      destruct (count_bytes data (mkCounts 0 0 0 false)) as (E1 & E2 & E3); [done.. |]. cbn [n_l n_w n_c inword] in *.
      rewrite Z.add_0_l in E1, E2, E3. rewrite E1, E2, E3. unfold INT_MAX in *.
      pose proof (word_count_le data). pose proof (line_count_le data).
      assert (0 ≤ line_count data ∧ 0 ≤ word_count data) as [? ?].
      { unfold line_count, word_count. destruct (fields data). split; [lia | apply nonempty_nonneg]. }
      eapply must_mono; [eapply emits_must; [apply (emits_wc _ _ _ name); lia | done] |]. intros r w' [-> ->]. split; [done |].
      destruct w as [i u f]. cbn. by rewrite drop_nil, insert_insert_eq.
  - exists [], data. do 2 (split; [done |]). destruct w as [i u f]. cbn in *. by rewrite insert_id.
Qed.

(** What wc prints for its arguments, and its status. *)
Fixpoint wc_args (F : gmap (list Z) (list Z)) (args : list (list Z)) : list Z * Z :=
  match args with
  | [] => ([], 0)
  | a :: args =>
      match F !! a with
      | None => (bytes_of_string "wc: cannot open " ++ (u8 <$> cstr a) ++ [10], 1)
      | Some data => let '(out, st) := wc_args F args in (wc_line data a ++ out, st)
      end
  end.
Definition wc_result (w : world) (argv : list (list Z)) : list Z * Z :=
  match tail argv with
  | [] =>
      match w_in w !! 0 with
      | Some data => (wc_line data [], 0)
      | None => (bytes_of_string "wc: read error
", 1)
      end
  | args => wc_args (w_files w) args
  end.

(** Files whose size an int can hold. *)
Definition small_files (w : world) : Prop :=
  map_Forall (λ _ data, Z.of_nat (length data) ≤ INT_MAX) (w_files w) ∧
  map_Forall (λ _ data, Z.of_nat (length data) ≤ INT_MAX) (w_in w).

Lemma must_wc_arg a w o :
  w_out w !! 1 = Some o → small_files w →
  must (λ r w', match w_files w !! a with
    | Some data => r = Returned tt ∧ w' = w <| w_out ::= <[1 := o ++ wc_line data a]> |>
    | None => r = Exited 1 ∧ w' = w <| w_out ::= <[1 := o ++ bytes_of_string "wc: cannot open " ++ (u8 <$> cstr a) ++ [10]]> |>
    end) (wc_arg a) w.
Proof.
  intros Ho [Hsmall _]. apply must_call. cbn. destruct (w_files w !! a) as [data|] eqn:Ha.
  - intros fd Hfd Hfree. replace (fd <? 0) with false by lia. apply must_bind.
    eapply must_mono; [eapply must_wc; [cbn; by rewrite lookup_insert_eq | done | exact (Hsmall a data Ha)] |]. intros r w' [-> ->].
    apply must_call. cbn. apply must_ret. split; [done |]. destruct w as [i u f]. cbn in *.
    by rewrite delete_insert_eq, delete_insert_eq, delete_id.
  - eapply must_emits; [done | apply emits_wc_open | by apply must_exit].
Qed.

Lemma must_wc_args args w o :
  w_out w !! 1 = Some o → small_files w → let '(out, st) := wc_args (w_files w) args in
  must (λ r w', w' = w <| w_out ::= <[1 := o ++ out]> |> ∧ r = (if st =? 0 then Returned tt else Exited st)) (for_args args wc_arg) w.
Proof.
  revert w o. induction args as [|a args IH]; intros w o Ho Hsmall; cbn [wc_args for_args].
  { apply must_ret. split; [| done]. destruct w as [i u f]. cbn in *. by rewrite app_nil_r, insert_id. }
  pose proof (must_wc_arg a w o Ho Hsmall) as Ha. destruct (w_files w !! a) as [data|] eqn:Hd.
  - specialize (IH (w <| w_out ::= <[1 := o ++ wc_line data a]> |>) (o ++ wc_line data a)). cbn in IH.
    rewrite lookup_insert_eq in IH. specialize (IH eq_refl Hsmall).
    destruct (wc_args (w_files w) args) as [out st]. apply must_bind. eapply must_mono; [exact Ha |].
    intros r w' [-> ->]. eapply must_mono; [exact IH |]. intros r w' [-> ->]. split; [| done].
    destruct w as [i u f]. cbn. by rewrite insert_insert_eq, app_assoc.
  - apply must_bind. eapply must_mono; [exact Ha |]. intros r w' [-> ->]. done.
Qed.

(** Without an open input the first read fails. *)
Lemma must_cat_closed fd w e :
  w_in w !! fd = None → w_out w !! 2 = Some e →
  must (λ r w', r = Exited 1 ∧ w' = w <| w_out ::= <[2 := e ++ bytes_of_string "cat: read error
"]> |>) (cat fd) w.
Proof.
  intros Hin He. apply must_bind. apply (must_while (λ _ v, v = w) (λ _ _, 0%nat)); [| done]. intros [] v ->.
  apply must_call. cbn. rewrite Hin. apply must_ret. eapply must_emits; [done | | by apply must_exit].
  by apply emits_plain.
Qed.

Lemma must_wc_closed fd name w o :
  w_in w !! fd = None → w_out w !! 1 = Some o →
  must (λ r w', r = Exited 1 ∧ w' = w <| w_out ::= <[1 := o ++ bytes_of_string "wc: read error
"]> |>) (wc fd name) w.
Proof.
  intros Hin Ho. apply must_bind. apply (must_while (λ _ v, v = w) (λ _ _, 0%nat)); [| done]. intros x v ->.
  apply must_call. cbn. rewrite Hin. apply must_ret. eapply must_emits; [done | | by apply must_exit].
  by apply emits_plain.
Qed.

Lemma no_args (argv : list (list Z)) : tail argv = [] → (length argv <=? 1)%nat = true.
Proof. by destruct argv as [|a [|]]. Qed.
Lemma some_args (argv : list (list Z)) a l : tail argv = a :: l → (length argv <=? 1)%nat = false.
Proof. by destruct argv as [|b [|]]. Qed.

(** ** Theorems *)

(** C30: cat writes to its output exactly the contents of the files it is given,
    in order, or of its input without arguments, however the reads are split.  It
    stops at the first file it cannot open, after all the files before, with a
    message on the error output and status 1.  It always exits. *)
Theorem cat_concatenates w argv o e :
  w_out w !! 1 = Some o → w_out w !! 2 = Some e →
  let '(out, err, st) := cat_result w argv in
  must (λ r w', r = Exited st ∧ w_out w' = <[2 := e ++ err]> (<[1 := o ++ out]> (w_out w))) (start (cat_main argv)) w.
Proof.
  intros Ho He. unfold cat_result, start, cat_main. destruct (tail argv) as [|a args] eqn:Hargs.
  - rewrite no_args by done. destruct (w_in w !! 0) as [data|] eqn:Hin; apply must_bind, must_bind.
    + eapply must_mono; [by apply must_cat |]. intros r w' [-> ->]. apply must_exit. split; [done |].
      cbn. by rewrite app_nil_r, (insert_id _ 2 e) by (by rewrite lookup_insert_ne).
    + eapply must_mono; [by apply must_cat_closed |]. intros r w' [-> ->]. split; [done |].
      cbn. by rewrite app_nil_r, (insert_id (w_out w) 1).
  - rewrite (some_args _ _ _ Hargs). pose proof (must_cat_args (a :: args) w o e Ho He) as H.
    destruct (cat_args (w_files w) (a :: args)) as [[out err] st]. apply must_bind, must_bind. eapply must_mono; [exact H |].
    intros r w' [-> ->]. destruct (Z.eqb_spec st 0) as [Hst|Hst]; [rewrite Hst; by apply must_exit | done].
Qed.

(** C31: wc prints, for every file it is given, the number of its lines, of its
    words and of its bytes in decimal, and the name; words are the non-empty runs
    of bytes between white space, wherever the reads split the file.  It stops
    with status 1 and a message at the first file it cannot open, and it always
    exits. *)
Theorem wc_counts w argv o :
  w_out w !! 1 = Some o → small_files w →
  let '(out, st) := wc_result w argv in
  must (λ r w', r = Exited st ∧ w_out w' = <[1 := o ++ out]> (w_out w)) (start (wc_main argv)) w.
Proof.
  intros Ho Hsmall. unfold wc_result, start, wc_main. destruct (tail argv) as [|a args] eqn:Hargs.
  - rewrite no_args by done. destruct (w_in w !! 0) as [data|] eqn:Hin; apply must_bind, must_bind.
    + eapply must_mono; [apply must_wc; [done | done | exact (proj2 Hsmall 0 data Hin)] |]. intros r w' [-> ->]. by apply must_exit.
    + eapply must_mono; [by apply must_wc_closed |]. intros r w' [-> ->]. done.
  - rewrite (some_args _ _ _ Hargs). pose proof (must_wc_args (a :: args) w o Ho Hsmall) as H.
    destruct (wc_args (w_files w) (a :: args)) as [out st]. apply must_bind, must_bind. eapply must_mono; [exact H |].
    intros r w' [-> ->]. destruct (Z.eqb_spec st 0) as [Hst|Hst]; [rewrite Hst; by apply must_exit | done].
Qed.

(** ** A world *)

(** Two files, the shell's three descriptors. *)
Definition io_demo : world := {|
  w_in := {[ 0 := bytes_of_string "typed
" ]};
  w_out := {[ 1 := []; 2 := [] ]};
  w_files := {[ bytes_of_string "a" := bytes_of_string "one two
 three
"; bytes_of_string "b" := bytes_of_string "four" ]};
|}.

Lemma cat_concatenates_witness :
  let argv := bytes_of_string <$> ["cat"; "b"; "a"; "c"; "b"] in
  cat_result io_demo argv = (bytes_of_string "fourone two
 three
", bytes_of_string "cat: cannot open c
", 1) ∧
  must (λ r w', r = Exited 1 ∧ w_out w' !! 1 = Some (bytes_of_string "fourone two
 three
")) (start (cat_main argv)) io_demo.
Proof.
  split; [vm_compute; reflexivity |].
  eapply must_mono; [exact (cat_concatenates io_demo (bytes_of_string <$> ["cat"; "b"; "a"; "c"; "b"]) [] [] eq_refl eq_refl) |].
  intros r w' [-> ->]. split; vm_compute; reflexivity.
Defined.

Lemma wc_counts_witness :
  let argv := bytes_of_string <$> ["wc"; "a"; "b"] in
  must (λ r w', r = Exited 0 ∧ w_out w' !! 1 = Some (bytes_of_string "2 3 15 a
0 1 4 b
")) (start (wc_main argv)) io_demo.
Proof.
  eapply must_mono; [refine (wc_counts io_demo (bytes_of_string <$> ["wc"; "a"; "b"]) [] eq_refl _) |].
  - split; apply (bool_decide_unpack _); vm_compute; exact I.
  - intros r w' [-> ->]. split; vm_compute; reflexivity.
Defined.
