(* ===== verification/Runs.v ===== *)
(** * Runs of user programs

    What a program does to the system, for any account [sys] of what its calls
    do: a tree with the things done along each process and a branch for every
    fork.  The states of processes and the labels of the tree are arguments; the
    shell (ShProc.v) and the programs that test the filter (Suite.v) give theirs. *)

From Stdlib Require Import Eqdep.
From ITree Require Import ITree.
From S2P Require Import Prelude Machine Kstate Printf Fs Text Grep User Commands UserIo.

(** ** Trees *)

Inductive tree (L : Type) :=
  | End (l : L)
  | Do (l : L) (t : tree L)
  | Both (child parent : tree L).
Arguments End {L} _.
Arguments Do {L} _ _.
Arguments Both {L} _ _.

(** What a call does: it ends the process, returns in it, returns in two
    processes (what the parent sees may depend on what the child does), or
    replaces the program. *)
Inductive reply (L S A : Type) :=
  | Ends (l : L)
  | Returns (a : A) (s : S)
  | Does (l : L) (a : A) (s : S)
  | Splits (a : A) (s : S) (a' : A) (s' : tree L → S)
  | Becomes (l : L) (t : uprog Empty_set) (s : S)
  | Unknown.
Arguments Ends {L S A} _.
Arguments Returns {L S A} _ _.
Arguments Does {L S A} _ _ _.
Arguments Splits {L S A} _ _ _ _.
Arguments Becomes {L S A} _ _ _.
Arguments Unknown {L S A}.

Class Calls (L S : Type) := sys : ∀ {A}, userE A → S → reply L S A.

Section runs.
Context {L S : Type} {Sys : Calls L S}.

(** The program has no way to return. *)
Definition no_return {A} (a : A) (s : S) (t : tree L) : Prop := False.

(** [runs Q t s tr]: from [s] the program [t] does [tr], where [Q] says what
    happens after it has returned. *)
Inductive runs : ∀ {A}, (A → S → tree L → Prop) → uprog A → S → tree L → Prop :=
  | runs_ret' A (Q : A → S → tree L → Prop) t a s tr : observe t = RetF a → Q a s tr → runs Q t s tr
  | runs_tau' A (Q : A → S → tree L → Prop) t t' s tr : observe t = TauF t' → runs Q t' s tr → runs Q t s tr
  | runs_ends' A (Q : A → S → tree L → Prop) t X (e : userE X) k s l :
      observe t = VisF e k → sys e s = Ends l → runs Q t s (End l)
  | runs_returns' A (Q : A → S → tree L → Prop) t X (e : userE X) k s a s' tr :
      observe t = VisF e k → sys e s = Returns a s' → runs Q (k a) s' tr → runs Q t s tr
  | runs_does' A (Q : A → S → tree L → Prop) t X (e : userE X) k s l a s' tr :
      observe t = VisF e k → sys e s = Does l a s' → runs Q (k a) s' tr → runs Q t s (Do l tr)
  | runs_splits' A (Q : A → S → tree L → Prop) t X (e : userE X) k s a s1 a' s2 tr tr' :
      observe t = VisF e k → sys e s = Splits a s1 a' s2 →
      runs Q (k a) s1 tr → runs Q (k a') (s2 tr) tr' → runs Q t s (Both tr tr')
  | runs_becomes' A (Q : A → S → tree L → Prop) t X (e : userE X) k s l t' s' tr :
      observe t = VisF e k → sys e s = Becomes l t' s' → runs no_return t' s' tr → runs Q t s (Do l tr).

(** ** Rules *)

Lemma runs_observe {A} (Q : A → S → tree L → Prop) t u s tr : observe t = observe u → runs Q t s tr → runs Q u s tr.
Proof.
  intros E H. destruct H; rewrite E in *;
    [eapply runs_ret' | eapply runs_tau' | eapply runs_ends' | eapply runs_returns' | eapply runs_does' | eapply runs_splits'
    | eapply runs_becomes']; eassumption.
Qed.

Lemma runs_seq {A B} (Q : B → S → tree L → Prop) (R : A → S → tree L → Prop) (t : uprog A) (f : A → uprog B) s tr :
  (∀ a s tr, R a s tr → runs Q (f a) s tr) → runs R t s tr → runs Q (t ≫= f) s tr.
Proof.
  intros HR H. unfold mbind, uprog_bind. revert B Q f HR.
  induction H as [A R t a s tr Ht H | A R t t' s tr Ht _ IH | A R t X e k s l Ht Hs | A R t X e k s a s' tr Ht Hs _ IH
    | A R t X e k s l a s' tr Ht Hs _ IH | A R t X e k s a s1 a' s2 tr tr' Ht Hs _ IH1 _ IH2 | A R t X e k s l t' s' tr Ht Hs H _];
    intros B Q f HR.
  - apply HR in H. revert H. apply runs_observe. by rewrite observe_bind, Ht.
  - eapply runs_tau'; [by rewrite observe_bind, Ht | by apply IH].
  - eapply runs_ends'; [by rewrite observe_bind, Ht | done].
  - eapply runs_returns'; [by rewrite observe_bind, Ht | done | by apply IH].
  - eapply runs_does'; [by rewrite observe_bind, Ht | done | by apply IH].
  - eapply runs_splits'; [by rewrite observe_bind, Ht | done | by apply IH1 | by apply IH2].
  - eapply runs_becomes'; [by rewrite observe_bind, Ht | done | done].
Qed.

Lemma runs_bind {A B} (Q : B → S → tree L → Prop) (t : uprog A) (f : A → uprog B) s tr :
  runs (λ a s tr, runs Q (f a) s tr) t s tr → runs Q (t ≫= f) s tr.
Proof. by apply runs_seq. Qed.

(** What follows a program, taken apart again. *)
Lemma runs_bind_inv {A B} (Q : B → S → tree L → Prop) (t : uprog A) (f : A → uprog B) s tr :
  runs Q (t ≫= f) s tr → runs (λ a s tr, runs Q (f a) s tr) t s tr.
Proof.
  unfold mbind, uprog_bind. intros H.
  cut (∀ u, observe u = observe (ITree.bind t f) → runs Q u s tr → runs (λ a s tr, runs Q (f a) s tr) t s tr).
  { intros HH. exact (HH _ eq_refl H). }
  clear H. intros u E H. revert t f E. induction H as [B Q u a s tr Hu H | B Q u u' s tr Hu H IH | B Q u X e k s l Hu Hs
    | B Q u X e k s a s' tr Hu Hs H IH | B Q u X e k s l a s' tr Hu Hs H IH | B Q u X e k s a s1 a' s2 tr tr' Hu Hs H1 IH1 H2 IH2
    | B Q u X e k s l u' s' tr Hu Hs H IH]; intros t f E; rewrite Hu, observe_bind in E; destruct (observe t) as [b | t' | Y e' k'] eqn:Et;
    try discriminate E; try (eapply runs_ret'; [exact Et |]);
    try (inversion E; subst Y; repeat match goal with H : existT _ _ = existT _ _ |- _ => apply inj_pair2 in H end; subst e' k).
  - by eapply runs_ret'.
  - by eapply runs_tau'.
  - eapply runs_tau'; [exact Et |]. apply IH. congruence.
  - by eapply runs_ends'.
  - by eapply runs_ends'.
  - by eapply runs_returns'.
  - eapply runs_returns'; [exact Et | exact Hs | by apply IH].
  - by eapply runs_does'.
  - eapply runs_does'; [exact Et | exact Hs | by apply IH].
  - by eapply runs_splits'.
  - eapply runs_splits'; [exact Et | exact Hs | by apply IH1 | by apply IH2].
  - by eapply runs_becomes'.
  - by eapply runs_becomes'.
Qed.

Lemma runs_mono {A} (Q R : A → S → tree L → Prop) t s tr :
  (∀ a s tr, R a s tr → Q a s tr) → runs R t s tr → runs Q t s tr.
Proof.
  intros HR H. revert Q HR. induction H; intros P HR;
    [eapply runs_ret' | eapply runs_tau' | eapply runs_ends' | eapply runs_returns' | eapply runs_does' | eapply runs_splits'
    | eapply runs_becomes']; eauto.
Qed.

Lemma runs_exits {A} (Q : A → S → tree L → Prop) t s tr : runs no_return t s tr → runs Q t s tr.
Proof. by apply runs_mono. Qed.

(** A process can do one thing only. *)
Lemma runs_det {A} (Q : A → S → tree L → Prop) t s tr tr' :
  (∀ a s tr tr', Q a s tr → Q a s tr' → tr = tr') → runs Q t s tr → runs Q t s tr' → tr = tr'.
Proof.
  intros HQ H. revert HQ tr'. induction H as [A Q t a s tr Ht H | A Q t t' s tr Ht _ IH | A Q t X e k s l Ht Hs | A Q t X e k s a s' tr Ht Hs _ IH
    | A Q t X e k s l a s' tr Ht Hs _ IH | A Q t X e k s a s1 a' s2 tr tr' Ht Hs _ IH1 _ IH2 | A Q t X e k s l t' s' tr Ht Hs H IH];
    intros HQ tr0 H'; inversion H'; subst; repeat match goal with
      | H : existT _ _ = existT _ _ |- _ => apply inj_pair2 in H
      end; subst; match goal with E : observe _ = _, E' : observe _ = _ |- _ => rewrite E in E'; try discriminate E'; inversion E'; subst end;
    repeat match goal with
      | H : existT _ _ = existT _ _ |- _ => apply inj_pair2 in H
      end; subst; match goal with E : sys _ _ = _, E' : sys _ _ = _ |- _ => rewrite E in E'; try discriminate E'; injection E' as; subst | _ => idtac end.
  - by eapply HQ.
  - by apply IH.
  - done.
  - by apply IH.
  - f_equal. by apply IH.
  - match goal with Hc : runs Q _ _ ?u |- Both _ _ = Both ?u _ => pose proof (IH1 HQ u Hc) as <- end. f_equal. by apply IH2.
  - f_equal. by apply IH; [intros ? ? ? ? [] |].
Qed.

Lemma runs_unique {A} (t : uprog A) s tr tr' : runs no_return t s tr → runs no_return t s tr' ↔ tr' = tr.
Proof.
  intros H. split; [| by intros ->]. intros H'. eapply runs_det; [| exact H' | exact H]. by intros ? ? ? ? [].
Qed.

(** ** Calls *)

Section calls.
Context {A B : Type} (Q : B → S → tree L → Prop) (f : A → uprog B).

Lemma runs_pure (a : A) s tr : runs Q (f a) s tr → runs Q (ITree.bind (Ret a) f) s tr.
Proof. intros H. apply (runs_bind Q (Ret a) f). by eapply runs_ret'. Qed.

Lemma runs_sys (e : userE A) s a s' tr : sys e s = Returns a s' → runs Q (f a) s' tr → runs Q (call e ≫= f) s tr.
Proof. intros Hs H. eapply runs_returns'; [apply observe_call | exact Hs | by apply runs_pure]. Qed.

Lemma runs_does (e : userE A) l s a s' tr : sys e s = Does l a s' → runs Q (f a) s' tr → runs Q (call e ≫= f) s (Do l tr).
Proof. intros Hs H. eapply runs_does'; [apply observe_call | exact Hs | by apply runs_pure]. Qed.

Lemma runs_ends (e : userE A) l s : sys e s = Ends l → runs Q (call e ≫= f) s (End l).
Proof. intros Hs. eapply runs_ends'; [apply observe_call | exact Hs]. Qed.

Lemma runs_splits (e : userE A) s a s1 a' s2 tr tr' :
  sys e s = Splits a s1 a' s2 → runs Q (f a) s1 tr → runs Q (f a') (s2 tr) tr' → runs Q (call e ≫= f) s (Both tr tr').
Proof. intros Hs H1 H2. eapply runs_splits'; [apply observe_call | exact Hs | by apply runs_pure..]. Qed.

Lemma runs_becomes (e : userE A) l t s s' tr :
  sys e s = Becomes l t s' → runs no_return t s' tr → runs Q (call e ≫= f) s (Do l tr).
Proof. intros Hs H. eapply runs_becomes'; [apply observe_call | exact Hs | exact H]. Qed.
End calls.

Lemma runs_does_last {A} (Q : A → S → tree L → Prop) (e : userE A) l s a s' tr :
  sys e s = Does l a s' → Q a s' tr → runs Q (call e) s (Do l tr).
Proof. intros Hs HQ. eapply runs_does'; [reflexivity | exact Hs | by eapply runs_ret']. Qed.

Lemma runs_ret {A} (Q : A → S → tree L → Prop) a s tr : Q a s tr → runs Q (mret a) s tr.
Proof. by apply runs_ret'. Qed.

Lemma runs_exit {A} (Q : A → S → tree L → Prop) st l s : sys (Exit st) s = Ends l → runs Q (exit st) s (End l).
Proof. apply runs_ends. Qed.

(** A loop, one round at a time. *)
Lemma runs_while {I B} (Q : B → S → tree L → Prop) (body : I → uprog (I + B)) i s tr :
  runs (λ r s tr, match r with inl i => runs Q (while body i) s tr | inr b => Q b s tr end) (body i) s tr →
  runs Q (while body i) s tr.
Proof.
  intros H. assert (runs Q (body i ≫= λ r, match r with inl i => Tau (while body i) | inr a => Ret a end) s tr) as Hr.
  { revert H. apply runs_seq. intros [j|b] s' tr' H; [by eapply runs_tau' | by eapply runs_ret']. }
  revert Hr. apply runs_observe. symmetry. apply observe_iter.
Qed.

(** Output, when [lab] says what writing a byte does. *)
Definition writing (lab : Z → L) (bs : list Z) (t : tree L) : tree L := foldr (λ b, Do (lab b)) t bs.

Lemma runs_says fd lab t bs (P : unit → S → tree L → Prop) s tr :
  (∀ b, ∃ r, sys (Write fd [b]) s = Does (lab b) r s) → emits fd t bs → P tt s tr → runs P t s (writing lab bs tr).
Proof.
  intros Hw Ht HP. induction Ht as [t Ht | t b k bs Ht _ IH]; [by eapply runs_ret' |].
  destruct (Hw b) as [r Hr]. eapply runs_does'; [exact Ht | exact Hr | apply IH].
Qed.

Lemma runs_emits {B} (Q : B → S → tree L → Prop) fd lab t bs (f : unit → uprog B) s tr :
  (∀ b, ∃ r, sys (Write fd [b]) s = Does (lab b) r s) → emits fd t bs → runs Q (f tt) s tr → runs Q (t ≫= f) s (writing lab bs tr).
Proof. intros Hw Ht Hf. apply runs_bind. by apply (runs_says fd). Qed.

(** ** Inversion *)

(** The cases of a run whose first step is known. *)
Ltac runs_cases H E :=
  inversion H; subst; repeat match goal with Hx : existT _ _ = existT _ _ |- _ => apply inj_pair2 in Hx end; subst;
  match goal with Hx : observe _ = _ |- _ =>
    tryif constr_eq Hx E then fail else (rewrite E in Hx; try discriminate Hx; inversion Hx; subst) end;
  repeat match goal with Hx : existT _ _ = existT _ _ |- _ => apply inj_pair2 in Hx end; subst.

Lemma runs_call_inv {A B} (Q : B → S → tree L → Prop) (e : userE A) (f : A → uprog B) s tr :
  runs Q (call e ≫= f) s tr →
  match sys e s with
  | Ends l => tr = End l
  | Returns a s' => runs Q (f a) s' tr
  | Does l a s' => ∃ tr', tr = Do l tr' ∧ runs Q (f a) s' tr'
  | Splits a s1 a' s2 => ∃ c p, tr = Both c p ∧ runs Q (f a) s1 c ∧ runs Q (f a') (s2 c) p
  | Becomes l t s' => ∃ tr', tr = Do l tr' ∧ runs no_return t s' tr'
  | Unknown => False
  end.
Proof.
  assert (∀ a s tr, runs Q (ITree.bind (Ret a) f) s tr → runs Q (f a) s tr) as Hret.
  { intros a u tr'. apply runs_observe. by rewrite observe_bind. }
  pose proof (observe_call e f) as E. generalize dependent (call e ≫= f). intros u E H. runs_cases H E; match goal with Hs : sys _ _ = _ |- _ => rewrite Hs end; eauto 8.
Qed.

Lemma runs_says_inv fd lab t bs (P : unit → S → tree L → Prop) s tr :
  (∀ b, ∃ r, sys (Write fd [b]) s = Does (lab b) r s) → emits fd t bs → runs P t s tr → ∃ tr', tr = writing lab bs tr' ∧ P tt s tr'.
Proof.
  intros Hw Ht. revert tr. induction Ht as [t Ht | t b k bs Ht _ IH]; intros tr H.
  - runs_cases H Ht. by eexists.
  - destruct (Hw b) as [r Hr]. runs_cases H Ht; match goal with Hs : sys _ _ = _ |- _ => rewrite Hr in Hs; try discriminate Hs; injection Hs as; subst end.
    match goal with Hk : runs P _ _ _ |- _ => apply IH in Hk as (tr' & -> & HP) end. by exists tr'.
Qed.
End runs.

(** A call whose answer is found by evaluation. *)
Ltac does := eapply runs_does; [reflexivity |].
