(* ===== verification/Sh.v ===== *)
(** * The shell (user/sh.c)

    The parser works on one buffer: tokens are pairs of positions in it, and at
    the end [nulterminate] cuts the buffer into strings by writing NULs.  The
    model keeps positions and the buffer. *)

From S2P Require Import Prelude.

(** ** Commands *)

Definition MAXARGS : nat := 10.

(** A string of the buffer: its first position and the one after its last. *)
Record str := mkStr { q : nat; eq_ : nat }.

Inductive cmd_of (A : Type) :=
  | EXEC (argv : list A)
  | REDIR (c : cmd_of A) (file : A) (mode fd : Z)
  | PIPE (left right : cmd_of A)
  | LIST (left right : cmd_of A)
  | BACK (c : cmd_of A).
Arguments EXEC {A} _.
Arguments REDIR {A} _ _ _ _.
Arguments PIPE {A} _ _.
Arguments LIST {A} _ _.
Arguments BACK {A} _.

(** In the program strings are pairs of pointers. *)
Abbreviation cmd := (cmd_of str).

Definition O_RDONLY : Z := 0x000.
Definition O_WRONLY : Z := 0x001.
Definition O_CREATE : Z := 0x200.
Definition O_TRUNC : Z := 0x400.

Definition whitespace : list Z := [32; 9; 13; 10; 11].
Definition symbols : list Z := bytes_of_string "<|>&;()".

(** [strchr(s, c)] as a truth value, for a nonzero [c]. *)
Definition strchr (s : list Z) (c : Z) : bool := existsb (Z.eqb c) s.

(** ** The parser *)

(** A parser function returns, leaves the program with an error message, or runs
    out of the rounds its model allows. *)
Inductive pres (A : Type) := POk (a : A) (s : nat) | PPanic (msg : string) | PFuel.
Arguments POk {A} _ _.
Arguments PPanic {A} _.
Arguments PFuel {A}.

Definition pbind {A B} (m : pres A) (k : A → nat → pres B) : pres B :=
  match m with POk a s => k a s | PPanic e => PPanic e | PFuel => PFuel end.

Definition tok_a : Z := chr "a".
Definition tok_append : Z := chr "+".

Section parser.
(** The buffer and its end [es = s + strlen(s)]. *)
Context (buf : list Z) (es : nat).

Definition char (i : nat) : Z := nth i buf 0.

(** [while(s < es && f(c)) s++]; at most [es] rounds. *)
Fixpoint span (f : Z → bool) (fuel s : nat) : nat :=
  match fuel with
  | O => s
  | S fuel => if (s <? es)%nat && f (char s) then span f fuel (S s) else s
  end.

Definition skip (s : nat) : nat := span (strchr whitespace) es s.

(** The token, its string, and the position after it and the space behind it. *)
Definition gettoken (s : nat) : Z * str * nat :=
  let s := skip s in
  let q := s in
  let ret := char s in
  let '(ret, s) :=
    if ret =? 0 then (ret, s)
    else if strchr (bytes_of_string "|();&<") ret then (ret, S s)
    else if ret =? chr ">" then
      if char (S s) =? chr ">" then (tok_append, S (S s)) else (ret, S s)
    else (tok_a, span (λ c, negb (strchr whitespace c) && negb (strchr symbols c)) es s) in
  (ret, mkStr q s, skip s).

Definition peek (s : nat) (toks : list Z) : bool * nat :=
  let s := skip s in (negb (char s =? 0) && strchr toks (char s), s).

Definition redir_of (c : cmd) (tok : Z) (file : str) : cmd :=
  if tok =? chr "<" then REDIR c file O_RDONLY 0
  else if tok =? chr ">" then REDIR c file (Z.lor (Z.lor O_WRONLY O_CREATE) O_TRUNC) 1
  else if tok =? tok_append then REDIR c file (Z.lor O_WRONLY O_CREATE) 1
  else c.

Fixpoint parseredirs (n : nat) (c : cmd) (s : nat) : pres cmd :=
  match n with
  | O => PFuel
  | S n =>
      let '(more, s) := peek s (bytes_of_string "<>") in
      if more then
        let '(tok, _, s) := gettoken s in
        let '(tok2, file, s) := gettoken s in
        if negb (tok2 =? tok_a) then PPanic "missing file for redirection"
        else parseredirs n (redir_of c tok file) s
      else POk c s
  end.

(** [cmd->argv[argc] = q]: [cmd] is the command inside the redirections of [ret]. *)
Fixpoint add_arg (c : cmd) (a : str) : cmd :=
  match c with
  | EXEC argv => EXEC (argv ++ [a])
  | REDIR c file mode fd => REDIR (add_arg c a) file mode fd
  | c => c
  end.

(** The loop of [parseexec]. *)
Fixpoint parseargs (n argc : nat) (c : cmd) (s : nat) : pres cmd :=
  match n with
  | O => PFuel
  | S n =>
      let '(stop, s) := peek s (bytes_of_string "|)&;") in
      if stop then POk c s
      else
        let '(tok, a, s) := gettoken s in
        if tok =? 0 then POk c s
        else if negb (tok =? tok_a) then PPanic "syntax"
        else
          let c := add_arg c a in
          let argc := S argc in
          if (MAXARGS <=? argc)%nat then PPanic "too many args"
          else pbind (parseredirs n c s) (λ c s, parseargs n argc c s)
  end.

(** [while(peek(ps, es, "&"))] of [parseline]. *)
Fixpoint parseamps (n : nat) (c : cmd) (s : nat) : pres cmd :=
  match n with
  | O => PFuel
  | S n =>
      let '(more, s) := peek s (bytes_of_string "&") in
      if more then let '(_, _, s) := gettoken s in parseamps n (BACK c) s else POk c s
  end.

Fixpoint parseline (n s : nat) : pres cmd :=
  match n with
  | O => PFuel
  | S n =>
      pbind (parsepipe n s) (λ c s,
      pbind (parseamps n c s) (λ c s,
      let '(more, s) := peek s (bytes_of_string ";") in
      if more then
        let '(_, _, s) := gettoken s in
        pbind (parseline n s) (λ r s, POk (LIST c r) s)
      else POk c s))
  end
with parsepipe (n s : nat) : pres cmd :=
  match n with
  | O => PFuel
  | S n =>
      pbind (parseexec n s) (λ c s,
      let '(more, s) := peek s (bytes_of_string "|") in
      if more then
        let '(_, _, s) := gettoken s in
        pbind (parsepipe n s) (λ r s, POk (PIPE c r) s)
      else POk c s)
  end
with parseexec (n s : nat) : pres cmd :=
  match n with
  | O => PFuel
  | S n =>
      let '(block, s) := peek s (bytes_of_string "(") in
      if block then parseblock n s
      else pbind (parseredirs n (EXEC []) s) (λ c s, parseargs n 0 c s)
  end
with parseblock (n s : nat) : pres cmd :=
  match n with
  | O => PFuel
  | S n =>
      let '(open, s) := peek s (bytes_of_string "(") in
      if negb open then PPanic "parseblock"
      else
        let '(_, _, s) := gettoken s in
        pbind (parseline n s) (λ c s,
        let '(close, s) := peek s (bytes_of_string ")") in
        if negb close then PPanic "syntax - missing )"
        else let '(_, _, s) := gettoken s in parseredirs n c s)
  end.
End parser.

(** The writes of [nulterminate]. *)
Fixpoint nulterminate (c : cmd) (buf : list Z) : list Z :=
  match c with
  | EXEC argv => foldl (λ b a, <[eq_ a := 0]> b) buf argv
  | REDIR c file _ _ => <[eq_ file := 0]> (nulterminate c buf)
  | PIPE l r | LIST l r => nulterminate r (nulterminate l buf)
  | BACK c => nulterminate c buf
  end.

(** Rounds that are enough for every input (see [parsecmd_terminates]). *)
Definition parse_fuel (es : nat) : nat := 4 * es + 8.

(** The command and the buffer its strings live in; the buffer has room for the
    NUL at its end. *)
Definition parsecmd (buf : list Z) : cmd * list Z + string :=
  let es := length (cstr buf) in
  match parseline buf es (parse_fuel es) 0 with
  | POk c s =>
      let '(_, s) := peek buf es s [] in
      if negb (s =? es)%nat then inr "syntax"%string else inl (c, nulterminate c buf)
  | PPanic e => inr e
  | PFuel => inr "out of fuel"%string
  end.

(** ** Printing *)

(** A command with the strings themselves. *)
Abbreviation scmd := (cmd_of (list Z)).

Fixpoint cmd_map {A B} (f : A → B) (c : cmd_of A) : cmd_of B :=
  match c with
  | EXEC argv => EXEC (f <$> argv)
  | REDIR c file mode fd => REDIR (cmd_map f c) (f file) mode fd
  | PIPE l r => PIPE (cmd_map f l) (cmd_map f r)
  | LIST l r => LIST (cmd_map f l) (cmd_map f r)
  | BACK c => BACK (cmd_map f c)
  end.

(** The string at a position of the cut buffer. *)
Definition string_at (buf : list Z) (a : str) : list Z := cstr (drop (q a) buf).

Inductive token := Word (w : list Z) | Sym (c : Z) | Append.

Definition redir_token (mode fd : Z) : token :=
  if mode =? O_RDONLY then Sym (chr "<")
  else if mode =? Z.lor O_WRONLY O_CREATE then Append else Sym (chr ">").

(** The tokens of a command; [lvl] says where it stands: 0 a line, 1 before an
    ampersand, 2 in a pipe, 3 a single command.  Parentheses where needed. *)
Definition block (l : list token) : list token := Sym (chr "(") :: l ++ [Sym (chr ")")].

Fixpoint tokens (c : scmd) (lvl : nat) : list token :=
  match c with
  | EXEC argv => Word <$> argv
  | REDIR c file mode fd => tokens c 3 ++ [redir_token mode fd; Word file]
  | PIPE l r =>
      let ts := tokens l 3 ++ Sym (chr "|") :: tokens r 2 in
      if (lvl <=? 2)%nat then ts else block ts
  | BACK c =>
      let ts := tokens c 1 ++ [Sym (chr "&")] in
      if (lvl <=? 1)%nat then ts else block ts
  | LIST l r =>
      let ts := tokens l 1 ++ Sym (chr ";") :: tokens r 0 in
      if (lvl =? 0)%nat then ts else block ts
  end.

Definition is_ws (c : Z) : Prop := strchr whitespace c = true.
Definition is_delim (c : Z) : Prop := strchr whitespace c = true ∨ strchr symbols c = true.
Definition is_word (w : list Z) : Prop := w ≠ [] ∧ Forall (λ c, c ≠ 0 ∧ ¬ is_delim c) w.

Definition spelling (t : token) : list Z :=
  match t with Word w => w | Sym c => [c] | Append => [chr ">"; chr ">"] end.

(** What may follow a token without space. *)
Definition sep (t : token) (s : list Z) : Prop :=
  match t with
  | Word _ => s = [] ∨ is_delim (deref s)
  | Sym c => c = chr ">" → deref s ≠ chr ">"
  | Append => True
  end.

(** [s] spells the tokens, with any white space between them. *)
Inductive spells : list token → list Z → Prop :=
  | spells_end ws : Forall is_ws ws → spells [] ws
  | spells_token ws t ts s : Forall is_ws ws → sep t s → spells ts s → spells (t :: ts) (ws ++ spelling t ++ s).

(** A command the shell can express. *)
Fixpoint wf (c : scmd) : Prop :=
  match c with
  | EXEC argv => (length argv < MAXARGS)%nat ∧ Forall is_word argv
  | REDIR c file mode fd => wf c ∧ is_word file ∧
      (mode = O_RDONLY ∧ fd = 0 ∨ mode = Z.lor (Z.lor O_WRONLY O_CREATE) O_TRUNC ∧ fd = 1 ∨
       mode = Z.lor O_WRONLY O_CREATE ∧ fd = 1)
  | PIPE l r | LIST l r => wf l ∧ wf r
  | BACK c => wf c
  end.
