(* ===== verification/ShSpec.v ===== *)
(** * The parser of the shell reads back what it should

    Every command that can be expressed, written with any white space between its
    tokens, is parsed to that command, and the strings of the result are the
    words that were written; and the parser terminates on every input. *)

From S2P Require Import Prelude Sh.

(** No white space in front. *)
Definition nolead (s : list Z) : Prop := match s with [] => True | c :: _ => ¬ is_ws c end.

(** The equations of the mutually recursive functions. *)
Section equations.
Context (buf : list Z) (es n s : nat).

Lemma parseline_S : parseline buf es (S n) s =
  pbind (parsepipe buf es n s) (λ c s, pbind (parseamps buf es n c s) (λ c s,
  let '(more, s) := peek buf es s (bytes_of_string ";") in
  if more then let '(_, _, s) := gettoken buf es s in pbind (parseline buf es n s) (λ r s, POk (LIST c r) s)
  else POk c s)).
Proof. reflexivity. Qed.

Lemma parsepipe_S : parsepipe buf es (S n) s =
  pbind (parseexec buf es n s) (λ c s,
  let '(more, s) := peek buf es s (bytes_of_string "|") in
  if more then let '(_, _, s) := gettoken buf es s in pbind (parsepipe buf es n s) (λ r s, POk (PIPE c r) s)
  else POk c s).
Proof. reflexivity. Qed.

Lemma parseexec_S : parseexec buf es (S n) s =
  let '(block, s) := peek buf es s (bytes_of_string "(") in
  if block then parseblock buf es n s
  else pbind (parseredirs buf es n (EXEC []) s) (λ c s, parseargs buf es n 0 c s).
Proof. reflexivity. Qed.

Lemma parseblock_S : parseblock buf es (S n) s =
  let '(open, s) := peek buf es s (bytes_of_string "(") in
  if negb open then PPanic "parseblock"
  else
    let '(_, _, s) := gettoken buf es s in
    pbind (parseline buf es n s) (λ c s,
    let '(close, s) := peek buf es s (bytes_of_string ")") in
    if negb close then PPanic "syntax - missing )"
    else let '(_, _, s) := gettoken buf es s in parseredirs buf es n c s).
Proof. reflexivity. Qed.
End equations.

(** The tokens there are. *)
Definition tok_ok (t : token) : Prop :=
  match t with Word w => is_word w | Sym c => strchr symbols c = true | Append => True end.

Lemma symbol_cases c : strchr symbols c = true → c ∈ symbols.
Proof. unfold strchr. intros (x & Hx & ->%Z.eqb_eq)%existsb_exists. by apply list_elem_of_In. Qed.

Ltac symbols H := apply symbol_cases in H; repeat (apply elem_of_cons in H as [-> | H]; [by vm_compute |]); by apply elem_of_nil in H.

Lemma symbol_not_ws c : strchr symbols c = true → ¬ is_ws c.
Proof. intros H. symbols H. Qed.

Lemma symbol_nonul c : strchr symbols c = true → c ≠ 0.
Proof. intros H. symbols H. Qed.

Lemma spelling_deref t y : tok_ok t → deref (spelling t ++ y) = deref (spelling t).
Proof. destruct t as [w | c |]; [| done..]. intros [Hne _]. by destruct w. Qed.

Lemma spelling_nonul t : tok_ok t → deref (spelling t) ≠ 0.
Proof.
  destruct t as [w | c |]; simpl; [| by apply symbol_nonul | done].
  intros [Hne Hw]. destruct Hw as [| a w [Ha _] _]; done.
Qed.

Lemma spells_cons_inv t ts z : spells (t :: ts) z →
  ∃ ws x, z = ws ++ spelling t ++ x ∧ Forall is_ws ws ∧ sep t x ∧ spells ts x.
Proof. intros H. inversion H; subst. eauto 10. Qed.

Section parser.
Context (text junk : list Z).
Hypothesis Htext : nonul text.

Let buf := text ++ 0 :: junk.
Let es := length text.

(** What is left at a position. *)
Definition rem (s : nat) : list Z := drop s text.

Lemma rem_length s : length (rem s) = (es - s)%nat.
Proof. apply length_drop. Qed.

Lemma rem_add s k : rem (s + k) = drop k (rem s).
Proof. unfold rem. by rewrite drop_drop. Qed.

Lemma rem_app s x y : rem s = x ++ y → rem (s + length x) = y.
Proof. intros E. by rewrite rem_add, E, drop_app_length. Qed.

Lemma rem_nil s : (s <= es)%nat → rem s = [] → s = es.
Proof. intros Hs E. pose proof (rem_length s) as HL. rewrite E in HL. simpl in HL. lia. Qed.

Lemma rem_nonul s : nonul (rem s).
Proof. by apply Forall_drop. Qed.

Lemma char_rem s : (s <= es)%nat → char buf s = deref (rem s).
Proof.
  intros Hs. unfold char, buf, rem. destruct (decide (s = es)) as [-> | Hne].
  - unfold es. rewrite drop_all. rewrite app_nth2 by lia. by rewrite Nat.sub_diag.
  - rewrite app_nth1 by (unfold es in *; lia).
    rewrite <- (take_drop s text) at 1. rewrite app_nth2 by (rewrite length_take; lia).
    rewrite length_take, Nat.min_l, Nat.sub_diag by (unfold es in *; lia). by destruct (drop s text).
Qed.

Lemma span_app f fuel s x y : (s <= es)%nat → rem s = x ++ y → Forall (λ c, f c = true) x →
  (y = [] ∨ f (deref y) = false) → (length x <= fuel)%nat → span buf es f fuel s = (s + length x)%nat.
Proof.
  revert s x. induction fuel as [| fuel IH]; intros s x Hs E Hx Hy Hl; simpl.
  { destruct x; simpl in *; lia. }
  rewrite char_rem by done. destruct Hx as [| c x Hc Hx]; simpl in E.
  - rewrite E. simpl. destruct Hy as [-> | ->]; [| rewrite andb_false_r; lia].
    rewrite (rem_nil s) by done. rewrite Nat.ltb_irrefl. simpl. lia.
  - assert (s < es)%nat by (pose proof (rem_length s) as HL; rewrite E in HL; simpl in HL; lia).
    rewrite E. simpl. rewrite Hc. rewrite (proj2 (Nat.ltb_lt s es)) by done. simpl.
    rewrite (IH (S s) x); [simpl; lia | lia | | done | done | simpl in Hl; lia].
    replace (S s) with (s + 1)%nat by lia. by rewrite rem_add, E.
Qed.

(** Leading white space. *)
Lemma lead_split x : ∃ ws y, x = ws ++ y ∧ Forall is_ws ws ∧ nolead y.
Proof.
  induction x as [| c x (ws & y & -> & Hws & Hy)]; [by exists [], [] |].
  destruct (decide (is_ws c)); [exists (c :: ws), y | exists [], (c :: ws ++ y)]; split_and!; try done. by constructor.
Qed.

Lemma lead_unique ws1 y1 ws2 y2 : ws1 ++ y1 = ws2 ++ y2 → Forall is_ws ws1 → Forall is_ws ws2 →
  nolead y1 → nolead y2 → y1 = y2.
Proof.
  revert ws2. induction ws1 as [| c ws1 IH]; intros [| c' ws2] E H1 H2 N1 N2; simpl in E; try done.
  - subst y1. apply Forall_cons in H2 as [H2 _]. done.
  - subst y2. apply Forall_cons in H1 as [H1 _]. done.
  - injection E as -> E. apply Forall_cons in H1 as [_ H1]. apply Forall_cons in H2 as [_ H2]. by eapply IH.
Qed.

Lemma skip_spec s : (s <= es)%nat → ∃ ws, rem s = ws ++ rem (skip buf es s) ∧ Forall is_ws ws ∧
  nolead (rem (skip buf es s)) ∧ skip buf es s = (s + length ws)%nat ∧ (skip buf es s <= es)%nat.
Proof.
  intros Hs. destruct (lead_split (rem s)) as (ws & y & E & Hws & Hy). exists ws.
  pose proof (rem_length s) as HL. rewrite E, length_app in HL.
  assert (skip buf es s = (s + length ws)%nat) as Hk.
  { unfold skip. eapply span_app; [done | done | done | | lia]. destruct y as [| c y]; [by left | right].
    apply not_true_iff_false. done. }
  rewrite Hk. rewrite (rem_app _ _ _ E). split_and!; try done. lia.
Qed.

Lemma spelling_nolead t s : tok_ok t → nolead (spelling t ++ s).
Proof.
  destruct t as [w | c |]; simpl; [| by intros H%symbol_not_ws | by intros _ ?].
  intros [Hne Hw]. destruct Hw as [| a w Ha Hw]; [done |]. simpl. unfold is_delim in Ha. tauto.
Qed.

(** White space in front does not matter. *)
Lemma spells_skip ts s : (s <= es)%nat → Forall tok_ok ts → spells ts (rem s) → spells ts (rem (skip buf es s)).
Proof.
  intros Hs Hok H. destruct (skip_spec s Hs) as (ws & E & Hws & Hn & _). rewrite E in H.
  remember (ws ++ rem (skip buf es s)) as z eqn:Ez. destruct H as [ws' Hws' | ws' t ts' x Hws' Hsep Hx].
  - subst. constructor. by apply Forall_app in Hws' as [_ ?].
  - apply Forall_cons in Hok as [Ht _].
    rewrite <- (lead_unique _ _ _ _ Ez Hws' Hws (spelling_nolead _ _ Ht) Hn).
    by apply (spells_token []).
Qed.

Lemma spells_at t ts s : (s <= es)%nat → tok_ok t → nolead (rem s) → spells (t :: ts) (rem s) →
  ∃ y, rem s = spelling t ++ y ∧ sep t y ∧ spells ts y.
Proof.
  intros Hs Ht Hn (ws & x & E & Hws & Hsep & Hx)%spells_cons_inv. exists x. split_and!; try done.
  symmetry. by apply (lead_unique ws _ [] (rem s)); [.. | constructor | apply spelling_nolead |].
Qed.

Lemma spells_nil s : (s <= es)%nat → nolead (rem s) → spells [] (rem s) → s = es.
Proof.
  intros Hs Hn H. inversion H as [ws Hws |]; subst. apply rem_nil; [done |].
  destruct (rem s) as [| c x]; [done |]. by apply Forall_cons in Hws as [? _].
Qed.

(** ** Looking at and taking a token *)

Lemma peek_token t ts s set : (s <= es)%nat → Forall tok_ok (t :: ts) → spells (t :: ts) (rem s) →
  ∃ s', peek buf es s set = (strchr set (deref (spelling t)), s') ∧ (s <= s' <= es)%nat ∧
    nolead (rem s') ∧ spells (t :: ts) (rem s').
Proof.
  intros Hs Hok H. pose proof (spells_skip _ _ Hs Hok H) as H'. apply Forall_cons in Hok as [Ht Hok].
  destruct (skip_spec s Hs) as (ws & _ & _ & Hn & Hk & Hle). exists (skip buf es s). split_and!; try done; [| lia].
  destruct (spells_at _ _ _ Hle Ht Hn H') as (y & E & _ & _). unfold peek. rewrite char_rem by done.
  f_equal. rewrite E, spelling_deref by done. rewrite (proj2 (Z.eqb_neq _ _)); [done |]. by apply spelling_nonul.
Qed.

Lemma peek_end s set : (s <= es)%nat → spells [] (rem s) → peek buf es s set = (false, es).
Proof.
  intros Hs H. pose proof (spells_skip [] _ Hs ltac:(constructor) H) as H'.
  destruct (skip_spec s Hs) as (ws & _ & _ & Hn & Hk & Hle). pose proof (spells_nil _ Hle Hn H') as E.
  unfold peek. rewrite E, char_rem by done. unfold rem, es. by rewrite drop_all.
Qed.

Definition code (t : token) : Z := match t with Word _ => tok_a | Sym c => c | Append => tok_append end.

(** The string of a token. *)
Definition str_ok (w : list Z) (a : str) : Prop :=
  is_word w ∧ take (eq_ a - q a) (rem (q a)) = w ∧ (q a <= eq_ a <= es)%nat ∧
  (eq_ a = es ∨ is_delim (deref (rem (eq_ a)))).

Lemma rem_le s x y : (s <= es)%nat → rem s = x ++ y → (s + length x <= es)%nat.
Proof. intros Hs E. pose proof (rem_length s) as HL. rewrite E, length_app in HL. lia. Qed.

Definition wordchar (c : Z) : bool := negb (strchr whitespace c) && negb (strchr symbols c).

Lemma wordchar_spec c : wordchar c = true ↔ ¬ is_delim c.
Proof.
  unfold wordchar, is_delim. destruct (strchr whitespace c), (strchr symbols c); simpl; intuition congruence.
Qed.

Lemma notdelim_code c : ¬ is_delim c → strchr (bytes_of_string "|();&<") c = false ∧ (c =? chr ">") = false.
Proof.
  unfold is_delim. intros H. assert (strchr symbols c = false) as Hs by (apply not_true_iff_false; tauto).
  unfold strchr in *. simpl in *. rewrite !orb_false_iff in Hs. rewrite !orb_false_iff. tauto.
Qed.

#[local] Arguments strchr : simpl never.
#[local] Arguments bytes_of_string : simpl never.

(** The middle of [gettoken], from the first character of the token on. *)
Lemma token_middle t y s : (s <= es)%nat → tok_ok t → rem s = spelling t ++ y → sep t y →
  (if char buf s =? 0 then (char buf s, s)
   else if strchr (bytes_of_string "|();&<") (char buf s) then (char buf s, S s)
   else if char buf s =? chr ">" then
     if char buf (S s) =? chr ">" then (tok_append, S (S s)) else (char buf s, S s)
   else (tok_a, span buf es wordchar es s)) = (code t, (s + length (spelling t))%nat).
Proof.
  intros Hs Ht E Hsep. pose proof (rem_le _ _ _ Hs E) as Hle. rewrite (char_rem s) by done.
  rewrite E, spelling_deref by done. rewrite (proj2 (Z.eqb_neq _ _) (spelling_nonul t Ht)).
  assert (∀ c z, rem s = c :: z → char buf (S s) = deref z) as Hnext.
  { intros c z Ez. pose proof (rem_le s [c] z Hs Ez) as HL. simpl in HL.
    rewrite char_rem by lia. replace (S s) with (s + length [c])%nat by (simpl; lia). by rewrite (rem_app _ [c] z). }
  destruct t as [w | c |]; simpl in *.
  - destruct Ht as [Hne Hw]. destruct w as [| a w]; [done |]. simpl.
    pose proof Hw as [[Ha0 Ha] _]%Forall_cons. destruct (notdelim_code _ Ha) as [-> ->].
    f_equal. eapply (span_app _ _ _ (a :: w)); [done | done | | | simpl in *; lia].
    + eapply Forall_impl; [exact Hw |]. intros c [_ Hc]. by apply wordchar_spec.
    + destruct Hsep as [-> | Hd]; [by left | right]. apply not_true_iff_false. rewrite wordchar_spec. tauto.
  - apply symbol_cases in Ht. rewrite (Hnext _ _ E).
    destruct (decide (c = chr ">")) as [-> | Hc].
    + change (strchr _ (chr ">")) with false. cbv iota. rewrite Z.eqb_refl. rewrite (proj2 (Z.eqb_neq _ _)) by auto.
      f_equal. lia.
    + replace (strchr (bytes_of_string "|();&<") c) with true; [f_equal; lia |].
      symmetry. unfold symbols in Ht. simpl in Ht.
      repeat (apply elem_of_cons in Ht as [-> | Ht]; [by vm_compute || done |]). by apply elem_of_nil in Ht.
  - rewrite (Hnext _ _ E). f_equal. lia.
Qed.

Lemma gettoken_token t ts s : (s <= es)%nat → Forall tok_ok (t :: ts) → spells (t :: ts) (rem s) →
  ∃ a s', gettoken buf es s = (code t, a, s') ∧ (s < s' <= es)%nat ∧ spells ts (rem s') ∧
    (∀ w, t = Word w → str_ok w a).
Proof.
  intros Hs Hok H. pose proof (spells_skip _ _ Hs Hok H) as H'. apply Forall_cons in Hok as [Ht Hok].
  destruct (skip_spec s Hs) as (ws & _ & _ & Hn & Hk & Hle). set (s1 := skip buf es s) in *.
  destruct (spells_at _ _ _ Hle Ht Hn H') as (y & E & Hsep & Hy).
  pose proof (rem_le _ _ _ Hle E) as Hle2. set (s2 := (s1 + length (spelling t))%nat) in *.
  assert (rem s2 = y) as E2 by (by apply rem_app).
  destruct (skip_spec s2 Hle2) as (ws2 & _ & _ & _ & Hk2 & Hle3).
  exists (mkStr s1 s2), (skip buf es s2). split_and!.
  - unfold gettoken. fold wordchar. fold s1. cbv zeta. change (λ c, negb (strchr whitespace c) && negb (strchr symbols c)) with wordchar.
    rewrite (token_middle t y) by done. done.
  - assert (0 < length (spelling t))%nat; [| lia]. pose proof (spelling_nonul t Ht). destruct (spelling t); simpl in *; [done | lia].
  - done.
  - apply spells_skip; [done | done | by rewrite E2].
  - intros w ->. simpl in *. unfold str_ok. simpl. split_and!; [done | | lia | lia |].
    + rewrite E. replace (s2 - s1)%nat with (length w) by lia. apply take_app_length.
    + rewrite E2. destruct Hsep as [-> | Hd]; [left | by right]. by apply rem_nil.
Qed.

Lemma gettoken_end s : (s <= es)%nat → spells [] (rem s) → ∃ a, gettoken buf es s = (0, a, es).
Proof.
  intros Hs H. pose proof (spells_skip [] _ Hs ltac:(constructor) H) as H'.
  destruct (skip_spec s Hs) as (ws & _ & _ & Hn & _ & Hle). pose proof (spells_nil _ Hle Hn H') as E.
  assert (char buf es = 0) as E0 by (rewrite char_rem by done; unfold rem, es; by rewrite drop_all).
  assert (skip buf es es = es) as E1.
  { destruct (skip_spec es (le_n _)) as (? & _ & _ & _ & ? & ?). lia. }
  eexists. unfold gettoken. cbv zeta. rewrite E, E0. simpl. by rewrite E1.
Qed.

(** ** Commands with their strings *)

Inductive rel : cmd → scmd → Prop :=
  | rel_exec l ws : Forall2 (λ a w, str_ok w a) l ws → rel (EXEC l) (EXEC ws)
  | rel_redir c c' a w mode fd : rel c c' → str_ok w a → rel (REDIR c a mode fd) (REDIR c' w mode fd)
  | rel_pipe l l' r r' : rel l l' → rel r r' → rel (PIPE l r) (PIPE l' r')
  | rel_list l l' r r' : rel l l' → rel r r' → rel (LIST l r) (LIST l' r')
  | rel_back c c' : rel c c' → rel (BACK c) (BACK c').

(** What follows a command begins with one of these characters, or nothing does. *)
Definition follow (set : list Z) (ts : list token) : Prop :=
  match ts with [] => True | Sym c :: _ => strchr set c = true | _ => False end.

(** The outcome of a parser function. *)
Definition reads (m : pres cmd) (c : scmd) (s : nat) (ts : list token) : Prop :=
  ∃ c' s', m = POk c' s' ∧ rel c' c ∧ (s <= s' <= es)%nat ∧ spells ts (rem s').

(** Redirections behind a command. *)
Definition redirs : Type := list (list Z * Z * Z).
Definition wrap (c : scmd) (rs : redirs) : scmd := foldl (λ c '(f, m, d), REDIR c f m d) c rs.
Definition redir_tokens (rs : redirs) : list token := mjoin ((λ '(f, m, d), [redir_token m d; Word f]) <$> rs).
Definition redir_ok (r : list Z * Z * Z) : Prop :=
  let '(f, m, d) := r in is_word f ∧
    (m = O_RDONLY ∧ d = 0 ∨ m = Z.lor (Z.lor O_WRONLY O_CREATE) O_TRUNC ∧ d = 1 ∨ m = Z.lor O_WRONLY O_CREATE ∧ d = 1).

Lemma redir_token_spec m d f : redir_ok (f, m, d) → let t := redir_token m d in
  tok_ok t ∧ strchr (bytes_of_string "<>") (deref (spelling t)) = true ∧
  ∀ c a, redir_of c (code t) a = REDIR c a m d.
Proof. intros [_ [[-> ->] | [[-> ->] | [-> ->]]]]; (split_and!; [by vm_compute | by vm_compute | done]). Qed.

Lemma redir_tokens_ok rs : Forall redir_ok rs → Forall tok_ok (redir_tokens rs).
Proof.
  induction 1 as [| [[f m] d] rs Hr Hrs IH]; [constructor |].
  change (Forall tok_ok (redir_token m d :: Word f :: redir_tokens rs)).
  pose proof (redir_token_spec _ _ _ Hr) as (Ht & _). destruct Hr as [Hf _]. constructor; [done | by constructor].
Qed.

Definition noredir (ts : list token) : Prop :=
  match ts with Sym c :: _ => strchr (bytes_of_string "<>") c = false | Append :: _ => False | _ => True end.

(** A word begins with no symbol. *)
Lemma word_first w set : is_word w → (∀ c, c ∈ set → c ∈ symbols) → strchr set (deref w) = false.
Proof.
  intros [Hne Hw] Hset. destruct Hw as [| a w [_ Ha] _]; [done |]. simpl. apply not_true_iff_false. intros H.
  apply Ha. right. unfold strchr in *. rewrite existsb_exists in *. destruct H as (x & Hx & ->%Z.eqb_eq).
  exists x. rewrite Z.eqb_refl. split; [| done]. apply list_elem_of_In, Hset, list_elem_of_In, Hx.
Qed.

Lemma peek_noredir s ts : (s <= es)%nat → Forall tok_ok ts → spells ts (rem s) → noredir ts →
  ∃ s', peek buf es s (bytes_of_string "<>") = (false, s') ∧ (s <= s' <= es)%nat ∧ spells ts (rem s').
Proof.
  intros Hs Hok H Hn. destruct ts as [| t ts].
  - exists es. rewrite peek_end by done. split_and!; [done.. |]. unfold rem, es. rewrite drop_all. constructor. constructor.
  - destruct (peek_token _ _ _ (bytes_of_string "<>") Hs Hok H) as (s' & E & Hle & _ & H'). exists s'.
    split_and!; [| lia | lia | done]. rewrite E. f_equal. apply Forall_cons in Hok as [Ht _].
    destruct t as [w | c |]; simpl in *; [| done | done]. apply word_first; [done |].
    intros c Hc. vm_compute in Hc. vm_compute. set_solver.
Qed.

Lemma parseredirs_ok rs ts : Forall redir_ok rs → Forall tok_ok ts → noredir ts →
  ∀ n c sc s, (s <= es)%nat → spells (redir_tokens rs ++ ts) (rem s) → rel c sc → (es - s < n)%nat →
  reads (parseredirs buf es n c s) (wrap sc rs) s ts.
Proof.
  intros Hrs Hts Hno. induction Hrs as [| [[f m] d] rs Hr Hrs IH]; intros [| n] c sc s Hs H Hc Hn; try lia; cbn [parseredirs].
  - destruct (peek_noredir s ts) as (s' & E & Hle & H'); [done.. |]. rewrite E. exists c, s'. done.
  - pose proof (redir_token_spec _ _ _ Hr) as (Ht & Hset & Hof). cbv zeta in *. destruct Hr as [Hf _].
    assert (Forall tok_ok (redir_token m d :: Word f :: redir_tokens rs ++ ts)) as Hok.
    { constructor; [done |]. constructor; [done |]. apply Forall_app. split; [by apply redir_tokens_ok | done]. }
    change (redir_tokens ((f, m, d) :: rs) ++ ts) with (redir_token m d :: Word f :: redir_tokens rs ++ ts) in H.
    destruct (peek_token _ _ _ (bytes_of_string "<>") Hs Hok H) as (s1 & -> & Hle1 & _ & H1). rewrite Hset.
    destruct (gettoken_token _ _ s1 ltac:(lia) Hok H1) as (a1 & s2 & -> & Hle2 & H2 & _). apply Forall_cons in Hok as [_ Hok].
    destruct (gettoken_token _ _ s2 ltac:(lia) Hok H2) as (a2 & s3 & -> & Hle3 & H3 & Hw). cbn [code]. rewrite Z.eqb_refl. cbn [negb].
    rewrite Hof. destruct (IH n (REDIR c a2 m d) (REDIR sc f m d) s3) as (c' & s' & -> & Hc' & Hle' & H'); [lia | done | | lia |].
    { constructor; [done | by apply Hw]. }
    exists c', s'. split_and!; [done | done | lia | lia | done].
Qed.

(** The end of the arguments. *)
Lemma parseargs_stop n argc c s ts : (s <= es)%nat → Forall tok_ok ts → spells ts (rem s) →
  follow (bytes_of_string "|)&;") ts → (0 < n)%nat →
  ∃ s', parseargs buf es n argc c s = POk c s' ∧ (s <= s' <= es)%nat ∧ spells ts (rem s').
Proof.
  intros Hs Hok H Hf Hn. destruct n as [| n]; [lia |]. cbn [parseargs]. destruct ts as [| t ts].
  - rewrite peek_end by done. destruct (gettoken_end es (le_n _)) as [a ->].
    { unfold rem, es. rewrite drop_all. constructor. constructor. }
    exists es. split_and!; [done.. |]. unfold rem, es. rewrite drop_all. constructor. constructor.
  - destruct (peek_token _ _ _ (bytes_of_string "|)&;") Hs Hok H) as (s' & -> & Hle & _ & H').
    destruct t as [w | x |]; [done | | done]. cbn [spelling deref]. rewrite Hf. by exists s'.
Qed.

Lemma follow_noredir ts : follow (bytes_of_string "|)&;") ts → noredir ts.
Proof.
  destruct ts as [| [w | c |] ts]; try done. simpl. unfold strchr at 1. intros (x & Hx & ->%Z.eqb_eq)%existsb_exists.
  vm_compute in Hx. repeat (destruct Hx as [<- | Hx]; [done |]). done.
Qed.

Lemma words_ok ws : Forall is_word ws → Forall tok_ok (Word <$> ws).
Proof. intros H. apply Forall_fmap. done. Qed.

Lemma parseargs_ok rs ts : Forall redir_ok rs → Forall tok_ok ts → follow (bytes_of_string "|)&;") ts →
  ∀ ws n argc l lw s, ws ≠ [] → Forall is_word ws → (argc + length ws < MAXARGS)%nat → (s <= es)%nat →
  Forall2 (λ a w, str_ok w a) l lw → spells ((Word <$> ws) ++ redir_tokens rs ++ ts) (rem s) → (es - s < n)%nat →
  reads (parseargs buf es n argc (EXEC l) s) (wrap (EXEC (lw ++ ws)) rs) s ts.
Proof.
  intros Hrs Hts Hf ws. induction ws as [| w ws IH]; intros n argc l lw s Hne Hws Hmax Hs Hl H Hn; [done |].
  destruct n as [| n]; [lia |]. cbn [parseargs]. pose proof Hws as [Hw Hws']%Forall_cons. cbn [fmap list_fmap app] in H.
  assert (Forall tok_ok (Word w :: (Word <$> ws) ++ redir_tokens rs ++ ts)) as Hok.
  { constructor; [done |]. rewrite !Forall_app. split_and!; [by apply words_ok | by apply redir_tokens_ok | done]. }
  destruct (peek_token _ _ _ (bytes_of_string "|)&;") Hs Hok H) as (s1 & -> & Hle1 & _ & H1).
  cbn [spelling]. rewrite word_first by (done || (intros c Hc; vm_compute in Hc; vm_compute; set_solver)).
  destruct (gettoken_token _ _ s1 ltac:(lia) Hok H1) as (a & s2 & -> & Hle2 & H2 & Ha). apply Forall_cons in Hok as [_ Hok].
  specialize (Ha w eq_refl). cbn [code]. change (tok_a =? 0) with false. rewrite Z.eqb_refl. cbn [negb add_arg].
  simpl in Hmax. rewrite (proj2 (Nat.leb_gt MAXARGS (S argc))) by lia.
  assert (Forall2 (λ a w, str_ok w a) (l ++ [a]) (lw ++ [w])) as Hl' by (apply Forall2_app; [done | constructor; [done | constructor]]).
  destruct ws as [| w2 ws].
  - destruct (parseredirs_ok rs ts Hrs Hts (follow_noredir _ Hf) n (EXEC (l ++ [a])) (EXEC (lw ++ [w])) s2)
      as (c' & s3 & -> & Hc' & Hle3 & H3); [lia | done | by constructor | lia |]. cbn [pbind].
    destruct (parseargs_stop n (S argc) c' s3 ts) as (s4 & -> & Hle4 & H4); [lia | done | done | done | lia |].
    exists c', s4. split_and!; [done | done | lia | lia | done].
  - destruct (parseredirs_ok [] ((Word <$> w2 :: ws) ++ redir_tokens rs ++ ts) ltac:(constructor) Hok I n (EXEC (l ++ [a])) (EXEC (lw ++ [w])) s2)
      as (c' & s3 & E & Hc' & Hle3 & H3); [lia | done | by constructor | lia |].
    rewrite E. cbn [pbind]. simpl in Hc'. inversion Hc' as [l2 ? Hl2 | | | |]; subst.
    destruct (IH n (S argc) l2 (lw ++ [w]) s3) as (c2 & s4 & -> & Hc2 & Hle4 & H4); [done | done | simpl in *; lia | lia | done | done | lia |].
    exists c2, s4. rewrite <- app_assoc in Hc2. split_and!; [done | done | lia | lia | done].
Qed.

(** What [peek] sees. *)
Definition sees (set : list Z) (ts : list token) : bool :=
  match ts with [] => false | t :: _ => strchr set (deref (spelling t)) end.

Lemma peek_head ts s set : (s <= es)%nat → Forall tok_ok ts → spells ts (rem s) →
  ∃ s', peek buf es s set = (sees set ts, s') ∧ (s <= s' <= es)%nat ∧ spells ts (rem s').
Proof.
  intros Hs Hok H. destruct ts as [| t ts].
  - exists es. rewrite peek_end by done. split_and!; [done.. |]. unfold rem, es. rewrite drop_all. constructor. constructor.
  - destruct (peek_token _ _ _ set Hs Hok H) as (s' & E & Hle & _ & H'). by exists s'.
Qed.

Lemma follow_noblock ts : follow (bytes_of_string "|)&;") ts → sees (bytes_of_string "(") ts = false.
Proof.
  destruct ts as [| [w | c |] ts]; try done. simpl. unfold strchr at 1. intros (x & Hx & ->%Z.eqb_eq)%existsb_exists.
  vm_compute in Hx. repeat (destruct Hx as [<- | Hx]; [done |]). done.
Qed.

(** A command without parentheses. *)
Lemma parseexec_simple argv rs ts n s : Forall redir_ok rs → Forall tok_ok ts →
  follow (bytes_of_string "|)&;") ts → (length argv < MAXARGS)%nat → Forall is_word argv → (s <= es)%nat →
  spells ((Word <$> argv) ++ redir_tokens rs ++ ts) (rem s) → (es - s + 1 < n)%nat →
  reads (parseexec buf es n s) (wrap (EXEC argv) rs) s ts.
Proof.
  intros Hrs Hts Hf Hmax Hws Hs H Hn. destruct n as [| n]; [lia |]. rewrite parseexec_S.
  assert (∃ s1, peek buf es s (bytes_of_string "(") = (false, s1) ∧ (s <= s1 <= es)%nat ∧
    spells ((Word <$> argv) ++ redir_tokens rs ++ ts) (rem s1)) as (s1 & -> & Hle1 & H1).
  { assert (Forall tok_ok ((Word <$> argv) ++ redir_tokens rs ++ ts)) as Hok.
    { rewrite !Forall_app. split_and!; [by apply words_ok | by apply redir_tokens_ok | done]. }
    destruct (peek_head _ _ (bytes_of_string "(") Hs Hok H) as (s1 & E & Hle & H1). exists s1. split_and!; [| lia | lia | done].
    rewrite E. f_equal. destruct argv as [| w argv]; cbn [fmap list_fmap app].
    - destruct rs as [| [[f m] d] rs]; [by apply follow_noblock |]. apply Forall_cons in Hrs as [Hr _].
      destruct Hr as [_ [[-> ->] | [[-> ->] | [-> ->]]]]; done.
    - apply Forall_cons in Hws as [Hw _]. apply word_first; [done |].
      intros c Hc. vm_compute in Hc. vm_compute. set_solver. }
  destruct argv as [| w argv]; cbn [fmap list_fmap app] in H1.
  - destruct (parseredirs_ok rs ts Hrs Hts (follow_noredir _ Hf) n (EXEC []) (EXEC []) s1)
      as (c' & s2 & -> & Hc' & Hle2 & H2); [lia | done | by repeat constructor | lia |]. cbn [pbind].
    destruct (parseargs_stop n 0 c' s2 ts) as (s3 & -> & Hle3 & H3); [lia | done | done | done | lia |].
    exists c', s3. split_and!; [done | done | lia | lia | done].
  - assert (Forall tok_ok (Word w :: (Word <$> argv) ++ redir_tokens rs ++ ts)) as Hok.
    { pose proof Hws as [Hw Hws']%Forall_cons. constructor; [done |]. rewrite !Forall_app.
      split_and!; [by apply words_ok | by apply redir_tokens_ok | done]. }
    destruct (parseredirs_ok [] _ ltac:(constructor) Hok I n (EXEC []) (EXEC []) s1)
      as (c' & s2 & -> & Hc' & Hle2 & H2); [lia | done | by repeat constructor | lia |]. cbn [pbind].
    simpl in Hc'. inversion Hc' as [l2 ? Hl2 | | | |]; subst. apply Forall2_nil_inv_r in Hl2 as ->.
    destruct (parseargs_ok rs ts Hrs Hts Hf (w :: argv) n 0 [] [] s2) as (c2 & s3 & -> & Hc2 & Hle3 & H3);
      [done | done | done | lia | constructor | done | lia |].
    exists c2, s3. split_and!; [done | done | lia | lia | done].
Qed.

(** ** The levels of the grammar *)

Lemma follow_mono set set' ts : (∀ c, c ∈ set → c ∈ set') → follow set ts → follow set' ts.
Proof.
  intros Hsub. destruct ts as [| [w | c |] ts]; try done. simpl. unfold strchr. rewrite !existsb_exists.
  intros (x & Hx & E). exists x. split; [| done]. by apply list_elem_of_In, Hsub, list_elem_of_In.
Qed.

Ltac subset := let c := fresh in let H := fresh in intros c H; vm_compute in H; vm_compute; set_solver.

Lemma wrap_snoc c rs f m d : wrap c (rs ++ [(f, m, d)]) = REDIR (wrap c rs) f m d.
Proof. unfold wrap. by rewrite foldl_app. Qed.

Lemma wrap_tokens c rs : tokens (wrap c rs) 3 = tokens c 3 ++ redir_tokens rs.
Proof.
  induction rs as [| [[f m] d] rs IH] using rev_ind; [unfold wrap, redir_tokens; simpl; by rewrite app_nil_r |].
  rewrite wrap_snoc. cbn [tokens]. rewrite IH. unfold redir_tokens. by rewrite fmap_app, list.join_app, <- app_assoc.
Qed.

Lemma wrap_wf c rs : wf (wrap c rs) → wf c ∧ Forall redir_ok rs.
Proof.
  induction rs as [| [[f m] d] rs IH] using rev_ind; [done |]. rewrite wrap_snoc. intros ([Hc Hr]%IH & Hf & Hm).
  split; [done |]. apply Forall_app. split; [done |]. by apply Forall_singleton.
Qed.

Fixpoint size (c : scmd) : nat :=
  match c with
  | EXEC _ => 1
  | REDIR c _ _ _ | BACK c => S (size c)
  | PIPE l r | LIST l r => S (size l + size r)
  end.

Lemma unwrap c : ∃ k rs, c = wrap k rs ∧ (size k <= size c)%nat ∧
  match k with REDIR _ _ _ _ => False | _ => True end.
Proof.
  induction c as [l | c (k & rs & -> & Hs & Hk) f m d | l _ r _ | l _ r _ | c _].
  2: { exists k, (rs ++ [(f, m, d)]). rewrite wrap_snoc. simpl. split_and!; [done | lia | done]. }
  all: by eexists _, []; unfold wrap; simpl.
Qed.

Fixpoint backs (k : nat) (c : scmd) : scmd := match k with O => c | S k => BACK (backs k c) end.
Definition amps (k : nat) : list token := replicate k (Sym (chr "&")).

Lemma unback c : ∃ p k, c = backs k p ∧ (size p + k <= size c)%nat ∧
  match p with BACK _ => False | _ => True end.
Proof.
  induction c as [l | c _ f m d | l _ r _ | l _ r _ | c (p & k & -> & Hs & Hp)].
  5: { exists p, (S k). simpl. split_and!; [done | lia | done]. }
  all: eexists _, 0%nat; (split; [reflexivity | split; [simpl; lia | done]]).
Qed.

Lemma back_tokens p k : match p with BACK _ => False | _ => True end →
  tokens (backs k p) 1 = tokens p 2 ++ amps k.
Proof.
  intros Hp. induction k as [| k IH]; [by destruct p; simpl; rewrite ?app_nil_r |].
  cbn [backs tokens]. change (1 <=? 1)%nat with true. cbv iota. rewrite IH, <- app_assoc. f_equal.
  unfold amps. by rewrite replicate_S_end.
Qed.

Lemma back_wf p k : wf (backs k p) → wf p.
Proof. induction k; simpl; auto. Qed.

Lemma tokens_ok c : wf c → ∀ lvl, Forall tok_ok (tokens c lvl).
Proof.
  assert (∀ l, Forall tok_ok l → Forall tok_ok (block l)) as Hblock.
  { intros l Hl. constructor; [done |]. apply Forall_app. split; [done |]. by constructor. }
  induction c as [l | c IH f m d | l IHl r IHr | l IHl r IHr | c IH]; cbn [tokens wf].
  - intros [_ Hl] _. by apply words_ok.
  - intros (Hc & Hf & Hm) _. apply Forall_app. split; [by apply IH |].
    apply (redir_tokens_ok [(f, m, d)]). by apply Forall_singleton.
  - intros [Hl Hr] lvl. case_match; [| apply Hblock]; (apply Forall_app; split; [by apply IHl | constructor; [done | by apply IHr]]).
  - intros [Hl Hr] lvl. case_match; [| apply Hblock]; (apply Forall_app; split; [by apply IHl | constructor; [done | by apply IHr]]).
  - intros Hc lvl. case_match; [| apply Hblock]; (apply Forall_app; split; [by apply IH | by constructor]).
Qed.

Lemma backs_shift k c : backs k (BACK c) = BACK (backs k c).
Proof. induction k as [| k IH]; [done |]. simpl. by rewrite IH. Qed.

Lemma sees_follow set ts set' : follow set' ts → (∀ c, c ∈ set' → strchr set c = false) → sees set ts = false.
Proof.
  destruct ts as [| [w | c |] ts]; try done. simpl. unfold strchr at 1. intros (x & Hx & ->%Z.eqb_eq)%existsb_exists H.
  by apply H, list_elem_of_In.
Qed.

Ltac not_seen := let c := fresh in let H := fresh in intros c H; vm_compute in H;
  repeat (apply elem_of_cons in H as [-> | H]; [done |]); by apply elem_of_nil in H.

Lemma parseamps_ok k ts : Forall tok_ok ts → follow (bytes_of_string ");") ts → ∀ n c sc s, (s <= es)%nat →
  spells (amps k ++ ts) (rem s) → rel c sc → (es - s < n)%nat → reads (parseamps buf es n c s) (backs k sc) s ts.
Proof.
  intros Hts Hf. induction k as [| k IH]; intros [| n] c sc s Hs H Hc Hn; try lia; cbn [parseamps].
  - destruct (peek_head _ _ (bytes_of_string "&") Hs Hts H) as (s1 & -> & Hle1 & H1).
    rewrite (sees_follow _ _ _ Hf) by not_seen. exists c, s1. done.
  - assert (Forall tok_ok (Sym (chr "&") :: amps k ++ ts)) as Hok.
    { constructor; [done |]. apply Forall_app. split; [by apply Forall_replicate | done]. }
    change (amps (S k) ++ ts) with (Sym (chr "&") :: amps k ++ ts) in H.
    destruct (peek_head _ _ (bytes_of_string "&") Hs Hok H) as (s1 & -> & Hle1 & H1). cbn [sees]. change (strchr _ _) with true. cbv iota.
    destruct (gettoken_token _ _ s1 ltac:(lia) Hok H1) as (a & s2 & -> & Hle2 & H2 & _).
    destruct (IH n (BACK c) (BACK sc) s2) as (c' & s3 & -> & Hc' & Hle3 & H3); [lia | done | by constructor | lia |].
    exists c', s3. rewrite backs_shift in Hc'. split_and!; [done | done | lia | lia | done].
Qed.

(** [f] reads the commands of a level. *)
Definition level (f : nat → nat → pres cmd) (extra lvl : nat) (set : list Z) (c : scmd) : Prop :=
  ∀ n s ts, (s <= es)%nat → wf c → Forall tok_ok ts → follow set ts → spells (tokens c lvl ++ ts) (rem s) →
    (4 * (es - s) + extra <= n)%nat → reads (f n s) c s ts.
Definition execs : scmd → Prop := level (parseexec buf es) 2 3 (bytes_of_string "|)&;").
Definition pipes : scmd → Prop := level (parsepipe buf es) 3 2 (bytes_of_string ")&;").
Definition lines : scmd → Prop := level (parseline buf es) 4 0 (bytes_of_string ")").

(** A symbol that is expected is taken. *)
Lemma take_symbol c set ts s : strchr symbols c = true → strchr set c = true → (s <= es)%nat →
  Forall tok_ok ts → spells (Sym c :: ts) (rem s) →
  ∃ s1 a s2, peek buf es s set = (true, s1) ∧ gettoken buf es s1 = (c, a, s2) ∧
    (s <= s1)%nat ∧ (s1 < s2 <= es)%nat ∧ spells (Sym c :: ts) (rem s1) ∧ spells ts (rem s2).
Proof.
  intros Hc Hset Hs Hts H. assert (Forall tok_ok (Sym c :: ts)) as Hok by (by constructor).
  destruct (peek_head _ _ set Hs Hok H) as (s1 & E & Hle1 & H1). cbn [sees spelling deref] in E. rewrite Hset in E.
  destruct (gettoken_token _ _ s1 ltac:(lia) Hok H1) as (a & s2 & E2 & Hle2 & H2 & _).
  exists s1, a, s2. split_and!; try done; lia.
Qed.

Lemma pipe_level l r : execs l → pipes r → pipes (PIPE l r).
Proof.
  intros Hl Hr n s ts Hs [Wl Wr] Hts Hf H Hn. destruct n as [| n]; [lia |]. cbn [tokens] in H. rewrite parsepipe_S.
  change (2 <=? 2)%nat with true in H. cbv iota in H. rewrite <- app_assoc in H. cbn [app] in H.
  assert (Forall tok_ok (tokens r 2 ++ ts)) as Hok by (apply Forall_app; split; [by apply tokens_ok | done]).
  destruct (Hl n s (Sym (chr "|") :: tokens r 2 ++ ts)) as (c1 & s1 & -> & Hc1 & Hle1 & H1);
    [done | done | by constructor | done | done | lia |]. cbn [pbind].
  destruct (take_symbol (chr "|") (bytes_of_string "|") (tokens r 2 ++ ts) s1) as (s2 & a & s3 & -> & -> & Hle2 & Hle3 & _ & H3);
    [done | done | lia | done | done |]. cbv beta iota.
  destruct (Hr n s3 ts) as (c2 & s4 & -> & Hc2 & Hle4 & H4); [lia | done | done | done | done | lia |].
  exists (PIPE c1 c2), s4. split_and!; [done | by constructor | lia | lia | done].
Qed.

Lemma single_level c : match c with PIPE _ _ => False | _ => True end → execs c → pipes c.
Proof.
  intros Hc He n s ts Hs W Hts Hf H Hn. destruct n as [| n]; [lia |]. rewrite parsepipe_S.
  assert (tokens c 2 = tokens c 3) as E by (by destruct c). rewrite E in H.
  destruct (He n s ts) as (c1 & s1 & -> & Hc1 & Hle1 & H1); [done | done | done | | done | lia |].
  { eapply follow_mono; [| exact Hf]. subset. }
  cbn [pbind]. destruct (peek_head ts s1 (bytes_of_string "|")) as (s2 & -> & Hle2 & H2); [lia | done | done |].
  rewrite (sees_follow _ _ _ Hf) by not_seen. exists c1, s2. split_and!; [done | done | lia | lia | done].
Qed.

(** The beginning of a line: a pipe and its ampersands. *)
Lemma line_start p k n s ts : pipes p → (s <= es)%nat → wf p → Forall tok_ok ts → follow (bytes_of_string ");") ts →
  spells (tokens p 2 ++ amps k ++ ts) (rem s) → (4 * (es - s) + 3 <= n)%nat →
  ∃ c1 s1 c2 s2, parsepipe buf es n s = POk c1 s1 ∧ parseamps buf es n c1 s1 = POk c2 s2 ∧
    rel c2 (backs k p) ∧ (s <= s2 <= es)%nat ∧ spells ts (rem s2).
Proof.
  intros Hp Hs W Hts Hf H Hn.
  assert (Forall tok_ok (amps k ++ ts)) as Hok by (apply Forall_app; split; [by apply Forall_replicate | done]).
  destruct (Hp n s (amps k ++ ts)) as (c1 & s1 & E1 & Hc1 & Hle1 & H1); [done | done | done | | done | lia |].
  { destruct k; [| done]. eapply follow_mono; [| exact Hf]. subset. }
  destruct (parseamps_ok k ts Hts Hf n c1 p s1) as (c2 & s2 & E2 & Hc2 & Hle2 & H2); [lia | done | done | lia |].
  exists c1, s1, c2, s2. split_and!; try done; lia.
Qed.

Lemma list_level p k r : match p with BACK _ => False | _ => True end → pipes p → lines r → lines (LIST (backs k p) r).
Proof.
  intros Hp Hpp Hr n s ts Hs [Wl Wr] Hts Hf H Hn. destruct n as [| n]; [lia |].
  cbn [tokens] in H. change (0 =? 0)%nat with true in H. cbv iota in H. rewrite back_tokens, <- !app_assoc in H by done. cbn [app] in H.
  assert (Forall tok_ok (tokens r 0 ++ ts)) as Hok by (apply Forall_app; split; [by apply tokens_ok | done]).
  destruct (line_start p k n s (Sym (chr ";") :: tokens r 0 ++ ts)) as (c1 & s1 & c2 & s2 & E1 & E2 & Hc2 & Hle2 & H2);
    [done | done | by eapply back_wf | by constructor | done | done | lia |].
  rewrite parseline_S, E1. cbn [pbind]. rewrite E2. cbn [pbind].
  destruct (take_symbol (chr ";") (bytes_of_string ";") (tokens r 0 ++ ts) s2) as (s3 & a & s4 & -> & -> & Hle3 & Hle4 & _ & H4);
    [done | done | lia | done | done |]. cbv beta iota.
  destruct (Hr n s4 ts) as (c3 & s5 & -> & Hc3 & Hle5 & H5); [lia | done | done | done | done | lia |].
  exists (LIST c2 c3), s5. split_and!; [done | by constructor | lia | lia | done].
Qed.

Lemma back_level p k : match p with BACK _ => False | LIST _ _ => (0 < k)%nat | _ => True end → pipes p → lines (backs k p).
Proof.
  intros Hp Hpp n s ts Hs W Hts Hf H Hn. destruct n as [| n]; [lia |].
  assert (tokens (backs k p) 0 = tokens p 2 ++ amps k) as E.
  { destruct k as [| k]; [destruct p; try done; simpl; rewrite ?app_nil_r; done || lia |].
    rewrite <- back_tokens by (by destruct p). done. }
  rewrite E, <- app_assoc in H.
  destruct (line_start p k n s ts) as (c1 & s1 & c2 & s2 & E1 & E2 & Hc2 & Hle2 & H2);
    [done | done | by eapply back_wf | done | | done | lia |].
  { eapply follow_mono; [| exact Hf]. subset. }
  rewrite parseline_S, E1. cbn [pbind]. rewrite E2. cbn [pbind].
  destruct (peek_head ts s2 (bytes_of_string ";")) as (s3 & -> & Hle3 & H3); [lia | done | done |].
  rewrite (sees_follow _ _ _ Hf) by not_seen. exists c2, s3. split_and!; [done | done | lia | lia | done].
Qed.

Lemma block_level k rs : match k with EXEC _ | REDIR _ _ _ _ => False | _ => True end → lines k → execs (wrap k rs).
Proof.
  intros Hk Hl n s ts Hs [Wk Wr]%wrap_wf Hts Hf H Hn. destruct n as [| [| n]]; [lia.. |].
  rewrite wrap_tokens, <- app_assoc in H. assert (tokens k 3 = block (tokens k 0)) as E by (by destruct k).
  rewrite E in H. unfold block in H. cbn [app] in H. rewrite <- app_assoc in H. cbn [app] in H.
  assert (Forall tok_ok (Sym (chr ")") :: redir_tokens rs ++ ts)) as Hok.
  { constructor; [done |]. apply Forall_app. split; [by apply redir_tokens_ok | done]. }
  assert (Forall tok_ok (tokens k 0 ++ Sym (chr ")") :: redir_tokens rs ++ ts)) as Hok'
    by (apply Forall_app; split; [by apply tokens_ok | done]).
  destruct (take_symbol (chr "(") (bytes_of_string "(") _ s ltac:(done) ltac:(done) Hs Hok' H)
    as (s1 & a1 & s1' & E1 & _ & Hle1 & Hle1' & H1 & _).
  rewrite parseexec_S, E1, parseblock_S.
  destruct (take_symbol (chr "(") (bytes_of_string "(") _ s1 ltac:(done) ltac:(done) ltac:(lia) Hok' H1)
    as (s2 & a2 & s3 & -> & -> & Hle2 & Hle3 & _ & H3). cbn [negb].
  destruct (Hl n s3 (Sym (chr ")") :: redir_tokens rs ++ ts)) as (c1 & s4 & -> & Hc1 & Hle4 & H4); [lia | done | done | done | done | lia |].
  cbn [pbind]. apply Forall_cons in Hok as [_ Hok].
  destruct (take_symbol (chr ")") (bytes_of_string ")") _ s4 ltac:(done) ltac:(done) ltac:(lia) Hok H4)
    as (s5 & a5 & s6 & -> & -> & Hle5 & Hle6 & _ & H6). cbn [negb].
  destruct (parseredirs_ok rs ts Wr Hts (follow_noredir _ Hf) n c1 k s6) as (c2 & s7 & -> & Hc2 & Hle7 & H7); [lia | done | done | lia |].
  exists c2, s7. split_and!; [done | done | lia | lia | done].
Qed.

Lemma simple_level argv rs : execs (wrap (EXEC argv) rs).
Proof.
  intros n s ts Hs [[W1 W2] Wr]%wrap_wf Hts Hf H Hn. rewrite wrap_tokens, <- app_assoc in H.
  by apply parseexec_simple; try done; lia.
Qed.

(** Every command is read at every level. *)
Lemma all_levels n : ∀ c, (size c <= n)%nat → execs c ∧ pipes c ∧ lines c.
Proof.
  induction n as [| n IH]; intros c Hc; [by destruct c; simpl in Hc; lia |].
  assert (∀ c, (size c <= S n)%nat → execs c → pipes c) as Hpipes.
  { intros d Hd He. destruct d as [| | l r | |]; try (by apply single_level). simpl in Hd.
    apply pipe_level; apply IH; lia. }
  assert (∀ c, (size c <= S n)%nat → match c with EXEC _ | REDIR _ _ _ _ => False | _ => True end → lines c) as Hcomp.
  { intros d Hd Hk. destruct d as [| | l r | l r | d]; try done; simpl in Hd.
    - apply (back_level (PIPE l r) 0); [done |]. apply pipe_level; apply IH; lia.
    - destruct (unback l) as (p & k & -> & Hs & Hp). apply list_level; [done | apply IH; lia | apply IH; lia].
    - destruct (unback d) as (p & k & -> & Hs & Hp). apply (back_level p (S k)); [destruct p; done || lia | apply IH; lia]. }
  assert (∀ c, (size c <= S n)%nat → execs c) as Hexecs.
  { intros d Hd. destruct (unwrap d) as (k & rs & -> & Hs & Hk). destruct k; try done; try (by apply block_level; [| apply Hcomp; [lia |]]).
    apply simple_level. }
  split_and!; [by apply Hexecs | by apply Hpipes, Hexecs |].
  destruct c; try (by apply Hcomp); apply (back_level _ 0); try done; by apply single_level, Hexecs.
Qed.

(** ** Cutting the buffer *)

Fixpoint strs (c : cmd) : list str :=
  match c with
  | EXEC argv => argv
  | REDIR c file _ _ => strs c ++ [file]
  | PIPE l r | LIST l r => strs l ++ strs r
  | BACK c => strs c
  end.

Lemma nulterminate_marks c b : nulterminate c b = mark (eq_ <$> strs c) b.
Proof.
  revert b. induction c as [l | c IH f m d | l IHl r IHr | l IHl r IHr | c IH]; intros b; simpl.
  - unfold mark. revert b. induction l as [| a l IHl]; intros b; simpl; [done | apply IHl].
  - rewrite IH, fmap_app. symmetry. apply mark_snoc.
  - rewrite IHl, IHr, fmap_app. unfold mark. by rewrite foldl_app.
  - rewrite IHl, IHr, fmap_app. unfold mark. by rewrite foldl_app.
  - done.
Qed.

Lemma rel_strs c sc : rel c sc → ∀ a, a ∈ strs c → ∃ w, str_ok w a.
Proof.
  induction 1 as [l ws Hl | c c' a w m d Hc IH Ha | | |]; simpl; intros b Hb; try (apply elem_of_app in Hb as [Hb | Hb]; by auto).
  - apply list_elem_of_lookup in Hb as [i Hi]. destruct (Forall2_lookup_l _ _ _ _ _ Hl Hi) as (w & _ & Hw). eauto.
  - apply elem_of_app in Hb as [Hb | ->%list_elem_of_singleton]; eauto.
  - auto.
Qed.

Lemma deref_lookup (l : list Z) c : l !! 0%nat = Some c → deref l = c.
Proof. destruct l; simpl; congruence. Qed.

Lemma str_chars w a i c : str_ok w a → w !! i = Some c → deref (rem (q a + i)) = c ∧ (q a + i < eq_ a)%nat ∧ c ≠ 0 ∧ ¬ is_delim c.
Proof.
  intros ([_ Hw] & E & Hle & _) Hi. pose proof (Forall_lookup_1 _ _ _ _ Hw Hi) as Hc. rewrite <- E in Hi.
  apply lookup_take_Some in Hi as [Hi Hlt]. split_and!; [| lia | apply Hc..].
  apply deref_lookup. rewrite rem_add, lookup_drop. by rewrite Nat.add_0_r.
Qed.

(** The strings of a parsed command do not cut each other. *)
Lemma ends_outside w a w' a' i : str_ok w a → str_ok w' a' → (i < length w)%nat → (q a + i)%nat ≠ eq_ a'.
Proof.
  intros Ha Ha' [c Hc]%lookup_lt_is_Some E. destruct (str_chars _ _ _ _ Ha Hc) as (Hd & Hlt & _ & Hn).
  destruct Ha as (_ & _ & Hle & _). destruct Ha' as (_ & _ & _ & [E' | Hdel]); [lia |].
  rewrite <- E, Hd in Hdel. done.
Qed.

Lemma cut_string c sc a w : rel c sc → a ∈ strs c → str_ok w a → string_at (nulterminate c buf) a = w.
Proof.
  intros Hrel Hin Ha. pose proof Ha as (Hw & E & Hle & _). rewrite nulterminate_marks. unfold string_at.
  set (b := mark _ buf). set (k := (eq_ a - q a)%nat).
  assert (length w = k) as Hlen by (rewrite <- E, length_take, rem_length; lia).
  assert (b !! eq_ a = Some 0) as Hend.
  { unfold b. rewrite mark_lookup, decide_True by (by apply list_elem_of_fmap_2).
    destruct (lookup_lt_is_Some_2 buf (eq_ a)) as [x ->]; [| done]. unfold buf, es in *. rewrite length_app. simpl. lia. }
  assert (take k (drop (q a) b) = w) as Htake.
  { rewrite <- E. fold k. unfold rem. apply list_eq. intros i. destruct (decide (i < k)%nat) as [Hi | Hi].
    - rewrite !lookup_take_lt, !lookup_drop by done. unfold b. rewrite mark_lookup, decide_False.
      + unfold buf. apply lookup_app_l. unfold es in *. lia.
      + intros (a' & Ee & Ha')%list_elem_of_fmap. destruct (rel_strs _ _ Hrel _ Ha') as [w' Hw'].
        eapply (ends_outside w a w' a' i); [done | done | lia | done].
    - rewrite !lookup_take_ge by lia. done. }
  rewrite <- (take_drop k (drop (q a) b)), Htake, drop_drop. replace (q a + k)%nat with (eq_ a) by lia.
  erewrite drop_S by done. rewrite cstr_app_nul; [done |]. destruct Hw as [_ Hw]. eapply Forall_impl; [exact Hw |]. by intros x [? _].
Qed.

Lemma rel_map c0 c sc : rel c sc → (∀ a w, a ∈ strs c → str_ok w a → string_at c0 a = w) → cmd_map (string_at c0) c = sc.
Proof.
  induction 1 as [l ws Hl | c c' a w m d Hc IH Ha | l l' r r' Hl IHl Hr IHr | l l' r r' Hl IHl Hr IHr | c c' Hc IH];
    simpl; intros H.
  - f_equal. induction Hl as [| a w l ws Ha Hl IHl]; [done |]. simpl. f_equal; [apply H; [set_solver | done] |].
    apply IHl. intros. apply H; [set_solver | done].
  - rewrite IH, (H a w); [done | set_solver | done |]. intros. apply H; [set_solver | done].
  - rewrite IHl, IHr; [done | |]; intros; apply H; set_solver || done.
  - rewrite IHl, IHr; [done | |]; intros; apply H; set_solver || done.
  - by rewrite IH.
Qed.

(** ** Termination on every input *)

Lemma skip_idem s : (s <= es)%nat → skip buf es (skip buf es s) = skip buf es s.
Proof.
  intros Hs. destruct (skip_spec s Hs) as (ws & _ & _ & Hn & _ & Hle).
  destruct (skip_spec _ Hle) as (ws' & E & Hws' & Hn' & Ek & _). rewrite Ek.
  destruct ws' as [| c ws']; [simpl; lia |]. rewrite E in Hn. apply Forall_cons in Hws' as [Hc _]. done.
Qed.

Lemma char_lt s : (s <= es)%nat → char buf s ≠ 0 → (s < es)%nat.
Proof.
  intros Hs Hc. rewrite char_rem in Hc by done. destruct (decide (s = es)) as [-> |]; [| lia].
  unfold rem, es in Hc. by rewrite drop_all in Hc.
Qed.

Lemma span_le f fuel s : (s <= es)%nat → (s <= span buf es f fuel s <= es)%nat.
Proof.
  revert s. induction fuel as [| fuel IH]; intros s Hs; simpl; [lia |].
  destruct (Nat.ltb_spec s es); [| simpl; lia]. destruct (f (char buf s)); simpl; [| lia]. pose proof (IH (S s)). lia.
Qed.

Lemma span_lt f fuel s : (s < es)%nat → (0 < fuel)%nat → f (char buf s) = true → (s < span buf es f fuel s)%nat.
Proof.
  intros Hs Hf Hc. destruct fuel as [| fuel]; [lia |]. simpl. rewrite (proj2 (Nat.ltb_lt s es)), Hc by done. simpl.
  pose proof (span_le f fuel (S s)). lia.
Qed.

(** A token that is not the end moves the position. *)
Lemma gettoken_progress s : (s <= es)%nat → ∃ tok a s', gettoken buf es s = (tok, a, s') ∧ (s <= s' <= es)%nat ∧
  (tok ≠ 0 ∨ char buf (skip buf es s) ≠ 0 → (s < s')%nat).
Proof.
  intros Hs. destruct (skip_spec s Hs) as (ws & _ & _ & Hn & Hk & Hle). set (s1 := skip buf es s) in *.
  assert (∃ tok s2, (s1 <= s2 <= es)%nat ∧ (tok ≠ 0 ∨ char buf s1 ≠ 0 → (s1 < s2)%nat) ∧
    gettoken buf es s = (tok, mkStr s1 s2, skip buf es s2)) as (tok & s2 & Hle2 & Hp & E).
  { unfold gettoken. fold s1. cbv zeta. destruct (Z.eqb_spec (char buf s1) 0) as [E0 | E0].
    { exists 0, s1. split_and!; [lia | lia | tauto | by rewrite E0]. }
    pose proof (char_lt _ Hle E0) as Hlt. 
    destruct (strchr (bytes_of_string "|();&<") (char buf s1)) eqn:Esym; [exists (char buf s1), (S s1); split_and!; try done; lia |].
    destruct (char buf s1 =? chr ">") eqn:Egt.
    - destruct (char buf (S s1) =? chr ">") eqn:Eapp; [exists tok_append, (S (S s1)) | exists (char buf s1), (S s1)]; split_and!; try done; try lia.
      assert (S s1 < es)%nat; [| lia]. apply char_lt; [lia |]. apply Z.eqb_eq in Eapp. by rewrite Eapp.
    - pose proof (span_le wordchar es s1 Hle) as HS. exists tok_a, (span buf es wordchar es s1).
      split_and!; [lia | lia | intros _ | reflexivity]. apply span_lt; [done | lia |]. apply wordchar_spec. unfold is_delim. rewrite char_rem in * by done. intros [Hw | Hsy].
      + destruct (rem s1) as [| c x]; [done |]. by apply Hn.
      + pose proof (symbol_cases _ Hsy) as Hin. unfold symbols in Hin.
        repeat (apply elem_of_cons in Hin as [Hin | Hin]; [rewrite Hin in Esym, Egt; done |]). by apply elem_of_nil in Hin. }
  exists tok, (mkStr s1 s2), (skip buf es s2). destruct (skip_spec s2 ltac:(lia)) as (? & _ & _ & _ & Hk2 & Hle3).
  split_and!; [done | lia | lia |]. intros Ht. specialize (Hp Ht). lia.
Qed.

Lemma peek_progress s set : (s <= es)%nat → ∃ b s', peek buf es s set = (b, s') ∧ (s <= s' <= es)%nat ∧
  (b = true → ∃ tok a s2, gettoken buf es s' = (tok, a, s2) ∧ (s' < s2 <= es)%nat).
Proof.
  intros Hs. destruct (skip_spec s Hs) as (ws & _ & _ & _ & Hk & Hle). eexists _, _. split; [reflexivity |].
  split; [lia |]. intros [Hc _]%andb_true_iff. destruct (gettoken_progress _ Hle) as (tok & a & s2 & E & Hle2 & Hp).
  exists tok, a, s2. split; [done |]. rewrite skip_idem in Hp by done.
  apply negb_true_iff, Z.eqb_neq in Hc. specialize (Hp (or_intror Hc)). lia.
Qed.

(** A parser function that does not run out of rounds. *)
Definition ends (m : pres cmd) (s : nat) : Prop :=
  match m with POk _ s' => (s <= s' <= es)%nat | PPanic _ => True | PFuel => False end.

Lemma ends_bind m s0 s k : ends m s0 → (∀ c s', (s0 <= s' <= es)%nat → ends (k c s') s) → ends (pbind m k) s.
Proof. destruct m as [c s' | |]; simpl; auto. Qed.

Lemma ends_weaken m s s' : (s' <= s)%nat → ends m s → ends m s'.
Proof. destruct m; simpl; intros; lia || done. Qed.

Lemma parseredirs_ends n : ∀ c s, (s <= es)%nat → (es - s < n)%nat → ends (parseredirs buf es n c s) s.
Proof.
  induction n as [| n IH]; intros c s Hs Hn; [lia |]. cbn [parseredirs].
  destruct (peek_progress s (bytes_of_string "<>") Hs) as ([] & s1 & -> & Hle1 & Hp); [| simpl; lia].
  destruct (Hp eq_refl) as (tok & a & s2 & -> & Hle2).
  destruct (gettoken_progress s2 ltac:(lia)) as (tok2 & a2 & s3 & -> & Hle3 & _). case_match; [done |].
  eapply ends_weaken; [| apply IH]; lia.
Qed.

Lemma parseargs_ends n : ∀ argc c s, (s <= es)%nat → (es - s < n)%nat → ends (parseargs buf es n argc c s) s.
Proof.
  induction n as [| n IH]; intros argc c s Hs Hn; [lia |]. cbn [parseargs].
  destruct (peek_progress s (bytes_of_string "|)&;") Hs) as ([] & s1 & -> & Hle1 & _); [simpl; lia |].
  destruct (gettoken_progress s1 ltac:(lia)) as (tok & a & s2 & -> & Hle2 & Hp).
  destruct (Z.eqb_spec tok 0) as [-> | Htok]; [simpl; lia |]. specialize (Hp (or_introl Htok)).
  case_match; [done |]. cbv zeta. case_match; [done |]. apply (ends_bind _ s2).
  - apply parseredirs_ends; lia.
  - intros c' s' Hle. eapply ends_weaken; [| apply IH]; lia.
Qed.

Lemma parseamps_ends n : ∀ c s, (s <= es)%nat → (es - s < n)%nat → ends (parseamps buf es n c s) s.
Proof.
  induction n as [| n IH]; intros c s Hs Hn; [lia |]. cbn [parseamps].
  destruct (peek_progress s (bytes_of_string "&") Hs) as ([] & s1 & -> & Hle1 & Hp); [| simpl; lia].
  destruct (Hp eq_refl) as (tok & a & s2 & -> & Hle2). eapply ends_weaken; [| apply IH]; lia.
Qed.

(** Each nesting level costs four rounds and a character. *)
Lemma parse_ends n : ∀ s, (s <= es)%nat →
  ((4 * (es - s) + 4 <= n)%nat → ends (parseline buf es n s) s) ∧
  ((4 * (es - s) + 3 <= n)%nat → ends (parsepipe buf es n s) s) ∧
  ((4 * (es - s) + 2 <= n)%nat → ends (parseexec buf es n s) s) ∧
  ((4 * (es - s) + 1 <= n)%nat → ends (parseblock buf es n s) s).
Proof.
  induction n as [| n IH]; intros s Hs; [split_and!; lia |]. split_and!; intros Hn.
  - rewrite parseline_S. apply (ends_bind _ s); [apply IH; lia |]. intros c s1 Hle1.
    apply (ends_bind _ s1); [apply parseamps_ends; lia |]. intros c2 s2 Hle2.
    destruct (peek_progress s2 (bytes_of_string ";") ltac:(lia)) as ([] & s3 & -> & Hle3 & Hp); [| simpl; lia].
    destruct (Hp eq_refl) as (tok & a & s4 & -> & Hle4). apply (ends_bind _ s4); [apply IH; lia | simpl; lia].
  - rewrite parsepipe_S. apply (ends_bind _ s); [apply IH; lia |]. intros c s1 Hle1.
    destruct (peek_progress s1 (bytes_of_string "|") ltac:(lia)) as ([] & s3 & -> & Hle3 & Hp); [| simpl; lia].
    destruct (Hp eq_refl) as (tok & a & s4 & -> & Hle4). apply (ends_bind _ s4); [apply IH; lia | simpl; lia].
  - rewrite parseexec_S.
    destruct (peek_progress s (bytes_of_string "(") ltac:(lia)) as ([] & s1 & -> & Hle1 & _).
    + eapply ends_weaken; [| apply IH]; lia.
    + apply (ends_bind _ s1); [apply parseredirs_ends; lia |]. intros c s2 Hle2.
      eapply ends_weaken; [| apply parseargs_ends]; lia.
  - rewrite parseblock_S.
    destruct (peek_progress s (bytes_of_string "(") ltac:(lia)) as ([] & s1 & -> & Hle1 & Hp); [| done]. cbn [negb].
    destruct (Hp eq_refl) as (tok & a & s2 & -> & Hle2). apply (ends_bind _ s2); [apply IH; lia |]. intros c s3 Hle3.
    destruct (peek_progress s3 (bytes_of_string ")") ltac:(lia)) as ([] & s4 & -> & Hle4 & Hp'); [| done]. cbn [negb].
    destruct (Hp' eq_refl) as (tok' & a' & s5 & -> & Hle5). eapply ends_weaken; [| apply parseredirs_ends]; lia.
Qed.
End parser.

Lemma parse_spelled c text junk : wf c → nonul text → spells (tokens c 0) text →
  ∃ c' buf', parsecmd (text ++ 0 :: junk) = inl (c', buf') ∧ cmd_map (string_at buf') c' = c.
Proof.
  intros W Ht H. unfold parsecmd. rewrite cstr_app_nul by done.
  destruct (all_levels text junk Ht (size c) c (le_n _)) as (_ & _ & Hl).
  destruct (Hl (parse_fuel (length text)) 0%nat []) as (c1 & s1 & -> & Hc1 & Hle & H1);
    [lia | done | constructor | done | by rewrite app_nil_r | unfold parse_fuel; lia |].
  rewrite (peek_end text junk) by (done || lia). rewrite Nat.eqb_refl.
  exists c1, (nulterminate c1 (text ++ 0 :: junk)). split; [done |]. refine (rel_map text Ht _ _ _ Hc1 _).
  intros a w Ha Hw. by eapply cut_string.
Qed.

(** C27: the parser reads every command.  Take any command that the shell can
    express (at most nine arguments), write its tokens with any white space
    between them, and parse the line: the parser succeeds, and the strings it
    cuts out of the buffer make exactly that command. *)
Theorem parse_print c text junk : wf c → nonul text → spells (tokens c 0) text →
  ∃ c' buf', parsecmd (text ++ 0 :: junk) = inl (c', buf') ∧ cmd_map (string_at buf') c' = c.
Proof. apply parse_spelled. Qed.

(** C33: the parser terminates on every line: with [parse_fuel] rounds no input
    makes it run out of them.  It returns a command and the position where it
    stopped, or it leaves with one of its error messages. *)
Theorem parsecmd_terminates text junk n : (parse_fuel (length text) <= n)%nat →
  match parseline (text ++ 0 :: junk) (length text) n 0 with
  | POk _ s => (s <= length text)%nat
  | PPanic msg => True
  | PFuel => False
  end.
Proof.
  intros Hn. destruct (parse_ends text junk n 0 ltac:(lia)) as (H & _). unfold parse_fuel in Hn.
  specialize (H ltac:(lia)). unfold ends in H. destruct (parseline _ _ _ _); simpl in *; lia || done.
Qed.

(** ** An example *)

Definition sh_text : list Z := bytes_of_string " ls <f|( b;c )&  ".
Definition sh_cmd : scmd :=
  BACK (PIPE (REDIR (EXEC [bytes_of_string "ls"]) (bytes_of_string "f") O_RDONLY 0)
          (LIST (EXEC [bytes_of_string "b"]) (EXEC [bytes_of_string "c"]))).

Lemma is_word_dec w : w ≠ [] → forallb (λ c, negb (c =? 0) && wordchar c) w = true → is_word w.
Proof.
  intros Hne H. split; [done |]. apply Forall_forall. intros c Hc%list_elem_of_In. rewrite forallb_forall in H.
  specialize (H c Hc). apply andb_true_iff in H as [H1 H2]. split; [lia | by apply wordchar_spec].
Qed.

Lemma sh_wf : wf sh_cmd.
Proof.
  assert (∀ w, w ≠ [] → forallb (λ c, negb (c =? 0) && wordchar c) w = true → Forall is_word [w]) as H.
  { intros w H1 H2. constructor; [by apply is_word_dec | constructor]. }
  assert (is_word (bytes_of_string "f")) by (by apply is_word_dec).
  simpl. unfold MAXARGS. split_and!; try lia; try (by apply H); try done.
Qed.

Lemma sh_spells : spells (tokens sh_cmd 0) sh_text.
Proof.
  assert (∀ l, forallb (strchr whitespace) l = true → Forall is_ws l) as Hws.
  { intros l H. apply Forall_forall. intros c Hc%list_elem_of_In. rewrite forallb_forall in H. by apply H. }
  assert (is_delim 32 ∧ is_delim 124 ∧ is_delim 59) as (D1 & D2 & D3) by (repeat split; (by left) || (by right)).
  apply (spells_token [32] (Word (bytes_of_string "ls"))); [by apply Hws | by right |].
  apply (spells_token [32] (Sym (chr "<"))); [by apply Hws | done |].
  apply (spells_token [] (Word (bytes_of_string "f"))); [constructor | by right |].
  apply (spells_token [] (Sym (chr "|"))); [constructor | done |].
  apply (spells_token [] (Sym (chr "("))); [constructor | done |].
  apply (spells_token [32] (Word (bytes_of_string "b"))); [by apply Hws | by right |].
  apply (spells_token [] (Sym (chr ";"))); [constructor | done |].
  apply (spells_token [] (Word (bytes_of_string "c"))); [constructor | by right |].
  apply (spells_token [32] (Sym (chr ")"))); [by apply Hws | done |].
  apply (spells_token [] (Sym (chr "&"))); [constructor | done |].
  apply (spells_end [32; 32]). by apply Hws.
Qed.

Lemma parse_print_witness : ∃ c buf, parsecmd (sh_text ++ [0]) = inl (c, buf) ∧ cmd_map (string_at buf) c = sh_cmd.
Proof.
  exact (parse_print sh_cmd sh_text [] sh_wf (nonul_dec sh_text eq_refl) sh_spells).
Defined.

Lemma parsecmd_terminates_witness :
  match parseline (bytes_of_string "((a" ++ [0]) 3 20 0 with POk _ _ => False | PPanic msg => True | PFuel => False end.
Proof.
  assert (parseline (bytes_of_string "((a" ++ [0]) 3 20 0 = PPanic "syntax - missing )") as E by reflexivity.
  pose proof (parsecmd_terminates (bytes_of_string "((a") [] 20 (le_n _)) as H. simpl length in H. rewrite E in *. exact H.
Defined.
