(* ===== verification/ShRun.v ===== *)
(** * Running commands (user/sh.c: runcmd, getcmd, main, panic, fork1)

    The shell as a program over the system calls, on top of its parser (Sh.v).
    Commands carry their strings. *)

From ITree Require Import ITree.
From S2P Require Import Prelude Machine Kstate Printf Fs Text Grep User Commands UserIo Sh.

(** ** runcmd *)

(** [panic] of sh.c. *)
Definition sh_panic {A} (s : string) : uprog A :=
  fprintf 2 "%s
" [VS (Some (bytes_of_string s))];; exit 1.

Definition fork1 : uprog Z :=
  pid ← call Fork;
  if pid =? -1 then sh_panic "fork" else mret pid.

(** runcmd does not return: where the code goes on after [if(fork1() == 0)
    runcmd(...)] it is the parent that goes on. *)
Fixpoint runcmd {A} (c : scmd) : uprog A :=
  match c with
  | EXEC argv =>
      match argv with
      | [] => exit 1
      | path :: _ =>
          call (Exec path argv);;
          fprintf 2 "exec %s failed
" [VS (Some path)];;
          exit 0
      end
  | REDIR c file mode fd =>
      call (Close fd);;
      r ← call (Open file mode);
      if r <? 0 then
        fprintf 2 "open %s failed
" [VS (Some file)];;
        exit 1
      else runcmd c
  | LIST l r =>
      pid ← fork1;
      if pid =? 0 then runcmd l
      else
        call Wait;;
        runcmd r
  | PIPE l r =>
      '(ret, (p0, p1)) ← call Pipe;
      if ret <? 0 then sh_panic "pipe"
      else
        pid ← fork1;
        if pid =? 0 then
          call (Close 1);;
          call (Dup p1);;
          call (Close p0);;
          call (Close p1);;
          runcmd l
        else
          pid ← fork1;
          if pid =? 0 then
            call (Close 0);;
            call (Dup p0);;
            call (Close p0);;
            call (Close p1);;
            runcmd r
          else
            call (Close p0);;
            call (Close p1);;
            call Wait;;
            call Wait;;
            exit 0
  | BACK c =>
      pid ← fork1;
      if pid =? 0 then runcmd c else exit 0
  end.

(** ** The main loop *)

(** The string in [buf]; empty at the end of the input. *)
Definition getcmd (nbuf : nat) : uprog (list Z) :=
  call (Write 2 (bytes_of_string "$ "));;
  gets nbuf.

(** Opening the console until descriptor 3 comes back. *)
Definition ensure_fds : uprog unit :=
  while (λ _ : unit,
    fd ← call (Open (bytes_of_string "console") O_RDWR);
    if 0 <=? fd then
      if 3 <=? fd then call (Close fd);; mret (inr tt) else mret (inl tt)
    else mret (inr tt)) tt.

(** Blanks and tabs before the command. *)
Fixpoint skip_blanks (cmd : list Z) : list Z :=
  match cmd with
  | c :: cmd' => if (c =? 32) || (c =? 9) then skip_blanks cmd' else cmd
  | [] => []
  end.

(** [parsecmd] reports what it could not parse and gives up. *)
Definition syntax_error {A} (buf : list Z) (msg : string) : uprog A :=
  let es := length (cstr buf) in
  match parseline buf es (parse_fuel es) 0 with
  | POk _ s => fprintf 2 "leftovers: %s
" [VS (Some (drop (peek buf es s []).2 buf))]
  | _ => mret tt
  end;;
  sh_panic msg.

(** [runcmd(parsecmd(cmd))], in the child. *)
Definition run_line {A} (cmd : list Z) : uprog A :=
  let buf := cmd ++ [0] in
  match parsecmd buf with
  | inl (c, buf) => runcmd (cmd_map (string_at buf) c)
  | inr msg => syntax_error buf msg
  end.

(** [cmd] is the line without its leading blanks. *)
Definition sh_do (cmd : list Z) : uprog unit :=
  if deref cmd =? 10 then mret tt
  else if (deref cmd =? chr "c") && (deref (drop 1 cmd) =? chr "d") && (deref (drop 2 cmd) =? 32) then
    let dir := drop 3 (removelast cmd) in
    r ← call (Chdir dir);
    if r <? 0 then fprintf 2 "cannot cd %s
" [VS (Some dir)] else mret tt
  else
    pid ← fork1;
    if pid =? 0 then run_line cmd
    else
      call Wait;;
      mret tt.

Definition sh_round (_ : unit) : uprog (unit + Z) :=
  buf ← getcmd 100;
  if deref buf =? 0 then exit 0
  else sh_do (skip_blanks (cstr buf));; mret (inl tt).

Definition sh_main : uprog Z := ensure_fds;; while sh_round tt.
