(* ===== verification/ShProc.v ===== *)
(** * What the shell's processes do

    A semantics of process trees for [runcmd] and the main loop: every process
    has a table of descriptors that its children inherit, calls may fail, and a
    run is the tree of its forks, programs started, waits and output.  The
    theorems compare it with a description of commands by what each program gets
    as standard input, output and error. *)

From ITree Require Import ITree.
From S2P Require Import Prelude Machine Kstate Printf Fs Text Grep User Commands UserIo Runs Sh ShSpec ShRun.

(** ** Processes *)

(** What a descriptor refers to; a pipe is named by its creator. *)
Definition pipe_id : Type := list nat * nat.
Inductive desc :=
  | Inherited (n : nat)
  | Opened (path : list Z) (mode : Z)
  | PipeR (p : pipe_id)
  | PipeW (p : pipe_id).
#[global] Instance desc_eq_dec : EqDecision desc.
Proof. solve_decision. Defined.

Record pstate := mkPs {
  ps_fds : list (option desc);
  ps_id : list nat;             (* which child of which child ... of the shell *)
  ps_n : nat;                   (* children and pipes made *)
  ps_cwd : list (list Z);       (* directories changed to *)
  ps_in : list Z;               (* what reading from standard input returns *)
}.
#[global] Instance eta_pstate : Settable pstate := λ s, mkPs (ps_fds s) (ps_id s) (ps_n s) (ps_cwd s) (ps_in s).

(** What processes do. *)
Inductive act :=
  | Exits (status : Z)
  | Executes (path : list Z) (argv : list (list Z)) (fds : list (option desc))
  | Writes (to : option desc) (bs : list Z)
  | Changes (path : list Z)
  | Waits (fds : list (option desc)).
Abbreviation ptree := (tree act).
Abbreviation PExit st := (End (Exits st)).
Abbreviation PExec path argv fds := (End (Executes path argv fds)).
Abbreviation PWrite to bs t := (Do (Writes to bs) t).
Abbreviation PChdir path t := (Do (Changes path) t).
Abbreviation PWait fds t := (Do (Waits fds) t).
Abbreviation PFork child parent := (Both child parent).

(** Which calls succeed, and what fork and wait return. *)
Class Kern := {
  k_open : pstate → list Z → Z → bool;
  k_exec : pstate → list Z → bool;
  k_chdir : pstate → list Z → bool;
  k_fork : pstate → bool;
  k_pipe : pstate → bool;
  k_pid : pstate → Z;
  k_wait : pstate → Z * Z;
  k_pid_pos : ∀ s, 0 < k_pid s;
}.

(** The lowest free descriptor. *)
Fixpoint fd_put (d : desc) (fds : list (option desc)) : option (nat * list (option desc)) :=
  match fds with
  | [] => None
  | None :: fds => Some (0%nat, Some d :: fds)
  | x :: fds => '(n, fds) ← fd_put d fds; Some (S n, x :: fds)
  end.
Definition fd_get (fd : Z) (fds : list (option desc)) : option desc :=
  if fd <? 0 then None else mjoin (fds !! Z.to_nat fd).

Section runs.
Context {Kn : Kern}.

(** The table after putting [d] in it, and the descriptor or -1. *)
Definition alloc (d : desc) (s : pstate) : Z * pstate :=
  match fd_put d (ps_fds s) with
  | Some (n, fds) => (Z.of_nat n, s <| ps_fds := fds |>)
  | None => (-1, s)
  end.

(** The state of a child, and of its parent after the fork. *)
Definition forked (s : pstate) : pstate := s <| ps_id ::= cons (ps_n s) |> <| ps_n := 0%nat |>.
Definition forking (s : pstate) : pstate := s <| ps_n ::= S |>.

#[export] Instance sh_calls : Calls act pstate := λ A e s,
  match e in userE A return reply act pstate A with
  | Close fd =>
      match fd_get fd (ps_fds s) with
      | Some _ => Returns 0 (s <| ps_fds ::= <[Z.to_nat fd := None]> |>)
      | None => Returns (-1) s
      end
  | Dup fd =>
      match fd_get fd (ps_fds s) with
      | Some d => let '(n, s) := alloc d s in Returns n s
      | None => Returns (-1) s
      end
  | Open path mode =>
      if k_open s path mode then let '(n, s) := alloc (Opened path mode) s in Returns n s
      else Returns (-1) s
  | Pipe =>
      let p := (ps_id s, ps_n s) in
      let '(p0, s1) := alloc (PipeR p) s in
      let '(p1, s2) := alloc (PipeW p) s1 in
      if k_pipe s && (0 <=? p0) && (0 <=? p1) then Returns (0, (p0, p1)) (s2 <| ps_n ::= S |>)
      else Returns (-1, (0, 0)) s
  | Read fd n =>
      let k := Z.to_nat (Z.min n (Z.of_nat (length (ps_in s)))) in
      if fd =? 0 then Returns (Z.of_nat k, take k (ps_in s)) (s <| ps_in ::= drop k |>)
      else Returns (-1, []) s
  | Write fd bs => Does (Writes (fd_get fd (ps_fds s)) bs) (Z.of_nat (length bs)) s
  | Chdir path =>
      if k_chdir s path then Does (Changes path) 0 (s <| ps_cwd ::= cons path |>) else Returns (-1) s
  | Wait => Does (Waits (ps_fds s)) (k_wait s) s
  | Fork => if k_fork s then Splits 0 (forked s) (k_pid s) (λ _, forking s) else Returns (-1) s
  | Exec path argv => if k_exec s path then Ends (Executes path argv (ps_fds s)) else Returns (-1) s
  | Exit st => Ends (Exits st)
  | _ => Unknown
  end.

(** ** Rules *)

Section calls.
Context {B : Type} (Q : B → pstate → ptree → Prop).

Lemma runs_exec path argv (f : Z → uprog B) s tr :
  (if k_exec s path then tr = PExec path argv (ps_fds s) else runs Q (f (-1)) s tr) →
  runs Q (call (Exec path argv) ≫= f) s tr.
Proof.
  intros H. destruct (k_exec s path) eqn:E.
  - subst tr. apply runs_ends. cbn. by rewrite E.
  - eapply runs_sys; [cbn; by rewrite E | exact H].
Qed.

Lemma runs_wait (f : Z * Z → uprog B) s tr :
  runs Q (f (k_wait s)) s tr → runs Q (call Wait ≫= f) s (Do (Waits (ps_fds s)) tr).
Proof. by apply runs_does. Qed.

Lemma runs_open path mode (f : Z → uprog B) s tr :
  (if k_open s path mode then let '(fd, s') := alloc (Opened path mode) s in runs Q (f fd) s' tr else runs Q (f (-1)) s tr) →
  runs Q (call (Open path mode) ≫= f) s tr.
Proof.
  intros H. destruct (k_open s path mode) eqn:Ek, (alloc (Opened path mode) s) as [fd s'] eqn:Ea;
    (eapply runs_sys; [cbn; by rewrite Ek, ?Ea | exact H]).
Qed.

(** A message on descriptor [fd]. *)
Definition message (fd : Z) (bs : list Z) (s : pstate) (tr : ptree) : ptree :=
  writing (λ b, Writes (fd_get fd (ps_fds s)) [b]) bs tr.

Lemma runs_message fd t bs (f : unit → uprog B) s tr :
  emits fd t bs → runs Q (f tt) s tr → runs Q (t ≫= f) s (message fd bs s tr).
Proof. intros Ht Hf. apply (runs_emits Q fd _ t); [by eexists | done | done]. Qed.

Lemma runs_panic msg s : forallb plain (bytes_of_string msg) = true →
  runs Q (sh_panic msg) s (message 2 (bytes_of_string msg ++ [10]) s (PExit 1)).
Proof.
  intros Hp. apply runs_message; [| by apply runs_exit]. apply emits_str; [done | by apply (emits_plain 2 [10])].
Qed.

End calls.

(** fork1 leaves the program when the fork fails. *)
Definition fork_tree (s : pstate) (child parent : ptree) : ptree :=
  if k_fork s then PFork child parent else message 2 (bytes_of_string "fork
") s (PExit 1).

Lemma runs_fork {B} (Q : B → pstate → ptree → Prop) (child parent : uprog B) s tc tp :
  runs Q child (forked s) tc → runs Q parent (forking s) tp →
  runs Q (pid ← fork1; if pid =? 0 then child else parent) s (fork_tree s tc tp).
Proof.
  intros Hc Hp. apply runs_bind. unfold fork_tree, fork1. destruct (k_fork s) eqn:E.
  - eapply runs_splits; [cbn; by rewrite E | by apply runs_ret |].
    pose proof (k_pid_pos s). replace (k_pid s =? -1) with false by lia. apply runs_ret.
    by replace (k_pid s =? 0) with false by lia.
  - eapply runs_sys; [cbn; by rewrite E |]. by apply (runs_panic _ "fork").
Qed.

(** ** What commands do *)

(** The table of a process with standard input, output and error only. *)
Definition stdio (i o e : desc) : list (option desc) := Some i :: Some o :: Some e :: replicate 13 None.
Definition standard (s : pstate) : Prop := ∃ i o e, ps_fds s = stdio i o e.

Definition connect (fd : nat) (d : desc) (s : pstate) : pstate := s <| ps_fds ::= <[fd := Some d]> |>.

(** A pipe between two programs: while both are started its ends are descriptors
    3 and 4. *)
Definition piping (s : pstate) : pstate :=
  connect 4 (PipeW (ps_id s, ps_n s)) (connect 3 (PipeR (ps_id s, ps_n s)) (s <| ps_n ::= S |>)).

(** What running [c] from [s] does. *)
Fixpoint cmd_tree (c : scmd) (s : pstate) : ptree :=
  match c with
  | EXEC [] => PExit 1
  | EXEC ((path :: _) as argv) =>
      if k_exec s path then PExec path argv (ps_fds s)
      else message 2 (bytes_of_string "exec " ++ (u8 <$> cstr path) ++ bytes_of_string " failed
") s (PExit 0)
  | REDIR c file mode fd =>
      let s' := s <| ps_fds ::= <[Z.to_nat fd := None]> |> in
      if k_open s' file mode then cmd_tree c (connect (Z.to_nat fd) (Opened file mode) s)
      else message 2 (bytes_of_string "open " ++ (u8 <$> cstr file) ++ bytes_of_string " failed
") s' (PExit 1)
  | LIST l r => fork_tree s (cmd_tree l (forked s)) (PWait (ps_fds s) (cmd_tree r (forking s)))
  | PIPE l r =>
      if k_pipe s then
        let p := (ps_id s, ps_n s) in
        let s1 := s <| ps_n ::= S |> in
        fork_tree (piping s) (cmd_tree l (connect 1 (PipeW p) (forked s1)))
          (fork_tree (forking (piping s)) (cmd_tree r (connect 0 (PipeR p) (forked (forking s1))))
            (PWait (ps_fds s) (PWait (ps_fds s) (PExit 0))))
      else message 2 (bytes_of_string "pipe
") s (PExit 1)
  | BACK c => fork_tree s (cmd_tree c (forked s)) (PExit 0)
  end.

(** Redirections are of standard input and output. *)
Fixpoint redirs_std (c : scmd) : Prop :=
  match c with
  | EXEC _ => True
  | REDIR c _ _ fd => (fd = 0 ∨ fd = 1) ∧ redirs_std c
  | LIST l r | PIPE l r => redirs_std l ∧ redirs_std r
  | BACK c => redirs_std c
  end.

Lemma emits_failed fd pre a :
  forallb plain (bytes_of_string pre) = true →
  emits fd (vprintf fd (bytes_of_string pre ++ chr "%" :: chr "s" :: bytes_of_string " failed
") [VS (Some a)] false) (bytes_of_string pre ++ (u8 <$> cstr a) ++ bytes_of_string " failed
").
Proof.
  intros Hp. apply emits_text; [done |]. apply emits_s.
  by apply emits_plain.
Qed.

Lemma standard_connect fd d s : fd = 0%nat ∨ fd = 1%nat → standard s → standard (connect fd d s).
Proof.
  intros Hfd (i & o & e & Hs). unfold standard, connect. cbn. rewrite Hs.
  destruct Hfd as [-> | ->]; [by exists d, o, e | by exists i, d, e].
Qed.

Lemma runcmd_pipe {A} (Q : A → pstate → ptree → Prop) l r s :
  (∀ s, standard s → runs Q (runcmd l) s (cmd_tree l s)) → (∀ s, standard s → runs Q (runcmd r) s (cmd_tree r s)) →
  standard s → runs Q (runcmd (PIPE l r)) s (cmd_tree (PIPE l r) s).
Proof.
  intros Hl Hr (i & o & e & Hs). destruct s as [T id n cwd inp]. cbn in Hs. subst T. cbn [cmd_tree runcmd].
  destruct (k_pipe _) eqn:Ek.
  - eapply runs_sys; [cbn; rewrite Ek; reflexivity |]. apply runs_fork; [| apply runs_fork].
    + do 4 (eapply runs_sys; [reflexivity |]). apply (Hl _). by exists i, (PipeW (id, n)), e.
    + do 4 (eapply runs_sys; [reflexivity |]). apply (Hr _). by exists (PipeR (id, n)), o, e.
    + do 2 (eapply runs_sys; [reflexivity |]). do 2 apply (runs_wait Q _ (mkPs (stdio i o e) id (S (S (S n))) cwd inp)). by apply runs_exit.
  - eapply runs_sys; [cbn; rewrite Ek; reflexivity |]. by apply (runs_panic Q "pipe").
Qed.

Lemma runcmd_tree {A} (Q : A → pstate → ptree → Prop) c s :
  redirs_std c → standard s → runs Q (runcmd c) s (cmd_tree c s).
Proof.
  revert s. induction c as [argv | c IH file mode fd | l IHl r IHr | l IHl r IHr | c IH]; intros s Hc Hs.
  - destruct argv as [|path argv]; [by apply runs_exit |]. apply runs_exec. cbn [cmd_tree].
    destruct (k_exec s path); [done |]. apply runs_message; [by apply (emits_failed 2 "exec ") | by apply runs_exit].
  - destruct Hc as [Hfd Hc]. pose proof (standard_connect (Z.to_nat fd) (Opened file mode) s ltac:(lia) Hs) as Hs'.
    destruct Hs as (i & o & e & Hs). destruct s as [T id n cwd inp]. cbn in Hs. subst T. cbn [cmd_tree runcmd].
    destruct Hfd as [-> | ->]; (eapply runs_sys; [reflexivity |]); apply runs_open; unfold upd;
      destruct (k_open _ file mode); try exact (IH _ Hc Hs');
      (apply runs_message; [by apply (emits_failed 2 "open ") | by apply runs_exit]).
  - apply runcmd_pipe; [by intros; apply IHl; [apply Hc |] | by intros; apply IHr; [apply Hc |] | done].
  - cbn [cmd_tree runcmd]. apply runs_fork; [by apply IHl; [apply Hc |] |]. by apply (runs_wait Q _ (forking s)), IHr; [apply Hc |].
  - cbn [cmd_tree runcmd]. apply runs_fork; [by apply IH | by apply runs_exit].
Qed.

(** ** Sessions *)

(** A line of input: nothing, a change of directory, a command, or text that is
    not a command. *)
Inductive item := Blank | Cd (dir : list Z) | Run (c : scmd) | Bad (text : list Z) (msg : string).

Definition is_blank (c : Z) : Prop := c = 32 ∨ c = 9.
Definition ordinary (text : list Z) : Prop := text ≠ [] ∧ take 3 text ≠ bytes_of_string "cd ".

(** The line after its leading blanks. *)
Definition text_of (it : item) (text : list Z) : Prop :=
  match it with
  | Blank => text = []
  | Cd dir => text = bytes_of_string "cd " ++ dir
  | Run c => wf c ∧ spells (tokens c 0) (text ++ [10]) ∧ ordinary text
  | Bad text' msg => text' = text ∧ parsecmd (text ++ [10; 0]) = inr msg ∧ ordinary text ∧ forallb plain (bytes_of_string msg) = true
  end.

(** [line] fits the buffer of the shell, with its newline. *)
Record written (it : item) (line : list Z) : Prop := {
  wr_text : ∃ bl text, line = bl ++ text ∧ Forall is_blank bl ∧ ¬ is_blank (deref text) ∧ text_of it text;
  wr_bytes : Forall (λ c, c ≠ 0 ∧ c ≠ 10 ∧ c ≠ 13) line;
  wr_fits : (length line ≤ 98)%nat;
}.

Definition unlines (lines : list (list Z)) : list Z := concat ((λ l, l ++ [10]) <$> lines).

(** What the parser says of a line that is not a command. *)
Definition leftovers (text : list Z) (s : pstate) (tr : ptree) : ptree :=
  let buf := text ++ [10; 0] in
  match parseline buf (S (length text)) (parse_fuel (S (length text))) 0 with
  | POk _ p => message 2 (bytes_of_string "leftovers: " ++
      (u8 <$> cstr (drop (peek buf (S (length text)) p []).2 buf)) ++ [10]) s tr
  | _ => tr
  end.

(** What the shell does with one line; [k] is what it does afterwards. *)
Definition item_tree (it : item) (s : pstate) (k : pstate → ptree) : ptree :=
  match it with
  | Blank => k s
  | Cd dir =>
      if k_chdir s dir then PChdir dir (k (s <| ps_cwd ::= cons dir |>))
      else message 2 (bytes_of_string "cannot cd " ++ (u8 <$> cstr dir) ++ [10]) s (k s)
  | Run c => fork_tree s (cmd_tree c (forked s)) (PWait (ps_fds s) (k (forking s)))
  | Bad text msg =>
      fork_tree s (leftovers text (forked s) (message 2 (bytes_of_string msg ++ [10]) (forked s) (PExit 1)))
        (PWait (ps_fds s) (k (forking s)))
  end.

(** What the shell does with its input: commands run in a child that it waits
    for, directories are changed in the shell itself. *)
Fixpoint session (input : list (item * list Z)) (s : pstate) : ptree :=
  PWrite (fd_get 2 (ps_fds s)) (bytes_of_string "$ ")
    match input with
    | [] => PExit 0
    | (it, _) :: input => item_tree it (s <| ps_in := unlines (snd <$> input) |>) (session input)
    end.

Lemma runs_getc (Q : list Z + list Z → pstate → ptree → Prop) max buf c rest s tr :
  (S (length buf) < max)%nat → ps_in s = c :: rest →
  Q ((if (c =? 10) || (c =? 13) then inr else inl) (buf ++ [c])) (s <| ps_in := rest |>) tr →
  runs Q (gets_round max buf) s tr.
Proof.
  intros Hmax Hin HQ. unfold gets_round. replace (S (length buf) <? max)%nat with true by (symmetry; by apply Nat.ltb_lt).
  eapply runs_sys; [cbn; rewrite Hin; reflexivity |].
  replace (Z.to_nat (1 `min` Z.of_nat (length (c :: rest)))) with 1%nat by (cbn [length]; lia).
  change (Z.of_nat 1 <? 1) with false. destruct s as [T id n cwd inp]. cbn in *. subst inp.
  destruct ((c =? 10) || (c =? 13)); by apply runs_ret.
Qed.

Lemma runs_gets_from (Q : list Z → pstate → ptree → Prop) line rest s tr buf :
  Forall (λ c, c ≠ 0 ∧ c ≠ 10 ∧ c ≠ 13) line → (length buf + length line ≤ 98)%nat → ps_in s = line ++ 10 :: rest →
  Q (buf ++ line ++ [10]) (s <| ps_in := rest |>) tr → runs Q (while (gets_round 100) buf) s tr.
Proof.
  revert s buf. induction line as [|c l IH]; intros s buf Hl Hfit Hin HQ; apply runs_while;
    (eapply runs_getc; [cbn in Hfit; lia | exact Hin |]); [done |].
  apply Forall_cons in Hl as [Hc Hl]. replace ((c =? 10) || (c =? 13)) with false by lia.
  apply IH; [done | rewrite length_app; cbn in *; lia | done |]. by rewrite <-app_assoc.
Qed.

Lemma runs_gets_end (Q : list Z → pstate → ptree → Prop) s tr : ps_in s = [] → Q [] s tr → runs Q (gets 100) s tr.
Proof.
  intros Hin HQ. apply runs_while. destruct s as [T id n cwd inp]. cbn in Hin. subst inp.
  eapply runs_sys; [reflexivity |]. by apply runs_ret.
Qed.

(** The two branches of the test for [cd]. *)
Lemma skip_blanks_text bl text : Forall is_blank bl → ¬ is_blank (deref text) → skip_blanks (bl ++ text) = text.
Proof.
  intros Hbl Ht. induction Hbl as [|c bl [-> | ->] _ IH]; [| done | done].
  destruct text as [|c text]; [done |]. cbn in *. unfold is_blank in Ht. by replace ((c =? 32) || (c =? 9)) with false by lia.
Qed.

Definition is_cd (cmd : list Z) : bool :=
  (deref cmd =? chr "c") && (deref (drop 1 cmd) =? chr "d") && (deref (drop 2 cmd) =? 32).

Lemma ordinary_cd text : ordinary text → is_cd (text ++ [10]) = false.
Proof.
  intros [Hne Hcd]. destruct text as [|a [|b [|c text]]]; [done | ..]; unfold is_cd; cbn [deref drop app].
  - by rewrite andb_false_r.
  - by rewrite andb_false_r.
  - apply not_true_iff_false. intros [[Ha Hb]%andb_true_iff Hc]%andb_true_iff. apply Hcd.
    apply Z.eqb_eq in Ha, Hb, Hc. by subst a b c.
Qed.

Lemma deref_text text : Forall (λ c, c ≠ 0 ∧ c ≠ 10 ∧ c ≠ 13) text → text ≠ [] → deref (text ++ [10]) ≠ 10.
Proof. intros Hf Hne. destruct text as [|c text]; [done |]. cbn. apply Forall_cons in Hf as [Hc _]. lia. Qed.

Lemma runs_bad {A} (Q : A → pstate → ptree → Prop) text msg s :
  parsecmd (text ++ [10; 0]) = inr msg → forallb plain (bytes_of_string msg) = true →
  Forall (λ c, c ≠ 0 ∧ c ≠ 10 ∧ c ≠ 13) text →
  runs Q (run_line (text ++ [10])) s (leftovers text s (message 2 (bytes_of_string msg ++ [10]) s (PExit 1))).
Proof.
  intros Hp Hm Hb. unfold run_line. rewrite <-app_assoc. cbn [app]. rewrite Hp. unfold syntax_error, leftovers.
  assert (cstr (text ++ [10; 0]) = text ++ [10]) as Hc.
  { change [10; 0] with ([10] ++ [0]). rewrite app_assoc. apply (cstr_app_nul _ []). apply Forall_app. split; [| by repeat constructor].
    eapply Forall_impl; [exact Hb |]. by intros c (? & _). }
  rewrite Hc, length_app, Nat.add_1_r. destruct (parseline _ _ _ _) as [c p | |]; [| by apply runs_bind, runs_ret, runs_panic..].
  apply runs_message; [| by apply runs_panic]. apply (emits_text 2 (bytes_of_string "leftovers: ")); [done |].
  apply (emits_s 2 _ [10]), (emits_plain 2 [10]); done.
Qed.

Lemma wf_redirs c : wf c → redirs_std c.
Proof. induction c; cbn; tauto. Qed.

Lemma runs_run {A} (Q : A → pstate → ptree → Prop) text c s :
  wf c → spells (tokens c 0) (text ++ [10]) → Forall (λ c, c ≠ 0 ∧ c ≠ 10 ∧ c ≠ 13) text → standard s →
  runs Q (run_line (text ++ [10])) s (cmd_tree c s).
Proof.
  intros Hw Hsp Hb Hs. unfold run_line. destruct (parse_spelled c (text ++ [10]) [] Hw) as (c' & buf & -> & <-); [| done |].
  - apply Forall_app. split; [| by repeat constructor]. eapply Forall_impl; [exact Hb |]. by intros c' (? & _).
  - apply runcmd_tree; [| done]. by apply wf_redirs.
Qed.

Lemma runs_do (Q : unit → pstate → ptree → Prop) it text s k :
  text_of it text → Forall (λ c, c ≠ 0 ∧ c ≠ 10 ∧ c ≠ 13) text → standard s →
  (∀ s', standard s' → ps_in s' = ps_in s → Q tt s' (k s')) →
  runs Q (sh_do (text ++ [10])) s (item_tree it s k).
Proof.
  intros Ht Hb Hs Hk. unfold sh_do. fold (is_cd (text ++ [10])).
  assert (∀ child tc, runs Q child (forked s) tc → ordinary text →
    runs Q (if deref (text ++ [10]) =? 10 then mret tt else if is_cd (text ++ [10]) then
      r ← call (Chdir (drop 3 (removelast (text ++ [10]))));
      if r <? 0 then fprintf 2 "cannot cd %s
" [VS (Some (drop 3 (removelast (text ++ [10]))))] else mret tt
    else pid ← fork1; if pid =? 0 then child else call Wait;; mret tt) s
    (fork_tree s tc (PWait (ps_fds s) (k (forking s))))) as Hfork.
  { intros child tc Hc Hord. rewrite (ordinary_cd _ Hord). pose proof (deref_text text Hb (proj1 Hord)).
    replace (deref (text ++ [10]) =? 10) with false by lia. apply runs_fork; [exact Hc |].
    apply (runs_wait Q _ (forking s)), runs_ret, Hk; done. }
  destruct it as [| dir | c | text' msg]; cbn [text_of item_tree] in *.
  - subst text. apply runs_ret. by apply Hk.
  - subst text. change (deref _ =? 10) with false. change (is_cd _) with true. rewrite removelast_last.
    change (drop 3 (bytes_of_string "cd " ++ dir)) with dir. destruct (k_chdir s dir) eqn:E.
    + eapply runs_does; [cbn; by rewrite E |]. apply runs_ret. by apply Hk.
    + eapply runs_sys; [cbn; by rewrite E |]. apply (runs_says 2); [by eexists | | by apply Hk].
      apply (emits_text 2 (bytes_of_string "cannot cd ")); [done |].
      apply (emits_s 2 dir [10]), (emits_plain 2 [10]); done.
  - destruct Ht as (Hw & Hsp & Hord). apply Hfork; [| done]. by apply runs_run.
  - destruct Ht as (-> & Hp & Hord & Hm). apply Hfork; [| done]. by apply runs_bad.
Qed.

Lemma runs_session (Q : Z → pstate → ptree → Prop) input s :
  Forall (λ '(it, line), written it line) input → standard s → ps_in s = unlines (snd <$> input) →
  runs Q (while sh_round tt) s (session input s).
Proof.
  intros Hw. revert s. induction Hw as [|[it line] input [(bl & text & -> & Hbl & Hnb & Ht) Hb Hfit] _ IH]; intros s Hs Hin; apply runs_while;
    unfold sh_round, getcmd; apply runs_bind, (runs_does _ _ (Write 2 _) _ s _ s _ eq_refl).
  - by apply runs_gets_end, runs_exit.
  - apply (runs_gets_from _ (bl ++ text) (unlines (snd <$> input)) _ _ []); [done | done | by rewrite Hin; unfold unlines; cbn; rewrite <-!app_assoc |]. cbn [app].
    assert (Forall (λ c, c ≠ 0) ((bl ++ text) ++ [10])) as Hnz.
    { apply Forall_app. split; [| by repeat constructor]. eapply Forall_impl; [exact Hb |]. by intros c (? & _). }
    replace (deref ((bl ++ text) ++ [10]) =? 0) with false.
    2: { destruct (bl ++ text) as [|c l]; [done |]. apply Forall_cons in Hnz as [Hc _]. cbn. lia. }
    rewrite (cstr_id _ Hnz), <-app_assoc, skip_blanks_text; [| done | by destruct text; [intros [[=]|[=]] |]].
    apply Forall_app in Hb as [_ Hb]. apply runs_bind, runs_do; [done | done | done |].
    intros s' Hs' Hin'. by apply runs_ret, IH.
Qed.

(** Three descriptors are open before the first prompt. *)
Definition console : desc := Opened (bytes_of_string "console") O_RDWR.
Definition opened (given : list desc) : list (option desc) := (Some <$> given) ++ replicate (16 - length given) None.

Lemma runs_ensure (Q : unit → pstate → ptree → Prop) given s tr :
  (∀ s, k_open s (bytes_of_string "console") O_RDWR = true) → (length given ≤ 3)%nat → ps_fds s = opened given →
  Q tt (s <| ps_fds := opened (given ++ replicate (3 - length given) console) |>) tr → runs Q ensure_fds s tr.
Proof.
  intros Hk Hlen Hs HQ. destruct s as [T id n cwd inp]. cbn in Hs. subst T.
  unfold ensure_fds. destruct given as [|a [|b [|c [|]]]]; [..| cbn in Hlen; lia];
    repeat (apply runs_while, runs_open; rewrite Hk; refine (runs_ret _ (inl tt) _ _ _); cbn iota);
    apply runs_while, runs_open; rewrite Hk; 
    (refine (runs_sys _ (λ _, mret (inr tt)) (Close 3) _ 0 _ _ _ _); [reflexivity | exact (runs_ret _ (inr tt) _ _ HQ)]).
Qed.

(** Every program that is started, and every process that waits, has its three
    standard descriptors and no other: no end of a pipe is left open where it is
    not used. *)
Fixpoint tidy (t : ptree) : Prop :=
  match t with
  | PExit _ => True
  | PExec _ _ fds => ∃ i o e, fds = stdio i o e
  | End _ => True
  | PWait fds t => (∃ i o e, fds = stdio i o e) ∧ tidy t
  | Do _ t => tidy t
  | PFork c p => tidy c ∧ tidy p
  end.

Lemma tidy_message fd bs s t : tidy t → tidy (message fd bs s t).
Proof. intros H. by induction bs. Qed.

Lemma tidy_fork s c p : tidy c → tidy p → tidy (fork_tree s c p).
Proof. intros Hc Hp. unfold fork_tree. destruct (k_fork s); [done | by apply tidy_message]. Qed.

Lemma tidy_cmd c s : redirs_std c → standard s → tidy (cmd_tree c s).
Proof.
  revert s. induction c as [argv | c IH file mode fd | l IHl r IHr | l IHl r IHr | c IH]; intros s Hc Hs; cbn [cmd_tree].
  - destruct argv as [|path argv]; [done |]. destruct (k_exec s path); [exact Hs | by apply tidy_message].
  - destruct Hc as [Hfd Hc]. cbv zeta. destruct (k_open _ file mode); [| by apply tidy_message].
    apply IH, standard_connect; [done | lia | done].
  - destruct Hc as [Hl Hr]. destruct (k_pipe s); [| by apply tidy_message]. apply tidy_fork; [| apply tidy_fork].
    + apply IHl, standard_connect; auto.
    + apply IHr, standard_connect; auto.
    + done.
  - destruct Hc as [Hl Hr]. apply tidy_fork; [by apply IHl |]. split; [exact Hs | by apply IHr].
  - apply tidy_fork; [by apply IH | done].
Qed.

(** ** Theorems *)

(** C28: the shell connects programs as the command says, whichever calls fail.
    [runcmd] never returns and does exactly what [cmd_tree] describes: a
    redirection replaces standard input or output, the two sides of a pipe run
    side by side with the pipe between them and the process that started them
    waits for both, the second command of a list starts after the first has been
    waited for, and the failure of fork, pipe, open or exec ends the process with
    its message and status.  Every program gets its three descriptors and no end
    of a pipe besides. *)
Theorem runcmd_connects c s t :
  wf c → standard s →
  (runs (no_return (A := Empty_set)) (runcmd c) s t ↔ t = cmd_tree c s) ∧ tidy (cmd_tree c s).
Proof.
  intros Hw%wf_redirs Hs. split; [| by apply tidy_cmd]. pose proof (runcmd_tree (no_return (A := Empty_set)) c s Hw Hs) as Hrun.
  by apply runs_unique.
Qed.


End runs.

(** ** An example *)

#[local] Instance demo_kern : Kern.
Proof.
  refine {| k_open := λ _ _ _, true; k_exec := λ _ _, true; k_chdir := λ _ _, true; k_fork := λ _, true;
            k_pipe := λ _, true; k_pid := λ _, 1; k_wait := λ _, (1, 0) |}. done.
Defined.

Definition sh_demo_cmd : scmd :=
  PIPE (EXEC [bytes_of_string "a"]) (REDIR (EXEC [bytes_of_string "b"]) (bytes_of_string "f") (Z.lor (Z.lor O_WRONLY O_CREATE) O_TRUNC) 1).
Definition sh_demo_line : list Z := bytes_of_string "a|b >f".
Definition sh_demo_state : pstate := mkPs (stdio (Inherited 0) (Inherited 1) (Inherited 2)) [] 0 [] [].

Lemma sh_demo_wf : wf sh_demo_cmd.
Proof.
  assert (∀ w, w ≠ [] → forallb (λ c, negb (c =? 0) && wordchar c) w = true → Forall is_word [w]) as H.
  { intros w H1 H2. constructor; [by apply is_word_dec | constructor]. }
  assert (is_word (bytes_of_string "f")) by (by apply is_word_dec).
  cbn -[bytes_of_string]. unfold MAXARGS. split_and!; try lia; try (by apply H); try done.
Qed.

Lemma sh_demo_spells : spells (tokens sh_demo_cmd 0) (sh_demo_line ++ [10]).
Proof.
  apply (spells_token [] (Word (bytes_of_string "a"))); [constructor | right; by right |].
  apply (spells_token [] (Sym (chr "|"))); [constructor | done |].
  apply (spells_token [] (Word (bytes_of_string "b"))); [constructor | right; by left |].
  apply (spells_token [32] (Sym (chr ">"))); [by repeat constructor | done |].
  apply (spells_token [] (Word (bytes_of_string "f"))); [constructor | right; by left |].
  apply (spells_end [10]). by repeat constructor.
Qed.

Lemma runcmd_connects_witness :
  (∃ t, runs (no_return (A := Empty_set)) (runcmd sh_demo_cmd) sh_demo_state t ∧ tidy t) ∧
  cmd_tree sh_demo_cmd sh_demo_state =
    PFork (PExec (bytes_of_string "a") [bytes_of_string "a"] (stdio (Inherited 0) (PipeW ([], 0%nat)) (Inherited 2)))
      (PFork (PExec (bytes_of_string "b") [bytes_of_string "b"] (stdio (PipeR ([], 0%nat)) (Opened (bytes_of_string "f") 0x601) (Inherited 2)))
        (PWait (ps_fds sh_demo_state) (PWait (ps_fds sh_demo_state) (PExit 0)))).
Proof.
  assert (standard sh_demo_state) as Hs by (by eexists _, _, _).
  split; [| vm_compute; reflexivity]. exists (cmd_tree sh_demo_cmd sh_demo_state).
  destruct (runcmd_connects sh_demo_cmd sh_demo_state (cmd_tree sh_demo_cmd sh_demo_state) sh_demo_wf Hs) as [H Ht].
  split; [by apply H | exact Ht].
Defined.

(** Two lines: a change of directory and the command above. *)
Definition sh_demo_input : list (item * list Z) :=
  [(Cd (bytes_of_string "d"), bytes_of_string "cd d"); (Run sh_demo_cmd, sh_demo_line)].

