(* ===== verification/Confine.v ===== *)
(** * User programs under the filter

    What the system calls of a process do when the kernel decides about each of
    them with the policy of Filter.v: masks, inheritance by fork, strict mode and
    exec at the level of processes, for any program.  The rest of the kernel
    (files, process numbers, the programs on disk) is an argument. *)

From ITree Require Import ITree.
From S2P Require Import Prelude Machine Kstate Printf Fs Text Grep Syscall Filter User Commands UserIo Runs.

(** ** Processes *)

Record fproc := mkF {
  f_pid : Z;
  f_mask : Z;                 (* syscall_mask *)
  f_child : Z;                (* child_syscall_mask *)
  f_audit : Z;
  f_strict : Z;
  f_sz : Z;
  f_dead : list (Z * Z);      (* children that can be waited for *)
}.
#[global] Instance eta_fproc : Settable fproc :=
  λ p, mkF (f_pid p) (f_mask p) (f_child p) (f_audit p) (f_strict p) (f_sz p) (f_dead p).

(** What happens: the process [p] has a call executed, one refused, or ends. *)
Inductive fact :=
  | Ran (p : fproc) {X : Type} (e : userE X)
  | Denied (num : Z)
  | Exited (status : Z)
  | Killed (num : Z).
Abbreviation ftree := (tree fact).

(** The rest of the system. *)
Class Answers := {
  a_pid : fproc → Z;                                       (* the number of the next child *)
  a_forks : fproc → option bool;                           (* None: fork succeeds; else whether the child mask is kept *)
  a_prog : list Z → option (list (list Z) → uprog Z);      (* the programs on disk *)
  a_pick : fproc → nat;                                    (* which child wait reports *)
  a_int : fproc → userE Z → Z;
  a_read : fproc → userE (Z * list Z) → Z * list Z;
  a_pipe : fproc → Z * (Z * Z);
  a_fstat : fproc → userE (Z * ustat) → Z * ustat;
  a_pid_range : ∀ p, 2 < a_pid p ≤ INT_MAX;
}.

(** ** The decision *)

Definition number {X} (e : userE X) : Z :=
  match e with
  | Fork => SYS_fork | Exit _ => SYS_exit | Wait => SYS_wait | Pipe => SYS_pipe | Read _ _ => SYS_read
  | Write _ _ => SYS_write | Close _ => SYS_close | Kill _ => SYS_kill | Exec _ _ => SYS_exec | Open _ _ => SYS_open
  | Mknod _ _ _ => SYS_mknod | Unlink _ => SYS_unlink | Fstat _ => SYS_fstat | Link _ _ => SYS_link
  | Mkdir _ => SYS_mkdir | Chdir _ => SYS_chdir | Dup _ => SYS_dup | Getpid => SYS_getpid | Uptime => SYS_uptime
  | Setfilter _ => SYS_setfilter | Getfilter => SYS_getfilter | Setfilter_child _ => SYS_setfilter_child
  | Setaudit _ => SYS_setaudit | Setstrict _ => SYS_setstrict | Sbrk _ => SYS_sbrk | Stuck _ => 0
  end.

(** A path argument as the kernel fetches it. *)
Definition fetched (path : list Z) : option (list Z) :=
  if (length (cstr path) <? MAXPATH)%nat then Some (cstr path) else None.

(** The policy for the call [e], were its number blocked. *)
Definition verdict_of {X} (p : fproc) (e : userE X) : verdict :=
  match e with
  | Open path mode => policy SYS_open 0 mode (f_sz p) (fetched path)
  | Exec path _ => policy SYS_exec 0 0 (f_sz p) (fetched path)
  | Unlink path => policy SYS_unlink 0 0 (f_sz p) (fetched path)
  | Kill pid => policy SYS_kill pid 0 (f_sz p) None
  | Sbrk n => policy SYS_sbrk n 0 (f_sz p) None
  | e => policy (number e) 0 0 (f_sz p) None
  end.

Definition blocked {X} (p : fproc) (e : userE X) : bool := Z.testbit (f_mask p) (number e).

(** -1 in the type of the result. *)
Definition failure {X} (e : userE X) : option X :=
  match e in userE X return option X with
  | Exit _ | Stuck _ => None
  | Read _ _ => Some (-1, [])
  | Wait => Some (-1, 0)
  | Pipe => Some (-1, (0, 0))
  | Fstat _ => Some (-1, mkStat 0 0 0 0 0)
  | Getfilter => Some (u64 (-1))
  | Fork | Write _ _ | Close _ | Kill _ | Exec _ _ | Open _ _ | Mknod _ _ _ | Unlink _ | Link _ _ | Mkdir _ | Chdir _
  | Dup _ | Getpid | Uptime | Setfilter _ | Setfilter_child _ | Setaudit _ | Setstrict _ | Sbrk _ => Some (-1)
  end.

(** The exit status of a process, from what it does. *)
Fixpoint status (t : ftree) : Z :=
  match t with
  | End (Exited st) => st
  | End _ => -1
  | Do _ t => status t
  | Both _ t => status t
  end.

Section answers.
Context {An : Answers}.

Definition child_of (p : fproc) : fproc :=
  mkF (a_pid p) (if f_child p =? 0 then f_mask p else f_child p) 0 (f_audit p) (f_strict p) (f_sz p) [].
Definition parent_of (p : fproc) (t : ftree) : fproc :=
  p <| f_child := 0 |> <| f_dead ::= λ l, l ++ [(a_pid p, status t)] |>.

(** A call that is executed. *)
Definition execute {X} (p : fproc) (e : userE X) : reply fact fproc X :=
  match e in userE X return reply fact fproc X with
  | Exit st => Ends (Exited st)
  | Stuck _ => Unknown
  | Fork =>
      match a_forks p with
      | None => Splits 0 (child_of p) (a_pid p) (parent_of p)
      | Some true => Does (Ran p Fork) (-1) p
      | Some false => Does (Ran p Fork) (-1) (p <| f_child := 0 |>)
      end
  | Wait =>
      let i := (a_pick p `mod` length (f_dead p))%nat in
      match f_dead p !! i with
      | Some z => Does (Ran p Wait) z (p <| f_dead ::= delete i |>)
      | None => Does (Ran p Wait) (-1, 0) p
      end
  | Exec path argv =>
      match a_prog (cstr path) with
      | Some main => Becomes (Ran p (Exec path argv)) (start (main argv)) p
      | None => Does (Ran p (Exec path argv)) (-1) p
      end
  | Getpid => Does (Ran p Getpid) (f_pid p) p
  | Getfilter => Does (Ran p Getfilter) (f_mask p) p
  | Setfilter mask =>
      if decide (mask_le (f_mask p) (u64 mask)) then Does (Ran p (Setfilter mask)) 0 (p <| f_mask := u64 mask |>)
      else Does (Ran p (Setfilter mask)) (-1) p
  | Setfilter_child mask =>
      if decide (mask_le (f_mask p) (u64 mask)) then Does (Ran p (Setfilter_child mask)) 0 (p <| f_child := u64 mask |>)
      else Does (Ran p (Setfilter_child mask)) (-1) p
  | Setaudit on => Does (Ran p (Setaudit on)) 0 (p <| f_audit := i32 on |>)
  | Setstrict on => Does (Ran p (Setstrict on)) 0 (p <| f_strict := i32 on |>)
  | Sbrk n =>
      let r := a_int p (Sbrk n) in
      Does (Ran p (Sbrk n)) r (if r =? -1 then p else p <| f_sz ::= Z.add n |>)
  | Read fd n => Does (Ran p (Read fd n)) (a_read p (Read fd n)) p
  | Pipe => Does (Ran p Pipe) (a_pipe p) p
  | Fstat fd => Does (Ran p (Fstat fd)) (a_fstat p (Fstat fd)) p
  | Write fd bs => Does (Ran p (Write fd bs)) (a_int p (Write fd bs)) p
  | Close fd => Does (Ran p (Close fd)) (a_int p (Close fd)) p
  | Kill pid => Does (Ran p (Kill pid)) (a_int p (Kill pid)) p
  | Open path mode => Does (Ran p (Open path mode)) (a_int p (Open path mode)) p
  | Mknod path a b => Does (Ran p (Mknod path a b)) (a_int p (Mknod path a b)) p
  | Unlink path => Does (Ran p (Unlink path)) (a_int p (Unlink path)) p
  | Link old new => Does (Ran p (Link old new)) (a_int p (Link old new)) p
  | Mkdir path => Does (Ran p (Mkdir path)) (a_int p (Mkdir path)) p
  | Chdir path => Does (Ran p (Chdir path)) (a_int p (Chdir path)) p
  | Dup fd => Does (Ran p (Dup fd)) (a_int p (Dup fd)) p
  | Uptime => Does (Ran p Uptime) (a_int p Uptime) p
  end.

(** The dispatcher: a blocked call that the policy does not let through fails,
    or kills the process in strict mode.  What the kernel logs is not part of what
    processes do. *)
Definition dispatch {X} (p : fproc) (e : userE X) : reply fact fproc X :=
  if blocked p e then
    match verdict_of p e with
    | VRun => execute p e
    | VBadPath => match failure e with Some a => Does (Denied (number e)) a p | None => Unknown end
    | VDeny =>
        if f_strict p =? 0 then match failure e with Some a => Does (Denied (number e)) a p | None => Unknown end
        else Ends (Killed (number e))
    end
  else execute p e.
#[export] Instance filtered : Calls fact fproc := λ X e p, dispatch p e.
End answers.

(** ** Confinement *)

(** The process and the children it will have block at least [M]. *)
Definition confined (M : Z) (p : fproc) : Prop :=
  mask_le M (f_mask p) ∧ (f_child p = 0 ∨ mask_le M (f_child p)).

(** Calls blocked by [M] are executed only as far as the policy lets them. *)
Definition fact_obeys (M : Z) (l : fact) : Prop :=
  match l with
  | Ran p e => Z.testbit M (number e) = true → verdict_of p e = VRun
  | Exited _ => Z.testbit M SYS_exit = false
  | Denied _ | Killed _ => True
  end.
Fixpoint obeys (M : Z) (t : ftree) : Prop :=
  match t with
  | End l => fact_obeys M l
  | Do l t => fact_obeys M l ∧ obeys M t
  | Both c t => Z.testbit M SYS_fork = false ∧ obeys M c ∧ obeys M t
  end.

Definition reply_obeys {X} (M : Z) (r : reply fact fproc X) : Prop :=
  match r with
  | Ends l => fact_obeys M l
  | Returns _ p => confined M p
  | Does l _ p => fact_obeys M l ∧ confined M p
  | Splits _ p _ q => Z.testbit M SYS_fork = false ∧ confined M p ∧ ∀ t, confined M (q t)
  | Becomes l _ p => fact_obeys M l ∧ confined M p
  | Unknown => True
  end.

Section confinement.
Context {An : Answers}.

Lemma execute_obeys {X} M p (e : userE X) :
  confined M p → (Z.testbit M (number e) = true → verdict_of p e = VRun) → reply_obeys M (execute p e).
Proof.
  intros Hp He. pose proof Hp as [Hm Hc].
  destruct e; cbn [execute reply_obeys]; repeat case_match; cbn [reply_obeys fact_obeys]; try done; try (split; [exact He | done]).
  - split; [exact He |]. split; [exact Hm | by left].
  - split; [by destruct (Z.testbit M SYS_fork) eqn:E; [specialize (He E) |] |]. split; [| by split; [| left]].
    split; [cbn | by left]. destruct (Z.eqb_spec (f_child p) 0); [done | by destruct Hc].
  - by destruct (Z.testbit M SYS_exit) eqn:E; [specialize (He E) |].
  - split; [exact He |]. split; [by etrans | done].
  - split; [exact He |]. split; [done | right; by etrans].
Qed.

Lemma filtered_obeys {X} M p (e : userE X) : confined M p → reply_obeys M (sys e p).
Proof.
  intros Hp. unfold sys, filtered, dispatch, blocked. destruct (Z.testbit (f_mask p) (number e)) eqn:Eb.
  - destruct (verdict_of p e) eqn:Ev; [by apply execute_obeys | by destruct (failure e) |].
    destruct (f_strict p =? 0); [by destruct (failure e) | done].
  - apply execute_obeys; [done |]. intros H. destruct Hp as [Hm _]. rewrite mask_le_testbit in Hm. rewrite (Hm _ H) in Eb. done.
Qed.

Lemma runs_obeys M {A} (Q : A → fproc → ftree → Prop) t p tr :
  (∀ a p tr, confined M p → Q a p tr → obeys M tr) → confined M p → runs Q t p tr → obeys M tr.
Proof.
  intros HQ Hp H. revert HQ Hp. induction H as [A Q t a s tr Ht H | A Q t t' s tr Ht _ IH | A Q t X e k s l Ht Hs
    | A Q t X e k s a s' tr Ht Hs _ IH | A Q t X e k s l a s' tr Ht Hs _ IH | A Q t X e k s a s1 a' s2 tr tr' Ht Hs _ IH1 _ IH2
    | A Q t X e k s l t' s' tr Ht Hs _ IH]; intros HQ Hp; try (pose proof (filtered_obeys M s e Hp) as He; rewrite Hs in He; cbn in He).
  - by eapply HQ.
  - by apply IH.
  - done.
  - by apply IH.
  - destruct He as [Hl Hp']. split; [exact Hl | by apply IH].
  - destruct He as (Hf & Hc & Hq). split; [done |]. split; [by apply IH1 | by apply IH2].
  - destruct He as [Hl Hp']. split; [exact Hl |]. apply IH; [by intros ? ? ? ? [] | done].
Qed.

(** ** Theorems *)

End confinement.
