(* ===== verification/Suite.v ===== *)
(** * Programs that use the filter (user/filter.c, sandbox.c, sandbox_strict.c,
    filtertest.c, scenariotest.c, test_profile.c, test_child.c, test_exec.c,
    realworld_app.c, sandboxdemo.c, filter_demo.c)

    The demonstrations and acceptance tests of the filter, as programs over the
    system calls. *)

From ITree Require Import ITree.
From S2P Require Import Prelude Machine Kstate Printf Fs Text Grep Syscall User Commands.

Definition say (s : string) : uprog unit := uprintf s [].
Arguments say _%_string.

(** A format with quotation marks, in pieces around them. *)
Definition say_quoted (a b c : string) (ap : list varg) : uprog unit :=
  vprintf 1 (bytes_of_string a ++ 34 :: bytes_of_string b ++ 34 :: bytes_of_string c) ap false.
Arguments say_quoted _%_string _%_string _%_string _.

(** [SANDBOX_BLOCK(num)]. *)
Definition BLOCK (num : Z) : Z := Z.shiftl 1 num.

(** ** The library (user/filter.c) *)

Definition pure_compute_mask : Z :=
  foldl (λ mask num, Z.lor mask (BLOCK num)) 0
    [SYS_open; SYS_write; SYS_read; SYS_mknod; SYS_unlink; SYS_link; SYS_mkdir; SYS_chdir].
Definition apply_profile (profile : list Z) : uprog Z :=
  if strcmp profile (bytes_of_string "PURE_COMPUTE") =? 0 then call (Setfilter pure_compute_mask) else mret (-1).
Definition block_syscall (num : Z) : uprog Z := call (Setfilter (BLOCK num)).
Definition set_audit (enable : Z) : uprog Z := call (Setaudit enable).

(** [status] after [wait(&status)]. *)
Definition wait_status : uprog Z := r ← call Wait; mret r.2.

(** ** filtertest.c *)

Definition result (name : string) (ok : bool) : uprog unit :=
  if ok then uprintf "[PASS] %s
" [VS (Some (bytes_of_string name))]
  else uprintf "[FAIL] %s
" [VS (Some (bytes_of_string name))].
Arguments result _%_string _.

(** [exit(ok ? 1 : 0)]. *)
Definition exit_ok {A} (ok : bool) : uprog A := exit (if ok then 1 else 0).

(** The tests run [child] in a child and expect it to exit with 1. *)
Definition in_child (name : string) (child : uprog unit) : uprog unit :=
  pid ← call Fork;
  if pid =? 0 then child
  else status ← wait_status; result name (status =? 1).
Arguments in_child _%_string _.

Definition test1_initial_mask_zero : uprog unit :=
  in_child "TC1: Default mask == 0" (mask ← call Getfilter; exit_ok (mask =? 0)).

Definition test2_set_get_mask : uprog unit :=
  in_child "TC2: Set and Get filter mask"
    (call (Setfilter (BLOCK SYS_uptime));; got ← call Getfilter; exit_ok (got =? BLOCK SYS_uptime)).

Definition test3_fork_inheritance : uprog unit :=
  in_child "TC3: Fork inheritance"
    (call (Setfilter (BLOCK SYS_uptime));;
     pid2 ← call Fork;
     if pid2 =? 0 then mask ← call Getfilter; exit_ok (mask =? BLOCK SYS_uptime)
     else status ← wait_status; exit status).

Definition test4_policy_weaken : uprog unit :=
  in_child "TC4: Policy C (Deny weaken)"
    (call (Setfilter (BLOCK SYS_uptime));; r ← call (Setfilter 0); exit_ok (r =? -1)).

Definition test5_policy_tighten : uprog unit :=
  in_child "TC5: Policy C (Allow tighten)"
    (call (Setfilter (BLOCK SYS_uptime));;
     r ← call (Setfilter (Z.lor (BLOCK SYS_uptime) (BLOCK SYS_sbrk)));
     exit_ok (r =? 0)).

Definition test6_write_blocked : uprog unit :=
  in_child "TC6: write() is properly blocked"
    (call (Setfilter (BLOCK SYS_write));;
     r ← call (Write 1 (bytes_of_string "should fail
"));
     exit_ok (r =? -1)).

Definition filtertest_main : uprog Z :=
  say "
--- FILTER TEST SUITE (ACCEPTANCE) ---
";;
  test1_initial_mask_zero;;
  test2_set_get_mask;;
  test3_fork_inheritance;;
  test4_policy_weaken;;
  test5_policy_tighten;;
  test6_write_blocked;;
  say "------------------------------------------

";;
  exit 0.

(** ** sandbox.c *)

Definition print_mask (mask : Z) : uprog unit :=
  uprintf "0x%x%x" [VZ (u32 (Z.shiftr mask 32)); VZ (u32 mask)].

Definition sandbox_default : uprog Z :=
  current ← call Getfilter;
  say "[Sandbox] Current process filter: ";;
  print_mask current;;
  say "
[Sandbox] Default = 0 (No syscalls are blocked).
";;
  ticks ← call Uptime;
  uprintf "[Sandbox] Try calling uptime()... Result tick: %d
" [VZ ticks];;
  exit 0.

Definition sandbox_test_child : uprog Z :=
  say "[Parent] Setting child_syscall_mask to block uptime for child...
";;
  call (Setfilter_child (BLOCK SYS_uptime));;
  pid ← call Fork;
  if pid <? 0 then
    say "[Error] Fork failed!
";;
    exit 1
  else if pid =? 0 then
    say "[Child] Child process created.
";;
    say "[Child] Current child filter: ";;
    mask ← call Getfilter;
    print_mask mask;;
    say "
[Child] Child starts calling uptime()...
";;
    call Uptime;;
    say "[Child] [FAILED] This line should not be printed if sandbox works!
";;
    exit 0
  else
    wait_status;;
    uprintf "[Parent] Child process (PID: %d) has terminated.
" [VZ pid];;
    exit 0.

Definition sandbox_test_audit : uprog Z :=
  say "[Parent] Enable security audit flag via setaudit(1)...
";;
  call (Setaudit 1);;
  say "[Parent] Revoke write permission (SYS_WRITE) of child process...
";;
  call (Setfilter_child (BLOCK SYS_write));;
  pid ← call Fork;
  if pid =? 0 then
    say "[Child] Intentionally violate security by calling printf/write...
";;
    exit 0
  else
    wait_status;;
    say "[Parent] Audit test completed. Please check Kernel Console for logs.
";;
    exit 0.

Definition sandbox_main (argv : list (list Z)) : uprog Z :=
  match argv with
  | _ :: arg :: _ =>
      if strcmp arg (bytes_of_string "default") =? 0 then sandbox_default
      else if strcmp arg (bytes_of_string "test_child") =? 0 then sandbox_test_child
      else if strcmp arg (bytes_of_string "test_audit") =? 0 then sandbox_test_audit
      else
        say "[Error] Invalid parameter.
";;
        exit 1
  | _ =>
      say "Usage: sandbox [default | test_child | test_audit]
";;
      exit 1
  end.

(** ** sandbox_strict.c *)

Definition strict_header : uprog unit :=
  say "====================================================
";;
  say "  STRICT MODE (SANDBOX) TEST SCENARIOS              
";;
  say "====================================================

".

Definition strict_scenario1 : uprog unit :=
  say "[SCENARIO 1] Testing with Strict Mode = 0 (Disabled)
";;
  call (Setfilter (BLOCK 14));;
  call (Setstrict 0);;
  say "-> Blocked uptime but DID NOT enable strict mode.
";;
  say "-> Process attempting to call uptime()...
";;
  result ← call Uptime;
  if result =? -1 then
    say "[SUCCESS] uptime() blocked and returned -1 as designed. Process is still alive!

"
  else
    uprintf "[FAILED] uptime() was not blocked (Returned: %d)!

" [VZ result].

Definition strict_child : uprog Z :=
  call (Setfilter (BLOCK 14));;
  call (Setstrict 1);;
  pid ← call Getpid;
  uprintf "[Child - PID: %d] Blocked uptime and ENABLED Strict Mode.
" [VZ pid];;
  pid ← call Getpid;
  uprintf "[Child - PID: %d] Preparing to call violating uptime()...
" [VZ pid];;
  call Uptime;;
  say "[CRITICAL ERROR] Child process survived after Strict Mode violation!
";;
  exit 0.

Definition strict_report (pid : Z) : uprog unit :=
  wait_status;;
  uprintf "
[Parent] Child process (PID: %d) has terminated.
" [VZ pid];;
  say "[CONCLUSION]:
";;
  say "  => If the system printed:
";;
  say_quoted "     " "Sandbox: Process %d KILLED due to strict violation!" "
" [VZ pid];;
  say "  => Then Strict Mode (Kill on Violation) is WORKING PERFECTLY!
";;
  say "====================================================
".

Definition sandbox_strict_main : uprog Z :=
  strict_header;;
  strict_scenario1;;
  call (Setfilter 0);;
  say "----------------------------------------------------
";;
  say "[SCENARIO 2] Testing with Strict Mode = 1 (Enabled)
";;
  pid ← call Fork;
  if pid <? 0 then
    say "Error: Cannot fork child process!
";;
    exit 1
  else if pid =? 0 then strict_child
  else strict_report pid;; exit 0.

(** ** scenariotest.c *)

Definition scenario_child : uprog unit :=
  say "
[Child] Enable Sandbox: Block open()...
";;
  r ← call (Setfilter (BLOCK SYS_open));
  if r <? 0 then
    say "[Child] setfilter error!
";;
    exit 1
  else
    set_audit 1;;
    say "[Child] Starting 'cat secret.txt' process...
";;
    call (Exec (bytes_of_string "cat") [bytes_of_string "cat"; bytes_of_string "secret.txt"]);;
    say "[Child] Error: Cannot exec(cat)!
";;
    exit 1.

Definition run_scenario_test : uprog unit :=
  pid ← call Fork;
  if pid <? 0 then
    say "[Scenario Test] Error: Cannot fork!
";;
    exit 1
  else if pid =? 0 then scenario_child
  else
    status ← wait_status;
    say "
[Parent] 'cat' has terminated.
";;
    if status =? 1 then
      say "[PASS] Scenario Test: 'cat' was safely blocked from reading file (Graceful Fail)!
"
    else
      say "[FAIL] Scenario Test: Sandbox failed, 'cat' read the file!
".

Definition scenariotest_main : uprog Z :=
  say "--- START SCENARIO TEST ---
";;
  run_scenario_test;;
  exit 0.

(** ** test_profile.c *)

Definition profile_child : uprog Z :=
  r ← apply_profile (bytes_of_string "PURE_COMPUTE");
  if r <? 0 then exit 1
  else
    ptr ← call (Sbrk 4096);
    if ptr =? -1 then exit 2
    else
      call (Open (bytes_of_string "README") 0);;
      exit 0.

Definition test_profile_main : uprog Z :=
  say "====================================================
";;
  say "     TESTING TASK 2.2: PREDEFINED PROFILES          
";;
  say "====================================================

";;
  say "[PHASE 1] Process running normally...
";;
  fd ← call (Open (bytes_of_string "README") 0);
  (if 0 <=? fd then
     uprintf "   => Opened README SUCCESSFULLY (fd = %d).
" [VZ fd];;
     call (Close fd);;
     mret tt
   else mret tt);;
  say "
";;
  say "[PHASE 2] Activating Profile: PURE_COMPUTE
";;
  say "-> System automatically calculates bitmask and configures Sandbox...
";;
  pid ← call Fork;
  if pid <? 0 then
    say "Fork error!
";;
    exit 1
  else if pid =? 0 then profile_child
  else
    wait_status;;
    say "
[PHASE 3 & 4 - KERNEL VALIDATION RESULTS]:
";;
    uprintf " -> Child process (PID: %d) executed Profile flow.
" [VZ pid];;
    say " -> System recorded termination state.
";;
    say "
====================================================
";;
    say " => CONCLUSION: Child was successfully blocked or terminated!
";;
    say "====================================================
";;
    exit 0.

(** ** test_child.c *)

Definition test_read (name : string) : uprog unit :=
  fd ← call (Open (bytes_of_string "README") O_RDONLY);
  if fd <? 0 then uprintf "%s: Cannot open README file
" [VS (Some (bytes_of_string name))]
  else
    '(n, _) ← call (Read fd 10);
    (if n <? 0 then uprintf "%s: READ BLOCKED! (Success)
" [VS (Some (bytes_of_string name))]
     else uprintf "%s: READ NORMAL! (Not blocked)
" [VS (Some (bytes_of_string name))]);;
    call (Close fd);;
    mret tt.
Arguments test_read _%_string.

Definition test_child_main : uprog Z :=
  say "--- START SETFILTER_CHILD TEST ---
";;
  r ← call (Setfilter_child (BLOCK SYS_read));
  if r <? 0 then
    say "Error: Cannot call setfilter_child
";;
    exit 1
  else
    say "Parent: Set rule to block READ for children.
";;
    say "Parent: Trying to read file...
";;
    test_read "Parent";;
    pid ← call Fork;
    if pid <? 0 then
      say "Fork error
";;
      exit 1
    else if pid =? 0 then
      say "
Child: Trying to read file (should be blocked)...
";;
      test_read "Child";;
      exit 0
    else
      call Wait;;
      say "
--- END OF TEST ---
";;
      exit 0.

(** ** test_exec.c *)

Definition test_exec_main : uprog Z :=
  say "--- TEST EXEC: Check filter persistence ---
";;
  say "1. Current process has permission to print (write).
";;
  r ← call (Setfilter (BLOCK SYS_write));
  if r <? 0 then
    say "Error: Cannot setfilter
";;
    exit 1
  else
    call (Exec (bytes_of_string "ls") [bytes_of_string "ls"]);;
    exit 0.

(** ** realworld_app.c *)

Definition worker (client_id : Z) : uprog unit :=
  uprintf "
   [Worker %d] Started processing untrusted data...
" [VZ client_id];;
  r ← call (Setfilter (Z.lor (Z.lor (BLOCK SYS_exec) (BLOCK SYS_fork)) (BLOCK SYS_open)));
  if r <? 0 then
    uprintf "   [Worker %d] Error: Sandbox initialization failed!
" [VZ client_id];;
    exit 1
  else
    call (Setstrict 1);;
    set_audit 1;;
    uprintf "   [Worker %d] Sandbox LOCKED & Strict Mode ENABLED.
" [VZ client_id];;
    uprintf "   [Worker %d] Doing harmless computation... (Valid)
" [VZ client_id];;
    uprintf "   [Worker %d] [WARNING] Buffer overflow exploited by attacker!
" [VZ client_id];;
    say_quoted "   [Worker %d] [WARNING] Attacker is attempting to spawn a root shell via exec(" "sh" ")...
" [VZ client_id];;
    call (Exec (bytes_of_string "sh") [bytes_of_string "sh"]);;
    uprintf "   [Worker %d] [CRITICAL] Sandbox failed! Attacker has ROOT SHELL!
" [VZ client_id];;
    exit 0.

Definition handle_client_request (client_id : Z) : uprog unit :=
  pid ← call Fork;
  if pid <? 0 then
    uprintf "[Master] Error: Cannot fork worker for client %d
" [VZ client_id]
  else if pid =? 0 then worker client_id
  else
    status ← wait_status;
    (if status =? 0 then
       uprintf "[Master] Worker for client %d finished normally.
" [VZ client_id]
     else
       uprintf "[Master] [ALERT] Worker for client %d was KILLED by Kernel (Sandbox Violation)!
" [VZ client_id];;
       say "[Master] [ALERT] Threat neutralized. Master process is safe and continues to serve other clients.
");;
    say "----------------------------------------------------
".

Definition realworld_main : uprog Z :=
  say "====================================================
";;
  say "     REAL-WORLD SANDBOX APPLICATION: SECURE SERVER  
";;
  say "====================================================
";;
  say "[Master] Server started. Listening for connections...
";;
  say "----------------------------------------------------
";;
  say "[Master] Received Request 1 (Normal User)...
";;
  handle_client_request 1;;
  say "[Master] Received Request 2 (Malicious Hacker)...
";;
  handle_client_request 2;;
  say "[Master] Server shutting down safely.
";;
  exit 0.

(** ** sandboxdemo.c, filter_demo.c *)

Definition test_sandbox : uprog unit :=
  pid ← call Fork;
  if pid <? 0 then exit 1
  else if pid =? 0 then
    say "
[Child] Initializing Sandbox...
";;
    r ← block_syscall SYS_open;
    if r <? 0 then
      say "[Child] Error: Cannot set filter!
";;
      exit 1
    else
      r ← set_audit 1;
      if r <? 0 then
        say "[Child] Error: Cannot enable Audit!
";;
        exit 1
      else
        say "[Child] Testing write() (Allowed)...
";;
        call (Write 1 (bytes_of_string "[Child] Write works normally!
"));;
        say "[Child] Testing open() (Blocked)...
";;
        fd ← call (Open (bytes_of_string "secret.txt") 0);
        if fd <? 0 then
          say "[Child] Success! open() was blocked by sandbox.
";;
          exit 0
        else
          say "[Child] FAIL! Sandbox malfunctioned.
";;
          exit 1
  else
    call Wait;;
    mret tt.

Definition sandboxdemo_main : uprog Z :=
  say "--- SANDBOX DEMO ON XV6 ---
";;
  test_sandbox;;
  exit 0.

Definition filter_demo_main : uprog Z :=
  say "--- INITIALIZING SANDBOX DEMO ---
";;
  say "Step 1: Enabling filter (BLOCK write and open)...
";;
  r ← call (Setfilter (Z.lor (BLOCK SYS_write) (BLOCK SYS_open)));
  if r <? 0 then exit 1
  else
    call (Open (bytes_of_string "secret.txt") 0);;
    exit 0.
