(* ===== verification/SuiteSpec.v ===== *)
(** * What the filter's programs do

    The acceptance tests and demonstrations of Suite.v, run under the filter
    (Confine.v) for any process numbers and any answers of the rest of the
    system. *)

From ITree Require Import ITree.
From S2P Require Import Prelude Machine Kstate Printf Fs Text Grep Syscall Filter User Commands UserIo Runs Confine Suite.

(** ** What can be seen *)

Definition written_by {X} (e : userE X) : list Z :=
  match e with Write fd bs => if fd =? 1 then bs else [] | _ => [] end.

(** What a process itself writes to its standard output. *)
Fixpoint output (t : ftree) : list Z :=
  match t with
  | Do (Ran _ e) t => written_by e ++ output t
  | End _ => []
  | Do _ t | Both _ t => output t
  end.

(** What its children do. *)
Fixpoint children (t : ftree) : list ftree :=
  match t with
  | End _ => []
  | Do _ t => children t
  | Both c t => c :: children t
  end.

(** The bytes [bs] written to [fd], or refused. *)
Definition printed (p : fproc) (fd : Z) (bs : list Z) (t : ftree) : ftree :=
  writing (λ b, if Z.testbit (f_mask p) SYS_write then Denied SYS_write else Ran p (Write fd [b])) bs t.

Lemma output_printed p bs t :
  output (printed p 1 bs t) = (if Z.testbit (f_mask p) SYS_write then [] else bs) ++ output t.
Proof.
  unfold printed, writing. destruct (Z.testbit _ _); (induction bs as [|b bs IH]; [done |]); [exact IH |].
  change (b :: output (foldr (λ b, Do (Ran p (Write 1 [b]))) t bs) = b :: bs ++ output t). f_equal. exact IH.
Qed.

Lemma output_said p bs t : Z.testbit (f_mask p) SYS_write = false → output (printed p 1 bs t) = bs ++ output t.
Proof. intros H. by rewrite output_printed, H. Qed.

Lemma children_printed p fd bs t : children (printed p fd bs t) = children t.
Proof. unfold printed, writing. by induction bs. Qed.

Lemma status_printed p fd bs t : status (printed p fd bs t) = status t.
Proof. unfold printed, writing. by induction bs. Qed.

Lemma status_do l t : status (Do l t) = status t.
Proof. by destruct l. Qed.
Lemma status_both c t : status (Both c t) = status t.
Proof. done. Qed.
Lemma children_do l t : children (Do l t) = children t.
Proof. done. Qed.
Lemma children_both c t : children (Both c t) = c :: children t.
Proof. done. Qed.
Lemma output_quiet {X} p (e : userE X) t : written_by e = [] → output (Do (Ran p e) t) = output t.
Proof. intros H. cbn [output]. by rewrite H. Qed.
Lemma output_denied n t : output (Do (Denied n) t) = output t.
Proof. done. Qed.
Lemma output_both c t : output (Both c t) = output t.
Proof. done. Qed.

Section programs.
Context {An : Answers}.

(** Writing is allowed, or fails without killing. *)
Definition can_say (p : fproc) : Prop := Z.testbit (f_mask p) SYS_write = false ∨ f_strict p = 0.

Lemma sys_write p fd b : can_say p → ∃ r,
  sys (Write fd [b]) p = Does (if Z.testbit (f_mask p) SYS_write then Denied SYS_write else Ran p (Write fd [b])) r p.
Proof.
  intros Hp. unfold sys, filtered, dispatch, blocked. cbn [number]. destruct (Z.testbit (f_mask p) SYS_write) eqn:E.
  - destruct Hp as [Hp|Hp]; [congruence |]. cbn. rewrite Hp. by eexists.
  - by eexists.
Qed.

Section rules.
Context {B : Type} (Q : B → fproc → ftree → Prop).

Lemma runs_out fd t bs (P : unit → fproc → ftree → Prop) p tr :
  can_say p → emits fd t bs → P tt p tr → runs P t p (printed p fd bs tr).
Proof. intros Hp Ht HP. apply (runs_says fd _ t); [| done | done]. intros b. by apply sys_write. Qed.

Lemma runs_print fd t bs (f : unit → uprog B) p tr :
  can_say p → emits fd t bs → runs Q (f tt) p tr → runs Q (t ≫= f) p (printed p fd bs tr).
Proof. intros Hp Ht Hf. apply runs_bind. by apply runs_out. Qed.

Lemma runs_forks (f : Z → uprog B) p tc tp :
  a_forks p = None → Z.testbit (f_mask p) SYS_fork = false →
  runs Q (f 0) (child_of p) tc → runs Q (f (a_pid p)) (parent_of p tc) tp → runs Q (call Fork ≫= f) p (Both tc tp).
Proof.
  intros Hf Hm Hc Hp. eapply runs_splits; [| exact Hc | exact Hp]. unfold sys, filtered, dispatch, blocked. cbn [number]. rewrite Hm.
  cbn. by rewrite Hf.
Qed.

Lemma runs_waits (f : Z * Z → uprog B) p z tr :
  f_dead p = [z] → Z.testbit (f_mask p) SYS_wait = false →
  runs Q (f z) (p <| f_dead := [] |>) tr → runs Q (call Wait ≫= f) p (Do (Ran p Wait) tr).
Proof.
  intros Hd Hm Hf. eapply runs_does; [| exact Hf]. unfold sys, filtered, dispatch, blocked. cbn [number]. rewrite Hm.
  cbn. rewrite Hd. cbn [length]. rewrite Nat.mod_1_r. cbn. by destruct p; cbn in *; subst.
Qed.
End rules.

Lemma runs_status {B} (Q : B → fproc → ftree → Prop) (f : Z → uprog B) p z tr :
  f_dead p = [z] → Z.testbit (f_mask p) SYS_wait = false →
  runs Q (f z.2) (p <| f_dead := [] |>) tr → runs Q (wait_status ≫= f) p (Do (Ran p Wait) tr).
Proof. intros Hd Hm Hf. apply runs_bind. eapply runs_waits; [done | done |]. by apply runs_ret. Qed.

Lemma runs_say {B} (Q : B → fproc → ftree → Prop) s (f : unit → uprog B) p tr :
  can_say p → forallb plain (bytes_of_string s) = true →
  runs Q (f tt) p tr → runs Q (say s ≫= f) p (printed p 1 (bytes_of_string s) tr).
Proof. intros Hp Hs. apply runs_print; [done |]. by apply emits_plain. Qed.

Lemma runs_say_inv {B} (Q : B → fproc → ftree → Prop) s (f : unit → uprog B) p tr :
  runs Q (say s ≫= f) p tr → can_say p → forallb plain (bytes_of_string s) = true →
  ∃ tr', tr = printed p 1 (bytes_of_string s) tr' ∧ runs Q (f tt) p tr'.
Proof.
  intros H%runs_bind_inv Hp Hs. eapply (runs_says_inv 1) in H; [exact H | | by apply emits_plain]. intros b. by apply sys_write.
Qed.

(** A process without filter and without children. *)
Definition fresh (pid sz : Z) : fproc := mkF pid 0 0 0 0 sz [].

Lemma pid_tests p : (a_pid p =? 0) = false ∧ (a_pid p <? 0) = false.
Proof. pose proof (a_pid_range p). lia. Qed.

End programs.

(** What a tree shows, one node at a time. *)
Ltac watch := repeat first
  [ rewrite status_printed | rewrite status_do | rewrite status_both | rewrite children_printed | rewrite children_do
  | rewrite children_both | rewrite output_said by reflexivity | rewrite output_quiet by reflexivity
  | rewrite output_denied | rewrite output_both ].
Ltac settle := watch; cbn [output]; rewrite <-?app_assoc;
  repeat match goal with |- context [decimal ?z] => generalize (decimal z); intros ? end; vm_compute; reflexivity.

(** Output that is followed by more, and at the end. *)
Ltac says := apply runs_say; [by left | done |].
Ltac says_last := eapply runs_out; [by left | by apply emits_plain |].

Section suite.
Context {An : Answers}.

(** ** filtertest *)

Lemma emits_result name :
  forallb plain (bytes_of_string name) = true →
  emits 1 (result name true) (bytes_of_string "[PASS] " ++ bytes_of_string name ++ [10]).
Proof.
  intros Hn. apply (emits_text 1 (bytes_of_string "[PASS] ")); [done |].
  apply emits_str; [done | by apply (emits_plain 1 [10])].
Qed.

(** A test whose child exits with 1 passes. *)
Lemma runs_in_child {B} (Q : B → fproc → ftree → Prop) name child (f : unit → uprog B) pid sz tc tr :
  a_forks (fresh pid sz) = None → forallb plain (bytes_of_string name) = true →
  runs no_return child (child_of (fresh pid sz)) tc → status tc = 1 → runs Q (f tt) (fresh pid sz) tr →
  runs Q (in_child name child ≫= f) (fresh pid sz)
    (Both tc (Do (Ran (parent_of (fresh pid sz) tc) Wait)
      (printed (fresh pid sz) 1 (bytes_of_string "[PASS] " ++ bytes_of_string name ++ [10]) tr))).
Proof.
  intros Hf Hn Hc Hst Hk. apply runs_bind. apply runs_forks; [done | done | by apply runs_exits |].
  rewrite (proj1 (pid_tests _)). apply runs_bind. apply (runs_waits _ _ _ (a_pid (fresh pid sz), status tc)); [done | done |].
  apply runs_ret. cbn [snd]. rewrite Hst. apply (runs_out 1 _ _ _ (fresh pid sz)); [by left | by apply emits_result | exact Hk].
Qed.

(** The line a test prints when it passes. *)
Definition pass (name : string) : list Z := bytes_of_string "[PASS] " ++ bytes_of_string name ++ [10].
Arguments pass _%_string.

(** C6: the acceptance tests of the repository pass, whatever numbers the
    processes get: started without a filter, filtertest reports success for the
    default mask, for setting and reading a mask, for inheritance by fork, for
    refusing to weaken and allowing to tighten a mask, and for blocking write. *)
Theorem filtertest_passes pid sz :
  (∀ p, a_forks p = None) →
  ∃ t, (∀ t', runs no_return (start filtertest_main) (fresh pid sz) t' ↔ t' = t) ∧ status t = 0 ∧
    output t = bytes_of_string "
--- FILTER TEST SUITE (ACCEPTANCE) ---
" ++ pass "TC1: Default mask == 0" ++ pass "TC2: Set and Get filter mask" ++ pass "TC3: Fork inheritance" ++
      pass "TC4: Policy C (Deny weaken)" ++ pass "TC5: Policy C (Allow tighten)" ++ pass "TC6: write() is properly blocked" ++
      bytes_of_string "------------------------------------------

".
Proof.
  intros Hf. eexists. split; [intros t'; apply runs_unique; apply runs_bind; apply runs_say; [by left | done |] |].
  - eapply runs_in_child; [done | done | by does; apply runs_exit | reflexivity |].
    eapply runs_in_child; [done | done | by do 2 does; apply runs_exit | reflexivity |].
    eapply runs_in_child; [done | done | | |].
    { does. apply runs_forks; [done | done | by does; apply runs_exit |]. rewrite (proj1 (pid_tests _)). apply runs_bind.
      eapply runs_waits; [reflexivity | done |]. by apply runs_ret, runs_exit. }
    { reflexivity. }
    eapply runs_in_child; [done | done | by do 2 does; apply runs_exit | reflexivity |].
    eapply runs_in_child; [done | done | by do 2 does; apply runs_exit | reflexivity |].
    eapply runs_in_child; [done | done | by do 2 does; apply runs_exit | reflexivity |].
    apply runs_say; [by left | done | by apply runs_exit].
  - split; vm_compute; reflexivity.
Qed.

(** ** Formats *)

Lemma emits_fmt_d fd a z b :
  forallb plain a = true → forallb plain b = true → - 2 ^ 31 ≤ z < 2 ^ 31 →
  emits fd (vprintf fd (a ++ chr "%" :: chr "d" :: b) [VZ z] false) (a ++ decimal z ++ b).
Proof. intros Ha Hb Hz. apply emits_text; [done |]. apply emits_decimal; [done |]. by apply emits_plain. Qed.

Lemma runs_say_d {B} (Q : B → fproc → ftree → Prop) fmt a z b (f : unit → uprog B) p tr :
  can_say p → bytes_of_string fmt = a ++ chr "%" :: chr "d" :: b → forallb plain a = true → forallb plain b = true →
  - 2 ^ 31 ≤ z < 2 ^ 31 → runs Q (f tt) p tr →
  runs Q (uprintf fmt [VZ z] ≫= f) p (printed p 1 (a ++ decimal z ++ b) tr).
Proof. intros Hp Hfmt Ha Hb Hz. apply runs_print; [done |]. unfold uprintf. rewrite Hfmt. by apply emits_fmt_d. Qed.

(** ** sandbox_strict *)

(** The process after scenario 1. *)
Definition strict_parent (pid sz : Z) : fproc := mkF pid (BLOCK 14) 0 0 0 sz [].

Lemma strict_child_dies pid sz : 0 ≤ pid ≤ INT_MAX →
  ∃ c, runs no_return strict_child (mkF pid (BLOCK 14) 0 0 0 sz []) c ∧ status c = -1 ∧ children c = [] ∧
    output c = bytes_of_string "[Child - PID: " ++ decimal pid ++ bytes_of_string "] Blocked uptime and ENABLED Strict Mode.
[Child - PID: " ++ decimal pid ++ bytes_of_string "] Preparing to call violating uptime()...
".
Proof.
  unfold INT_MAX. intros Hpid. eexists. split.
  - unfold strict_child. do 3 does.
    eapply (runs_say_d _ _ (bytes_of_string "[Child - PID: ") pid); [by left | reflexivity | done | done | cbn; lia |]. does.
    eapply (runs_say_d _ _ (bytes_of_string "[Child - PID: ") pid); [by left | reflexivity | done | done | cbn; lia |].
    by apply runs_ends.
  - split; [by watch |]. split; [by watch |]. settle.
Qed.

Lemma a_pid_int p : - 2 ^ 31 ≤ a_pid p < 2 ^ 31.
Proof. pose proof (a_pid_range p). unfold INT_MAX in *. lia. Qed.

(** Strict mode at work: sandbox_strict, started without a filter, reports
    that the blocked uptime failed and left it alive; its child, in strict mode,
    is killed by the same call, prints nothing after it, and is reported with its
    number.  The attempt to remove the filter in between has no effect: the child
    starts with uptime blocked. *)
Theorem strict_demo_kills pid sz :
  (∀ p, a_forks p = None) →
  let n := a_pid (strict_parent pid sz) in
  ∃ t c, (∀ t', runs no_return (start sandbox_strict_main) (fresh pid sz) t' ↔ t' = t) ∧
    status t = 0 ∧ children t = [c] ∧ status c = -1 ∧
    runs no_return strict_child (mkF n (BLOCK SYS_uptime) 0 0 0 sz []) c ∧
    output c = bytes_of_string "[Child - PID: " ++ decimal n ++ bytes_of_string "] Blocked uptime and ENABLED Strict Mode.
[Child - PID: " ++ decimal n ++ bytes_of_string "] Preparing to call violating uptime()...
" ∧
    output t = bytes_of_string "====================================================
  STRICT MODE (SANDBOX) TEST SCENARIOS              
====================================================

[SCENARIO 1] Testing with Strict Mode = 0 (Disabled)
-> Blocked uptime but DID NOT enable strict mode.
-> Process attempting to call uptime()...
[SUCCESS] uptime() blocked and returned -1 as designed. Process is still alive!

----------------------------------------------------
[SCENARIO 2] Testing with Strict Mode = 1 (Enabled)

[Parent] Child process (PID: " ++ decimal n ++ bytes_of_string ") has terminated.
[CONCLUSION]:
  => If the system printed:
     " ++ [34] ++ bytes_of_string "Sandbox: Process " ++ decimal n ++ bytes_of_string " KILLED due to strict violation!" ++ [34] ++ bytes_of_string "
  => Then Strict Mode (Kill on Violation) is WORKING PERFECTLY!
====================================================
".
Proof.
  intros Hf n. pose proof (a_pid_int (strict_parent pid sz)) as Hn. fold n in Hn.
  destruct (strict_child_dies n sz) as (c & Hc & Hst & Hch & Hout); [pose proof (a_pid_range (strict_parent pid sz)); lia |].
  eexists _, c. split; [intros t'; apply runs_unique; apply runs_bind |].
  - apply runs_bind. do 2 says. says_last.
    apply runs_bind. says. do 2 does. do 2 says. does. says_last.
    does. do 2 says. apply runs_forks; [done | done | apply runs_exits; exact Hc |].
    rewrite (proj1 (pid_tests _)), (proj2 (pid_tests _)). apply runs_bind. eapply runs_status; [reflexivity | done |].
    eapply (runs_say_d _ _ (bytes_of_string "
[Parent] Child process (PID: ") n); [by left | reflexivity | done | done | done |]. do 2 says.
    eapply runs_print; [by left | | says; says_last; by apply runs_exit].
    apply (emits_fmt_d 1 (bytes_of_string "     " ++ [34] ++ bytes_of_string "Sandbox: Process ") n
      (bytes_of_string " KILLED due to strict violation!" ++ [34; 10])); done.
  - split; [by watch |]. split; [by watch |]. split; [done |]. split; [exact Hc |]. split; [exact Hout |]. settle.
Qed.

(** ** sandbox *)

Lemma runs_print_mask {B} (Q : B → fproc → ftree → Prop) mask (f : unit → uprog B) p tr :
  can_say p → runs Q (f tt) p tr →
  runs Q (print_mask mask ≫= f) p (printed p 1 (bytes_of_string "0x" ++
    (u8 <$> rev (uprintint_buf (u32 (u32 (Z.shiftr mask 32))) 16 false)) ++ (u8 <$> rev (uprintint_buf (u32 (u32 mask)) 16 false)) ++ []) tr).
Proof.
  intros Hp. apply runs_print; [done |]. apply (emits_text 1 (bytes_of_string "0x")); [done |].
  apply (emits_x 1 _ (bytes_of_string "%x")), (emits_x 1 _ []), emits_end.
Qed.

(** C39: the demonstration of the child mask contradicts its own text: under
    [sandbox test_child] the child's uptime is refused but the child goes on (strict
    mode is off), so it always prints the line that says it should not be printed
    if the sandbox works, and exits with status 0. *)
Theorem sandbox_demo_reports_failure pid sz arg0 :
  (∀ p, a_forks p = None) →
  ∃ t c, (∀ t', runs no_return (start (sandbox_main [arg0; bytes_of_string "test_child"])) (fresh pid sz) t' ↔ t' = t) ∧
    status t = 0 ∧ children t = [c] ∧ status c = 0 ∧
    output c = bytes_of_string "[Child] Child process created.
[Child] Current child filter: 0x04000
[Child] Child starts calling uptime()...
[Child] [FAILED] This line should not be printed if sandbox works!
".
Proof.
  intros Hf. eexists _, _. split; [intros t'; apply runs_unique; apply runs_bind |].
  - change (sandbox_main _) with sandbox_test_child. unfold sandbox_test_child. says. does. apply runs_forks; [done | done | |].
    + do 2 says. does. apply runs_print_mask; [by left |]. says. does. says. by apply runs_exit.
    + rewrite (proj1 (pid_tests _)), (proj2 (pid_tests _)). eapply runs_status; [reflexivity | done |].
      eapply (runs_say_d _ _ (bytes_of_string "[Parent] Child process (PID: ")); [by left | reflexivity | done | done | apply a_pid_int |].
      by apply runs_exit.
  - split; [by watch |]. split; [by watch |]. split; [by watch |]. settle.
Qed.

(** ** test_profile *)

(** C40: the PURE_COMPUTE profile, described as closing the file system, lets files
    be opened: the child of test_profile applies it, and its call that the kernel
    is said to catch, opening README, is executed; the child lives on and exits
    with status 0. *)
Theorem profile_opens_files pid sz :
  let p := fresh pid sz in
  let q := p <| f_mask := pure_compute_mask |> in
  let q' := q <| f_sz ::= Z.add 4096 |> in
  a_int q (Sbrk 4096) ≠ -1 → Z.testbit (f_mask q') SYS_open = true ∧ ∀ t,
    runs no_return (start profile_child) p t ↔
    t = Do (Ran p (Setfilter pure_compute_mask)) (Do (Ran q (Sbrk 4096))
          (Do (Ran q' (Open (bytes_of_string "README") 0)) (End (Exited 0)))).
Proof.
  intros p q q' Hs. split; [done |]. intros t. apply runs_unique. apply runs_bind. apply runs_bind.
  change (apply_profile _) with (call (Setfilter pure_compute_mask)). eapply runs_does_last; [reflexivity |].
  cbn [Z.ltb Z.compare]. eapply (runs_does _ _ _ _ q _ q'); [| cbv beta; replace (a_int q (Sbrk 4096) =? -1) with false by lia].
  - change (Does (Ran q (Sbrk 4096)) (a_int q (Sbrk 4096)) (if a_int q (Sbrk 4096) =? -1 then q else q') =
      Does (Ran q (Sbrk 4096)) (a_int q (Sbrk 4096)) q'). by replace (a_int q (Sbrk 4096) =? -1) with false by lia.
  - does. by apply runs_exit.
Qed.

(** ** scenariotest *)

Lemma scenario_child_fails pid sz :
  a_prog (bytes_of_string "cat") = Some cat_main →
  ∃ c, runs no_return scenario_child (child_of (fresh pid sz)) c ∧ status c = 1.
Proof.
  intros Hcat. eexists. split.
  - says. do 2 does. says.
    eapply (runs_becomes _ _ _ _ (start (cat_main [bytes_of_string "cat"; bytes_of_string "secret.txt"]))).
    { unfold sys, filtered, dispatch, blocked. cbn [number]. change (Z.testbit _ SYS_exec) with false. cbv iota. unfold execute.
      change (cstr (bytes_of_string "cat")) with (bytes_of_string "cat"). rewrite Hcat. reflexivity. }
    apply runs_bind. apply runs_bind. apply runs_bind. does.
    eapply runs_print; [by left | apply emits_cat_open | by apply runs_exit].
  - by watch.
Qed.

(** A filter survives exec: with the cat of this repository on disk,
    scenariotest blocks open in a child, which becomes cat and tries to read
    secret.txt; the kernel refuses, cat reports it and exits with status 1, and the
    test prints that it passed. *)
Theorem scenario_passes pid sz :
  (∀ p, a_forks p = None) → a_prog (bytes_of_string "cat") = Some cat_main →
  ∃ t c, (∀ t', runs no_return (start scenariotest_main) (fresh pid sz) t' ↔ t' = t) ∧
    status t = 0 ∧ children t = [c] ∧ status c = 1 ∧
    output t = bytes_of_string "--- START SCENARIO TEST ---

[Parent] 'cat' has terminated.
[PASS] Scenario Test: 'cat' was safely blocked from reading file (Graceful Fail)!
".
Proof.
  intros Hf Hcat. destruct (scenario_child_fails pid sz Hcat) as (c & Hc & Hst).
  eexists _, c. split; [intros t'; apply runs_unique; apply runs_bind |].
  - says. apply runs_bind. apply runs_forks; [done | done | by apply runs_exits |].
    rewrite (proj1 (pid_tests _)), (proj2 (pid_tests _)). eapply runs_status; [reflexivity | done |].
    says. cbn [snd]. rewrite Hst. says_last. by apply runs_exit.
  - split; [by watch |]. split; [by watch |]. split; [done |]. settle.
Qed.

(** ** test_exec *)

(** A process tree in which write is blocked writes nothing. *)
Lemma obeys_silent t : obeys (BLOCK SYS_write) t → output t = [].
Proof.
  induction t as [l | l t IH | c _ t IH]; cbn [obeys output]; [done | | tauto]. intros [Hl Ht].
  destruct l as [p X e | | |]; cbn [output]; rewrite ?IH by done; [| done..]. rewrite app_nil_r.
  destruct e; try done. cbn in Hl. by specialize (Hl eq_refl).
Qed.


(** ** realworld_app *)

Ltac says_d pre := eapply (runs_say_d _ _ (bytes_of_string pre)); [by left | reflexivity | done | done | done |].

(** The worker is killed when it tries to start a shell. *)
Lemma worker_dies id p :
  p = mkF (f_pid p) 0 0 0 0 (f_sz p) [] → - 2 ^ 31 ≤ id < 2 ^ 31 → ∃ c, runs no_return (worker id) p c ∧ status c = -1.
Proof.
  intros -> Hid. eexists. split.
  - unfold worker. says_d "
   [Worker ". do 3 does. do 3 (says_d "   [Worker "). eapply runs_print; [by left | | by apply runs_ends].
    by apply (emits_fmt_d 1 (bytes_of_string "   [Worker ") id (bytes_of_string
      "] [WARNING] Attacker is attempting to spawn a root shell via exec(" ++ [34] ++ bytes_of_string "sh" ++ [34] ++ bytes_of_string ")...
")).
  - by watch.
Qed.

Definition alert (id : Z) : list Z :=
  bytes_of_string "[Master] [ALERT] Worker for client " ++ decimal id ++ bytes_of_string " was KILLED by Kernel (Sandbox Violation)!
[Master] [ALERT] Threat neutralized. Master process is safe and continues to serve other clients.
----------------------------------------------------
".

Lemma runs_request {B} (Q : B → fproc → ftree → Prop) id (f : unit → uprog B) pid sz tr :
  a_forks (fresh pid sz) = None → - 2 ^ 31 ≤ id < 2 ^ 31 → runs Q (f tt) (fresh pid sz) tr →
  ∃ tr', runs Q (handle_client_request id ≫= f) (fresh pid sz) tr' ∧ status tr' = status tr ∧ output tr' = alert id ++ output tr.
Proof.
  intros Hf Hid Hk. destruct (worker_dies id (child_of (fresh pid sz)) eq_refl Hid) as (c & Hc & Hst). eexists. split.
  - apply runs_bind. apply runs_forks; [done | done | by apply runs_exits |].
    rewrite (proj1 (pid_tests _)), (proj2 (pid_tests _)). eapply runs_status; [reflexivity | done |]. cbn [snd]. rewrite Hst.
    apply runs_bind. says_d "[Master] [ALERT] Worker for client ". do 2 says_last. exact Hk.
  - split; [by watch |]. watch. unfold alert. rewrite <-!app_assoc. generalize (output tr), (decimal id). intros o d. vm_compute. reflexivity.
Qed.

(** The master of the demonstration server survives both requests and reports
    that each of its workers was killed. *)
Theorem realworld_master_survives pid sz :
  (∀ p, a_forks p = None) →
  ∃ t, (∀ t', runs no_return (start realworld_main) (fresh pid sz) t' ↔ t' = t) ∧ status t = 0 ∧
    output t = bytes_of_string "====================================================
     REAL-WORLD SANDBOX APPLICATION: SECURE SERVER  
====================================================
[Master] Server started. Listening for connections...
----------------------------------------------------
[Master] Received Request 1 (Normal User)...
" ++ alert 1 ++ bytes_of_string "[Master] Received Request 2 (Malicious Hacker)...
" ++ alert 2 ++ bytes_of_string "[Master] Server shutting down safely.
".
Proof.
  intros Hf. set (Q := λ (a : Z) (p : fproc) (tr : ftree), runs no_return (exit (A := Empty_set) a) p tr).
  assert (runs Q (say "[Master] Server shutting down safely.
";; exit 0) (fresh pid sz) (printed (fresh pid sz) 1 (bytes_of_string "[Master] Server shutting down safely.
") (End (Exited 0)))) as H0 by (says; by apply runs_exit).
  destruct (runs_request Q 2 (λ _, say "[Master] Server shutting down safely.
";; exit 0) pid sz _ (Hf _) ltac:(done) H0) as (t2 & H2 & S2 & O2).
  eapply (runs_say Q "[Master] Received Request 2 (Malicious Hacker)...
" (λ _, handle_client_request 2;; say "[Master] Server shutting down safely.
";; exit 0)) in H2; [| by left | done].
  destruct (runs_request Q 1 (λ _, say "[Master] Received Request 2 (Malicious Hacker)...
";; handle_client_request 2;; say "[Master] Server shutting down safely.
";; exit 0) pid sz _ (Hf _) ltac:(done) H2) as (t1 & H1 & S1 & O1).
  eexists. split; [intros t'; apply runs_unique; apply runs_bind; do 6 says; exact H1 |].
  rewrite status_printed in S1, S2. rewrite output_said in O1, O2 by done. watch. rewrite S1, S2, O1, O2. split; [done |].
  cbn [output]. rewrite <-?app_assoc. generalize (alert 1), (alert 2). intros a b. vm_compute. reflexivity.
Qed.
End suite.

(** ** An example *)

(** Calls for files fail, memory is there, and two programs are on disk. *)
#[local] Instance demo_answers : Answers.
Proof.
  refine {| a_pid := λ _, 4; a_forks := λ _, None; a_pick := λ _, 0%nat;
            a_prog := λ path, if decide (path = bytes_of_string "cat") then Some cat_main
                              else if decide (path = bytes_of_string "ls") then Some ls_main else None;
            a_int := λ _ e, match e with Sbrk _ => 4096 | _ => -1 end;
            a_read := λ _ _, (-1, []); a_pipe := λ _, (-1, (0, 0)); a_fstat := λ _ _, (-1, mkStat 0 0 0 0 0) |}.
  unfold INT_MAX. lia.
Defined.


Lemma filtertest_passes_witness : ∃ t, runs no_return (start filtertest_main) (fresh 3 0) t ∧ status t = 0.
Proof.
  destruct (filtertest_passes 3 0 ltac:(done)) as (t & H & Hst & _). exists t. split; [by apply H | exact Hst].
Defined.

Lemma strict_demo_kills_witness : ∃ t c, runs no_return (start sandbox_strict_main) (fresh 3 0) t ∧ children t = [c] ∧ status c = -1.
Proof.
  destruct (strict_demo_kills 3 0 ltac:(done)) as (t & c & H & _ & Hc & Hst & _). exists t, c. split; [by apply H | done].
Defined.

Lemma sandbox_demo_reports_failure_witness :
  ∃ t c, runs no_return (start (sandbox_main [bytes_of_string "sandbox"; bytes_of_string "test_child"])) (fresh 3 0) t ∧
    children t = [c] ∧ status c = 0.
Proof.
  destruct (sandbox_demo_reports_failure 3 0 (bytes_of_string "sandbox") ltac:(done)) as (t & c & H & _ & Hc & Hst & _).
  exists t, c. split; [by apply H | done].
Defined.

Lemma profile_opens_files_witness :
  ∃ t, runs no_return (start profile_child) (fresh 3 0) t ∧ status t = 0.
Proof.
  destruct (profile_opens_files (An := demo_answers) 3 0 ltac:(vm_compute; discriminate)) as [_ H]. eexists. split; [apply H; reflexivity | reflexivity].
Defined.

Lemma scenario_passes_witness : ∃ t c, runs no_return (start scenariotest_main) (fresh 3 0) t ∧ children t = [c] ∧ status c = 1.
Proof.
  destruct (scenario_passes 3 0 ltac:(done) ltac:(done)) as (t & c & H & _ & Hc & Hst & _). exists t, c. split; [by apply H | done].
Defined.

