(* ===== verification/Demo.v ===== *)
(** * A concrete machine

    Small kernel states on which the hypotheses of the theorems hold and the
    model runs: one process with pid 1 in the first table entry, eight free
    pages, an empty page table.  The theorems of the other files are applied to
    them here. *)

From stdpp Require Import relations.
From S2P Require Import Prelude Machine Kstate Logic Strings Sched Kalloc Vm Printf Bio Log Fs FsData Console File Proc Exec Sysproc Sysfile Syscall Trap Frame Kernel ProcSpec Ratchet Filter Pids Pipe Text Sandbox.

#[global] Instance demo_layout : Layout := {|
  sym_end := PHYSTOP - 16 * PGSIZE; sym_etext := KERNBASE + 0x8000;
  sym_trampoline := KERNBASE + 0x7000; sym_uservec := KERNBASE + 0x7000;
  sym_userret := KERNBASE + 0x70a0; sym_forkret := KERNBASE + 0x2000;
  sym_usertrap := KERNBASE + 0x3000; sym_kernelvec := KERNBASE + 0x5000;
|}.

(** A process that gives up the CPU is not resumed; devices are quiet. *)
#[global] Instance demo_env : Env := {|
  env_swtch := fun _ => None; env_patience := 3; env_tx_idle := fun _ => true;
  env_irq := fun _ => 0; env_disk_intr := fun s => s;
|}.

Definition demo_unused : proc :=
  mkProc UNUSED None 0 0 0 None 0 0 0 0 (mkContext 0 0 []) (replicate NOFILE None) None
    0 (replicate 16 0) 0 0 0.

Definition demo_tf : Z := PHYSTOP - 10 * PGSIZE.
Definition demo_pt : Z := PHYSTOP - 9 * PGSIZE.

(** The running process, with its mask, its mask for children and strict mode. *)
Definition demo_proc (mask child strict : Z) : proc :=
  mkProc RUNNING None 0 0 1 None 0 0 demo_pt demo_tf (mkContext 0 0 [])
    (replicate NOFILE None) (Some O) mask (replicate 16 0) child 0 strict.

(** The registers of the call in the trapframe, and the chain of free pages. *)
Definition demo_page (k : Z) : Z := PHYSTOP - k * PGSIZE.
Definition demo_mem (num a0 a1 : Z) : gmap Z Z :=
  store64 (store64 (store64
    (foldr (fun k m => store64 m (demo_page k) (if k =? 1 then 0 else demo_page (k - 1))) ∅
       [8; 7; 6; 5; 4; 3; 2; 1])
    (demo_tf + TF_a7) num) (demo_tf + TF_a0) a0) (demo_tf + TF_a1) a1.

Definition demo (mask child strict num a0 a1 : Z) : kstate :=
  mkK (demo_mem num a0 a1) (demo_page 8)
    (demo_proc mask child strict :: replicate (NPROC - 1) demo_unused) 2 (Some 1%nat) (Some 0%nat) []
    (replicate NFILE (mkFile FD_NONE 0 0 0 0 None 0 0))
    (mkInode 1 1 1 (mkSleeplock 0 0) 1 T_DIR 0 0 1 0 (replicate 13 0) ::
     replicate (NINODE - 1) (mkInode 0 0 0 (mkSleeplock 0 0) 0 0 0 0 0 0 (replicate 13 0)))
    ∅ [] (mkLog 0 0 0 0 (mkLogheader 0 (replicate LOGBLOCKS 0)))
    (mkSuperblock 0 0 0 0 0 0 0 0) ∅ [] 0 (replicate NDEV None)
    (mkCons (replicate INPUT_BUF_SIZE 0) 0 0 0) [] [] 0 0 0 0
    (mkCsrs 0 0 8 0 0 0 0 0 0).

(** ** Facts about it *)

Lemma mem_ok_empty : mem_ok ∅.
Proof. intros a. unfold mread. rewrite lookup_empty. unfold is_byte. simpl. lia. Qed.

Lemma mem_ok_store64 m a v : mem_ok m → mem_ok (store64 m a v).
Proof. intros Hm. by apply mem_ok_mstore, le_bytes_byte. Qed.

Lemma demo_mem_ok num a0 a1 : mem_ok (demo_mem num a0 a1).
Proof. unfold demo_mem. do 3 apply mem_ok_store64. simpl. do 8 apply mem_ok_store64. apply mem_ok_empty. Qed.

Lemma demo_calling mask child strict num a0 a1 :
  i32 (load64 (demo_mem num a0 a1) (demo_tf + TF_a7)) = num →
  calling (demo mask child strict num a0 a1) 0 (demo_proc mask child strict) num.
Proof. intros H. split; [done | done | done | apply demo_mem_ok | done]. Qed.

Lemma demo_at_syscall_calling mask child strict num a0 a1 :
  let s := demo mask child strict num a0 a1 in
  let p := demo_proc mask child strict in
  i32 (load64 (k_mem (at_syscall p s)) (demo_tf + TF_a7)) = num →
  calling (at_syscall p s) 0 p num.
Proof.
  intros s p H. split; [done | done | done | | done].
  unfold at_syscall. simpl. do 2 apply mem_ok_store64. apply demo_mem_ok.
Qed.

Lemma demo_env_ratchet a b : env_step a b → ratchet a b.
Proof. intros [H| ->]; [done | reflexivity]. Qed.

#[global] Instance demo_env_killed : EnvTolerant (stays_killed 0).
Proof. split; [apply _ | done |]. intros s p. cbn. eauto. Qed.

#[global] Instance demo_env_pids : EnvTolerant keeps_pids.
Proof. split; [apply _ | done |]. by intros s H. Qed.

(** Process 1 blocks write (call 16) and calls it. *)
Definition demo_write (strict : Z) : kstate := demo (2 ^ 16) 0 strict SYS_write 1 0.

Lemma demo_write_calling strict :
  calling (demo_write strict) 0 (demo_proc (2 ^ 16) 0 strict) 16.
Proof. apply (demo_calling (2 ^ 16) 0 strict 16 1 0). by vm_compute. Qed.

Lemma dispatcher_implements_policy_witness :
  syscall_with syscalls (demo_write 0) = violation 0 16 (demo_write 0).
Proof.
  destruct (dispatcher_implements_policy syscalls (demo_write 0) 0 (demo_proc (2 ^ 16) 0 0) 16 sys_write)
    as [_ H].
  - apply demo_write_calling.
  - by split.
  - exact H.
Defined.

Lemma denied_call_only_fails_witness :
  syscall_with syscalls (demo_write 0) =
    Done tt (set_a0 (demo_proc (2 ^ 16) 0 0) (u64 (-1)) (demo_write 0)).
Proof.
  apply (denied_call_only_fails syscalls (demo_write 0) 0 (demo_proc (2 ^ 16) 0 0) 16 sys_write);
    [apply demo_write_calling | by split | done | done | done | done].
Defined.

Lemma denied_call_ignores_handler_witness :
  syscall_with syscalls (demo_write 1) =
    syscall_with (replicate 28 (Some sys_exit)) (demo_write 1).
Proof.
  apply (denied_call_ignores_handler syscalls (replicate 28 (Some sys_exit)) (demo_write 1) 0
    (demo_proc (2 ^ 16) 0 1) 16 sys_write sys_exit);
    [apply demo_write_calling | by split | by split | done | done].
Defined.

Lemma strict_violation_never_returns_witness :
  usertrap (demo_write 1) ≠ Done 0 (demo_write 1).
Proof.
  apply (strict_violation_never_returns (demo_write 1) (demo_proc (2 ^ 16) 0 1) 16 sys_write);
    [done | apply (demo_at_syscall_calling (2 ^ 16) 0 1 16 1 0); by vm_compute | by split | done | done | done].
Defined.

(** Process 1 adds kill (call 6) to its filter. *)
Definition demo_setfilter : kstate := demo (2 ^ 16) 0 0 SYS_setfilter (2 ^ 16 + 2 ^ 6) 0.

Lemma demo_setfilter_calling :
  calling demo_setfilter 0 (demo_proc (2 ^ 16) 0 0) SYS_setfilter.
Proof. apply (demo_calling (2 ^ 16) 0 0 SYS_setfilter (2 ^ 16 + 2 ^ 6) 0). by vm_compute. Qed.

Lemma setfilter_getfilter_witness :
  let p := demo_proc (2 ^ 16) 0 0 in
  let mask := arg demo_setfilter p TF_a0 in
  let s' := set_entry 0 (p <| p_syscall_mask := mask |>) demo_setfilter in
  mask = 2 ^ 16 + 2 ^ 6 ∧ sys_setfilter demo_setfilter = Done 0 s' ∧ sys_getfilter s' = Done mask s'.
Proof.
  intros p mask s'. split; [by vm_compute |].
  destruct (setfilter_getfilter demo_setfilter 0 p SYS_setfilter demo_setfilter_calling) as [H _].
  apply H. by vm_compute.
Defined.

(** The state after a trap. *)
Definition after (s : kstate) : kstate := default s (outcome_state (usertrap s)).

Lemma after_trap s : bool_decide (is_Some (outcome_state (usertrap s))) = true →
  outcome_state (usertrap s) = Some (after s).
Proof. intros H%bool_decide_eq_true. unfold after. by destruct H as [x ->]. Qed.

Lemma demo_setfilter_trap : outcome_state (usertrap demo_setfilter) = Some (after demo_setfilter).
Proof. apply after_trap. by vm_compute. Qed.


Lemma demo_pids : pids_ok demo_setfilter.
Proof.
  assert (Hl : ∀ i p, k_procs demo_setfilter !! i = Some p →
    i = 0%nat ∧ p_pid p = 1 ∨ p_pid p = 0).
  { intros [|i] p Hp; [left; by injection Hp as <- |]. right.
    change (replicate (NPROC - 1) demo_unused !! i = Some p) in Hp.
    apply lookup_replicate_1 in Hp as [-> _]. done. }
  split; [done | |].
  - intros i p Hp. destruct (Hl _ _ Hp) as [[_ ->]| ->]; by vm_compute.
  - intros i j p q Hp Hq Heq Hne.
    destruct (Hl _ _ Hp) as [[-> _]|?], (Hl _ _ Hq) as [[-> _]|?]; congruence.
Qed.

Lemma pids_unique_witness : pids_ok (after demo_setfilter).
Proof.
  apply (pids_unique demo_setfilter (after demo_setfilter));
    [left; exact demo_setfilter_trap | exact demo_pids].
Defined.

(** Process 1, which blocks write and kill, forks. *)
Definition demo_fork : kstate := demo (2 ^ 16 + 2 ^ 6) 0 0 SYS_fork 0 0.
Definition demo_forked : kstate := default demo_fork (outcome_state (kfork demo_fork)).

Lemma demo_fork_run : kfork demo_fork = Done 2 demo_forked.
Proof.
  assert (H : match kfork demo_fork with Done r _ => r =? 2 | _ => false end = true) by (by vm_compute).
  unfold demo_forked. destruct (kfork demo_fork) as [r s| | |]; try done. by apply Z.eqb_eq in H as ->.
Qed.

Lemma fork_inherits_filter_witness :
  ∃ j child, k_procs demo_forked !! j = Some child ∧ p_pid child = 2 ∧
    mask_le (2 ^ 16 + 2 ^ 6) (p_syscall_mask child).
Proof.
  destruct (fork_inherits_filter demo_fork 0 (demo_proc (2 ^ 16 + 2 ^ 6) 0 0) 2 demo_forked)
    as (j & child & _ & Hc & Hpid & _ & _ & _ & _ & _ & Hmask);
    [done | done | done | exact demo_fork_run | done |].
  exists j, child. split; [exact Hc |]. split; [exact Hpid |]. apply Hmask. by left.
Defined.

Lemma kinit_frees_all_memory_witness :
  ∃ s', kinit (demo_fork <| k_freelist := 0 |>) = Done tt s' ∧
    free_pages (pages_down (PHYSTOP - 16 * PGSIZE) 16) s'.
Proof.
  destruct (kinit_frees_all_memory (demo_fork <| k_freelist := 0 |>)) as (s' & E & Hf);
    [by vm_compute | done | by apply not_elem_of_nil |].
  exists s'. split; [exact E |].
  replace (PHYSTOP - 16 * PGSIZE) with (PGSIZE * ((sym_end + PGSIZE - 1) / PGSIZE)) by done.
  exact Hf.
Defined.

(** ** Pure functions *)

Lemma atoi_int_to_str_witness : atoi (int_to_str 1205 ++ bytes_of_string " BLOCKED") = Some 1205.
Proof. apply (atoi_int_to_str 1205 (bytes_of_string " BLOCKED")); [by vm_compute |].
  change (¬ 48 ≤ 32 ≤ 57). lia.
Defined.


Lemma printint_correct_witness :
  (length (printint_buf (- 2 ^ 63) 10 true) ≤ 20)%nat.
Proof.
  destruct (printint_correct (- 2 ^ 63) 10 true) as (ds & _ & _ & _ & _ & H);
    [by left | by vm_compute | exact H].
Defined.

Lemma bitmap_operations_witness :
  bit_clear (set_bit [255; 3] 10) 10 = false ∧ first_clear [255; 3] 0 16 = Some 10%nat.
Proof.
  destruct (bitmap_operations [255; 3] 10 16 10) as (H & _ & _); [simpl; lia |].
  split; [exact H | reflexivity].
Defined.

Lemma skipelem_walks_path_witness :
  path_elems (bytes_of_string "//a/bb") = [bytes_of_string "a"; bytes_of_string "bb"] ∧
  ∃ rest, skipelem (bytes_of_string "//a/bb") = Some (rest, bytes_of_string "a").
Proof.
  split; [reflexivity |].
  destruct (skipelem_walks_path (bytes_of_string "//a/bb")) as (rest & H & _);
    [by repeat constructor | exists rest; exact H].
Defined.

Lemma string_functions_correct_witness :
  strncmp (bytes_of_string "secret.txt") (bytes_of_string "secret") 6 = 0.
Proof.
  apply (string_functions_correct (bytes_of_string "secret.txt") (bytes_of_string "secret") 6);
    [by repeat constructor | by repeat constructor | reflexivity].
Defined.

(** ** A failed fork

    Process 1 has one page of memory and has asked for hello (call 22) to be
    blocked in its next child; there are just enough free pages for the child's
    trapframe and page table. *)

Definition demo_oom_mem : gmap Z Z :=
  store64 (store64 (store64
    (foldr (fun k m => store64 m (demo_page k) (if k =? 1 then 0 else demo_page (k - 1))) ∅
       [4; 3; 2; 1])
    demo_pt (Z.lor (PA2PTE (demo_page 11)) PTE_V))
    (demo_page 11) (Z.lor (PA2PTE (demo_page 12)) PTE_V))
    (demo_page 12)
    (Z.lor (PA2PTE (demo_page 13)) (Z.lor PTE_V (Z.lor PTE_R (Z.lor PTE_W PTE_U)))).

Definition demo_oom : kstate :=
  (demo 0 (2 ^ 22) 0 SYS_fork 0 0) <| k_mem := demo_oom_mem |> <| k_freelist := demo_page 4 |>
    <| k_procs ::= <[0%nat := (demo_proc 0 (2 ^ 22) 0) <| p_sz := PGSIZE |>]> |>.


Lemma later_filter_misses_child_witness :
  ∃ s1, sys_setfilter (demo 0 (2 ^ 22) 0 SYS_setfilter (2 ^ 16) 0) = Done 0 s1.
Proof.
  destruct (later_filter_misses_child (demo 0 (2 ^ 22) 0 SYS_setfilter (2 ^ 16) 0) 0
    (demo_proc 0 (2 ^ 22) 0) SYS_setfilter) as (s1 & H & _);
    [apply (demo_calling 0 (2 ^ 22) 0 SYS_setfilter (2 ^ 16) 0); by vm_compute
    | done | by vm_compute | done | by vm_compute | by exists s1].
Defined.

Lemma flags_can_be_cleared_witness :
  let s := demo (2 ^ 16) 0 1 SYS_setstrict 0 0 in
  sys_setstrict s = Done 0 (set_entry 0 (demo_proc (2 ^ 16) 0 0) s).
Proof.
  intros s. apply (flags_can_be_cleared s 0 (demo_proc (2 ^ 16) 0 1) SYS_setstrict);
    [apply (demo_calling (2 ^ 16) 0 1 SYS_setstrict 0 0); by vm_compute | by vm_compute].
Defined.

Lemma block_syscall_does_not_accumulate_witness :
  ∃ s', sandbox_block_syscall 0 6 (demo (2 ^ 16) 0 0 0 0 0) = Done (-1) s'.
Proof.
  destruct (block_syscall_does_not_accumulate (demo (2 ^ 16) 0 0 0 0 0) 0 (demo_proc (2 ^ 16) 0 0) 6)
    as (r & s' & H & _ & Hr);
    [done | done | done | apply demo_mem_ok | done | done |].
  destruct Hr as [-> _]; [by vm_compute |]. by exists s'.
Defined.

(** Process 1 kills pid 0 and forks. *)
Definition demo_doomed : kstate := default demo_fork (outcome_state ((kkill 0 ;; kfork) demo_fork)).

Lemma demo_doomed_run : (kkill 0 ;; kfork) demo_fork = Done 2 demo_doomed.
Proof.
  assert (H : match (kkill 0 ;; kfork) demo_fork with Done r _ => r =? 2 | _ => false end = true)
    by (by vm_compute).
  unfold demo_doomed. destruct ((kkill 0 ;; kfork) demo_fork) as [r s| | |]; try done.
  by apply Z.eqb_eq in H as ->.
Qed.

Lemma kill_zero_dooms_next_child_witness :
  ∃ j child, k_procs demo_doomed !! j = Some child ∧ p_pid child = 2 ∧ p_killed child = 1.
Proof.
  apply (kill_zero_dooms_next_child demo_fork 0 (demo_proc (2 ^ 16 + 2 ^ 6) 0 0));
    [done | done | done | done | intros j; apply not_elem_of_nil | | exact demo_doomed_run | done].
  intros [|j] q Hq; [by injection Hq as <- |].
  change (replicate (NPROC - 1) demo_unused !! j = Some q) in Hq.
  by apply lookup_replicate_1 in Hq as [-> _].
Defined.

(** ** Components on the concrete machine *)

Lemma page_arithmetic_witness :
  PTE2PA (Z.lor (PA2PTE (PGROUNDDOWN 0x80001234)) 0x1f) = PGROUNDDOWN 0x80001234.
Proof. apply (page_arithmetic 0x80001234 0x1f); by vm_compute. Defined.

Lemma copyinstr_reads_user_string_witness :
  copyinstr demo_pt 0 128 demo_fork = Done None demo_fork.
Proof.
  rewrite (copyinstr_reads_user_string demo_pt 0 128 demo_fork); [by vm_compute | by vm_compute | done].
Defined.

(** Entry 1 sleeps on the ticks. *)
Definition demo_sleeper : proc :=
  demo_unused <| p_pid := 2 |> <| p_state := SLEEPING |> <| p_chan := Some ChTicks |>.
Definition demo_sleep : kstate := demo_fork <| k_procs ::= <[1%nat := demo_sleeper]> |>.

Lemma wakeup_exact_witness :
  ∃ ps, wakeup (Some ChTicks) demo_sleep = Done tt (demo_sleep <| k_procs := ps |>) ∧
    ps !! 1%nat = Some (demo_sleeper <| p_state := RUNNABLE |>).
Proof.
  destruct (wakeup_exact (Some ChTicks) demo_sleep) as (ps & H & _ & Hps);
    [done | intros j; apply not_elem_of_nil |].
  exists ps. split; [exact H |]. exact (Hps 1%nat demo_sleeper eq_refl).
Defined.

Lemma kkill_exact_witness :
  ∃ p', kkill 2 demo_sleep = Done 0 (demo_sleep <| k_procs ::= <[1%nat := p']> |>) ∧
    p_killed p' = 1 ∧ p_state p' = RUNNABLE.
Proof.
  destruct (kkill_exact 2 demo_sleep) as (p' & H & Hk & Hst & _);
    [done | intros j; apply not_elem_of_nil |].
  exists p'. split; [exact H |]. split; [exact Hk | exact Hst].
Defined.
