(* ===== verification/LogDemo.v ===== *)
(** * A concrete buffer cache and log

    States on which the theorems about the buffer cache and the log apply: a
    disk with a log at block 2 and data blocks from 100 on, and a cache in which
    the first [pin] data blocks are changed and pinned and the first [lk] are
    locked by the running process. *)

From S2P Require Import Prelude Machine Kstate Logic Sched Printf Bio BioSpec BlockStore Log LogData LogSpec Demo.

Definition ld_start : Z := 2.
Definition ld_block (i : nat) : Z := 100 + Z.of_nat i.
Definition ld_data : list Z := replicate (Z.to_nat BSIZE) 7.

Definition ld_blocks : gset Z :=
  list_to_set (seqZ ld_start 31) ∪ list_to_set (ld_block <$> seq 0 NBUF).
Definition ld_disk : gmap Z (list Z) := gset_to_gmap zero_block ld_blocks.

Definition ld_dirty (pin : nat) : list Z := ld_block <$> seq 0 pin.
Definition ld_view (pin : nat) : gmap Z (list Z) :=
  apply_writes ((λ b, (b, ld_data)) <$> ld_dirty pin) ld_disk.

Definition ld_buf (pin lk : nat) (i : nat) : buf :=
  mkBuf (if decide (i < pin ∨ i < lk)%nat then 1 else 0) 0
    (if decide (i < pin ∨ i < lk)%nat then 1 else 0) (ld_block i)
    (if decide (i < lk)%nat then mkSleeplock 1 1 else mkSleeplock 0 0)
    ((if decide (i < pin)%nat then 1 else 0) + (if decide (i < lk)%nat then 1 else 0))
    (if (i =? 0)%nat then bhead else (i - 1)%nat)
    (if (i =? bhead)%nat then 0%nat else S i)
    (if decide (i < pin)%nat then ld_data else zero_block).
Definition ld_bufs (pin lk : nat) : list buf := ld_buf pin lk <$> seq 0 (S NBUF).

Definition ld_log (bl : list Z) : log_t :=
  mkLog ld_start 1 0 1 (mkLogheader (Z.of_nat (length bl)) (bl ++ replicate (LOGBLOCKS - length bl) 0)).

Definition ld_state (pin lk : nat) (bl : list Z) : kstate :=
  (demo 0 0 0 0 0 0) <| k_bufs := ld_bufs pin lk |> <| k_disk := ld_disk |> <| k_log := ld_log bl |>.

Definition ld_store (pin lk : nat) : store :=
  mkStore (ld_view pin) (list_to_set (ld_dirty pin))
    (λ b, if decide (b ∈ ld_dirty pin) then 1 else 0)
    (list_to_map ((λ i, (ld_block i, i)) <$> seq 0 lk)) (NBUF - Nat.max pin lk).

(** ** The list of buffers *)

Lemma ld_lookup pin lk i : (i < S NBUF)%nat → ld_bufs pin lk !! i = Some (ld_buf pin lk i).
Proof. intros Hi. unfold ld_bufs. by rewrite list_lookup_fmap, lookup_seq_lt. Qed.

Definition ld_prev (k : nat) : nat := if (k =? 0)%nat then bhead else (k - 1)%nat.

Lemma ld_link pin lk k :
  (k ≤ NBUF)%nat →
  next_of (ld_bufs pin lk) (ld_prev k) = Some k ∧ prev_of (ld_bufs pin lk) k = Some (ld_prev k).
Proof.
  intros Hk. unfold next_of, prev_of, ld_prev.
  rewrite !ld_lookup by (unfold bhead; destruct (k =? 0)%nat; lia). simpl. split; [| done].
  destruct (Nat.eqb_spec k 0) as [->|Hne]; [done |].
  rewrite (proj2 (Nat.eqb_neq _ _)) by (unfold bhead; lia). f_equal. lia.
Qed.

Lemma ld_linked pin lk n k :
  (k + n = NBUF)%nat → linked (ld_bufs pin lk) (ld_prev k) (seq k n) bhead.
Proof.
  revert k. induction n as [|n IH]; intros k Hk; cbn [seq linked].
  - replace bhead with k by (unfold bhead; lia). apply ld_link. lia.
  - destruct (ld_link pin lk k) as [H1 H2]; [lia |]. split_and!; [done.. |].
    specialize (IH (S k)). unfold ld_prev in IH. simpl in IH. rewrite Nat.sub_0_r in IH.
    apply IH. lia.
Qed.

Lemma ld_cache pin lk : cache (ld_bufs pin lk) (core <$> (ld_buf pin lk <$> seq 0 NBUF)).
Proof.
  split.
  - exists (seq 0 NBUF). split; [by unfold ld_bufs; rewrite length_fmap, length_seq | | done].
    by apply (ld_linked pin lk NBUF 0).
  - unfold ld_bufs. by rewrite <-fmap_take, take_seq.
Qed.

Lemma ld_cache_lookup pin lk i x :
  (core <$> (ld_buf pin lk <$> seq 0 NBUF)) !! i = Some x →
  (i < NBUF)%nat ∧ x = core (ld_buf pin lk i).
Proof.
  rewrite !list_lookup_fmap. destruct (seq 0 NBUF !! i) as [j|] eqn:Hj; [| done].
  apply lookup_seq in Hj as [-> Hj]. intros [= <-]. done.
Qed.

(** ** The store *)

Lemma ld_dirty_elem pin i : ld_block i ∈ ld_dirty pin ↔ (i < pin)%nat.
Proof.
  unfold ld_dirty. rewrite list_elem_of_fmap. split.
  - intros (j & Hj & Hin%elem_of_seq). unfold ld_block in Hj. lia.
  - intros Hi. exists i. split; [done |]. apply elem_of_seq. lia.
Qed.

Lemma ld_held pin lk i :
  st_held (ld_store pin lk) !! ld_block i = if decide (i < lk)%nat then Some i else None.
Proof.
  simpl. case_decide as Hi.
  - apply elem_of_list_to_map_1.
    + rewrite <-list_fmap_compose. apply NoDup_fmap_2; [| apply NoDup_seq].
      intros a b. unfold ld_block. simpl. lia.
    + apply list_elem_of_fmap. exists i. split; [done |]. apply elem_of_seq. lia.
  - apply not_elem_of_list_to_map_1. rewrite <-list_fmap_compose, list_elem_of_fmap.
    intros (j & Hj & Hin%elem_of_seq). unfold ld_block in Hj. simpl in Hj. lia.
Qed.

Lemma ld_on_disk i : (i < NBUF)%nat → ld_disk !! ld_block i = Some zero_block.
Proof.
  intros Hi. unfold ld_disk. rewrite lookup_gset_to_gmap, option_guard_True; [done |].
  unfold ld_blocks. rewrite elem_of_union, !elem_of_list_to_set. right.
  apply list_elem_of_fmap. exists i. split; [done |]. apply elem_of_seq. lia.
Qed.

Lemma ld_view_block pin i :
  (i < NBUF)%nat →
  ld_view pin !! ld_block i = Some (if decide (i < pin)%nat then ld_data else zero_block).
Proof.
  intros Hi. unfold ld_view. case_decide as Hp.
  - apply (apply_writes_eq _ _ i).
    + unfold ld_dirty. rewrite <-!list_fmap_compose. apply NoDup_fmap_2; [| apply NoDup_seq].
      intros a b. unfold ld_block. simpl. lia.
    + unfold ld_dirty. by rewrite !list_lookup_fmap, lookup_seq_lt.
  - rewrite apply_writes_ne; [by apply ld_on_disk |].
    rewrite <-list_fmap_compose, list_fmap_id. by rewrite ld_dirty_elem.
Qed.

Lemma ld_entry pin lk i :
  (i < NBUF)%nat → b_dev (ld_buf pin lk i) = 1 →
  entry_ok 1 (ld_store pin lk) i (core (ld_buf pin lk i)).
Proof.
  intros Hi Hd. simpl in Hd. destruct (decide (i < pin ∨ i < lk)%nat) as [Hc|Hc] eqn:Ec; [| done].
  split.
  - intros _. apply (ld_view_block pin i Hi).
  - unfold holds. change (b_blockno (core (ld_buf pin lk i))) with (ld_block i). rewrite ld_held.
    change (st_refs (ld_store pin lk) (ld_block i))
      with (if decide (ld_block i ∈ ld_dirty pin) then 1 else 0).
    change (b_refcnt (core (ld_buf pin lk i)))
      with ((if decide (i < pin)%nat then 1 else 0) + (if decide (i < lk)%nat then 1 else 0)).
    pose proof (ld_dirty_elem pin i).
    destruct (decide (i < pin)%nat), (decide (i < lk)%nat), (decide (ld_block i ∈ ld_dirty pin));
      tauto.
  - change (b_blockno (core (ld_buf pin lk i))) with (ld_block i). rewrite ld_held. simpl.
    rewrite Ec. by destruct (decide (i < lk)%nat).
  - intros _. simpl. by rewrite Ec.
Qed.

Lemma ld_stored pin lk bl :
  (pin ≤ NBUF)%nat → (lk ≤ NBUF)%nat →
  unreferenced (core <$> (ld_buf pin lk <$> seq 0 NBUF)) = (NBUF - Nat.max pin lk)%nat →
  stored 1 1 (ld_store pin lk) (ld_state pin lk bl).
Proof.
  intros Hpin Hlk Hfree.
  assert (Href : ∀ b, 0 < st_refs (ld_store pin lk) b → ∃ i, b = ld_block i ∧ (i < pin)%nat).
  { simpl. intros b. case_decide as Hb; [intros _ | lia].
    apply list_elem_of_fmap in Hb as (i & -> & Hi%elem_of_seq). exists i. split; [done | lia]. }
  assert (Hheld : ∀ b, is_Some (st_held (ld_store pin lk) !! b) → ∃ i, b = ld_block i ∧ (i < lk)%nat).
  { simpl. intros b [i Hb%elem_of_list_to_map_2]. apply list_elem_of_fmap in Hb as (j & [= -> ->] & Hj%elem_of_seq).
    exists j. split; [done | lia]. }
  split.
  - split; [done | done |]. exists 0%nat, (demo_proc 0 0 0). done.
  - exists (core <$> (ld_buf pin lk <$> seq 0 NBUF)). split; [apply ld_cache |]. split.
    + intros i j x y [Hi ->]%ld_cache_lookup [Hj ->]%ld_cache_lookup _ _ E.
      change (ld_block i = ld_block j) in E. unfold ld_block in E. lia.
    + intros i x [Hi ->]%ld_cache_lookup Hd. by apply ld_entry.
    + intros b Hb. assert (∃ i, b = ld_block i ∧ (i < pin ∨ i < lk)%nat ∧ (i < NBUF)%nat)
        as (i & -> & Hc & Hi).
      { destruct Hb as [(i & -> & ?)%Href|(i & -> & ?)%Hheld]; exists i; split_and!; auto; lia. }
      exists i, (core (ld_buf pin lk i)). rewrite !list_lookup_fmap, lookup_seq_lt by done.
      split; [done |]. split; [| done]. simpl. by rewrite decide_True.
    + intros b. simpl. case_decide; lia.
    + intros i x [Hi ->]%ld_cache_lookup. simpl. repeat case_decide; done.
    + intros b Hb. left. simpl in *. rewrite decide_True by set_solver. lia.
    + done.
  - intros b Hb. simpl in *. unfold ld_view. rewrite apply_writes_ne; [done |].
    rewrite <-list_fmap_compose, list_fmap_id. set_solver.
  - intros b Hb. simpl in *. apply elem_of_list_to_set, list_elem_of_fmap in Hb as (i & -> & Hi%elem_of_seq).
    rewrite ld_on_disk by lia. eauto.
Qed.

Lemma ld_area b : in_log ld_start b → is_Some (ld_disk !! b).
Proof.
  intros Hb. unfold ld_disk. rewrite lookup_gset_to_gmap, option_guard_True; [eauto |].
  unfold ld_blocks. rewrite elem_of_union, !elem_of_list_to_set. left.
  apply elem_of_seqZ. unfold in_log, ld_start, LOGBLOCKS, MAXOPBLOCKS in *. lia.
Qed.

Lemma ld_not_dirty pin b : in_log ld_start b → b ∉ ld_dirty pin.
Proof.
  intros Hb (i & -> & _)%list_elem_of_fmap.
  unfold in_log, ld_start, ld_block, LOGBLOCKS, MAXOPBLOCKS in *. lia.
Qed.

Lemma ld_txn pin lk : (pin ≤ NBUF)%nat → txn ld_start (ld_store pin lk) (ld_dirty pin).
Proof.
  intros Hpin. split.
  - unfold ld_dirty. apply NoDup_fmap_2; [| apply NoDup_seq]. intros a b. unfold ld_block. lia.
  - intros b Hb. split; [by intros ?%(ld_not_dirty pin) |].
    apply list_elem_of_fmap in Hb as (i & -> & Hi%elem_of_seq). unfold ld_block, NBUF, MAXOPBLOCKS in *. lia.
  - intros b Hb. simpl. rewrite decide_True by done. split; [| lia].
    apply list_elem_of_fmap in Hb as (i & -> & Hi%elem_of_seq). rewrite ld_view_block by lia. eauto.
  - intros b Hb. simpl. rewrite elem_of_list_to_set. split; [| by apply ld_not_dirty].
    by apply apply_writes_is_Some, ld_area.
Qed.

Lemma ld_log_holds bl : (length bl ≤ LOGBLOCKS)%nat → log_holds 1 ld_start bl (ld_log bl).
Proof.
  intros Hl. split; simpl; [done | done | done | by apply take_app_length |].
  rewrite length_app, length_replicate. lia.
Qed.

Lemma ld_place : 0 ≤ ld_start ∧ ld_start + Z.of_nat LOGBLOCKS < 2 ^ 31.
Proof. unfold ld_start, LOGBLOCKS, MAXOPBLOCKS. lia. Qed.

(** ** The theorems at work *)

Lemma ld_committing :
  committing 1 1 ld_start (ld_state 1 0 (ld_dirty 1)) (ld_store 1 0) (ld_dirty 1) zero_block.
Proof.
  split; [| | | | done | done | | done | done].
  - apply ld_stored; [unfold NBUF, MAXOPBLOCKS; lia | lia | reflexivity].
  - split; [done | simpl; unfold NBUF, MAXOPBLOCKS; lia].
  - apply ld_log_holds. simpl. unfold LOGBLOCKS, MAXOPBLOCKS. lia.
  - apply ld_txn. unfold NBUF, MAXOPBLOCKS. lia.
  - simpl. unfold ld_view. rewrite apply_writes_ne.
    + unfold ld_disk. rewrite lookup_gset_to_gmap, option_guard_True; [done |].
      unfold ld_blocks. rewrite elem_of_union, !elem_of_list_to_set. left. by apply elem_of_seqZ.
    + rewrite <-list_fmap_compose, list_fmap_id. apply ld_not_dirty, (start_in_log ld_start).
Qed.

Lemma bcache_implements_store_witness :
  BlockStore 1 (stored 1) binit (bread 1) bwrite brelse bpin bunpin.
Proof. apply (bcache_implements_store 1). lia. Defined.

(** A machine booted with the disk as it was before the commit. *)
Lemma ld_booted : booted 1 1 ld_start ld_disk (ld_state 0 0 []).
Proof.
  split.
  - exists (ld_store 0 0). split_and!; [| done | done | done | simpl; unfold NBUF, MAXOPBLOCKS; lia].
    apply ld_stored; [lia | lia | reflexivity].
  - by split.
  - done.
Qed.

(** Block 100 has been changed; its commit is atomic, also when the machine
    crashes before the first write. *)
Lemma commit_is_atomic_witness :
  (∃ s', commit (ld_state 1 0 (ld_dirty 1)) = Done tt s' ∧
     same_data ld_start (k_disk s') (ld_view 1)) ∧
  ∃ r', recover_from_log (ld_state 0 0 []) = Done tt r'.
Proof.
  destruct (commit_is_atomic 1 1 ld_start (ld_state 1 0 (ld_dirty 1)) (ld_store 1 0) (ld_dirty 1) zero_block)
    as (s' & ws & Hc & _ & Hs & _ & Hcrash).
  - exact ld_place.
  - exact ld_committing.
  - split; [exists s'; split; [exact Hc | exact Hs] |].
    destruct (Hcrash ld_disk (ld_state 0 0 [])) as (r' & Hr & _).
    + apply (crash_in_commit 1 1 ld_start ws ld_disk 0).
    + exact ld_booted.
    + exists r'. exact Hr.
Defined.

(** Block 100 is locked and written for the first time in the transaction. *)
Lemma log_write_records_witness :
  ∃ s' bl', log_write 0 (ld_state 0 1 []) = Done tt s' ∧
    log_holds 1 ld_start bl' (k_log s') ∧ ∀ v, v ∈ bl' ↔ v = ld_block 0 ∨ v ∈ [].
Proof.
  destruct (log_write_records 1 1 ld_start (ld_store 0 1) [] (ld_block 0) 0 (ld_state 0 1 []))
    as (s' & bl' & Hw & Hl & _ & Hin & _).
  - exact ld_place.
  - apply ld_stored; [lia | unfold NBUF, MAXOPBLOCKS; lia | reflexivity].
  - apply ld_log_holds. simpl. lia.
  - apply (ld_held 0 1 0).
  - simpl. unfold LOGBLOCKS, MAXOPBLOCKS. lia.
  - simpl. lia.
  - constructor.
  - intros v Hv. apply list_elem_of_singleton in Hv as ->. unfold ld_block. lia.
  - simpl. lia.
  - exists s', bl'. auto.
Defined.

(** Thirty changed blocks fill both the log and the cache. *)
Lemma full_log_panics_witness :
  ∃ s', commit (ld_state 30 0 (ld_dirty 30)) = Panic "bget: no buffers" s'.
Proof.
  apply (full_log_panics 1 1 ld_start (ld_store 30 0) (ld_dirty 30)).
  - exact ld_place.
  - apply ld_stored; [unfold NBUF, MAXOPBLOCKS; lia | lia | reflexivity].
  - apply ld_log_holds. unfold LOGBLOCKS, MAXOPBLOCKS. simpl. lia.
  - apply ld_txn. unfold NBUF, MAXOPBLOCKS. lia.
  - reflexivity.
Defined.
