(* ===== verification/VmDemo.v ===== *)
(** * Two address spaces of the concrete machine

    The process of Demo.v with one page of memory, and a second, empty page table:
    the theorems about address spaces applied to them. *)

From S2P Require Import Prelude Machine Kstate Logic Strings Sched Kalloc Vm VmSpec UvmSpec UvmCopy CopySpec Printf Console ConsoleSpec ConsoleRead Demo.

Definition vd_new : Z := demo_page 14.
Definition vd_leaf : Z := Z.lor (Z.lor (PA2PTE (demo_page 13)) (Z.lor (Z.lor PTE_R PTE_W) PTE_U)) PTE_V.

(** The tables 11 and 12 below the root, and the data page 13. *)
Definition vd_mem : gmap Z Z :=
  store64 (store64 (store64 (demo_mem 0 0 0) demo_pt (Z.lor (PA2PTE (demo_page 11)) PTE_V))
    (demo_page 11) (Z.lor (PA2PTE (demo_page 12)) PTE_V)) (demo_page 12) vd_leaf.

Definition vd_pages : gmap Z puse :=
  list_to_map [(demo_pt, Table demo_pt Root); (demo_page 11, Table demo_pt (Mid 0));
    (demo_page 12, Table demo_pt (Low 0 0)); (demo_page 13, Data demo_pt 0); (vd_new, Table vd_new Root)].

Definition vd_free : list Z := demo_page <$> [8; 7; 6; 5; 4; 3; 2; 1].

Definition vd : kstate :=
  (demo 0 0 0 0 0 0) <| k_mem := vd_mem |>
    <| k_procs ::= <[0%nat := (demo_proc 0 0 0) <| p_sz := PGSIZE |>]> |>.

(** The entries of the tables. *)
Lemma vd_entry k i : k = 9 ∨ k = 11 ∨ k = 12 ∨ k = 14 → 0 ≤ i < 512 →
  entry vd_mem (demo_page k) i =
    if i =? 0 then
      if k =? 9 then Z.lor (PA2PTE (demo_page 11)) PTE_V
      else if k =? 11 then Z.lor (PA2PTE (demo_page 12)) PTE_V
      else if k =? 12 then vd_leaf else 0
    else 0.
Proof.
  intros Hk Hi. destruct (Z.eqb_spec i 0) as [-> | Hne]; [by destruct Hk as [-> | [-> | [-> | ->]]]; vm_compute |].
  assert (load64 ∅ (demo_page k + 8 * i) = 0) as E0 by done. rewrite <-E0. clear E0.
  unfold entry, vd_mem, demo_mem. cbn [foldr Z.eqb]. unfold demo_pt, demo_tf, demo_page. unfold_consts.
  unfold TF_a7, TF_a0, TF_a1. do 14 (rewrite load64_store64_out by lia). done.
Qed.

Lemma vd_lookup p u : vd_pages !! p = Some u →
  ∃ k, p = demo_page k ∧
    (k = 9 ∧ u = Table demo_pt Root ∨ k = 11 ∧ u = Table demo_pt (Mid 0) ∨ k = 12 ∧ u = Table demo_pt (Low 0 0) ∨
     k = 13 ∧ u = Data demo_pt 0 ∨ k = 14 ∧ u = Table vd_new Root).
Proof.
  intros H%elem_of_list_to_map_2. repeat (apply elem_of_cons in H as [[= -> ->] | H]; [eexists; split; [reflexivity | tauto] |]).
  by apply elem_of_nil in H.
Qed.

Lemma vd_free_ok : free_pages vd_free vd.
Proof.
  split.
  - by vm_compute.
  - apply (bool_decide_unpack _). by vm_compute.
  - apply (bool_decide_unpack _). by vm_compute.
Qed.

(** Every page of the machine has its use. *)
Lemma vd_ok : vm_ok 0 vd_pages vd_free vd.
Proof.
  split; [split |].
  - apply vd_free_ok.
  - intros p Hp. unfold vd_free in Hp. simpl in Hp.
    repeat (apply elem_of_cons in Hp as [-> | Hp]; [by vm_compute |]). by apply elem_of_nil in Hp.
  - intros p u (k & -> & Hk)%vd_lookup. unfold page_ok, demo_page. unfold demo_layout, sym_end.
    destruct Hk as [[-> _] | [[-> _] | [[-> _] | [[-> _] | [-> _]]]]]; (split; [done | split; [split |]]; done).
  - intros p root (k & -> & Hk)%vd_lookup. by destruct Hk as [[-> [= ->]] | [[_ ?] | [[_ ?] | [[_ ?] | [-> [= ->]]]]]].
  - intros p root q q' i (k & -> & Hk)%vd_lookup Hq Hi. change (k_mem vd) with vd_mem.
    destruct Hk as [[-> [= -> ->]] | [[-> [= -> ->]] | [[-> [= -> ->]] | [[_ [=]] | [-> [= -> ->]]]]]];
      [| | discriminate |]; rewrite vd_entry by (tauto || done); (destruct (Z.eqb_spec i 0) as [-> |]; [| discriminate]);
      try discriminate; injection Hq as <-; intros _; by vm_compute.
  - intros p root i j n (k & -> & Hk)%vd_lookup Hn _. change (k_mem vd) with vd_mem.
    destruct Hk as [[_ [=]] | [[_ [=]] | [[-> [= -> -> ->]] | [[_ [=]] | [_ [=]]]]]].
    rewrite vd_entry by (tauto || done). destruct (Z.eqb_spec n 0) as [-> |]; [| discriminate]. intros _ _. by vm_compute.
  - intros p root q (k & -> & Hk)%vd_lookup Hq. change (k_mem vd) with vd_mem.
    destruct Hk as [[-> [= -> ->]] | [[-> [= -> ->]] | [[-> [= -> ->]] | [[_ ?] | [-> [= -> ->]]]]]]; try done.
    + exists demo_pt, Root, 0. repeat split; try done; by vm_compute.
    + exists (demo_page 11), (Mid 0), 0. repeat split; try done; by vm_compute.
Qed.

Lemma vd_trans_new va : trans vd_mem vd_new va = 0.
Proof.
  unfold trans. rewrite (vd_entry 14) by (tauto || apply PX_range). by destruct (PX 2 va =? 0).
Qed.

Lemma vd_copyable : copyable 0 vd_pages vd_free vd demo_pt vd_new PGSIZE.
Proof.
  split; [apply vd_ok | | | | done | done |].
  - apply not_elem_of_nil.
  - split; [by vm_compute | done].
  - split; [by vm_compute | done].
  - intros va _. change (k_mem vd) with vd_mem. by rewrite vd_trans_new.
Qed.

Lemma vd_space : space 0 vd_pages vd_free vd demo_pt PGSIZE.
Proof.
  split; [apply vd_ok | apply not_elem_of_nil | by vm_compute | done | done |].
  exists 0%nat, ((demo_proc 0 0 0) <| p_sz := PGSIZE |>). done.
Qed.

(** The calls succeed on this machine. *)
Definition result {A} (o : outcome A) : option A := match o with Done a _ => Some a | _ => None end.

Lemma vd_uvmcopy : result (uvmcopy demo_pt vd_new PGSIZE vd) = Some 0.
Proof. by vm_compute. Qed.

Lemma vd_copyout : result (copyout demo_pt 10 [1; 2; 3] vd) = Some 0.
Proof. by vm_compute. Qed.

Lemma vd_copyin : result (copyin demo_pt 10 3 vd) = Some ([0; 0; 0], 0).
Proof. by vm_compute. Qed.

Lemma uvmcopy_copies_memory_witness :
  ∃ s', uvmcopy demo_pt vd_new PGSIZE vd = Done 0 s' ∧
    user_byte (k_mem s') vd_new 7 = user_byte (k_mem vd) demo_pt 7.
Proof.
  destruct (uvmcopy_copies_memory 0 vd_pages vd_free vd demo_pt vd_new PGSIZE vd_copyable)
    as (r & s' & pages' & l' & E & _ & _ & [(-> & _ & H) | (-> & _)]).
  - exists s'. split; [exact E |]. apply (H 7). split; done.
  - pose proof vd_uvmcopy as Hr. rewrite E in Hr. discriminate Hr.
Defined.

Lemma copyout_writes_view_witness :
  ∃ s', copyout demo_pt 10 [1; 2; 3] vd = Done 0 s' ∧ view PGSIZE (k_mem s') demo_pt 11 = Some (2, true).
Proof.
  destruct (copyout_writes_view 0 vd_pages vd_free vd demo_pt PGSIZE 10 [1; 2; 3] vd_space)
    as (r & s' & k & pages' & l' & E & _ & _ & H & [[-> ->] | [-> _]]); [done | |].
  - exists s'. split; [exact E |]. rewrite (H demo_pt PGSIZE 11); [| exact (sp_root _ _ _ _ _ _ vd_space) | discriminate | done | split; done].
    rewrite decide_True; [reflexivity | split; [done | split; done]].
  - pose proof vd_copyout as Hr. rewrite E in Hr. discriminate Hr.
Defined.

Lemma copyin_reads_view_witness :
  ∃ bs s', copyin demo_pt 10 3 vd = Done (bs, 0) s' ∧ reads PGSIZE (k_mem vd) demo_pt 10 bs.
Proof.
  destruct (copyin_reads_view 0 vd_pages vd_free vd demo_pt PGSIZE 10 3 vd_space)
    as (bs & r & s' & pages' & l' & E & _ & _ & _ & H & [[-> _] | [-> _]]); [done | done | |].
  - exists bs, s'. split; [exact E | exact H].
  - pose proof vd_copyin as Hr. rewrite E in Hr. discriminate Hr.
Defined.

(** ** The console of this machine *)

(** The line [hi] has been typed and handed over, and an [x] after it; the counters
    are about to wrap around. *)
Definition vd_cons : cons_t :=
  mkCons (<[127%nat := 104]> (<[0%nat := 105]> (<[1%nat := 10]> (<[2%nat := 120]> (replicate 128 0))))) (2 ^ 32 - 1) 2 3.
Definition vd_typed : kstate := vd <| k_cons := vd_cons |>.

Lemma vd_buffer : buffer (k_cons vd_typed) [104; 105; 10] [120] (2 ^ 32 - 1).
Proof.
  split; [done | by vm_compute | by vm_compute | by vm_compute | by vm_compute; lia | by vm_compute | by repeat constructor |].
  intros [| [| [| [| k]]]] x Hx; simpl in Hx; [by injection Hx as <-; vm_compute .. | by rewrite lookup_nil in Hx].
Qed.

Lemma vd_quiet : quiet vd_typed.
Proof. split; [apply not_elem_of_nil | apply not_elem_of_nil | intros j; apply not_elem_of_nil | done | by vm_compute]. Qed.

Lemma console_edits_lines_witness : ∃ s', consoleintr 10 vd_typed = Done tt s' ∧
  buffer (k_cons s') [104; 105; 10; 120; 10] [] (2 ^ 32 - 1).
Proof.
  destruct (console_edits_lines 10 vd_typed [104; 105; 10] [120] (2 ^ 32 - 1) vd_quiet vd_buffer)
    as (s' & Hrun & Hb & _).
  - repeat constructor. discriminate.
  - unfold is_byte. lia.
  - exists s'. split; [exact Hrun | exact Hb].
Defined.

Lemma vd_typed_space : space 0 vd_pages vd_free vd_typed demo_pt PGSIZE.
Proof. apply (space_frame 0 vd_pages vd_free vd); try done; [apply vd_space | apply not_elem_of_nil]. Qed.

Lemma vd_consoleread : result (consoleread (DUser 10) 100 vd_typed) = Some 3.
Proof. by vm_compute. Qed.

Lemma console_read_delivers_line_witness :
  ∃ s', consoleread (DUser 10) 100 vd_typed = Done 3 s' ∧ view PGSIZE (k_mem s') demo_pt 11 = Some (105, true).
Proof.
  destruct (console_read_delivers_line 0 vd_pages vd_free vd_typed demo_pt PGSIZE [104; 105; 10] [120] (2 ^ 32 - 1) 10 100 [104; 105; 10] false
    vd_typed_space) as (k & s' & l' & pages' & E & _ & H & _); [apply not_elem_of_nil | exact vd_buffer | lia | lia | lia | reflexivity |].
  pose proof vd_consoleread as Hr. rewrite E in Hr. injection Hr as Hk. exists s'. rewrite Hk in E. split; [exact E |].
  rewrite (H demo_pt PGSIZE 11); [| exact (sp_root _ _ _ _ _ _ vd_space) | discriminate | done | split; done].
  rewrite decide_True; [reflexivity | split; [done | lia]].
Defined.
