(* ===== verification/FsDemo.v ===== *)
(** * A concrete file system

    A disk with a root directory and one file, an inode table and a process, on
    which the theorems about reading files and finding paths apply. *)

From S2P Require Import Prelude Machine Kstate Logic Strings Sched Kalloc Vm Printf Bio BioSpec BlockStore Log LogData LogSpec Fs FsData FsRead FsInode FsPath Mount VmSpec UvmSpec CopySpec File FileSpec ConsoleRead Mkfs MkfsSpec MkfsImage MkfsMain MkfsBoot Demo LogDemo VmDemo.

(** ** The disk: inodes 1 and 2 in block 33, their data in blocks 47 and 48 *)

Definition fd_text : list Z := [104; 105; 10].
Definition fd_root : list Z :=
  encode_dirent (mkDirent 1 (take DIRSIZ (bytes_of_string "." ++ replicate DIRSIZ 0))) ++
  encode_dirent (mkDirent 2 (take DIRSIZ (bytes_of_string "hi" ++ replicate DIRSIZ 0))).
Definition fd_inode (type size blk : Z) : dinode := mkDinode type 0 0 1 size (blk :: replicate NDIRECT 0).
Definition fd_inodes : list Z :=
  splice (splice zero_block (dinode_off 1) (encode_dinode (fd_inode T_DIR 32 47)))
    (dinode_off 2) (encode_dinode (fd_inode T_FILE 3 48)).
Definition fd_disk : gmap Z (list Z) :=
  list_to_map [(33, fd_inodes); (47, splice zero_block 0 fd_root); (48, splice zero_block 0 fd_text)].

Definition fd_tree : gmap Z (Z * list Z) := list_to_map [(1, (T_DIR, fd_root)); (2, (T_FILE, fd_text))].

(** ** The kernel: entry 0 of the inode table is inode 2, not yet loaded *)

Definition fd_free_inode : inode := mkInode 0 0 0 (mkSleeplock 0 0) 0 0 0 0 0 0 (replicate 13 0).
Definition fd_open_inode : inode := mkInode 1 2 1 (mkSleeplock 0 0) 0 0 0 0 0 0 (replicate 13 0).

Definition fd : kstate :=
  vd <| k_bufs := ld_bufs 0 0 |> <| k_log := ld_log [] |> <| k_disk := fd_disk |> <| k_sb := mksb |>
     <| k_itable := fd_open_inode :: replicate (NINODE - 1) fd_free_inode |>
     <| k_ftable ::= <[0%nat := mkFile FD_INODE 1 1 0 0 (Some 0%nat) 1 0]> |>.

Definition fd_refs (k : Z * Z) : Z := if decide (k = (1, 2)) then 1 else 0.

Lemma ld_zeroed i x : (core <$> (ld_buf 0 0 <$> seq 0 NBUF)) !! i = Some x → zeroed x.
Proof. rewrite !list_lookup_fmap. destruct (seq 0 NBUF !! i) as [k|]; [intros [= <-]; done | done]. Qed.

Lemma fd_stored : stored 1 1 (fresh_store fd) fd.
Proof.
  apply (fresh_stored 1 1 (core <$> (ld_buf 0 0 <$> seq 0 NBUF))); [done | | exact (ld_cache 0 0) | exact ld_zeroed].
  split; [done | by vm_compute |]. exists 0%nat, ((demo_proc 0 0 0) <| p_sz := PGSIZE |>). done.
Qed.

Lemma fd_readable : readable (fresh_store fd).
Proof. split; [done | unfold fresh_store, NBUF, MAXOPBLOCKS; simpl; lia | simpl; set_solver]. Qed.

Lemma fd_file_in blk c : length c ≠ 0%nat → (length c ≤ 1024)%nat → fd_disk !! blk = Some (splice zero_block 0 c) → blk ≠ 0 →
  file_in fd_disk (blk :: replicate NDIRECT 0) c.
Proof.
  intros Hc0 Hc Hd Hb. pose proof maxfile_bytes as HM. assert (Z.to_nat BSIZE = 1024%nat) as EB by done.
  assert (nblk (length c) = 1%nat) as Hn by (destruct (nblk_spec (length c)) as (N1 & N2 & _); rewrite EB in *; lia).
  assert (length (splice zero_block 0 c) = 1024%nat) as Hl by (rewrite length_splice; [done | change (length zero_block) with 1024%nat; lia]).
  split; rewrite ?Hn, ?EB.
  - done.
  - rewrite EB in HM. lia.
  - unfold NDIRECT. lia.
  - intros f Hf. assert (f = 0%nat) as -> by lia. split; [done |]. eexists. split; [exact Hd | done].
  - intros i Hi. rewrite Nat.div_small, Nat.mod_small by lia. unfold content. change (fblk fd_disk (blk :: replicate NDIRECT 0) 0) with blk. rewrite Hd. simpl default.
    rewrite !nth_lookup. f_equal. rewrite <-(Nat.add_0_l i) at 1. rewrite lookup_splice_in; [done | change (length zero_block) with 1024%nat; lia | done].
Qed.

Lemma fd_disk_file : disk_file fd_disk mksb 1 fd_root ∧ disk_file fd_disk mksb 2 fd_text.
Proof.
  split; (split; [by vm_compute; eauto | by vm_compute | by vm_compute |]).
  - replace (d_addrs (disk_inode fd_disk mksb 1)) with (47 :: replicate NDIRECT 0) by (by vm_compute).
    apply fd_file_in; [done | change (length fd_root) with 32%nat; lia | by vm_compute | done].
  - replace (d_addrs (disk_inode fd_disk mksb 2)) with (48 :: replicate NDIRECT 0) by (by vm_compute).
    apply fd_file_in; [done | change (length fd_text) with 3%nat; lia | by vm_compute | done].
Qed.

Lemma fd_lookup k x : fd_tree !! k = Some x → k = 1 ∧ x = (T_DIR, fd_root) ∨ k = 2 ∧ x = (T_FILE, fd_text).
Proof.
  unfold fd_tree. simpl. rewrite lookup_insert. case_decide as H1; [intros [= <-]; by left |].
  rewrite lookup_insert. case_decide as H2; [intros [= <-]; by right |]. by rewrite lookup_empty.
Qed.

Lemma fd_entries k : (k < 2)%nat → de_inum (entry_at fd_root k) = Z.of_nat (S k).
Proof. intros Hk. destruct k as [|[|k]]; [by vm_compute | by vm_compute | lia]. Qed.

Lemma fd_disk_tree : disk_tree fd_disk mksb fd_tree.
Proof.
  destruct fd_disk_file as [H1 H2]. split.
  - intros k ty c [[-> [= -> ->]] | [-> [= -> ->]]]%fd_lookup; done.
  - intros k ty c [[-> [= -> ->]] | [-> [= -> ->]]]%fd_lookup; by vm_compute.
  - intros k c [[-> [= ->]] | [-> [=]]]%fd_lookup. by vm_compute.
  - intros k c name j [[-> [= ->]] | [-> [=]]]%fd_lookup. unfold dir_lookup. change (length fd_root / DE)%nat with 2%nat.
    destruct (find_entry fd_root name 0 2) as [i|] eqn:Ei; [| done]. cbn [mbind option_bind]. intros Hj.
    apply find_entry_some in Ei as (Hi & _ & _). assert (j = Z.of_nat (S i)) as -> by (rewrite <-fd_entries by lia; congruence).
    destruct i as [|[|i]]; [by vm_compute; eauto | by vm_compute; eauto | lia].
Qed.

Lemma fd_fs : fs_is 1 1 (fresh_store fd) fd_refs 49 None fd.
Proof.
  assert (∀ i x, k_itable fd !! i = Some x → i = 0%nat ∧ x = fd_open_inode ∨ x = fd_free_inode) as Hi.
  { intros [|i] x; simpl; [intros [= <-]; by left |]. intros Hx. right. change (replicate 49 fd_free_inode !! i = Some x) in Hx. by apply lookup_replicate in Hx as [-> _]. }
  split; [exact fd_stored |]. split.
  - by vm_compute.
  - intros i x [[-> ->] | ->]%Hi; done.
  - intros i x [[-> ->] | ->]%Hi; [done | simpl; lia].
  - intros k. unfold fd_refs. case_decide as Hk; [intros _ | done]. subst. exists 0%nat, fd_open_inode. done.
  - intros i j x y [[-> ->] | ->]%Hi [[-> ->] | ->]%Hi; simpl; try done; lia.
  - intros i x [[-> ->] | ->]%Hi; done.
  - intros i x [[-> ->] | ->]%Hi; done.
  - by vm_compute.
Qed.

Lemma fd_space : space 0 vd_pages vd_free fd demo_pt PGSIZE.
Proof. apply (space_frame 0 vd_pages vd_free vd); try reflexivity; [exact vd_space | apply not_elem_of_nil]. Qed.

(** ** Witnesses *)

Lemma namei_finds_path_witness :
  (∃ r s', namei (bytes_of_string "/./hi") fd = Done r s' ∧ found 1 1 (fresh_store fd) fd_refs 49 fd (Some 2) r s') ∧
  (∃ r s', nameiparent (bytes_of_string "/hi/x") fd = Done r s' ∧ found 1 1 (fresh_store fd) fd_refs 49 fd None (fst <$> r) s').
Proof.
  split.
  - destruct (namei_finds_path 1 1 (fresh_store fd) fd_refs 49 fd_tree (bytes_of_string "/./hi") 1 fd) as [(r & s' & H1 & H2) _].
    + exact fd_readable.
    + exact fd_fs.
    + lia.
    + exact fd_disk_tree.
    + by repeat constructor.
    + done.
    + by vm_compute; eauto.
    + exists r, s'. split; [exact H1 | exact H2].
  - destruct (namei_finds_path 1 1 (fresh_store fd) fd_refs 49 fd_tree (bytes_of_string "/hi/x") 1 fd) as [_ (r & s' & H1 & H2 & _)].
    + exact fd_readable.
    + exact fd_fs.
    + lia.
    + exact fd_disk_tree.
    + by repeat constructor.
    + done.
    + by vm_compute; eauto.
    + exists r, s'. split; [exact H1 | exact H2].
Defined.

(** Reading two bytes from offset 1 of the file. *)
Lemma file_read_delivers_witness : ∃ r s' k l', fileread 0 16 2 fd = Done r s' ∧
  arrived 0 vd_pages fd demo_pt PGSIZE 16 [105; 10] k l' (s' <| k_ftable := k_ftable fd |>).
Proof.
  destruct (file_read_delivers 1 1 (fresh_store fd) 0 vd_pages vd_free fd demo_pt PGSIZE 0 (mkFile FD_INODE 1 1 0 0 (Some 0%nat) 1 0) 0 fd_open_inode fd_text 16 2)
    as (r & s' & k & l' & H1 & _ & H2 & _).
  - exact fd_readable.
  - exact fd_stored.
  - exact fd_space.
  - by vm_compute.
  - done.
  - done.
  - done.
  - done.
  - done.
  - by split.
  - apply fd_disk_file.
  - done.
  - done.
  - done.
  - exists r, s', k, l'. split; [exact H1 | exact H2].
Defined.

(** ** The kernel on a small image *)

Definition fd_cold (img : list (list Z)) : kstate :=
  (demo 0 0 0 0 0 0) <| k_bufs := ld_bufs 0 0 |> <| k_disk := disk_of img |> <| k_itable := replicate NINODE fd_free_inode |>.

Lemma fd_cold_cold img : cold 1 img (fd_cold img).
Proof.
  split; try done.
  - split; [done | by vm_compute |]. exists 0%nat, (demo_proc 0 0 0). done.
  - eexists. split; [exact (ld_cache 0 0) | exact ld_zeroed].
  - split; [by vm_compute |]. by apply Forall_replicate.
Qed.

Lemma two_files_proper : proper two_files.
Proof.
  split; [exact two_files_fit | | | done].
  - repeat constructor; done.
  - apply (bool_decide_eq_true_1 _). by vm_compute.
Qed.

Lemma kernel_reads_mkfs_image_witness : ∃ m s1 s2, mkfs two_files mkfs_start = MOk tt m ∧ fsinit ROOTDEV (fd_cold (mk_img m)) = Done tt s1 ∧
  load_file (bytes_of_string "/README") s1 = Done (Some (bytes_of_string "xv6")) s2.
Proof.
  destruct (mkfs_built two_files two_files_fit) as (m & Hm & _).
  destruct (kernel_reads_mkfs_image two_files 1 m (fd_cold (mk_img m))) as (s1 & H1 & H2 & _).
  - exact two_files_proper.
  - exact Hm.
  - apply fd_cold_cold.
  - destruct (H2 1%nat (bytes_of_string "README") [bytes_of_string "xv6"] eq_refl) as (s2 & H3).
    exists m, s1, s2. split; [exact Hm | split; [exact H1 | exact H3]].
Defined.
